(* ===== verification/_CoqProject ===== *)
-Q . S2P
Prelude.v
Bytes.v
Device.v
Table.v
Utf16.v
Rules.v
Slots.v
Mbr.v
MbrCodec.v
Gpt.v
GptWrite.v
GptCodec.v
GptDisk.v
Probe.v
Sniff.v
Mutation.v
Hybrid.v
GptRoundTrip.v
MbrDisk.v
GptProps.v
MbrProps.v
Gf256.v
Utf8.v
Fmt.v
MdLayout.v
Md.v
MdRead.v
MdRows.v
MdStripe.v
MdZones.v
MdAssemble.v
MdArray.v
MdScan.v
MdEncode.v
MdProps.v
MutationPlan.v
MutationProbe.v
MutationCommit.v
MutationProps.v
LvmText.v
LvmParse.v
Thin.v
Lvm.v
ThinTree.v
LvmMap.v
LvmRead.v
LvmVolume.v
LvmScan.v
LvmProps.v
Container.v
Capi.v
CapiProps.v
