(* ===== verification/Prelude.v ===== *)
(** * Verification of the [disk_partitions] crate

    The crate reads and writes GPT and MBR partition tables, plans edits of
    them in memory, sniffs filesystems, and reads Linux md arrays and LVM2
    logical volumes; [capi] is its C interface.  Block devices are another
    crate's ([fs_core]): [Device.BlockRead] and [Device.BlockDevice] are its
    traits, [ReadLaws] and [DeviceLaws] what the crate relies on (whole buffers
    or a failure; a write changes the bytes written and no others).

    ** The parts, and the files that model them

    - src/lib.rs, src/error.rs, the records of src/probe.rs: [Table], [Device]
      ([Error], the device classes and the monad [DevM] that threads a device
      through code that writes), [Bytes] (buffers, [copy_from_slice],
      little-endian fields), [Utf16]; what the messages use of std::fmt: [Fmt].
    - src/gpt.rs: [Gpt] (the parser), [Rules] ([range_issues],
      [mark_overlaps]).  src/gpt_write.rs: [GptWrite], [Slots]
      ([assign_slots]).  [GptCodec]: what the writer lays down the reader reads
      back, field by field.  [GptDisk]: when [write_gpt] accepts a table and
      the five writes it makes.  [Hybrid]: what a rewrite keeps of LBA 0.
      [GptRoundTrip]: write, then probe.  Properties in [GptProps].
    - src/mbr.rs: [Mbr], [MbrCodec], [MbrDisk]; properties in [MbrProps].
    - src/probe.rs: [Probe].  src/sniff.rs: [Sniff].
    - src/mutation.rs: [Mutation] (the partition set and its edits);
      [MutationPlan] (first fit, and what each edit keeps), [MutationProbe]
      (a set read off a device), [MutationCommit] (what the planner accepts the
      writers accept; [session] is the step relation of edits and commits);
      properties in [MutationProps].
    - src/md.rs: [Gf256] (the tables and the field), [MdLayout] (rows, zones and
      copies), [Md] (superblocks, [scan], [assemble]), [MdRead] (every read
      path); [MdRows], [MdZones], [MdStripe] (the arithmetic and reading one
      chunk with members missing), [MdAssemble], [MdScan] (what assembly
      establishes), [MdArray] (an assembled array is a device), [MdEncode] (a
      reference encoder); properties in [MdProps].
    - src/lvm.rs: [LvmText] (the metadata grammar, with [Utf8]), [Lvm] (labels,
      areas, [from_metadata]), [LvmMap] ([scan], [Mapper], [read_runs],
      [LogicalVolume]); src/lvm/thin.rs: [Thin].  [LvmParse] (the parser ends;
      printing and parsing), [ThinTree] (btree lookup), [LvmRead] (trees of
      runs), [LvmVolume] (from metadata to bytes), [LvmScan]; properties in
      [LvmProps].
    - src/container.rs: [Container].  src/capi.rs: [Capi]; properties in
      [CapiProps].

    How they interact: [Probe.probe_inner] calls the parsers of [Gpt] and [Mbr];
    [Mutation.from_probe] starts a set from what it finds, and
    [Mutation.commit_mut] hands the set to the writers; [LvmMap.read_raid] calls
    [MdRead.read_chunk] with the images' runs as members; [Capi] calls the
    prober, the sniffer, [Md.assemble] and [LvmMap.open].

    ** How the code is rendered

    A w-bit integer is a [Z] with its wrap-around written out ([u64], [u32],
    [checked_add], ...; unchecked arithmetic wraps, as in a release build).
    Bytes are [Z]s from 0 to 255, texts lists of code points, [Result] a sum and
    [?] its bind.  A buffer that is filled is a list that is returned.  A panic
    is the error [Md.panicked], so a theorem that a read returns bytes also says
    that it does not panic.  Loops are structural where the code's are over a
    list, and carry fuel otherwise: [LvmText.parse_fuel] is more than twice the
    text's bytes and no two rounds go by without one being read
    ([metadata_parse_ends]); [runs_loop] and the array loops have a round per
    byte asked for and every round reads one; [Slots.skip_taken] has a round per
    slot; [thin.walk] has the source's own sixteen rounds, [LvmMap.map_lv] the
    source's three levels.  The call stack is modelled where the code recurses without a limit of its own, which is the
    metadata parser's [value]: [LvmText.parse_metadata_on] is given the room the
    stack has, and overflows where it runs out; [parse_metadata], which every
    other theorem is about, is the run that has room enough.  The other
    recursions are bounded by the code (sections 32 deep, volumes 3).

    ** What is proved

    - A session ([MutationProps]): every sequence of edits and commits, from an
      empty set or a probed disk, keeps the set sound; a set of real types whose
      preserved entries its writer takes is committed, and probing the disk
      returns it.  A set read off any disk is typed, and the space a removal
      frees can be used again.  Each edit does what it says and refuses only
      what it must; a commit that is refused leaves the device as it was.
    - Tables: the writers accept exactly the tables that fit, and make exactly
      the writes they should, outside every partition and every foreign entry;
      what was written reads back; the issue flags and the parsed header are
      exactly what the bytes say; CHS addresses are exact.
    - Arrays: an assembled array reads as the array its members hold, at every
      level and with as many members missing as the level allows; what the
      reference encoder stores reads back degraded; rows, zones and
      copies are placed without collision; the field is GF(2^8).
    - Volumes: a volume of striped segments reads the bytes its metadata names;
      trees of runs (mirrors, RAID images, thin pools) read exactly what they
      hold; the metadata parser ends on every text the call stack has room for,
      and inverts a printer; the newest metadata wins; scanning loses no device.
    - The C interface: slices lie in the usable range the table's own header
      declares, on the device and apart; "unknown" is said only of bytes that
      were read; handle, code and reason agree; which failures set a last-error
      message, and which NULL arguments do not ([failures_explained]).
    - Defects the model shows are theorems too: an MBR type of zero is lost
      ([mbr_type_zero_lost]), a dm-raid RAID6 layout nothing checks panics
      ([raid6_layout_unchecked]), metadata of nested lists overflows any stack
      ([metadata_parse_ends]).

    ** Not modelled

    Debug output and error sources, the message [fs_core]'s own [ffi_guard]
    keeps, memory and reference counts of the C handles
    ([partitions_list_free]), panics of a debug build on overflow, the size of a
    frame on the call stack, and the tests, fuzz targets and scripts.  The
    environment of the UUID generator (time, address, /dev/urandom) is the
    parameter [Mutation.Entropy]; CRC-32 is the class [Crc32], as the crate
    calls [crc32fast] for it, with a reference instance for the witnesses; the
    Unicode tables behind a text's [{:?}] are the class [Fmt.CharTables];
    CRC32C and the LVM checksum, which the crate computes itself, are
    definitions. *)
From stdpp Require Export sorting base tactics numbers strings pretty gmap option.
From Stdlib Require Export Lia.
From stdpp Require Export list_numbers list.

#[global] Open Scope Z_scope.

Create HintDb bytes.

(** [lia] over goals with a division or a remainder. *)
Ltac dlia := Z.to_euclidean_division_equations; lia.

(** ** Results

    Rust's [Result<A, E>], with the error type first so that [Result E] is a
    monad: stdpp's [x ← e ; k] is then the source's [let x = e?; k]. *)
Inductive Result (E A : Type) : Type :=
| Ok (a : A)
| Err (e : E).
Arguments Ok {E A} a.
Arguments Err {E A} e.

#[export] Instance Result_ret E : MRet (Result E) := fun A a => Ok a.
#[export] Instance Result_bind E : MBind (Result E) := fun A B f m =>
  match m with Ok a => f a | Err e => Err e end.
#[export] Instance Result_fmap E : FMap (Result E) := fun A B f m =>
  match m with Ok a => Ok (f a) | Err e => Err e end.

Definition is_ok {E A} (r : Result E A) : bool :=
  match r with Ok _ => true | Err _ => false end.

(** [Result::map_err]. *)
Definition map_err {E F A} (f : E → F) (r : Result E A) : Result F A :=
  match r with Ok a => Ok a | Err e => Err (f e) end.

(** [Option::ok_or]. *)
Definition ok_or {E A} (o : option A) (e : E) : Result E A :=
  match o with Some a => Ok a | None => Err e end.

(** [Result::ok]. *)
Definition ok {E A} (r : Result E A) : option A :=
  match r with Ok a => Some a | Err _ => None end.

(** An early [return Err(e)] under a condition. *)
Definition refuse_if {E} (b : bool) (e : E) : Result E unit :=
  if b then Err e else Ok tt.

Lemma bind_Ok {E A B} (m : Result E A) (f : A → Result E B) b :
  (m ≫= f) = Ok b ↔ ∃ a, m = Ok a ∧ f a = Ok b.
Proof. destruct m; cbn; naive_solver. Qed.

Lemma ok_or_Ok {E A} (o : option A) (e : E) a : ok_or o e = Ok a ↔ o = Some a.
Proof. destruct o; cbn; naive_solver. Qed.

Lemma refuse_if_Ok {E} b (e : E) u : refuse_if b e = Ok u ↔ b = false.
Proof. destruct b, u; cbn; naive_solver. Qed.

Lemma map_err_Ok {E F A} (f : E → F) (r : Result E A) a :
  map_err f r = Ok a ↔ r = Ok a.
Proof. destruct r; cbn; naive_solver. Qed.

(** A [for] loop that pushes at most one element per round and may leave
    the function with an error. *)
Fixpoint collectM {E A B} (f : A → Result E (option B)) (l : list A)
    : Result E (list B) :=
  match l with
  | [] => Ok []
  | x :: l => o ← f x; r ← collectM f l;
              Ok (match o with Some y => y :: r | None => r end)
  end.

(** A [for] loop over [l] carrying the state [b]. *)
Fixpoint foldM {E A B} (f : B → A → Result E B) (b : B) (l : list A)
    : Result E B :=
  match l with
  | [] => Ok b
  | x :: l => b' ← f b x; foldM f b' l
  end.

Lemma collectM_Ok {E A B} (f : A → Result E (option B)) l r :
  collectM f l = Ok r ↔
  ∃ os, Forall2 (λ x o, f x = Ok o) l os ∧ r = omap id os.
Proof.
  revert r; induction l as [|x l IH]; intros r; cbn.
  - split; [intros [= <-]; by exists []|].
    intros (os & H & ->). by inversion H.
  - rewrite bind_Ok. setoid_rewrite bind_Ok. setoid_rewrite IH. split.
    + intros (o & Ho & r' & (os & Hos & ->) & [= <-]).
      exists (o :: os). split; [by constructor|]. by destruct o.
    + intros (os & H & ->). inversion H as [|? o ? os' Ho Hos]; subst.
      exists o. split; [done|]. eexists; split; [by eexists|]. by destruct o.
Qed.

Lemma collectM_in {E A B} (f : A → Result E (option B)) l r y :
  collectM f l = Ok r → y ∈ r → ∃ x, x ∈ l ∧ f x = Ok (Some y).
Proof.
  intros (os & Hos & ->)%collectM_Ok (o & Ho & Hid)%list_elem_of_omap. cbn in Hid. subst o.
  apply list_elem_of_lookup in Ho as [i Hi]. destruct (Forall2_lookup_r _ _ _ _ _ Hos Hi) as (x & Hx & Hf).
  exists x. split; [by eapply list_elem_of_lookup_2|done].
Qed.

(** What every round keeps holds at the end. *)
Lemma foldM_keeps {E A B} (f : B → A → Result E B) (P : B → Prop) l b b' :
  (∀ b x b', x ∈ l → P b → f b x = Ok b' → P b') → P b → foldM f b l = Ok b' → P b'.
Proof.
  revert b; induction l as [|x l IH]; intros b Hf Hb; cbn; [by intros [= <-]|].
  destruct (f b x) as [b1|] eqn:E1; cbn; [|done]. apply IH; [|by apply (Hf b x); [set_solver|..]].
  intros b2 y b3 Hy. apply Hf. set_solver.
Qed.

Lemma foldM_app {E A B} (f : B → A → Result E B) b l k :
  foldM f b (l ++ k) = (b' ← foldM f b l; foldM f b' k).
Proof.
  revert b; induction l as [|x l IH]; intros b; cbn; [done|].
  destruct (f b x); cbn; auto.
Qed.

(** ** Machine integers

    A [u64] is a [Z] in [0, 2^64).  Arithmetic the source leaves unchecked
    is written with its wrap-around; checked arithmetic returns an option.
    The crate ships with overflow checks off, so the wrapped value is what a
    release build computes. *)
Definition U64 : Z := 2 ^ 64.
Definition U32 : Z := 2 ^ 32.
Definition u64 (z : Z) : Z := z mod 2 ^ 64.
Definition u32 (z : Z) : Z := z mod 2 ^ 32.
Definition u8 (z : Z) : Z := z mod 2 ^ 8.

Definition is_u64 (z : Z) : Prop := 0 ≤ z < 2 ^ 64.
Definition is_u32 (z : Z) : Prop := 0 ≤ z < 2 ^ 32.
Definition is_u8 (z : Z) : Prop := 0 ≤ z < 2 ^ 8.

#[export] Instance is_u64_dec z : Decision (is_u64 z).
Proof. unfold is_u64. apply _. Defined.
#[export] Instance is_u8_dec z : Decision (is_u8 z).
Proof. unfold is_u8. apply _. Defined.

Definition checked_add (a b : Z) : option Z :=
  if a + b <? 2 ^ 64 then Some (a + b) else None.
Definition checked_mul (a b : Z) : option Z :=
  if a * b <? 2 ^ 64 then Some (a * b) else None.
Definition checked_sub (a b : Z) : option Z :=
  if b <=? a then Some (a - b) else None.
Definition saturating_add (a b : Z) : Z := Z.min (a + b) (2 ^ 64 - 1).
Definition saturating_sub (a b : Z) : Z := Z.max (a - b) 0.
Definition div_ceil (a b : Z) : Z :=
  if a mod b =? 0 then a / b else a / b + 1.
Definition is_multiple_of (a b : Z) : bool := a mod b =? 0.
(** [u32::is_power_of_two]. *)
Definition is_power_of_two (a : Z) : bool :=
  (0 <? a) && (Z.land a (a - 1) =? 0).

Lemma u64_small z : 0 ≤ z < 2 ^ 64 → u64 z = z.
Proof. apply Z.mod_small. Qed.
Lemma u32_small z : 0 ≤ z < 2 ^ 32 → u32 z = z.
Proof. apply Z.mod_small. Qed.
Lemma u8_small z : 0 ≤ z < 2 ^ 8 → u8 z = z.
Proof. apply Z.mod_small. Qed.

Lemma checked_add_Some a b c : checked_add a b = Some c ↔ c = a + b ∧ a + b < 2 ^ 64.
Proof. unfold checked_add. destruct (Z.ltb_spec (a + b) (2 ^ 64)); naive_solver lia. Qed.
Lemma checked_mul_Some a b c : checked_mul a b = Some c ↔ c = a * b ∧ a * b < 2 ^ 64.
Proof. unfold checked_mul. destruct (Z.ltb_spec (a * b) (2 ^ 64)); naive_solver lia. Qed.
Lemma checked_sub_Some a b c : checked_sub a b = Some c ↔ c = a - b ∧ b ≤ a.
Proof. unfold checked_sub. destruct (Z.leb_spec b a); naive_solver lia. Qed.

Lemma checked_add_ok a b : a + b < 2 ^ 64 → checked_add a b = Some (a + b).
Proof. intros. by apply checked_add_Some. Qed.
Lemma checked_mul_ok a b : a * b < 2 ^ 64 → checked_mul a b = Some (a * b).
Proof. intros. by apply checked_mul_Some. Qed.
Lemma checked_sub_ok a b : b ≤ a → checked_sub a b = Some (a - b).
Proof. intros. by apply checked_sub_Some. Qed.

Lemma div_ceil_spec a b : 0 < b → 0 ≤ a →
  a ≤ b * div_ceil a b ∧ b * div_ceil a b < a + b.
Proof.
  intros Hb Ha. unfold div_ceil.
  pose proof (Z.div_mod a b). pose proof (Z.mod_pos_bound a b Hb).
  destruct (Z.eqb_spec (a mod b) 0); lia.
Qed.

Lemma is_multiple_of_spec a b : 0 < b →
  is_multiple_of a b = true ↔ a = b * (a / b).
Proof.
  intros Hb. unfold is_multiple_of. rewrite Z.eqb_eq.
  pose proof (Z.div_mod a b). lia.
Qed.

(** ** Sorting

    [slice::sort_by_key] is stable, so a stable insertion sort is the same
    function; [leb x y] says that [x] may stand before [y]. *)
Section sort_by.
Context {A : Type} (leb : A → A → bool).

Fixpoint insert_by (x : A) (l : list A) : list A :=
  match l with
  | [] => [x]
  | y :: l => if leb x y then x :: y :: l else y :: insert_by x l
  end.

Definition sort_by (l : list A) : list A := foldr insert_by [] l.

Lemma insert_by_perm x l : insert_by x l ≡ₚ x :: l.
Proof.
  induction l as [|y l IH]; cbn; [done|].
  destruct (leb x y); [done|]. rewrite IH. constructor.
Qed.

Lemma sort_by_perm l : sort_by l ≡ₚ l.
Proof. induction l as [|x l IH]; cbn; [done|]. by rewrite insert_by_perm, IH. Qed.

Context (leb_total : ∀ x y, leb x y = true ∨ leb y x = true)
        (leb_trans : ∀ x y z, leb x y = true → leb y z = true → leb x z = true).

Definition sorted_by : list A → Prop := StronglySorted (λ x y, leb x y = true).

Lemma insert_by_sorted x l : sorted_by l → sorted_by (insert_by x l).
Proof.
  unfold sorted_by. induction 1 as [|y l Hl IH Hy]; cbn; [repeat constructor|].
  destruct (leb x y) eqn:E.
  - constructor; [by constructor|]. constructor; [done|].
    eapply Forall_impl; [exact Hy|]. eauto.
  - constructor; [done|].
    assert (leb y x = true) by (destruct (leb_total x y); congruence).
    rewrite insert_by_perm. by constructor.
Qed.

Lemma sort_by_sorted l : sorted_by (sort_by l).
Proof. induction l; cbn; [constructor|by apply insert_by_sorted]. Qed.
End sort_by.

(** [<] on pairs, as [sort_unstable] orders them. *)
Definition pair_leb (a b : Z * Z) : bool :=
  (a.1 <? b.1) || ((a.1 =? b.1) && (a.2 <=? b.2)).

Lemma pair_leb_total a b : pair_leb a b = true ∨ pair_leb b a = true.
Proof. unfold pair_leb. lia. Qed.
Lemma pair_leb_trans a b c :
  pair_leb a b = true → pair_leb b c = true → pair_leb a c = true.
Proof. unfold pair_leb. lia. Qed.
Lemma pair_leb_fst a b : pair_leb a b = true → a.1 ≤ b.1.
Proof. unfold pair_leb. lia. Qed.

(** ** Automation *)

(** Take a successful monadic computation apart into the successes of its
    steps. *)
Ltac inv_ok :=
  repeat match goal with
  | H : (_ ≫= _) = Ok _ |- _ =>
      apply bind_Ok in H; let x := fresh "x" in let Hx := fresh "Hx" in
      destruct H as (x & Hx & H); cbn beta in H
  | H : mbind _ _ = Ok _ |- _ =>
      apply bind_Ok in H; let x := fresh "x" in let Hx := fresh "Hx" in
      destruct H as (x & Hx & H); cbn beta in H
  | H : refuse_if _ _ = Ok _ |- _ => apply refuse_if_Ok in H
  | H : ok_or _ _ = Ok _ |- _ => apply ok_or_Ok in H
  | H : map_err _ _ = Ok _ |- _ => apply map_err_Ok in H
  | H : checked_add _ _ = Some _ |- _ => apply checked_add_Some in H as [? ?]
  | H : checked_mul _ _ = Some _ |- _ => apply checked_mul_Some in H as [? ?]
  | H : checked_sub _ _ = Some _ |- _ => apply checked_sub_Some in H as [? ?]
  | H : Ok _ = Ok _ |- _ => injection H as H
  | H : Err _ = Ok _ |- _ => discriminate H
  | H : Ok _ = Err _ |- _ => discriminate H
  | x : unit |- _ => destruct x
  | H : negb _ = false |- _ => apply negb_false_iff in H
  | H : negb _ = true |- _ => apply negb_true_iff in H
  | H : _ || _ = false |- _ => apply orb_false_iff in H as [? ?]
  | H : _ && _ = true |- _ => apply andb_true_iff in H as [? ?]
  end.

(** Boolean comparisons on [Z] as propositions. *)
Ltac zbool :=
  repeat match goal with
  | H : (_ =? _)%Z = true |- _ => apply Z.eqb_eq in H
  | H : (_ =? _)%Z = false |- _ => apply Z.eqb_neq in H
  | H : (_ <? _)%Z = true |- _ => apply Z.ltb_lt in H
  | H : (_ <? _)%Z = false |- _ => apply Z.ltb_ge in H
  | H : (_ <=? _)%Z = true |- _ => apply Z.leb_le in H
  | H : (_ <=? _)%Z = false |- _ => apply Z.leb_gt in H
  end.

Lemma refuse_no {E B} b (e : E) (f : unit → Result E B) :
  b = false → (refuse_if b e ≫= f) = f tt.
Proof. by intros ->. Qed.

Lemma refuse_yes {E B} b (e : E) (f : unit → Result E B) :
  b = true → (refuse_if b e ≫= f) = Err e.
Proof. by intros ->. Qed.

(** ** Powers of two *)
Lemma is_power_of_two_spec a : is_power_of_two a = true → ∃ k, 0 ≤ k ∧ a = 2 ^ k.
Proof.
  unfold is_power_of_two. intros [Hp%Z.ltb_lt Hl%Z.eqb_eq]%andb_true_iff.
  exists (Z.log2 a). split; [apply Z.log2_nonneg|].
  pose proof (Z.log2_spec a Hp) as [Hlo Hhi].
  destruct (Z.eq_dec a (2 ^ Z.log2 a)) as [|Hne]; [done|exfalso].
  assert (Z.log2 (a - 1) = Z.log2 a) as E.
  { apply Z.log2_unique; [apply Z.log2_nonneg|]. lia. }
  assert (0 < a - 1) as Hp'.
  { destruct (decide (a = 1)) as [->|]; [by elim Hne|lia]. }
  assert (Z.testbit (Z.land a (a - 1)) (Z.log2 a) = true) as Hbit.
  { rewrite Z.land_spec, Z.bit_log2 by done. by rewrite <- E, Z.bit_log2. }
  rewrite Hl, Z.testbit_0_l in Hbit. done.
Qed.

(** ** Tables read slot by slot *)

Lemma collectM_pure {E A B} (f : A → Result E (option B)) h l :
  (∀ x, x ∈ l → f x = Ok (h x)) → collectM f l = Ok (omap h l).
Proof.
  induction l as [|x l IH]; intros Hf; cbn [collectM]; [done|].
  rewrite Hf by set_solver. cbn [mbind Result_bind]. rewrite IH by set_solver. done.
Qed.

(** Reading the slots of a table in order finds what the slots in use hold. *)
Lemma omap_seqZ_perm {B} (h : Z → option B) n slots :
  NoDup slots → Forall (λ s, 0 ≤ s < n) slots →
  (∀ i, 0 ≤ i < n → i ∉ slots → h i = None) →
  omap h (seqZ 0 n) ≡ₚ omap h slots.
Proof.
  intros Hnd Hr Hn.
  assert (slots ⊆+ seqZ 0 n) as [rest Hrest]%submseteq_Permutation.
  { apply NoDup_submseteq; [done|]. intros x Hx. apply elem_of_seqZ.
    eapply list.Forall_forall in Hr; [|done]. lia. }
  assert (omap h rest = []) as Hz.
  { assert (∀ x, x ∈ rest → h x = None) as H.
    { intros x Hx. assert (NoDup (slots ++ rest)) as (_ & Hd & _)%NoDup_app
        by (rewrite <- Hrest; apply NoDup_seqZ).
      assert (x ∈ seqZ 0 n) as Hin%elem_of_seqZ by (rewrite Hrest; set_solver).
      apply Hn; [lia|]. intros Hx'. by apply (Hd x). }
    clear Hrest. induction rest as [|x rest IH]; cbn; [done|].
    rewrite H by set_solver. apply IH. set_solver. }
  by rewrite Hrest, omap_app, Hz, app_nil_r.
Qed.

Lemma omap_seqZ_sorted {B} (h : Z → option B) (key : B → Z) a n :
  (∀ i y, h i = Some y → key y = i) →
  StronglySorted (λ x y, key x < key y) (omap h (seqZ a n)).
Proof.
  intros Hk. destruct (decide (n < 0)) as [Hn|Hn%Z.nlt_ge].
  { unfold seqZ. replace (Z.to_nat n) with O by lia. constructor. }
  revert a; revert n Hn. refine (natlike_ind _ _ _); [constructor|]. intros n Hn IH a.
  rewrite seqZ_cons by lia. rewrite Z.pred_succ. cbn.
  destruct (h a) as [y|] eqn:E; [|apply IH].
  constructor; [apply IH|]. apply list.Forall_forall. intros z (i & Hi & Hz)%list_elem_of_omap.
  apply elem_of_seqZ in Hi. apply Hk in E, Hz. lia.
Qed.

Lemma omap_Forall2 {A B C} (h : A → option B) (f : C → A → B) cs l :
  Forall2 (λ c x, h x = Some (f c x)) cs l → omap h l = zip_with f cs l.
Proof. induction 1 as [|c x cs l Hx _ IH]; cbn; [done|]. by rewrite Hx, IH. Qed.

(** A loop that keeps every element or fails. *)
Lemma collectM_all {E A B} (f : A → Result E (option B)) (P : A → Prop) (h : A → B) l :
  (∀ x, x ∈ l → match f x with Ok o => P x ∧ o = Some (h x) | Err _ => ¬ P x end) →
  match collectM f l with Ok r => Forall P l ∧ r = map h l | Err _ => ¬ Forall P l end.
Proof.
  induction l as [|x l IH]; intros Hf; cbn [collectM]; [by split|].
  pose proof (Hf x ltac:(set_solver)) as Hx.
  destruct (f x) as [o|]; cbn [mbind Result_bind]; [|rewrite Forall_cons; naive_solver].
  destruct Hx as [Hx ->]. specialize (IH ltac:(set_solver)).
  destruct (collectM f l) as [r|]; cbn [mbind Result_bind]; [|rewrite Forall_cons; naive_solver].
  destruct IH as [Hl ->]. by split; [constructor|].
Qed.

Lemma Forall_in {A} (P : A → Prop) l x : Forall P l → x ∈ l → P x.
Proof. intros Hl Hx. by eapply list.Forall_forall in Hl. Qed.

Lemma filter_omap {A B} (f : A → option B) (b : B → bool) l :
  List.filter b (omap f l) =
  omap (λ x, match f x with Some y => if b y then Some y else None | None => None end) l.
Proof.
  induction l as [|x l IH]; cbn; [done|]. destruct (f x) as [y|]; cbn; [|done].
  rewrite IH. by destruct (b y).
Qed.

Lemma outcome {A B} (x : A * B) b : x.2 = b → x = (x.1, b).
Proof. by destruct x; intros <-. Qed.

(** Sortedness depends on the keys only. *)
Lemma sorted_keys {A} (f : A → Z) l :
  StronglySorted (λ x y, f x < f y) l ↔ StronglySorted Z.lt (map f l).
Proof.
  induction l as [|x l IH]; cbn; [split; constructor|].
  rewrite !StronglySorted_cons, IH, Forall_map. done.
Qed.

Lemma sorted_lt_NoDup l : StronglySorted Z.lt l → NoDup l.
Proof.
  induction 1 as [|x l _ IH Hx]; constructor; [|done].
  intros Hin. pose proof (Forall_in _ _ _ Hx Hin). lia.
Qed.

Lemma omap_none {A B} (f : A → option B) l : (∀ x, x ∈ l → f x = None) → omap f l = [].
Proof. induction l as [|x l IH]; intros Hf; cbn; [done|]. rewrite Hf by set_solver. apply IH. set_solver. Qed.
