(* ===== verification/Bytes.v ===== *)
(** * Byte buffers: slices, [copy_from_slice], little-endian fields

    A [&[u8]] is a [list Z] whose elements lie in [0, 256).  [bslice b x y] is
    [&b[x..y]], [bput b x s] is [b[x..x + s.len()].copy_from_slice(s)], and
    [le_val]/[le_bytes] are [uN::from_le_bytes] and [uN::to_le_bytes]. *)
From S2P Require Import Prelude.

Definition zlen {A} (l : list A) : Z := Z.of_nat (length l).

(** Every element is a byte. *)
Definition bytes_ok (l : list Z) : Prop := Forall is_u8 l.

(** [b[i]]. *)
Definition byte_at (l : list Z) (i : Z) : Z := default 0 (l !! Z.to_nat i).

(** [&b[a..b]]. *)
Definition bslice (l : list Z) (a b : Z) : list Z :=
  take (Z.to_nat (b - a)) (drop (Z.to_nat a) l).

(** [l[a..a + bs.len()].copy_from_slice(bs)]. *)
Definition bput (l : list Z) (a : Z) (bs : list Z) : list Z :=
  take (Z.to_nat a) l ++ bs ++ drop (Z.to_nat a + length bs) l.

(** [[0u8; n]] and [vec![0u8; n]]. *)
Definition zeros (n : Z) : list Z := replicate (Z.to_nat n) 0.

(** [l[a..b].fill(0)]. *)
Definition bzero (l : list Z) (a b : Z) : list Z := bput l a (zeros (b - a)).

Fixpoint le_val (bs : list Z) : Z :=
  match bs with [] => 0 | b :: bs => b + 256 * le_val bs end.

Fixpoint le_bytes (n : nat) (z : Z) : list Z :=
  match n with O => [] | S n => z mod 256 :: le_bytes n (z / 256) end.

(** The [uN] at byte offset [at]. *)
Definition le16 (b : list Z) (off : Z) : Z := le_val (bslice b off (off + 2)).
Definition le32 (b : list Z) (off : Z) : Z := le_val (bslice b off (off + 4)).
Definition le64 (b : list Z) (off : Z) : Z := le_val (bslice b off (off + 8)).

(** The bytes of an ASCII literal. *)
Definition ascii_bytes (s : string) : list Z :=
  map (λ c, Z.of_N (Ascii.N_of_ascii c)) (String.list_ascii_of_string s).

Definition bytes_eqb (a b : list Z) : bool := bool_decide (a = b).

(** ** Lengths *)
Lemma zlen_nonneg {A} (l : list A) : 0 ≤ zlen l.
Proof. unfold zlen; lia. Qed.
Lemma zlen_app {A} (l k : list A) : zlen (l ++ k) = zlen l + zlen k.
Proof. unfold zlen; rewrite length_app; lia. Qed.
Lemma zlen_zeros n : 0 ≤ n → zlen (zeros n) = n.
Proof. intros; unfold zlen, zeros; rewrite length_replicate; lia. Qed.
Lemma zlen_le_bytes n z : zlen (le_bytes n z) = Z.of_nat n.
Proof.
  unfold zlen; f_equal. revert z; induction n; intros; cbn; [done|].
  by rewrite IHn.
Qed.
Lemma length_le_bytes n z : length (le_bytes n z) = n.
Proof. pose proof (zlen_le_bytes n z); unfold zlen in *; lia. Qed.
Lemma zlen_bslice l a b : 0 ≤ a → a ≤ b → b ≤ zlen l → zlen (bslice l a b) = b - a.
Proof. intros; unfold zlen, bslice in *; rewrite length_take, length_drop; lia. Qed.
Lemma zlen_bput l a bs : 0 ≤ a → a + zlen bs ≤ zlen l → zlen (bput l a bs) = zlen l.
Proof.
  intros; unfold zlen, bput in *.
  rewrite !length_app, length_take, length_drop; lia.
Qed.

(** ** Slices, pointwise *)
Lemma lookup_bslice l a b (i : nat) : 0 ≤ a →
  bslice l a b !! i = if decide (Z.of_nat i < b - a) then l !! (Z.to_nat a + i)%nat else None.
Proof.
  intros Ha; unfold bslice. case_decide.
  - rewrite lookup_take_lt by lia. by rewrite lookup_drop.
  - by rewrite lookup_take_ge by lia.
Qed.

Lemma lookup_bput l a bs (i : nat) : 0 ≤ a → a + zlen bs ≤ zlen l →
  bput l a bs !! i =
  if decide (a ≤ Z.of_nat i < a + zlen bs) then bs !! Z.to_nat (Z.of_nat i - a)
  else l !! i.
Proof.
  intros Ha Hl; unfold bput, zlen in *.
  assert (length (take (Z.to_nat a) l) = Z.to_nat a) as Ht by (rewrite length_take; lia).
  case_decide.
  - rewrite lookup_app_r by lia. rewrite Ht, lookup_app_l by lia. f_equal; lia.
  - destruct (decide (Z.of_nat i < a)).
    + rewrite lookup_app_l by lia. by rewrite lookup_take_lt by lia.
    + rewrite lookup_app_r by lia. rewrite lookup_app_r by lia.
      rewrite lookup_drop. f_equal; lia.
Qed.

Lemma bslice_bput_same l a bs b : 0 ≤ a → a + zlen bs ≤ zlen l → b = a + zlen bs →
  bslice (bput l a bs) a b = bs.
Proof.
  intros Ha Hl ->. apply list_eq; intros i. rewrite lookup_bslice by lia.
  case_decide; rewrite ?lookup_bput by lia.
  - rewrite decide_True by lia. f_equal; lia.
  - symmetry; apply lookup_ge_None; unfold zlen in *; lia.
Qed.

Lemma bslice_bput_other l a bs x y : 0 ≤ a → a + zlen bs ≤ zlen l → 0 ≤ x →
  y ≤ a ∨ a + zlen bs ≤ x →
  bslice (bput l a bs) x y = bslice l x y.
Proof.
  intros Ha Hl Hx Hd. apply list_eq; intros i. rewrite !lookup_bslice by lia.
  case_decide; [|done]. rewrite lookup_bput by lia. by rewrite decide_False by lia.
Qed.

Lemma bslice_bput_inside l a bs x y : 0 ≤ a → a + zlen bs ≤ zlen l →
  a ≤ x → y ≤ a + zlen bs →
  bslice (bput l a bs) x y = bslice bs (x - a) (y - a).
Proof.
  intros Ha Hl Hx Hy. apply list_eq; intros i. rewrite !lookup_bslice by lia.
  replace (y - a - (x - a)) with (y - x) by lia.
  case_decide; [|done]. rewrite lookup_bput by lia. rewrite decide_True by lia.
  f_equal; lia.
Qed.

Lemma bslice_bslice l a b x y : 0 ≤ a → 0 ≤ x → y ≤ b - a →
  bslice (bslice l a b) x y = bslice l (a + x) (a + y).
Proof.
  intros. apply list_eq; intros i. rewrite !lookup_bslice by lia.
  replace (a + y - (a + x)) with (y - x) by lia.
  case_decide; [|done]. rewrite decide_True by lia. f_equal; lia.
Qed.

Lemma bslice_full l b : b = zlen l → bslice l 0 b = l.
Proof.
  intros ->. unfold bslice, zlen. change (Z.to_nat 0) with O. rewrite drop_0.
  apply take_ge; lia.
Qed.

Lemma bslice_empty l a b : b ≤ a → bslice l a b = [].
Proof. intros; unfold bslice. by replace (Z.to_nat (b - a)) with O by lia. Qed.

Lemma bslice_app l a m b : 0 ≤ a → a ≤ m → m ≤ b → b ≤ zlen l →
  bslice l a b = bslice l a m ++ bslice l m b.
Proof.
  intros. apply list_eq; intros i.
  pose proof (zlen_bslice l a m ltac:(lia) ltac:(lia) ltac:(lia)) as Hz; unfold zlen in Hz.
  destruct (decide (Z.of_nat i < m - a)).
  - rewrite lookup_app_l by lia. rewrite !lookup_bslice by lia.
    by rewrite !decide_True by lia.
  - rewrite lookup_app_r by lia. rewrite !lookup_bslice by lia.
    repeat case_decide; try lia; [|done]. f_equal; lia.
Qed.

Lemma bslice_zeros n a b : 0 ≤ a → a ≤ b → b ≤ n → bslice (zeros n) a b = zeros (b - a).
Proof.
  intros. unfold bslice, zeros. rewrite drop_replicate, take_replicate. f_equal; lia.
Qed.

Lemma bput_full l bs : zlen bs = zlen l → bput l 0 bs = bs.
Proof.
  intros H. unfold bput, zlen in *. change (Z.to_nat 0) with O. cbn.
  rewrite drop_ge by lia. apply app_nil_r.
Qed.

(** ** Little-endian integers *)
Lemma le_val_bound bs : bytes_ok bs → 0 ≤ le_val bs < 2 ^ (8 * zlen bs).
Proof.
  unfold zlen, bytes_ok, is_u8.
  induction 1 as [|b bs Hb _ IH]; cbn [le_val length]; [lia|].
  rewrite Nat2Z.inj_succ, Z.mul_succ_r, Z.pow_add_r by lia. lia.
Qed.

Lemma le_val_le_bytes n z : 0 ≤ z < 2 ^ (8 * Z.of_nat n) → le_val (le_bytes n z) = z.
Proof.
  revert z; induction n as [|n IH]; intros z Hz; cbn [le_val le_bytes].
  { change (2 ^ (8 * Z.of_nat 0)) with 1 in Hz. lia. }
  rewrite Nat2Z.inj_succ, Z.mul_succ_r, Z.pow_add_r in Hz by lia.
  change (2 ^ 8) with 256 in Hz.
  rewrite IH by dlia. dlia.
Qed.

Lemma le_bytes_ok n z : bytes_ok (le_bytes n z).
Proof.
  revert z; induction n as [|n IH]; intros z; cbn; constructor; [|apply IH].
  unfold is_u8. apply Z.mod_pos_bound; lia.
Qed.

Lemma le_bytes_le_val bs : bytes_ok bs → le_bytes (length bs) (le_val bs) = bs.
Proof.
  unfold bytes_ok, is_u8. induction 1 as [|b bs Hb _ IH]; cbn [le_val le_bytes length]; [done|].
  assert ((b + 256 * le_val bs) mod 256 = b ∧ (b + 256 * le_val bs) / 256 = le_val bs)
    as [-> ->] by dlia.
  by rewrite IH.
Qed.

Lemma bytes_ok_bslice l a b : bytes_ok l → bytes_ok (bslice l a b).
Proof. intros. by apply Forall_take, Forall_drop. Qed.
Lemma bytes_ok_zeros n : bytes_ok (zeros n).
Proof. apply Forall_replicate. unfold is_u8; lia. Qed.
Lemma bytes_ok_app l k : bytes_ok l → bytes_ok k → bytes_ok (l ++ k).
Proof. intros; by apply Forall_app_2. Qed.
Lemma bytes_ok_bput l a bs : bytes_ok l → bytes_ok bs → bytes_ok (bput l a bs).
Proof.
  intros. apply bytes_ok_app; [by apply Forall_take|].
  apply bytes_ok_app; [done|by apply Forall_drop].
Qed.

Lemma byte_at_is_u8 l i : bytes_ok l → is_u8 (byte_at l i).
Proof.
  intros Hl. unfold byte_at. destruct (l !! _) eqn:E; cbn.
  - eapply (Forall_lookup_1 is_u8); eauto.
  - unfold is_u8; lia.
Qed.

Lemma le_field_bound l a n : bytes_ok l → 0 ≤ a → 0 ≤ n → a + n ≤ zlen l →
  0 ≤ le_val (bslice l a (a + n)) < 2 ^ (8 * n).
Proof.
  intros. pose proof (le_val_bound (bslice l a (a + n))) as B.
  rewrite zlen_bslice in B by lia. replace (a + n - a) with n in B by lia.
  apply B, bytes_ok_bslice, H.
Qed.

Lemma le32_bound l a : bytes_ok l → 0 ≤ a → a + 4 ≤ zlen l → is_u32 (le32 l a).
Proof. intros. by apply (le_field_bound l a 4). Qed.
Lemma le64_bound l a : bytes_ok l → 0 ≤ a → a + 8 ≤ zlen l → is_u64 (le64 l a).
Proof. intros. by apply (le_field_bound l a 8). Qed.
Lemma le16_bound l a : bytes_ok l → 0 ≤ a → a + 2 ≤ zlen l → 0 ≤ le16 l a < 2 ^ 16.
Proof. intros. by apply (le_field_bound l a 2). Qed.

(** Single bytes through slices. *)
Lemma byte_at_bslice l a b i : 0 ≤ a → 0 ≤ i → i < b - a →
  byte_at (bslice l a b) i = byte_at l (a + i).
Proof.
  intros. unfold byte_at. rewrite lookup_bslice by lia.
  rewrite decide_True by lia. by replace (Z.to_nat a + Z.to_nat i)%nat with (Z.to_nat (a + i)) by lia.
Qed.

Lemma byte_at_bput l a bs i : 0 ≤ a → a + zlen bs ≤ zlen l → 0 ≤ i →
  byte_at (bput l a bs) i =
  if decide (a ≤ i < a + zlen bs) then byte_at bs (i - a) else byte_at l i.
Proof.
  intros. unfold byte_at. rewrite lookup_bput by lia.
  rewrite Z2Nat.id by lia. by case_decide.
Qed.

#[export] Hint Resolve bytes_ok_bslice bytes_ok_zeros bytes_ok_bput bytes_ok_app
  le_bytes_ok zlen_nonneg : bytes.

(** ** A buffer built field by field

    [puts h fs] writes the fields [(offset, length, bytes)] in order;
    [field_at] says what a range of the result holds without looking at the
    bytes, so it computes on symbolic contents. *)
Definition puts (h : list Z) (fs : list (Z * Z * list Z)) : list Z :=
  foldl (λ h '(a, n, bs), bput h a bs) h fs.

Definition field_fits (N : Z) (f : Z * Z * list Z) : Prop :=
  let '(a, n, bs) := f in 0 ≤ a ∧ 0 ≤ n ∧ a + n ≤ N ∧ zlen bs = n.
Definition fits (N : Z) (fs : list (Z * Z * list Z)) : Prop := Forall (field_fits N) fs.

Inductive found := Found (bs : list Z) | Untouched | Mixed.

Fixpoint field_at (fs : list (Z * Z * list Z)) (x y : Z) : found :=
  match fs with
  | [] => Untouched
  | (a, n, bs) :: fs =>
      match field_at fs x y with
      | Untouched =>
          if (y <=? a) || (a + n <=? x) then Untouched
          else if (a =? x) && (a + n =? y) then Found bs else Mixed
      | r => r
      end
  end.

Lemma puts_zlen h fs : fits (zlen h) fs → zlen (puts h fs) = zlen h.
Proof.
  revert h; induction fs as [|[[a n] bs] fs IH]; intros h Hf; cbn; [done|].
  apply Forall_cons in Hf as [(?&?&?&?) Hf].
  assert (zlen (bput h a bs) = zlen h) as E by (apply zlen_bput; lia).
  fold (puts (bput h a bs) fs). rewrite IH; by rewrite E.
Qed.

Lemma puts_bytes_ok h fs : bytes_ok h → Forall (λ f, bytes_ok f.2) fs → bytes_ok (puts h fs).
Proof.
  intros Hh Hf; revert h Hh; induction Hf as [|[[a n] bs] fs Hb _ IH]; intros h Hh; cbn; [done|].
  apply IH. by apply bytes_ok_bput.
Qed.

Lemma puts_field h fs x y : fits (zlen h) fs → 0 ≤ x →
  match field_at fs x y with
  | Found bs => bslice (puts h fs) x y = bs
  | Untouched => bslice (puts h fs) x y = bslice h x y
  | Mixed => True
  end.
Proof.
  intros Hf Hx; revert h Hf; induction fs as [|[[a n] bs] fs IH]; intros h Hf; [done|].
  apply Forall_cons in Hf as [(?&?&?&?) Hf].
  assert (zlen (bput h a bs) = zlen h) as E by (apply zlen_bput; lia).
  specialize (IH (bput h a bs) ltac:(by rewrite E)).
  cbn [field_at]. change (puts h ((a, n, bs) :: fs)) with (puts (bput h a bs) fs).
  destruct (field_at fs x y); [done| |done].
  destruct ((y <=? a) || (a + n <=? x)) eqn:Eo.
  - rewrite IH. apply bslice_bput_other; lia.
  - destruct ((a =? x) && (a + n =? y)) eqn:Es; [|done].
    rewrite IH. assert (a = x) as <- by lia. apply bslice_bput_same; lia.
Qed.

(** A write inside a window, seen through the window. *)
Lemma bslice_bput_window l o n k bs : 0 ≤ o → 0 ≤ k → k + zlen bs ≤ n → o + n ≤ zlen l →
  bslice (bput l (o + k) bs) o (o + n) = bput (bslice l o (o + n)) k bs.
Proof.
  intros. pose proof (zlen_nonneg bs). apply list_eq; intros i.
  rewrite lookup_bslice by lia. rewrite !lookup_bput by (rewrite ?zlen_bslice; lia).
  rewrite lookup_bslice by lia. repeat case_decide; try lia; f_equal; lia.
Qed.

Lemma puts_window l o n fs : 0 ≤ o → o + n ≤ zlen l → fits n fs →
  bslice (puts l (map (λ '(a, m, bs), (o + a, m, bs)) fs)) o (o + n)
  = puts (bslice l o (o + n)) fs.
Proof.
  intros Ho Hl Hf; revert l Hl; induction Hf as [|[[a m] bs] fs (?&?&?&?) Hf IH]; intros l Hl; cbn; [done|].
  fold (puts (bput l (o + a) bs) (map (λ '(a, m, bs), (o + a, m, bs)) fs)).
  rewrite IH by (rewrite zlen_bput; lia). rewrite bslice_bput_window by lia. done.
Qed.

(** Putting back what a write covered. *)
Lemma bput_undo l a bs n : 0 ≤ a → a + zlen bs ≤ n → n ≤ zlen l →
  bput (bslice (bput l a bs) 0 n) a (bslice l a (a + zlen bs)) = bslice l 0 n.
Proof.
  intros. pose proof (zlen_nonneg bs). apply list_eq; intros i.
  assert (zlen (bput l a bs) = zlen l) by (apply zlen_bput; lia).
  assert (zlen (bslice l a (a + zlen bs)) = zlen bs) as El by (rewrite zlen_bslice; lia).
  rewrite lookup_bput by (rewrite ?zlen_bslice; lia). rewrite El.
  rewrite !lookup_bslice by lia. rewrite lookup_bput by lia.
  repeat case_decide; try lia; f_equal; lia.
Qed.

(** Fields of a [puts], by kind. *)
Lemma bslice_field h fs x y bs : fits (zlen h) fs → 0 ≤ x →
  field_at fs x y = Found bs → bslice (puts h fs) x y = bs.
Proof. intros Hf Hx E. pose proof (puts_field h fs x y Hf Hx) as Hp. by rewrite E in Hp. Qed.

Lemma bslice_blank h fs x y : fits (zlen h) fs → 0 ≤ x →
  field_at fs x y = Untouched → bslice (puts h fs) x y = bslice h x y.
Proof. intros Hf Hx E. pose proof (puts_field h fs x y Hf Hx) as Hp. by rewrite E in Hp. Qed.

Lemma le32_field h fs x z : fits (zlen h) fs → 0 ≤ x → is_u32 z →
  field_at fs x (x + 4) = Found (le_bytes 4 z) → le32 (puts h fs) x = z.
Proof.
  intros Hf Hx Hz E. unfold le32. erewrite bslice_field by done. by apply le_val_le_bytes.
Qed.

Lemma le64_field h fs x z : fits (zlen h) fs → 0 ≤ x → is_u64 z →
  field_at fs x (x + 8) = Found (le_bytes 8 z) → le64 (puts h fs) x = z.
Proof.
  intros Hf Hx Hz E. unfold le64. erewrite bslice_field by done. by apply le_val_le_bytes.
Qed.

Lemma field_fits_le N a n z : 0 ≤ a → a + Z.of_nat n ≤ N → field_fits N (a, Z.of_nat n, le_bytes n z).
Proof. intros. cbn [field_fits]. rewrite zlen_le_bytes. lia. Qed.

Lemma puts_app h fs gs : puts h (fs ++ gs) = puts (puts h fs) gs.
Proof. apply foldl_app. Qed.

Lemma fits_app N fs gs : fits N (fs ++ gs) ↔ fits N fs ∧ fits N gs.
Proof. apply Forall_app. Qed.

(** ** Slices of a concatenation, padding, and writes inside a window *)
Lemma bslice_app_l (l k : list Z) x y : 0 ≤ x → y ≤ zlen l → bslice (l ++ k) x y = bslice l x y.
Proof.
  intros. apply list_eq; intros i. rewrite !lookup_bslice by lia.
  case_decide; [|done]. apply lookup_app_l. unfold zlen in *; lia.
Qed.

Lemma bslice_app_r (l k : list Z) x y : zlen l ≤ x →
  bslice (l ++ k) x y = bslice k (x - zlen l) (y - zlen l).
Proof.
  intros. pose proof (zlen_nonneg l). apply list_eq; intros i. rewrite !lookup_bslice by lia.
  replace (y - zlen l - (x - zlen l)) with (y - x) by lia.
  case_decide; [|done]. unfold zlen in *. rewrite lookup_app_r by lia. f_equal; lia.
Qed.

(** [bs] followed by zeros, [n] bytes in all. *)
Definition pad (n : Z) (bs : list Z) : list Z := bs ++ zeros (n - zlen bs).

Lemma zlen_pad n bs : zlen bs ≤ n → zlen (pad n bs) = n.
Proof. intros. unfold pad. rewrite zlen_app, zlen_zeros by lia. lia. Qed.

Lemma bytes_ok_pad n bs : bytes_ok bs → bytes_ok (pad n bs).
Proof. intros. apply bytes_ok_app; auto with bytes. Qed.

Lemma bput_zeros n bs : zlen bs ≤ n → bput (zeros n) 0 bs = pad n bs.
Proof.
  intros. pose proof (zlen_nonneg bs). unfold bput, pad, zeros, zlen in *.
  change (Z.to_nat 0) with O. rewrite drop_replicate, take_0, app_nil_l. f_equal. f_equal. lia.
Qed.

Lemma bput_nil l a : bput l a [] = l.
Proof. unfold bput. cbn. rewrite Nat.add_0_r. apply take_drop. Qed.

Lemma bput_inside l o n k bs : 0 ≤ o → 0 ≤ k → k + zlen bs ≤ n → o + n ≤ zlen l →
  bput l (o + k) bs = bput l o (bput (bslice l o (o + n)) k bs).
Proof.
  intros. pose proof (zlen_nonneg bs).
  assert (zlen (bput (bslice l o (o + n)) k bs) = n) as E
    by (rewrite zlen_bput; rewrite ?zlen_bslice; lia).
  apply list_eq; intros i. rewrite !lookup_bput; rewrite ?E, ?zlen_bslice; try lia.
  rewrite lookup_bslice by lia. repeat case_decide; try lia; try done; f_equal; lia.
Qed.

Lemma bput_self l o y : 0 ≤ o → o ≤ y → y ≤ zlen l → bput l o (bslice l o y) = l.
Proof.
  intros. assert (zlen (bslice l o y) = y - o) as E by (rewrite zlen_bslice; lia).
  apply list_eq; intros i. rewrite lookup_bput; rewrite ?E; try lia. rewrite lookup_bslice by lia.
  repeat case_decide; try lia; try done; f_equal; lia.
Qed.

Lemma bput_bput l o a b : 0 ≤ o → zlen a = zlen b → o + zlen b ≤ zlen l →
  bput (bput l o a) o b = bput l o b.
Proof.
  intros. apply list_eq; intros i. rewrite !lookup_bput; rewrite ?zlen_bput; try lia.
  repeat case_decide; try lia; done.
Qed.

(** A run of writes inside one window is one write of the window. *)
Lemma puts_inside l o n fs : 0 ≤ o → 0 ≤ n → o + n ≤ zlen l → fits n fs →
  puts l (map (λ '(a, m, bs), (o + a, m, bs)) fs) = bput l o (puts (bslice l o (o + n)) fs).
Proof.
  intros Ho Hn Hl Hf; revert l Hl; induction Hf as [|[[a m] bs] fs (?&?&?&?) Hf IH];
    intros l Hl; cbn [map puts foldl].
  { symmetry. apply bput_self; lia. }
  fold (puts (bput l (o + a) bs) (map (λ '(a, m, bs), (o + a, m, bs)) fs)).
  fold (puts (bput (bslice l o (o + n)) a bs) fs).
  rewrite IH by (rewrite zlen_bput; lia). rewrite bslice_bput_window by lia.
  set (w := bput (bslice l o (o + n)) a bs).
  assert (zlen w = n) as Hw by (unfold w; rewrite zlen_bput; rewrite ?zlen_bslice; lia).
  rewrite (bput_inside l o n) by lia. fold w.
  apply bput_bput; rewrite ?puts_zlen; rewrite ?Hw; lia || done.
Qed.

(** A field that no later write touches. *)
Lemma puts_found h fs a n bs gs : fits (zlen h) (fs ++ (a, n, bs) :: gs) →
  Forall (λ f : Z * Z * list Z, a + n ≤ f.1.1 ∨ f.1.1 + f.1.2 ≤ a) gs →
  bslice (puts h (fs ++ (a, n, bs) :: gs)) a (a + n) = bs.
Proof.
  intros [Hf Hg]%fits_app Hd. rewrite puts_app. set (h1 := puts h fs).
  assert (zlen h1 = zlen h) as Hz by by apply puts_zlen.
  rewrite <- Hz in Hg. clearbody h1. clear Hf Hz.
  apply Forall_cons in Hg as [(H1 & H2 & H3 & H4) Hg].
  change (puts h1 ((a, n, bs) :: gs)) with (puts (bput h1 a bs) gs).
  assert (bslice (bput h1 a bs) a (a + n) = bs) as Hs by (apply bslice_bput_same; lia).
  assert (zlen (bput h1 a bs) = zlen h1) as Hz by (apply zlen_bput; lia).
  rewrite <- Hz in Hg. clear Hz. revert Hs. generalize (bput h1 a bs) as h2, Hg. clear Hg.
  induction Hd as [|[[b m] cs] gs Hx _ IH]; intros h2 Hg Hs; [done|].
  apply Forall_cons in Hg as [(?&?&?&?) Hg]. cbn [fst snd] in Hx. cbn [puts foldl].
  fold (puts (bput h2 b cs) gs). apply IH.
  - by rewrite zlen_bput by lia.
  - rewrite bslice_bput_other by lia. done.
Qed.

Lemma byte_at_field h fs x b : fits (zlen h) fs → 0 ≤ x →
  field_at fs x (x + 1) = Found [b] → byte_at (puts h fs) x = b.
Proof.
  intros Hf Hx E. pose proof (bslice_field _ _ _ _ _ Hf Hx E) as Hs.
  rewrite <- (Z.add_0_r x) at 1. rewrite <- (byte_at_bslice _ x (x + 1) 0) by lia. by rewrite Hs.
Qed.

(** Two fields of a window read through the window. *)
Lemma byte_at_window l o n k : 0 ≤ o → 0 ≤ k < n → byte_at l (o + k) = byte_at (bslice l o (o + n)) k.
Proof. intros. by rewrite byte_at_bslice by lia. Qed.
Lemma le32_window l o n k : 0 ≤ o → 0 ≤ k → k + 4 ≤ n → le32 l (o + k) = le32 (bslice l o (o + n)) k.
Proof. intros. unfold le32. rewrite bslice_bslice by lia. do 2 f_equal. lia. Qed.

(** A range no write touches. *)
Lemma puts_untouched h fs x y : fits (zlen h) fs → 0 ≤ x →
  Forall (λ f : Z * Z * list Z, y ≤ f.1.1 ∨ f.1.1 + f.1.2 ≤ x) fs →
  bslice (puts h fs) x y = bslice h x y.
Proof.
  intros Hf Hx Hd; revert h Hf; induction Hd as [|[[b m] cs] fs Hb _ IH]; intros h Hf; [done|].
  apply Forall_cons in Hf as [(?&?&?&?) Hf]. cbn [fst snd] in Hb. cbn [puts foldl].
  fold (puts (bput h b cs) fs). rewrite IH by (by rewrite zlen_bput by lia).
  apply bslice_bput_other; lia.
Qed.

(** A concrete buffer, by evaluation. *)
Lemma bytes_by_compute l : forallb (λ b, (0 <=? b) && (b <? 256)) l = true → bytes_ok l.
Proof.
  intros H. apply list.Forall_forall. intros b Hb. rewrite forallb_forall in H.
  specialize (H b (proj1 (list_elem_of_In _ _) Hb)). unfold is_u8. lia.
Qed.
