(* ===== verification/Device.v ===== *)
(** * Block devices and the crate's errors

    [fs_core] is another crate: its [BlockRead] and [BlockDevice] traits are
    the classes below, its error type is reduced to the variants this crate
    names, and what the crate relies on ([read_at] fills the whole buffer or
    fails, a write changes the bytes written and no others) is the class
    [DeviceLaws].  [MemDevice] is a device for which the laws are proved. *)
From S2P Require Import Prelude Bytes.

(** ** Errors *)

(** The variants of [fs_core::Error] that the sources construct or match on;
    [OtherFs] stands for every other one. *)
Inductive FsError : Type :=
| ShortRead (offset want got : Z)
| OutOfBounds (offset len size : Z)
| ReadOnly
| Custom (msg : string)
| OtherFs (msg : string).

(** src/error.rs, [Error]. *)
Inductive Error : Type :=
| Block (e : FsError)
| Io (e : string)
| NoPartitionTable
| GptHeaderCrc
| GptEntriesCrc
| GptCorrupt (why : string)
| MbrCorrupt (why : string)
| GptBackupMismatch (why : string)
| Invalid (why : string)
| DeviceTooSmall
| UnsupportedSectorSize (why : string).

#[export] Instance FsError_eq_dec : EqDecision FsError.
Proof. solve_decision. Defined.
#[export] Instance Error_eq_dec : EqDecision Error.
Proof. solve_decision. Defined.

(** ** The device interfaces *)

(** [read_at d off n] is [read_at(off, buf)] for a buffer of [n] bytes: the
    bytes it is filled with, or the failure. *)
Class BlockRead (D : Type) := {
  read_at : D → Z → Z → Result FsError (list Z);
  size_bytes : D → Z;
}.

(** A write or flush that fails may have changed the device, so the state is
    returned beside the result rather than inside it. *)
Class BlockDevice (D : Type) := {
  device_read :: BlockRead D;
  is_writable : D → bool;
  write_at : D → Z → list Z → D * Result FsError unit;
  flush : D → D * Result FsError unit;
}.

(** What a reader promises: whole buffers of bytes, and a size that is a
    [u64]. *)
Class ReadLaws (D : Type) `{!BlockRead D} := {
  size_is_u64 : ∀ d : D, is_u64 (size_bytes d);
  read_fills : ∀ (d : D) off n bs, 0 ≤ n → read_at d off n = Ok bs →
    zlen bs = n ∧ bytes_ok bs;
}.

(** What a device that does not fail promises, on the states [dev_ok]
    describes: it is an array of bytes, and writes update that array. *)
Class DeviceLaws (D : Type) `{!BlockDevice D} := {
  dev_ok : D → Prop;
  image : D → list Z;
  image_bytes : ∀ d, dev_ok d → bytes_ok (image d);
  image_size : ∀ d, dev_ok d → zlen (image d) = size_bytes d;
  image_u64 : ∀ d, dev_ok d → is_u64 (size_bytes d);
  read_inside : ∀ d off n, dev_ok d → 0 ≤ off → 0 ≤ n → off + n ≤ size_bytes d →
    read_at d off n = Ok (bslice (image d) off (off + n));
  read_outside : ∀ d off n, dev_ok d → 0 ≤ off → 0 < n → size_bytes d < off + n →
    read_at d off n = Err (OutOfBounds off n (size_bytes d));
  write_inside : ∀ d off bs, dev_ok d → is_writable d = true → bytes_ok bs →
    0 ≤ off → off + zlen bs ≤ size_bytes d →
    ∃ d', write_at d off bs = (d', Ok tt) ∧ dev_ok d' ∧ is_writable d' = true ∧
          image d' = bput (image d) off bs ∧ size_bytes d' = size_bytes d;
  flush_keeps : ∀ d, dev_ok d → is_writable d = true →
    ∃ d', flush d = (d', Ok tt) ∧ dev_ok d' ∧ is_writable d' = true ∧
          image d' = image d ∧ size_bytes d' = size_bytes d;
}.

(** [crc32fast::hash]. *)
Class Crc32 := crc32_hash : list Z → Z.
Class Crc32Laws `{!Crc32} := crc32_is_u32 : ∀ bs, is_u32 (crc32_hash bs).

(** ** Code that writes to a device

    A state and error monad: the device is threaded through, and an error
    leaves it as it was when the error arose. *)
Definition DevM (D A : Type) : Type := D → D * Result Error A.

#[export] Instance DevM_ret D : MRet (DevM D) := fun A a d => (d, Ok a).
#[export] Instance DevM_bind D : MBind (DevM D) := fun A B f m d =>
  match m d with
  | (d', Ok a) => f a d'
  | (d', Err e) => (d', Err e)
  end.

Definition pure_result {D A} (r : Result Error A) : DevM D A := fun d => (d, r).

Section ops.
Context {D : Type} `{!BlockDevice D}.

Definition dev_read (off n : Z) : DevM D (list Z) := fun d =>
  (d, map_err Block (read_at d off n)).
Definition dev_write (off : Z) (bs : list Z) : DevM D unit := fun d =>
  let '(d', r) := write_at d off bs in (d', map_err Block r).
Definition dev_flush : DevM D unit := fun d =>
  let '(d', r) := flush d in (d', map_err Block r).
Definition dev_is_writable : DevM D bool := fun d => (d, Ok (is_writable d)).
Definition dev_size_bytes : DevM D Z := fun d => (d, Ok (size_bytes d)).

Lemma DevM_bind_pure {A B} (r : Result Error A) (f : A → DevM D B) d :
  (pure_result r ≫= f) d =
  match r with Ok a => f a d | Err e => (d, Err e) end.
Proof. by destruct r. Qed.

Lemma DevM_bind_eq {A B} (m : DevM D A) (f : A → DevM D B) d :
  (m ≫= f) d = match m d with (d', Ok a) => f a d' | (d', Err e) => (d', Err e) end.
Proof. done. Qed.

Lemma DevM_bind_writable {B} (f : bool → DevM D B) d :
  (dev_is_writable ≫= f) d = f (is_writable d) d.
Proof. done. Qed.

Lemma DevM_bind_size {B} (f : Z → DevM D B) d :
  (dev_size_bytes ≫= f) d = f (size_bytes d) d.
Proof. done. Qed.

Context `{!DeviceLaws D}.

Lemma dev_read_inside {B} off n (f : list Z → DevM D B) d :
  dev_ok d → 0 ≤ off → 0 ≤ n → off + n ≤ size_bytes d →
  (dev_read off n ≫= f) d = f (bslice (image d) off (off + n)) d.
Proof.
  intros. unfold mbind, DevM_bind, dev_read. by rewrite read_inside by done.
Qed.

Lemma dev_write_inside {B} off bs (f : unit → DevM D B) d :
  dev_ok d → is_writable d = true → bytes_ok bs → 0 ≤ off →
  off + zlen bs ≤ size_bytes d →
  ∃ d', (dev_write off bs ≫= f) d = f tt d' ∧ dev_ok d' ∧ is_writable d' = true ∧
        image d' = bput (image d) off bs ∧ size_bytes d' = size_bytes d.
Proof.
  intros H1 H2 H3 H4 H5.
  destruct (write_inside d off bs H1 H2 H3 H4 H5) as (d' & E & ?).
  exists d'. split; [|done]. unfold mbind, DevM_bind, dev_write. by rewrite E.
Qed.

(** Writes in sequence, then [k]. *)
Fixpoint write_all {A} (fs : list (Z * Z * list Z)) (k : DevM D A) : DevM D A :=
  match fs with
  | [] => k
  | (a, _, bs) :: fs => _ ← dev_write a bs; write_all fs k
  end.

(** [d'] is [d] with the image [img]. *)
Record dev_with_image (d d' : D) (img : list Z) : Prop := {
  wi_ok : dev_ok d';
  wi_writable : is_writable d' = true;
  wi_image : image d' = img;
  wi_size : size_bytes d' = size_bytes d;
}.

Lemma write_all_ok {A} fs (k : DevM D A) d : dev_ok d → is_writable d = true →
  fits (size_bytes d) fs → Forall (λ f, bytes_ok f.2) fs →
  ∃ d', write_all fs k d = k d' ∧ dev_with_image d d' (puts (image d) fs).
Proof.
  intros Hd Hw Hf; revert d Hd Hw Hf; induction fs as [|[[a n] bs] fs IH]; intros d Hd Hw Hf Hb.
  { by exists d. }
  apply Forall_cons in Hf as [(?&?&?&?) Hf], Hb as [Hb1 Hb]. cbn [write_all].
  destruct (dev_write_inside a bs (λ _, write_all fs k) d) as (d1 & E & ? & ? & Hi & Hs); [done..|lia|].
  destruct (IH d1) as (d' & E' & [? ? Hi' Hs']); [done|done|by rewrite Hs|done|].
  exists d'. split; [by rewrite E|]. constructor; [done|done| |congruence].
  by rewrite Hi', Hi.
Qed.
End ops.

(** ** When an error can arise

    A [reader] leaves the device alone, [io] code fails with device errors
    only, and [clean] code fails with another error only before it has changed
    anything. *)
Section errors.
Context {D : Type} `{!BlockDevice D}.

Definition reader {A} (m : DevM D A) : Prop := ∀ d, (m d).1 = d.
Definition io {A} (m : DevM D A) : Prop := ∀ d d' e, m d = (d', Err e) → ∃ fe, e = Block fe.
Definition clean {A} (m : DevM D A) : Prop :=
  ∀ d d' e, m d = (d', Err e) → d' = d ∨ ∃ fe, e = Block fe.

Lemma clean_bind {A B} (m : DevM D A) (f : A → DevM D B) :
  reader m → (∀ a, clean (f a)) → clean (m ≫= f).
Proof.
  intros Hm Hf d d' e. rewrite DevM_bind_eq. specialize (Hm d).
  destruct (m d) as [d1 [a|e1]]; cbn in Hm; subst d1; [apply Hf|].
  intros [= -> ->]. by left.
Qed.

Lemma io_bind {A B} (m : DevM D A) (f : A → DevM D B) :
  io m → (∀ a, io (f a)) → io (m ≫= f).
Proof.
  intros Hm Hf d d' e. rewrite DevM_bind_eq. specialize (Hm d).
  destruct (m d) as [d1 [a|e1]]; [apply Hf|]. intros [= -> ->]. by eapply Hm.
Qed.

Lemma clean_then {A B} (m : DevM D A) (f : A → DevM D B) :
  clean m → (∀ a, io (f a)) → clean (m ≫= f).
Proof.
  intros Hm Hf d d' e. rewrite DevM_bind_eq. specialize (Hm d).
  destruct (m d) as [d1 [a|e1]]; [intros ?; right; by eapply Hf|]. intros [= -> ->]. by eapply Hm.
Qed.

Lemma io_clean {A} (m : DevM D A) : io m → clean m.
Proof. intros Hm d d' e H. right. by eapply Hm. Qed.

Lemma reader_bind {A B} (m : DevM D A) (f : A → DevM D B) :
  reader m → (∀ a, reader (f a)) → reader (m ≫= f).
Proof.
  intros Hm Hf d. rewrite DevM_bind_eq. specialize (Hm d).
  destruct (m d) as [d1 [a|e]]; cbn in Hm; subst d1; [apply Hf|done].
Qed.
Lemma reader_pure {A} (r : Result Error A) : reader (pure_result r).
Proof. done. Qed.
Lemma reader_read off n : reader (dev_read off n).
Proof. done. Qed.
Lemma io_ret {A} (a : A) : io (mret a).
Proof. done. Qed.
Lemma io_write off bs : io (dev_write off bs).
Proof.
  intros d d' e. unfold dev_write. destruct (write_at d off bs) as [d1 [u|fe]]; cbn; [done|].
  intros [= <- <-]. by eexists.
Qed.
Lemma io_flush : io dev_flush.
Proof.
  intros d d' e. unfold dev_flush. destruct (flush d) as [d1 [u|fe]]; cbn; [done|].
  intros [= <- <-]. by eexists.
Qed.
End errors.

Create HintDb device.
#[export] Hint Resolve clean_bind io_bind clean_then reader_pure reader_read io_ret io_write
  io_flush : device.

(** ** A device in memory *)
Record MemDevice := Mem { mem_image : list Z; mem_writable : bool }.

Definition mem_read (d : MemDevice) (off n : Z) : Result FsError (list Z) :=
  if off + n <=? zlen (mem_image d)
  then Ok (bslice (mem_image d) off (off + n))
  else Err (OutOfBounds off n (zlen (mem_image d))).

Definition mem_write (d : MemDevice) (off : Z) (bs : list Z) : MemDevice * Result FsError unit :=
  if negb (mem_writable d) then (d, Err ReadOnly)
  else if off + zlen bs <=? zlen (mem_image d)
  then (Mem (bput (mem_image d) off bs) true, Ok tt)
  else (d, Err (OutOfBounds off (zlen bs) (zlen (mem_image d)))).

#[export] Instance MemDevice_read : BlockRead MemDevice :=
  {| read_at := mem_read; size_bytes := λ d, zlen (mem_image d) |}.
#[export] Instance MemDevice_device : BlockDevice MemDevice :=
  {| is_writable := mem_writable; write_at := mem_write; flush := λ d, (d, Ok tt) |}.

#[export, program] Instance MemDevice_laws : DeviceLaws MemDevice := {|
  dev_ok := λ d, bytes_ok (mem_image d) ∧ zlen (mem_image d) < 2 ^ 64;
  image := mem_image;
|}.
Next Obligation. by intros d [??]. Qed.
Next Obligation. done. Qed.
Next Obligation. intros d [??]. pose proof (zlen_nonneg (mem_image d)). by split. Qed.
Next Obligation.
  intros d off n _ ?? H. cbn in *. unfold mem_read.
  by rewrite (proj2 (Z.leb_le _ _) H).
Qed.
Next Obligation.
  intros d off n _ ?? H. cbn in *. unfold mem_read.
  by rewrite (proj2 (Z.leb_gt _ _) H).
Qed.
Next Obligation.
  intros d off bs [Hb Hs] Hw Hbs Ho H. cbn in *. unfold mem_write. rewrite Hw. cbn.
  rewrite (proj2 (Z.leb_le _ _) H). eexists; split_and!; try done; cbn.
  - auto with bytes.
  - by rewrite zlen_bput.
  - by rewrite zlen_bput.
Qed.
Next Obligation. intros d [??] ?. exists d. by split_and!. Qed.

(** CRC-32 (ISO-HDLC), the checksum [crc32fast] documents: reflected
    polynomial [0xEDB88320], all-ones start, inverted result. *)
Fixpoint crc32_bits (n : nat) (c : Z) : Z :=
  match n with
  | O => c
  | S n => crc32_bits n
      (if Z.odd c then Z.lxor (Z.shiftr c 1) 0xEDB88320 else Z.shiftr c 1)
  end.
Definition crc32_ieee (bs : list Z) : Z :=
  Z.lxor (foldl (λ c b, crc32_bits 8 (Z.lxor c b)) 0xFFFFFFFF bs) 0xFFFFFFFF mod 2 ^ 32.

Module Crc32Ieee.
#[export] Instance crc : Crc32 := crc32_ieee.
#[export] Instance crc_laws : Crc32Laws.
Proof. intros bs. unfold crc32_hash, crc, crc32_ieee. apply Z.mod_pos_bound. lia. Qed.
End Crc32Ieee.

Example crc32_check_value :
  crc32_ieee (ascii_bytes "123456789") = 0xCBF43926.
Proof. vm_compute. reflexivity. Qed.
