(* ===== verification/Table.v ===== *)
(** * Layout constants and the partition record

    src/lib.rs (sector and table geometry) and the data of src/probe.rs. *)
From S2P Require Import Prelude Bytes Device.

(** ** src/lib.rs *)
Definition SECTOR_SIZE : Z := 512.

Module gpt_layout.
Definition NUM_ENTRIES : Z := 128.
Definition ENTRY_SIZE : Z := 128.
Definition ENTRY_ARRAY_SECTORS : Z := NUM_ENTRIES * ENTRY_SIZE / SECTOR_SIZE.
Definition FIRST_USABLE_LBA : Z := 2 + ENTRY_ARRAY_SECTORS.
Definition BACKUP_RESERVE_SECTORS : Z := ENTRY_ARRAY_SECTORS + 1.
Definition HEADER_SIZE : Z := 92.
End gpt_layout.

Definition MBR_LBA_MAX : Z := 0xFFFFFFFF.

(** ** GPT names the partition record refers to (src/gpt.rs) *)
Module type_guids.
Definition UNUSED : list Z := zeros 16.
Definition EFI_SYSTEM : list Z :=
  [0x28; 0x73; 0x2A; 0xC1; 0x1F; 0xF8; 0xD2; 0x11; 0xBA; 0x4B; 0x00; 0xA0; 0xC9; 0x3E; 0xC9;
   0x3B].
Definition MICROSOFT_BASIC_DATA : list Z :=
  [0xA2; 0xA0; 0xD0; 0xEB; 0xE5; 0xB9; 0x33; 0x44; 0x87; 0xC0; 0x68; 0xB6; 0xB7; 0x26; 0x99;
   0xC7].
Definition LINUX_FILESYSTEM : list Z :=
  [0xAF; 0x3D; 0xC6; 0x0F; 0x83; 0x84; 0x72; 0x47; 0x8E; 0x79; 0x3D; 0x69; 0xD8; 0x47; 0x7D;
   0xE4].
Definition LINUX_SWAP : list Z :=
  [0x6D; 0xFD; 0x57; 0x06; 0xAB; 0xA4; 0xC4; 0x43; 0x84; 0xE5; 0x09; 0x33; 0xC8; 0x4B; 0x4F;
   0x4F].
Definition APPLE_HFS_PLUS : list Z :=
  [0x00; 0x53; 0x46; 0x48; 0x00; 0x00; 0xAA; 0x11; 0xAA; 0x11; 0x00; 0x30; 0x65; 0x43; 0xEC;
   0xAC].
Definition APPLE_APFS : list Z :=
  [0xEF; 0x57; 0x34; 0x7C; 0x00; 0x00; 0xAA; 0x11; 0xAA; 0x11; 0x00; 0x30; 0x65; 0x43; 0xEC;
   0xAC].
End type_guids.

Module attr.
Definition REQUIRED_PARTITION : Z := Z.shiftl 1 0.
Definition NO_BLOCK_IO_PROTOCOL : Z := Z.shiftl 1 1.
Definition LEGACY_BIOS_BOOTABLE : Z := Z.shiftl 1 2.
Definition MS_READ_ONLY : Z := Z.shiftl 1 60.
Definition MS_SHADOW_COPY : Z := Z.shiftl 1 61.
Definition MS_HIDDEN : Z := Z.shiftl 1 62.
Definition MS_NO_AUTOMOUNT : Z := Z.shiftl 1 63.
End attr.

Module entry_issue.
Definition NONE : Z := 0.
Definition BEFORE_FIRST_USABLE : Z := Z.shiftl 1 0.
Definition PAST_LAST_USABLE : Z := Z.shiftl 1 1.
Definition OVERLAPS_ANOTHER : Z := Z.shiftl 1 2.
Definition ALL : Z := Z.lor (Z.lor BEFORE_FIRST_USABLE PAST_LAST_USABLE) OVERLAPS_ANOTHER.

Fixpoint join (sep : string) (l : list string) : string :=
  match l with
  | [] => ""
  | [x] => x
  | x :: l => x +:+ sep +:+ join sep l
  end.

Definition describe (issues : Z) : string :=
  let parts :=
    (if negb (Z.land issues BEFORE_FIRST_USABLE =? 0)
     then ["starts before the first usable LBA"] else []) ++
    (if negb (Z.land issues PAST_LAST_USABLE =? 0)
     then ["ends past the last usable LBA"] else []) ++
    (if negb (Z.land issues OVERLAPS_ANOTHER =? 0)
     then ["overlaps another partition"] else []) in
  match parts with [] => "no issues" | _ => join ", " parts end.
End entry_issue.

(** ** src/probe.rs *)
Inductive TableKind := TableGpt | TableMbr.
#[export] Instance TableKind_eq_dec : EqDecision TableKind.
Proof. solve_decision. Defined.

(** A GUID is its sixteen bytes as they are on disk. *)
Inductive PartitionKind :=
| KindGpt (type_guid : list Z) (attributes : Z)
| KindMbr (type_byte : Z) (active : bool)
| KindWhole.
#[export] Instance PartitionKind_eq_dec : EqDecision PartitionKind.
Proof. solve_decision. Defined.

(** A label is the sequence of its Unicode scalar values. *)
Record Partition := mkPartition {
  p_start : Z;
  p_length : Z;
  p_kind : PartitionKind;
  p_label : option (list Z);
  p_uuid : option (list Z);
  p_slot : option Z;
  p_issues : Z;
  p_available_length : Z;
}.
#[export] Instance Partition_eq_dec : EqDecision Partition.
Proof. solve_decision. Defined.

Definition with_slot (p : Partition) (s : option Z) : Partition :=
  mkPartition (p_start p) (p_length p) (p_kind p) (p_label p) (p_uuid p) s
    (p_issues p) (p_available_length p).
Definition with_issues (p : Partition) (i : Z) : Partition :=
  mkPartition (p_start p) (p_length p) (p_kind p) (p_label p) (p_uuid p) (p_slot p)
    i (p_available_length p).
Definition with_length (p : Partition) (n : Z) : Partition :=
  mkPartition (p_start p) n (p_kind p) (p_label p) (p_uuid p) (p_slot p)
    (p_issues p) (p_available_length p).

Definition available_on_device (start len device_size : Z) : Z :=
  if device_size =? 0 then len
  else Z.min len (saturating_sub device_size start).

(** [Partition::sector_span]. *)
Definition sector_span (p : Partition) : Result Error (Z * Z) :=
  if p_length p =? 0 then Err (Invalid "a partition has no last sector")
  else
    end_ ← ok_or (checked_add (p_start p) (p_length p))
             (Invalid "a partition's start and length overflow a u64");
    let last := (end_ - 1) / SECTOR_SIZE in
    Ok (p_start p / SECTOR_SIZE, last).

(** [Partition::is_bootable]. *)
Definition is_bootable (p : Partition) : bool :=
  match p_kind p with
  | KindMbr _ active => active
  | KindGpt type_guid attributes =>
      bytes_eqb type_guid type_guids.EFI_SYSTEM
      || negb (Z.land attributes attr.LEGACY_BIOS_BOOTABLE =? 0)
  | KindWhole => false
  end.

(** ** Facts *)
Lemma sector_span_Ok p s e : 0 ≤ p_start p → 0 ≤ p_length p →
  sector_span p = Ok (s, e) ↔
  0 < p_length p ∧ p_start p + p_length p < 2 ^ 64 ∧
  s = p_start p / SECTOR_SIZE ∧ e = (p_start p + p_length p - 1) / SECTOR_SIZE.
Proof.
  intros Hs Hl. unfold sector_span. destruct (Z.eqb_spec (p_length p) 0).
  { split; [done|lia]. }
  rewrite bind_Ok. setoid_rewrite ok_or_Ok. setoid_rewrite checked_add_Some. split.
  - intros (x & [-> ?] & [= <- <-]). lia.
  - intros (? & ? & -> & ->). eauto.
Qed.

Lemma sector_span_order p s e : 0 ≤ p_start p → 0 ≤ p_length p →
  sector_span p = Ok (s, e) → 0 ≤ s ≤ e ∧ e < 2 ^ 55.
Proof.
  intros ?? (? & ? & -> & ->)%sector_span_Ok; [|done..].
  unfold SECTOR_SIZE. split; [split|]; dlia.
Qed.

(** The span of a sector-aligned partition gives its bytes back. *)
Lemma sector_span_aligned p s e : 0 ≤ p_start p → 0 ≤ p_length p →
  is_multiple_of (p_start p) SECTOR_SIZE = true →
  is_multiple_of (p_length p) SECTOR_SIZE = true →
  sector_span p = Ok (s, e) →
  p_start p = s * SECTOR_SIZE ∧ p_length p = (e - s + 1) * SECTOR_SIZE.
Proof.
  unfold SECTOR_SIZE. intros ?? Ha%is_multiple_of_spec Hb%is_multiple_of_spec; [|lia..].
  intros (? & ? & -> & ->)%sector_span_Ok; [|done..]. unfold SECTOR_SIZE.
  split; dlia.
Qed.

(** ** What the types of the source guarantee *)

(** [[u8; 16]]. *)
Definition guid16 (g : list Z) : Prop := zlen g = 16 ∧ bytes_ok g.

Definition kind_typed (k : PartitionKind) : Prop :=
  match k with
  | KindGpt type_guid attributes => guid16 type_guid ∧ is_u64 attributes
  | KindMbr type_byte _ => is_u8 type_byte
  | KindWhole => True
  end.

Definition opt_all {A} (P : A → Prop) (o : option A) : Prop :=
  match o with Some a => P a | None => True end.

(** A value of type [Partition]: its integers are in range, its GUIDs are
    sixteen bytes and its label is made of characters. *)
Record partition_typed (p : Partition) : Prop := {
  typed_start : is_u64 (p_start p);
  typed_length : is_u64 (p_length p);
  typed_kind : kind_typed (p_kind p);
  typed_label : opt_all (Forall (λ c, 0 ≤ c < 0xD800 ∨ 0xE000 ≤ c < 0x110000)) (p_label p);
  typed_uuid : opt_all guid16 (p_uuid p);
  typed_slot : opt_all is_u32 (p_slot p);
}.

(** The sectors of a partition, first and last. *)
Definition span_of (p : Partition) : Z * Z :=
  (p_start p / SECTOR_SIZE, (p_start p + p_length p - 1) / SECTOR_SIZE).

Lemma span_of_spec p : partition_typed p → 0 < p_length p →
  p_start p + p_length p < 2 ^ 64 → sector_span p = Ok (span_of p).
Proof.
  intros [[? _] [? _] _ _ _ _] ??. unfold span_of. by apply sector_span_Ok.
Qed.

Lemma span_of_inv p s : partition_typed p → sector_span p = Ok s →
  s = span_of p ∧ 0 < p_length p ∧ p_start p + p_length p < 2 ^ 64.
Proof.
  intros [[? _] [? _] _ _ _ _] Hsp. destruct s as [s e].
  apply sector_span_Ok in Hsp as (? & ? & -> & ->); [|done..]. done.
Qed.

Lemma span_forward p : partition_typed p → 0 < p_length p → (span_of p).1 ≤ (span_of p).2.
Proof. intros [[? _] _ _ _ _ _] ?. unfold span_of, SECTOR_SIZE. cbn. dlia. Qed.
