(* ===== verification/Utf16.v ===== *)
(** * UTF-16, as the standard library decodes and encodes it

    A [char] is its scalar value: an integer in [0, 0x110000) that is not a
    surrogate.  [encode_utf16] is [char::encode_utf16], [len_utf16] is
    [char::len_utf16] and [from_utf16_lossy] is [String::from_utf16_lossy],
    which replaces an unpaired surrogate by U+FFFD. *)
From S2P Require Import Prelude Bytes.

Definition is_high_surrogate (u : Z) : bool := (0xD800 <=? u) && (u <? 0xDC00).
Definition is_low_surrogate (u : Z) : bool := (0xDC00 <=? u) && (u <? 0xE000).

Definition is_char (c : Z) : Prop := 0 ≤ c < 0xD800 ∨ 0xE000 ≤ c < 0x110000.

Definition len_utf16 (c : Z) : Z := if c <? 0x10000 then 1 else 2.

Definition encode_utf16 (c : Z) : list Z :=
  if c <? 0x10000 then [c]
  else [0xD800 + (c - 0x10000) / 0x400; 0xDC00 + (c - 0x10000) mod 0x400].

Fixpoint from_utf16_lossy (us : list Z) : list Z :=
  match us with
  | [] => []
  | u :: rest =>
      if is_low_surrogate u then 0xFFFD :: from_utf16_lossy rest
      else if is_high_surrogate u then
        match rest with
        | u2 :: rest2 =>
            if is_low_surrogate u2
            then (0x10000 + (u - 0xD800) * 0x400 + (u2 - 0xDC00)) :: from_utf16_lossy rest2
            else 0xFFFD :: from_utf16_lossy rest
        | [] => [0xFFFD]
        end
      else u :: from_utf16_lossy rest
  end.

Lemma zlen_encode_utf16 c : zlen (encode_utf16 c) = len_utf16 c.
Proof. unfold encode_utf16, len_utf16. by destruct (c <? 0x10000). Qed.

Lemma encode_utf16_units c : is_char c → Forall (λ u, 0 ≤ u < 2 ^ 16) (encode_utf16 c).
Proof.
  unfold is_char, encode_utf16. intros H. destruct (Z.ltb_spec c 0x10000).
  - repeat constructor; lia.
  - repeat constructor; dlia.
Qed.

Lemma encode_utf16_nonzero c : is_char c → c ≠ 0 → Forall (λ u, u ≠ 0) (encode_utf16 c).
Proof.
  unfold is_char, encode_utf16. intros H. destruct (Z.ltb_spec c 0x10000).
  - repeat constructor; lia.
  - repeat constructor; dlia.
Qed.

(** Decoding undoes encoding, one character at a time. *)
Lemma from_utf16_encode c us : is_char c →
  from_utf16_lossy (encode_utf16 c ++ us) = c :: from_utf16_lossy us.
Proof.
  unfold is_char, encode_utf16. intros H.
  destruct (Z.ltb_spec c 0x10000); cbn [app from_utf16_lossy];
    unfold is_low_surrogate, is_high_surrogate.
  - repeat (case_match; try lia); reflexivity.
  - repeat (case_match; try dlia). f_equal. dlia.
Qed.

Lemma from_utf16_encode_all cs : Forall is_char cs →
  from_utf16_lossy (cs ≫= encode_utf16) = cs.
Proof.
  induction 1 as [|c cs Hc _ IH]; cbn; [done|].
  by rewrite from_utf16_encode, IH.
Qed.
