(* ===== verification/Rules.v ===== *)
(** * The rules a table's entries satisfy

    src/gpt.rs, [range_issues] and [mark_overlaps]: the two functions the GPT
    reader, the GPT writer and the mutation API share.  [mark_overlaps] is a
    single pass over the spans in start order that carries the furthest end
    seen so far; [mark_overlaps_flag] relates it to the definition of
    overlapping itself. *)
From S2P Require Import Prelude Bytes Device Table.

(** ** The rules an entry has to satisfy *)
Definition range_issues (start_lba end_lba first_usable last_usable : Z) : Z :=
  let issues := entry_issue.NONE in
  let issues :=
    if start_lba <? first_usable
    then Z.lor issues entry_issue.BEFORE_FIRST_USABLE else issues in
  if (last_usable <? start_lba) || (last_usable <? end_lba)
  then Z.lor issues entry_issue.PAST_LAST_USABLE else issues.

(** [spans[i]]. *)
Definition span_at (spans : list (Z * Z)) (i : nat) : Z * Z := spans !!! i.

(** One round of the pass over the spans in start order: the flags so far,
    and the entry that ends furthest with its end. *)
Definition mark_step (spans : list (Z * Z)) (st : list bool * option (nat * Z)) (i : nat)
    : list bool * option (nat * Z) :=
  let '(flags, highest_end) := st in
  let s := span_at spans i in
  let flags :=
    match highest_end with
    | Some (j, e) => if s.1 <=? e then <[j := true]> (<[i := true]> flags) else flags
    | None => flags
    end in
  let highest_end :=
    match highest_end with
    | Some (j, e) => if s.2 <=? e then highest_end else Some (i, s.2)
    | None => Some (i, s.2)
    end in
  (flags, highest_end).

Definition mark_overlaps (spans : list (Z * Z)) : list bool :=
  let flags := replicate (length spans) false in
  let order := sort_by (λ i j, (span_at spans i).1 <=? (span_at spans j).1)
                 (seq 0 (length spans)) in
  (foldl (mark_step spans) (flags, None) order).1.

(** ** What they mean *)

(** Two inclusive ranges share a sector. *)
Definition overlap (a b : Z * Z) : Prop := a.1 ≤ b.2 ∧ b.1 ≤ a.2.

#[export] Instance overlap_dec a b : Decision (overlap a b).
Proof. unfold overlap. apply _. Defined.

Lemma overlap_sym a b : overlap a b → overlap b a.
Proof. unfold overlap. lia. Qed.

(** Entry [i] shares a sector with another entry of the table. *)
Definition clashes (spans : list (Z * Z)) (i : nat) : Prop :=
  ∃ j a b, j ≠ i ∧ spans !! i = Some a ∧ spans !! j = Some b ∧ overlap a b.

(** No two entries share a sector. *)
Definition disjoint_spans (spans : list (Z * Z)) : Prop :=
  ∀ i j a b, i ≠ j → spans !! i = Some a → spans !! j = Some b → ¬ overlap a b.

(** Each range runs forwards. *)
Definition spans_forward (spans : list (Z * Z)) : Prop :=
  Forall (λ s : Z * Z, s.1 ≤ s.2) spans.

Lemma range_issues_before s e f l :
  Z.land (range_issues s e f l) entry_issue.BEFORE_FIRST_USABLE ≠ 0 ↔ s < f.
Proof.
  unfold range_issues. destruct (Z.ltb_spec s f), (Z.ltb_spec l s), (Z.ltb_spec l e);
    cbn; split; intros; try done; lia.
Qed.

Lemma range_issues_past s e f l :
  Z.land (range_issues s e f l) entry_issue.PAST_LAST_USABLE ≠ 0 ↔ l < s ∨ l < e.
Proof.
  unfold range_issues. destruct (Z.ltb_spec s f), (Z.ltb_spec l s), (Z.ltb_spec l e);
    cbn; split; intros; try done; lia.
Qed.

Lemma range_issues_none s e f l :
  range_issues s e f l = entry_issue.NONE ↔ f ≤ s ∧ s ≤ l ∧ e ≤ l.
Proof.
  unfold range_issues. destruct (Z.ltb_spec s f), (Z.ltb_spec l s), (Z.ltb_spec l e);
    cbn; split; intros; try done; lia.
Qed.

(** ** The pass *)
Section pass.
Context (spans : list (Z * Z)).
Context (spans_ok : spans_forward spans).

Local Abbreviation span := (span_at spans).

(** What the pass knows once it has seen the entries [pre]. *)
Record seen (pre : list nat) (st : list bool * option (nat * Z)) : Prop := {
  seen_length : length st.1 = length spans;
  seen_highest : match st.2 with
    | None => pre = []
    | Some (j, e) => j ∈ pre ∧ e = (span j).2 ∧ ∀ i, i ∈ pre → (span i).2 ≤ e
    end;
  seen_sound : ∀ i, st.1 !! i = Some true →
    i ∈ pre ∧ ∃ j, j ∈ pre ∧ j ≠ i ∧ overlap (span i) (span j);
  seen_complete : ∀ i j, i ∈ pre → j ∈ pre → i ≠ j → overlap (span i) (span j) →
    st.1 !! i = Some true;
}.

Lemma span_order i : (i < length spans)%nat → (span i).1 ≤ (span i).2.
Proof.
  intros H. destruct (lookup_lt_is_Some_2 spans i H) as [s Hs].
  unfold span_at. rewrite (list_lookup_total_correct _ _ _ Hs).
  exact (Forall_lookup_1 _ _ _ _ spans_ok Hs).
Qed.

Lemma seen_nil : seen [] (replicate (length spans) false, None).
Proof.
  constructor; cbn; [by rewrite length_replicate|done| |].
  - intros i [??]%lookup_replicate. done.
  - intros i j H. by apply elem_of_nil in H.
Qed.

(** Setting the two flags of a clash. *)
Lemma set_two (flags : list bool) (i j k : nat) :
  (i < length flags)%nat → (j < length flags)%nat →
  <[j := true]> (<[i := true]> flags) !! k = Some true ↔
  k = i ∨ k = j ∨ flags !! k = Some true.
Proof.
  intros Hi Hj. rewrite !list_lookup_insert, !length_insert.
  repeat case_decide; naive_solver.
Qed.

Lemma seen_grow pre i (flags : list bool) :
  (∀ k, flags !! k = Some true →
     k ∈ pre ∧ ∃ j, j ∈ pre ∧ j ≠ k ∧ overlap (span k) (span j)) →
  ∀ k, flags !! k = Some true →
     k ∈ pre ++ [i] ∧ ∃ j, j ∈ pre ++ [i] ∧ j ≠ k ∧ overlap (span k) (span j).
Proof. intros H k Hk. destruct (H k Hk) as (? & j & ? & ? & ?). set_solver. Qed.

Lemma seen_raise pre i j e :
  j ∈ pre → e = (span j).2 → (∀ k, k ∈ pre → (span k).2 ≤ e) →
  match (if (span i).2 <=? e then Some (j, e) else Some (i, (span i).2)) with
  | None => pre ++ [i] = []
  | Some (j, e) =>
      j ∈ pre ++ [i] ∧ e = (span j).2 ∧ ∀ k, k ∈ pre ++ [i] → (span k).2 ≤ e
  end.
Proof.
  intros Hj -> Hmax. destruct (Z.leb_spec (span i).2 (span j).2).
  - split_and!; [set_solver|done|].
    intros k [Hk| ->%list_elem_of_singleton]%elem_of_app; [by apply Hmax|done].
  - split_and!; [set_solver|done|].
    intros k [Hk| ->%list_elem_of_singleton]%elem_of_app; [|done].
    specialize (Hmax k Hk); lia.
Qed.

Lemma mark_step_seen pre st i :
  seen pre st → i ∉ pre → (i < length spans)%nat →
  (∀ k, k ∈ pre → (k < length spans)%nat ∧ (span k).1 ≤ (span i).1) →
  seen (pre ++ [i]) (mark_step spans st i).
Proof.
  destruct st as [flags [[j e]|]]; intros [Hlen Hhi Hsound Hcompl] Hni Hi Hpre; cbn in *.
  - destruct Hhi as (Hj & -> & Hmax). destruct (Hpre j Hj) as [Hjl Hjs].
    pose proof (span_order i Hi) as Hio.
    destruct (Z.leb_spec (span i).1 (span j).2) as [Hov|Hno].
    + constructor; cbn; [by rewrite !length_insert|by apply seen_raise| |].
      * intros k [->|[->|Hk]]%set_two; [| | |by rewrite Hlen..].
        -- split; [set_solver|]. exists j.
           split_and!; [set_solver|by intros ->|unfold overlap; lia].
        -- split; [set_solver|]. exists i.
           split_and!; [set_solver|by intros ->|unfold overlap; lia].
        -- by apply (seen_grow pre i flags).
      * intros k l Hk Hl Hkl Hkl_ov. apply set_two; [by rewrite Hlen..|].
        apply elem_of_app in Hk as [Hk|Hk%list_elem_of_singleton]; [|by left].
        apply elem_of_app in Hl as [Hl| ->%list_elem_of_singleton].
        -- right; right. by apply (Hcompl k l).
        -- destruct (decide (k = j)) as [->|Hkj]; [by right; left|]. right; right.
           destruct (Hpre k Hk). apply (Hcompl k j); [done..|].
           unfold overlap in *; lia.
    + constructor; cbn; [done|by apply seen_raise|by apply (seen_grow pre i flags)|].
      intros k l Hk Hl Hkl Hov.
      apply elem_of_app in Hk as [Hk| ->%list_elem_of_singleton];
      apply elem_of_app in Hl as [Hl| ->%list_elem_of_singleton].
      * by apply (Hcompl k l).
      * specialize (Hmax k Hk). unfold overlap in *; lia.
      * specialize (Hmax l Hl). unfold overlap in *; lia.
      * done.
  - subst pre. constructor; cbn; [done| | |].
    + split_and!; [set_solver|done|]. by intros k ->%list_elem_of_singleton.
    + intros k Hk. destruct (Hsound k Hk) as [Hk' _]. by apply elem_of_nil in Hk'.
    + intros k l ->%list_elem_of_singleton ->%list_elem_of_singleton. done.
Qed.

Lemma mark_pass pre post st :
  seen pre st → NoDup (pre ++ post) →
  (∀ k, k ∈ pre ++ post → (k < length spans)%nat) →
  StronglySorted (λ i j, ((span i).1 <=? (span j).1) = true) (pre ++ post) →
  seen (pre ++ post) (foldl (mark_step spans) st post).
Proof.
  revert pre st. induction post as [|i post IH]; intros pre st Hst Hnd Hlt Hso; cbn.
  { by rewrite app_nil_r. }
  rewrite cons_middle, app_assoc in *.
  assert (∀ k, k ∈ pre → (span k).1 ≤ (span i).1) as Hle.
  { intros k Hk. apply StronglySorted_app_1_l in Hso.
    apply Z.leb_le.
    apply (StronglySorted_app_1_elem_of (λ i j, ((span i).1 <=? (span j).1) = true)
             pre [i]); [done|done|set_solver]. }
  apply IH; [|done..]. apply mark_step_seen; [done| | |].
  - apply NoDup_app in Hnd as (Hnd & _ & _). apply NoDup_app in Hnd as (_ & Hnd & _).
    intros Hin. apply (Hnd i Hin). set_solver.
  - apply Hlt. set_solver.
  - intros k Hk. split; [apply Hlt; set_solver|by apply Hle].
Qed.

Lemma mark_overlaps_seen :
  ∃ order hi, order ≡ₚ seq 0 (length spans) ∧ seen order (mark_overlaps spans, hi).
Proof.
  set (leb i j := (span i).1 <=? (span j).1).
  pose proof (sort_by_perm leb (seq 0 (length spans))) as Hp.
  assert (sorted_by leb (sort_by leb (seq 0 (length spans)))) as Hs.
  { apply sort_by_sorted; unfold leb; intros; lia. }
  set (order := sort_by leb (seq 0 (length spans))) in *.
  exists order, (foldl (mark_step spans) (replicate (length spans) false, None) order).2.
  split; [done|].
  assert (mark_overlaps spans =
    (foldl (mark_step spans) (replicate (length spans) false, None) order).1) as -> by done.
  rewrite <-surjective_pairing.
  apply (mark_pass [] order); [apply seen_nil| | |exact Hs]; cbn.
  - rewrite Hp. apply NoDup_seq.
  - intros k. rewrite Hp. intros Hk%elem_of_seq. lia.
Qed.
End pass.

Lemma mark_step_length spans st i : length (mark_step spans st i).1 = length st.1.
Proof.
  destruct st as [flags [[j e]|]]; cbn; [|done].
  by destruct (_ <=? e); rewrite ?length_insert.
Qed.

Lemma mark_overlaps_length spans : length (mark_overlaps spans) = length spans.
Proof.
  assert (∀ order st, length (foldl (mark_step spans) st order).1 = length st.1) as H.
  { induction order as [|i order IH]; intros st; cbn -[mark_step]; [done|].
    by rewrite IH, mark_step_length. }
  unfold mark_overlaps. rewrite H. cbn. apply length_replicate.
Qed.

(** The one-pass function computes the definition: entry [i] is flagged
    exactly when some other entry shares a sector with it. *)
Lemma mark_overlaps_flag spans i : spans_forward spans →
  mark_overlaps spans !! i = Some true ↔ clashes spans i.
Proof.
  intros Hok. destruct (mark_overlaps_seen spans Hok) as (order & hi & Hp & Hseen).
  assert (∀ k, k ∈ order ↔ (k < length spans)%nat) as Hin.
  { intros k. rewrite Hp, elem_of_seq. lia. }
  split.
  - intros Hf. destruct (seen_sound _ _ _ Hseen i Hf) as (Hi & j & Hj & Hne & Ho).
    apply Hin in Hi, Hj. exists j, (span_at spans i), (span_at spans j).
    split_and!; try done; by apply list_lookup_lookup_total_lt.
  - intros (j & a & b & Hne & Ha & Hb & Ho).
    apply (seen_complete _ _ _ Hseen i j);
      [apply Hin; by eapply lookup_lt_Some..|done|].
    unfold span_at. by rewrite (list_lookup_total_correct _ _ _ Ha), (list_lookup_total_correct _ _ _ Hb).
Qed.

Lemma mark_overlaps_any spans : spans_forward spans →
  existsb id (mark_overlaps spans) = false ↔ disjoint_spans spans.
Proof.
  intros Hok. split.
  - intros Hf i j a b Hne Ha Hb Ho.
    assert (mark_overlaps spans !! i = Some true) as Ht.
    { apply mark_overlaps_flag; [done|]. exists j, a, b. naive_solver. }
    apply list_elem_of_lookup_2, list_elem_of_In in Ht.
    assert (existsb id (mark_overlaps spans) = true) by (apply existsb_exists; by exists true).
    congruence.
  - intros Hd. destruct (existsb id (mark_overlaps spans)) eqn:E; [|done].
    apply existsb_exists in E as (x & Hx & Hid). cbn in Hid. subst x.
    apply list_elem_of_In, list_elem_of_lookup in Hx as [i Hi].
    apply mark_overlaps_flag in Hi as (j & a & b & ? & ? & ? & Ho); [|done].
    exfalso. by apply (Hd i j a b).
Qed.

(** Disjointness does not depend on the order of the list. *)
Lemma disjoint_spans_cons a spans :
  disjoint_spans (a :: spans) ↔ Forall (λ b, ¬ overlap a b) spans ∧ disjoint_spans spans.
Proof.
  split.
  - intros H. split.
    + apply Forall_lookup. intros j b Hj. by apply (H O (S j)).
    + intros i j x y Hne Hi Hj. apply (H (S i) (S j)); [lia|done..].
  - intros [Hf Hd] [|i] [|j] x y Hne Hi Hj Ho; [done| | |].
    + injection Hi as <-. exact (Forall_lookup_1 _ _ _ _ Hf Hj Ho).
    + injection Hj as <-. exact (Forall_lookup_1 _ _ _ _ Hf Hi (overlap_sym _ _ Ho)).
    + apply (Hd i j x y); [lia|done..].
Qed.

Lemma disjoint_spans_nil : disjoint_spans [].
Proof. by intros i j a b _ Hi. Qed.

#[export] Instance disjoint_spans_perm : Proper ((≡ₚ) ==> iff) disjoint_spans.
Proof.
  assert (∀ l k, l ≡ₚ k → disjoint_spans l → disjoint_spans k) as H.
  { induction 1 as [|x l k Hp IH|x y l|l k m _ IH1 _ IH2]; [done| | |naive_solver].
    - rewrite !disjoint_spans_cons. intros [Hf Hd]. split; [by rewrite <- Hp|by apply IH].
    - rewrite !disjoint_spans_cons, !Forall_cons. naive_solver eauto using overlap_sym. }
  intros l k Hp. split; by apply H.
Qed.
