(* ===== verification/Slots.v ===== *)
(** * Which table slot each partition is written into

    src/gpt_write.rs, [assign_slots] and [assign_slots_with_taken], shared by
    the GPT writer and the MBR writer.  A partition that came off a disk keeps
    its slot; one without a slot takes the lowest that is free. *)
From S2P Require Import Prelude Bytes Device Table.

(** Take seat [slot], or say why it cannot be had. *)
Definition claim (past_the_end : string) (taken : list bool) (slot : Z)
    : Result Error (list bool) :=
  seat ← ok_or (taken !! Z.to_nat slot) (Invalid past_the_end);
  _ ← refuse_if seat (Invalid "two entries claim the same table slot");
  Ok (<[Z.to_nat slot := true]> taken).

(** The loop body for partitions: [continue] when it has no slot. *)
Definition claim_recorded (taken : list bool) (p : Partition) : Result Error (list bool) :=
  match p_slot p with
  | None => Ok taken
  | Some slot => claim "partition slot past the end of the table" taken slot
  end.

(** [while next_free < taken.len() && taken[next_free] { next_free += 1 }];
    the fuel is [taken.len()], which bounds the rounds. *)
Fixpoint skip_taken (fuel : nat) (taken : list bool) (next_free : nat) : nat :=
  match fuel with
  | O => next_free
  | S fuel =>
      match taken !! next_free with
      | Some true => skip_taken fuel taken (S next_free)
      | _ => next_free
      end
  end.

(** One round of the loop that builds the answer. *)
Definition place_one (st : nat * list bool * list Z) (p : Partition)
    : Result Error (nat * list bool * list Z) :=
  let '(next_free, taken, out) := st in
  match p_slot p with
  | Some slot => Ok (next_free, taken, out ++ [slot])
  | None =>
      let next_free := skip_taken (length taken) taken next_free in
      _ ← refuse_if (next_free =? length taken)%nat (Invalid "no free slot left in the table");
      Ok (next_free, <[next_free := true]> taken, out ++ [Z.of_nat next_free])
  end.

Definition assign_slots_with_taken (partitions : list Partition) (num_entries : Z)
    (pre_taken : list Z) : Result Error (list Z) :=
  let taken := replicate (Z.to_nat num_entries) false in
  taken ← foldM (claim "reserved entry slot past the end of the table") taken pre_taken;
  taken ← foldM claim_recorded taken partitions;
  '(_, _, out) ← foldM place_one (O, taken, []) partitions;
  Ok out.

Definition assign_slots (partitions : list Partition) (num_entries : Z)
    : Result Error (list Z) :=
  assign_slots_with_taken partitions num_entries [].

(** ** What it promises *)

(** The slots the partitions record. *)
Definition recorded (ps : list Partition) : list Z := omap p_slot ps.

Definition slot_in (n s : Z) : Prop := 0 ≤ s < n.

(** [out] is an assignment of [ps] into a table of [n] seats, of which those
    in [pre] are spoken for. *)
Record assignment (ps : list Partition) (n : Z) (pre out : list Z) : Prop := {
  asg_length : length out = length ps;
  asg_nodup : NoDup (pre ++ out);
  asg_range : Forall (slot_in n) (pre ++ out);
  asg_keeps : ∀ i p s, ps !! i = Some p → p_slot p = Some s → out !! i = Some s;
  asg_lowest : ∀ i p s, ps !! i = Some p → p_slot p = None → out !! i = Some s →
    ∀ t, 0 ≤ t < s → t ∈ pre ++ recorded ps ++ take i out;
}.

(** The seats a vector of flags marks. *)
Definition marks (n : nat) (taken : list bool) (S : list Z) : Prop :=
  length taken = n ∧
  ∀ k : nat, taken !! k = Some true ↔ (k < n)%nat ∧ Z.of_nat k ∈ S.

Lemma marks_none n : marks n (replicate n false) [].
Proof.
  split; [apply length_replicate|]. intros k. rewrite lookup_replicate. set_solver.
Qed.

Lemma marks_insert n taken S s : 0 ≤ s < Z.of_nat n →
  marks n taken S → marks n (<[Z.to_nat s := true]> taken) (S ++ [s]).
Proof.
  intros Hs [Hl Hm]. split; [by rewrite length_insert|]. intros k.
  rewrite list_lookup_insert, elem_of_app, list_elem_of_singleton. case_decide.
  - split; [|naive_solver lia]. intros _. split; [lia|right; lia].
  - rewrite Hm. split; [naive_solver|]. intros [? [?|?]]; [done|lia].
Qed.

Lemma marks_perm n taken S S' : S ≡ₚ S' → marks n taken S → marks n taken S'.
Proof. intros HS [Hl Hm]. split; [done|]. intros k. by rewrite Hm, HS. Qed.

Lemma claim_spec msg n taken S s : 0 ≤ s → marks n taken S →
  (slot_in (Z.of_nat n) s ∧ (s ∉ S) ∧ claim msg taken s = Ok (<[Z.to_nat s := true]> taken)) ∨
  (((¬ slot_in (Z.of_nat n) s) ∨ s ∈ S) ∧ ∃ e, claim msg taken s = Err e).
Proof.
  intros Hs [Hl Hm]. unfold claim, slot_in.
  destruct (taken !! Z.to_nat s) as [b|] eqn:E; cbn.
  - assert (Z.to_nat s < n)%nat by (rewrite <-Hl; by eapply lookup_lt_Some).
    destruct b; cbn.
    + right. split; [|by eexists]. right. apply Hm in E as [_ E].
      by rewrite Z2Nat.id in E by lia.
    + left. split_and!; [lia|lia| |done]. intros Hin.
      assert (taken !! Z.to_nat s = Some true) as Ht by (apply Hm; rewrite Z2Nat.id by lia; split; [lia|done]).
      congruence.
  - right. split; [|by eexists]. left. apply lookup_ge_None in E. lia.
Qed.

(** Claiming a list of seats succeeds exactly when they are distinct, in the
    table and not yet taken. *)
Lemma claim_all {A} (f : list bool → A → Result Error (list bool)) (g : A → option Z) msg
    n taken S l :
  (∀ t a, f t a = match g a with None => Ok t | Some s => claim msg t s end) →
  (∀ a s, a ∈ l → g a = Some s → 0 ≤ s) →
  marks n taken S → NoDup S →
  match foldM f taken l with
  | Ok taken' => marks n taken' (S ++ omap g l) ∧ NoDup (S ++ omap g l) ∧
                 Forall (slot_in (Z.of_nat n)) (omap g l)
  | Err _ => ¬ (NoDup (S ++ omap g l) ∧ Forall (slot_in (Z.of_nat n)) (omap g l))
  end.
Proof.
  intros Hf. revert taken S. induction l as [|a l IH]; intros taken S Hnn Hm Hnd.
  { cbn. rewrite app_nil_r. by split_and!. }
  cbn [foldM]. rewrite Hf. cbn [omap list_omap]. destruct (g a) as [s|] eqn:Eg; cbn.
  - destruct (claim_spec msg n taken S s) as [(Hin & Hni & ->)|([Hout|Hin] & e & ->)];
      [eapply Hnn; set_solver|done| | |]; cbn.
    + specialize (IH (<[Z.to_nat s:=true]> taken) (S ++ [s])).
      rewrite <-app_assoc in IH. cbn in IH.
      assert (NoDup (S ++ [s])) as Hnd'.
      { apply NoDup_app. split_and!; [done| |apply NoDup_singleton]. set_solver. }
      specialize (IH ltac:(set_solver) (marks_insert _ _ _ _ Hin Hm) Hnd').
      destruct (foldM f _ l).
      * destruct IH as (? & ? & ?). split_and!; [done|done|by constructor].
      * intros [? H%Forall_cons]. naive_solver.
    + intros [_ H%Forall_cons]. naive_solver.
    + intros [H%NoDup_app _]. destruct H as (_ & H & _). apply (H s Hin). set_solver.
  - apply IH; [set_solver|done|done].
Qed.

Lemma skip_taken_spec taken next fuel :
  (next + fuel = length taken)%nat →
  (next ≤ skip_taken fuel taken next)%nat ∧
  (∀ k, (next ≤ k < skip_taken fuel taken next)%nat → taken !! k = Some true) ∧
  (skip_taken fuel taken next ≤ length taken)%nat ∧
  taken !! skip_taken fuel taken next ≠ Some true.
Proof.
  revert next; induction fuel as [|fuel IH]; intros next Hf; cbn.
  { split_and!; [lia|lia|lia|]. rewrite lookup_ge_None_2 by lia. done. }
  destruct (taken !! next) as [[]|] eqn:E.
  - destruct (IH (S next)) as (H1 & H2 & H3 & H4); [lia|].
    split_and!; [lia| |lia|done]. intros k Hk.
    destruct (decide (k = next)) as [->|]; [done|]. apply H2. lia.
  - split_and!; [lia|lia|lia|congruence].
  - split_and!; [lia|lia|lia|congruence].
Qed.

(** More fuel than rounds changes nothing. *)
Lemma skip_taken_fuel taken next fuel :
  (length taken ≤ next + fuel)%nat →
  skip_taken fuel taken next = skip_taken (length taken - next) taken next.
Proof.
  revert next; induction fuel as [|fuel IH]; intros next Hf.
  { by replace (length taken - next)%nat with O by lia. }
  cbn [skip_taken]. destruct (taken !! next) as [[]|] eqn:E.
  - assert (next < length taken)%nat by (by eapply lookup_lt_Some).
    replace (length taken - next)%nat with (S (length taken - S next)) by lia. cbn.
    rewrite E. apply IH. lia.
  - destruct (length taken - next)%nat; cbn; by rewrite ?E.
  - apply lookup_ge_None in E. by replace (length taken - next)%nat with O by lia.
Qed.

Lemma skip_taken_spec' taken next : (next ≤ length taken)%nat →
  let k := skip_taken (length taken) taken next in
  (next ≤ k ≤ length taken)%nat ∧
  (∀ i, (next ≤ i < k)%nat → taken !! i = Some true) ∧ taken !! k ≠ Some true.
Proof.
  intros Hn k. subst k. rewrite skip_taken_fuel by lia.
  destruct (skip_taken_spec taken next (length taken - next)) as (?&?&?&?); [lia|].
  split_and!; auto.
Qed.

(** The placing loop, as a relation: [news] are the seats handed out so far
    beyond the [base] ones that were claimed. *)
Inductive placed (n : Z) (base : list Z) : list Z → list Partition → list Z → Prop :=
| placed_nil news : placed n base news [] []
| placed_kept news p s ps out :
    p_slot p = Some s → placed n base news ps out →
    placed n base news (p :: ps) (s :: out)
| placed_fresh news p s ps out :
    p_slot p = None → slot_in n s → s ∉ base ++ news →
    (∀ t, 0 ≤ t < s → t ∈ base ++ news) →
    placed n base (news ++ [s]) ps out →
    placed n base news (p :: ps) (s :: out).

(** How many partitions still need a seat. *)
Fixpoint unplaced (ps : list Partition) : nat :=
  match ps with
  | [] => O
  | p :: ps => match p_slot p with None => S (unplaced ps) | Some _ => unplaced ps end
  end.

Lemma all_seats_taken n (S : list Z) :
  (∀ k : nat, (k < n)%nat → Z.of_nat k ∈ S) → (n ≤ length S)%nat.
Proof.
  intros H. assert (Z.of_nat <$> seq 0 n ⊆+ S) as Hs.
  { apply NoDup_submseteq.
    - apply NoDup_fmap_2; [apply _|apply NoDup_seq].
    - intros x (k & -> & Hk%elem_of_seq)%list_elem_of_fmap. apply H. lia. }
  apply submseteq_length in Hs. by rewrite length_fmap, length_seq in Hs.
Qed.

Lemma place_all n base rest taken next out news :
  marks n taken (base ++ news) → (next ≤ n)%nat →
  (∀ k : nat, (k < next)%nat → Z.of_nat k ∈ base ++ news) →
  match foldM place_one (next, taken, out) rest with
  | Ok (_, _, out') => ∃ tail, out' = out ++ tail ∧ placed (Z.of_nat n) base news rest tail
  | Err _ => (n < length (base ++ news) + unplaced rest)%nat
  end.
Proof.
  revert taken next out news. induction rest as [|p rest IH];
    intros taken next out news Hm Hn Hlow; cbn.
  { exists []. rewrite app_nil_r. split; [done|constructor]. }
  destruct (p_slot p) as [s|] eqn:Ep; cbn.
  - specialize (IH taken next (out ++ [s]) news Hm Hn Hlow).
    destruct (foldM place_one _ rest) as [[[??]?]|]; [|done].
    destruct IH as (tail & -> & ?). exists (s :: tail).
    rewrite <-app_assoc. split; [done|by constructor].
  - pose proof (skip_taken_spec' taken next) as Hk. cbn in Hk.
    destruct (proj1 Hm). destruct (Hk Hn) as (Hk1 & Hk2 & Hk3). clear Hk.
    set (k := skip_taken (length taken) taken next) in *.
    assert (∀ i : nat, (i < k)%nat → Z.of_nat i ∈ base ++ news) as Hall.
    { intros i Hi. destruct (decide (i < next)%nat); [by apply Hlow|].
      apply (proj1 (proj2 Hm i)). apply Hk2. lia. }
    destruct (Nat.eqb_spec k (length taken)) as [Hfull|Hfree]; cbn.
    + assert (length taken ≤ length (base ++ news))%nat by (apply all_seats_taken; rewrite <-Hfull; done).
      lia.
    + assert (Z.of_nat k ∉ base ++ news) as Hni.
      { intros Hin. apply Hk3, (proj2 Hm). split; [lia|done]. }
      assert (slot_in (Z.of_nat (length taken)) (Z.of_nat k)) as Hsk by (unfold slot_in; lia).
      pose proof (marks_insert _ _ _ _ Hsk Hm) as Hm'. rewrite Nat2Z.id, <-app_assoc in Hm'.
      specialize (IH (<[k:=true]> taken) k (out ++ [Z.of_nat k]) (news ++ [Z.of_nat k])
                    Hm' ltac:(lia)).
      assert (∀ i : nat, (i < k)%nat → Z.of_nat i ∈ base ++ news ++ [Z.of_nat k]) as Hall'
        by (intros i Hi; specialize (Hall i Hi); set_solver).
      specialize (IH Hall').
      destruct (foldM place_one _ rest) as [[[??]?]|].
      * destruct IH as (tail & -> & ?). exists (Z.of_nat k :: tail).
        rewrite <-app_assoc. split; [done|]. apply placed_fresh; try done.
        intros t Ht. specialize (Hall (Z.to_nat t)). rewrite Z2Nat.id in Hall by lia.
        apply Hall. lia.
      * rewrite !length_app in *. cbn in *. lia.
Qed.

Lemma placed_perm n base news ps out :
  placed n base news ps out → NoDup (base ++ news) → Forall (slot_in n) (base ++ news) →
  ∃ fresh, out ≡ₚ recorded ps ++ fresh ∧ NoDup (base ++ news ++ fresh) ∧
           Forall (slot_in n) fresh.
Proof.
  induction 1 as [|news p s ps out Hp _ IH|news p s ps out Hp Hs Hni Hlow _ IH];
    intros Hnd Hr; unfold recorded in *; cbn.
  - exists []. by rewrite app_nil_r.
  - destruct (IH Hnd Hr) as (fr & Ho & ? & ?). exists fr. rewrite Hp. cbn.
    by rewrite Ho.
  - destruct IH as (fr & Ho & Hnd' & Hr').
    { rewrite app_assoc. apply NoDup_app. split_and!; [done| |apply NoDup_singleton].
      intros x Hx ->%list_elem_of_singleton. done. }
    { rewrite app_assoc. apply Forall_app. split; [done|by constructor]. }
    exists (s :: fr). rewrite Hp. rewrite <-app_assoc in Hnd'. split_and!; [|done|by constructor].
    rewrite Ho. by rewrite Permutation_middle.
Qed.

Lemma placed_length n base news ps out : placed n base news ps out → length out = length ps.
Proof. induction 1; cbn; congruence. Qed.

Lemma placed_keeps n base news ps out : placed n base news ps out →
  ∀ i p s, ps !! i = Some p → p_slot p = Some s → out !! i = Some s.
Proof.
  induction 1 as [|news p s ps out Hp _ IH|news p s ps out Hp Hs Hni Hlow _ IH];
    intros [|i] q t Hq Ht; cbn in *; simplify_eq; eauto; congruence.
Qed.

Lemma placed_lowest n base news ps out : placed n base news ps out →
  ∀ i p s, ps !! i = Some p → p_slot p = None → out !! i = Some s →
  ∀ t, 0 ≤ t < s → t ∈ base ++ news ++ take i out.
Proof.
  induction 1 as [|news p s ps out Hp _ IH|news p s ps out Hp Hs Hni Hlow _ IH];
    intros [|i] q t Hq Ht Ho u Hu; cbn in *; simplify_eq.
  - specialize (IH i q t Hq Ht Ho u Hu). set_solver.
  - rewrite app_nil_r. by apply Hlow.
  - specialize (IH i q t Hq Ht Ho u Hu). set_solver.
Qed.

(** A partition keeps the slot it records, and every recorded slot is a
    [u32]. *)
Definition slots_nonneg (ps : list Partition) : Prop :=
  ∀ p s, p ∈ ps → p_slot p = Some s → 0 ≤ s.

Lemma recorded_nonneg ps s : slots_nonneg ps → s ∈ recorded ps → 0 ≤ s.
Proof. intros H (p & Hp & Hs)%list_elem_of_omap. by eapply H. Qed.

Lemma assign_slots_cases ps n pre : 0 ≤ n → slots_nonneg ps → Forall (λ s, 0 ≤ s) pre →
  match assign_slots_with_taken ps n pre with
  | Ok out => assignment ps n pre out
  | Err _ => ¬ (NoDup (pre ++ recorded ps) ∧ Forall (slot_in n) (pre ++ recorded ps) ∧
                zlen pre + zlen ps ≤ n)
  end.
Proof.
  intros Hn Hps Hpre. unfold assign_slots_with_taken.
  pose proof (claim_all (claim "reserved entry slot past the end of the table") Some
    "reserved entry slot past the end of the table" (Z.to_nat n) (replicate (Z.to_nat n) false)
    [] pre) as Hc1.
  assert (omap Some pre = pre) as Epre by (clear; induction pre; cbn; congruence).
  rewrite Epre, Z2Nat.id in Hc1 by lia. cbn in Hc1.
  specialize (Hc1 ltac:(done) ltac:(intros a s Ha [= <-]; exact (proj1 (list.Forall_forall _ _) Hpre a Ha))
    (marks_none _) ltac:(constructor)).
  destruct (foldM (claim _) _ pre) as [taken|]; cbn; [|rewrite NoDup_app, Forall_app; naive_solver].
  destruct Hc1 as (Hm1 & Hnd1 & Hr1).
  pose proof (claim_all claim_recorded p_slot "partition slot past the end of the table"
    (Z.to_nat n) taken pre ps) as Hc2. rewrite Z2Nat.id in Hc2 by lia.
  specialize (Hc2 ltac:(done) ltac:(intros; by eapply Hps) Hm1 Hnd1).
  fold (recorded ps) in Hc2.
  destruct (foldM claim_recorded taken ps) as [taken2|]; cbn;
    [|rewrite Forall_app; naive_solver].
  destruct Hc2 as (Hm2 & Hnd2 & Hr2).
  pose proof (place_all (Z.to_nat n) (pre ++ recorded ps) ps taken2 0 [] []) as Hp.
  rewrite app_nil_r in Hp. specialize (Hp Hm2 ltac:(lia) ltac:(lia)).
  rewrite Z2Nat.id in Hp by lia.
  assert (Forall (slot_in n) (pre ++ recorded ps)) as Hr by by apply Forall_app.
  destruct (foldM place_one _ ps) as [[[??] out]|]; cbn.
  - destruct Hp as (tail & -> & Hp). cbn.
    destruct (placed_perm _ _ _ _ _ Hp) as (fr & Hfr & Hfr1 & Hfr2); [by rewrite app_nil_r..|].
    cbn in Hfr1. constructor.
    + by eapply placed_length.
    + by rewrite Hfr, app_assoc.
    + rewrite Hfr, app_assoc. by apply Forall_app.
    + by eapply placed_keeps.
    + intros i p s Hi Hs Ho t Ht. pose proof (placed_lowest _ _ _ _ _ Hp i p s Hi Hs Ho t Ht).
      set_solver.
  - intros (_ & _ & Hlen).
    assert (length (recorded ps) + unplaced ps = length ps)%nat as Hcount.
    { clear. unfold recorded. induction ps as [|p ps IH]; cbn; [done|].
      destruct (p_slot p); cbn; lia. }
    rewrite length_app in Hp. unfold zlen in Hlen. lia.
Qed.

(** An assignment exists only where the recorded slots are distinct and in
    range. *)
Lemma assignment_recorded ps n pre out : assignment ps n pre out →
  NoDup (pre ++ recorded ps) ∧ Forall (slot_in n) (pre ++ recorded ps).
Proof.
  intros [Hl Hnd Hr Hk _].
  assert (∃ rest, out ≡ₚ recorded ps ++ rest) as [rest Hp].
  { clear Hnd Hr. revert out Hl Hk; induction ps as [|p ps IH]; intros [|s out] Hl Hk; try done.
    { by exists []. }
    destruct (IH out) as [rest Hrest]; [cbn in Hl; lia|intros i; apply (Hk (S i))|].
    cbn. destruct (p_slot p) as [t|] eqn:E.
    - pose proof (Hk 0%nat p t eq_refl E) as [= ->]. exists rest. by rewrite Hrest.
    - exists (s :: rest). rewrite Hrest. apply Permutation_middle. }
  rewrite Hp, app_assoc in Hnd, Hr. apply NoDup_app in Hnd as [? _]. by apply Forall_app in Hr as [? _].
Qed.
