(* ===== verification/Mbr.v ===== *)
(** * src/mbr.rs: the MBR partition table

    The reader ([parse_all_entries], [parse], [reserved_entries],
    [lba0_entries]), the protective-MBR tests, the CHS address of an LBA, and
    the writer ([write_mbr_assigning_slots]) over a device.  A sector is a
    list of 512 bytes. *)
From S2P Require Import Prelude Bytes Device Table Slots.

Module layout.
Definition TABLE_START : Z := 446.
Definition ENTRY_SIZE : Z := 16.
Definition ENTRY_COUNT : Z := 4.
Definition entry_at (i : Z) : Z := TABLE_START + i * ENTRY_SIZE.
Definition STATUS : Z := 0.
Definition TYPE_BYTE : Z := 4.
Definition START_LBA : Z := 8.
Definition SECTOR_COUNT : Z := 12.
End layout.

Module types.
Definition EMPTY : Z := 0x00.
Definition FAT12 : Z := 0x01.
Definition FAT16_SMALL : Z := 0x04.
Definition EXTENDED_CHS : Z := 0x05.
Definition FAT16 : Z := 0x06.
Definition NTFS_OR_EXFAT : Z := 0x07.
Definition FAT32_CHS : Z := 0x0B.
Definition FAT32_LBA : Z := 0x0C.
Definition FAT16_LBA : Z := 0x0E.
Definition EXTENDED_LBA : Z := 0x0F.
Definition LINUX_SWAP : Z := 0x82.
Definition LINUX : Z := 0x83.
Definition LINUX_EXTENDED : Z := 0x85.
Definition LINUX_LVM : Z := 0x8E.
Definition HFS_PLUS : Z := 0xAF.
Definition SOLARIS : Z := 0xBF.
Definition FREEBSD : Z := 0xA5.
Definition OPENBSD : Z := 0xA6.
Definition NETBSD : Z := 0xA9.
Definition GPT_PROTECTIVE : Z := 0xEE.
Definition EFI_SYSTEM : Z := 0xEF.
End types.

Definition TYPE_GPT_PROTECTIVE : Z := types.GPT_PROTECTIVE.

(** ** CHS addresses *)
Definition CHS_HEADS : Z := 255.
Definition CHS_SECTORS : Z := 63.
Definition CHS_MAX_CYLINDER : Z := 1023.

Definition chs_for_lba (lba : Z) : list Z :=
  let per_cylinder := CHS_HEADS * CHS_SECTORS in
  let cylinder := lba / per_cylinder in
  if CHS_MAX_CYLINDER <? cylinder then [0xFF; 0xFF; 0xFF]
  else
    let within := lba mod per_cylinder in
    let head := within / CHS_SECTORS in
    let sector := within mod CHS_SECTORS + 1 in
    [u8 head;
     Z.lor (u8 sector) (u8 (Z.shiftl (u8 (Z.shiftr cylinder 8)) 6));
     Z.land cylinder 0xFF].

(** ** What the four entries are *)

(** The indices [0..layout::ENTRY_COUNT]. *)
Definition entry_indices : list Z := seqZ 0 layout.ENTRY_COUNT.

Definition type_byte_at (lba0 : list Z) (i : Z) : Z :=
  byte_at lba0 (layout.entry_at i + layout.TYPE_BYTE).

(** The loop of [is_protective], with its two accumulators. *)
Definition is_protective (lba0 : list Z) : bool :=
  let '(nonempty, all_protective) :=
    foldl (λ '(nonempty, all_protective) i,
      let type_byte := type_byte_at lba0 i in
      if type_byte =? types.EMPTY then (nonempty, all_protective)
      else (nonempty + 1,
            if type_byte =? TYPE_GPT_PROTECTIVE then all_protective else false))
      (0, true) entry_indices in
  (nonempty =? 1) && all_protective.

Definition has_gpt_marker (lba0 : list Z) : bool :=
  existsb (λ i, type_byte_at lba0 i =? TYPE_GPT_PROTECTIVE) entry_indices.

Definition STATUS_ACTIVE : Z := 0x80.

Inductive EntryRole := Volume | ExtendedContainer | GptProtective.
#[export] Instance EntryRole_eq_dec : EqDecision EntryRole.
Proof. solve_decision. Defined.

Definition entry_role (type_byte : Z) : EntryRole :=
  if (type_byte =? types.EXTENDED_CHS) || (type_byte =? types.EXTENDED_LBA)
     || (type_byte =? types.LINUX_EXTENDED)
  then ExtendedContainer
  else if type_byte =? types.GPT_PROTECTIVE then GptProtective
  else Volume.

(** ** Reading the table *)

(** One round of the loop of [parse_all_entries]. *)
Definition parse_entry (lba0 : list Z) (device_size i : Z) : Result Error (option Partition) :=
  let off := layout.entry_at i in
  let status := byte_at lba0 off in
  let type_byte := byte_at lba0 (off + layout.TYPE_BYTE) in
  if type_byte =? types.EMPTY then Ok None
  else
    let starting_lba := le32 lba0 (off + 8) in
    let sectors := le32 lba0 (off + 12) in
    if sectors =? 0 then Ok None
    else
      let start := starting_lba * SECTOR_SIZE in
      let len := sectors * SECTOR_SIZE in
      let active := negb (Z.land status STATUS_ACTIVE =? 0) in
      Ok (Some (mkPartition start len (KindMbr type_byte active) None None (Some i) 0
                  (available_on_device start len device_size))).

Definition parse_all_entries (lba0 : list Z) (device_size : Z) : Result Error (list Partition) :=
  collectM (parse_entry lba0 device_size) entry_indices.

Definition is_volume (p : Partition) : bool :=
  match p_kind p with
  | KindMbr type_byte _ => bool_decide (entry_role type_byte = Volume)
  | _ => true
  end.

Definition parse (lba0 : list Z) (device_size : Z) : Result Error (list Partition) :=
  all ← parse_all_entries lba0 device_size;
  Ok (List.filter is_volume all).

Record ReservedEntry := mkReserved { r_slot : Z; r_bytes : list Z }.
#[export] Instance ReservedEntry_eq_dec : EqDecision ReservedEntry.
Proof. solve_decision. Defined.

(** [ReservedEntry::span]. *)
Definition reserved_span (r : ReservedEntry) : option (Z * Z) :=
  if byte_at (r_bytes r) layout.TYPE_BYTE =? types.GPT_PROTECTIVE then None
  else
    let start := le32 (r_bytes r) layout.START_LBA in
    let count := le32 (r_bytes r) layout.SECTOR_COUNT in
    if count =? 0 then None else Some (start, start + count - 1).

(** One round of [reserved_entries]: what [parse] leaves out. *)
Definition reserved_entry (lba0 : list Z) (i : Z) : option ReservedEntry :=
  let off := layout.entry_at i in
  let type_byte := byte_at lba0 (off + layout.TYPE_BYTE) in
  if type_byte =? types.EMPTY then None
  else
    let sectors := le32 lba0 (off + layout.SECTOR_COUNT) in
    if bool_decide (entry_role type_byte = Volume) && negb (sectors =? 0) then None
    else Some (mkReserved i (bslice lba0 off (off + layout.ENTRY_SIZE))).

Definition reserved_entries (lba0 : list Z) : list ReservedEntry :=
  omap (reserved_entry lba0) entry_indices.

Definition lba0_entries (lba0 : list Z) : list ReservedEntry :=
  if negb (bytes_eqb (bslice lba0 510 512) [0x55; 0xAA]) then []
  else
    omap (λ i,
      let off := layout.entry_at i in
      if byte_at lba0 (off + layout.TYPE_BYTE) =? types.EMPTY then None
      else Some (mkReserved i (bslice lba0 off (off + layout.ENTRY_SIZE)))) entry_indices.

(** ** Writing the table *)
Definition validate_mbr_partition (p : Partition) (total_bytes : Z) : Result Error unit :=
  _ ← match p_kind p with
      | KindMbr _ _ => Ok tt
      | _ => Err (Invalid "non-MBR partition kind in MBR write")
      end;
  _ ← refuse_if (p_length p =? 0) (Invalid "partition has zero length");
  _ ← refuse_if (negb (is_multiple_of (p_start p) SECTOR_SIZE)
                 || negb (is_multiple_of (p_length p) SECTOR_SIZE))
        (Invalid "partition not sector-aligned");
  '(start_lba, _) ← sector_span p;
  let sectors := p_length p / SECTOR_SIZE in
  _ ← refuse_if ((MBR_LBA_MAX <? start_lba) || (MBR_LBA_MAX <? sectors))
        (Invalid "partition exceeds MBR 32-bit LBA range");
  _ ← refuse_if (start_lba <? 1) (Invalid "MBR partition cannot start at LBA 0");
  end_ ← ok_or (checked_add (p_start p) (p_length p))
           (Invalid "a partition's start and length overflow a u64");
  refuse_if (total_bytes <? end_) (Invalid "partition extends past device end").

(** The first loop: each partition is validated before its span is taken. *)
Definition mbr_spans (partitions : list Partition) (total_bytes : Z)
    : Result Error (list (Z * Z)) :=
  collectM (λ p, _ ← validate_mbr_partition p total_bytes;
                 s ← sector_span p; Ok (Some s)) partitions.

(** [spans.windows(2).any(|pair| pair[1].0 <= pair[0].1)]. *)
Fixpoint neighbours_clash (spans : list (Z * Z)) : bool :=
  match spans with
  | a :: (b :: _) as rest => (b.1 <=? a.2) || neighbours_clash rest
  | _ => false
  end.

(** A preserved entry, put back verbatim. *)
Definition put_reserved (sector : list Z) (r : ReservedEntry) : list Z :=
  bput sector (layout.entry_at (r_slot r)) (r_bytes r).

(** One round of the loop that lays the partitions down. *)
Definition put_partition (existing sector : list Z) (pslot : Partition * Z)
    : Result Error (list Z) :=
  let '(p, slot) := pslot in
  let off := layout.entry_at slot in
  '(type_byte, active) ←
    match p_kind p with
    | KindMbr type_byte active => Ok (type_byte, active)
    | _ => Err (Invalid "non-MBR partition kind in MBR write")
    end;
  let start_lba := u32 (p_start p / SECTOR_SIZE) in
  let sectors := u32 (p_length p / SECTOR_SIZE) in
  let sector := bput sector off [if (active : bool) then STATUS_ACTIVE else 0x00] in
  let old := bslice existing off (off + layout.ENTRY_SIZE) in
  let same_range :=
    negb (byte_at old layout.TYPE_BYTE =? types.EMPTY)
    && bytes_eqb (bslice old layout.START_LBA (layout.START_LBA + 4)) (le_bytes 4 start_lba)
    && bytes_eqb (bslice old layout.SECTOR_COUNT (layout.SECTOR_COUNT + 4)) (le_bytes 4 sectors) in
  let sector :=
    if same_range then
      let chs := bslice old 1 8 in
      bput (bput sector (off + 1) (bslice chs 0 3)) (off + 5) (bslice chs 4 7)
    else sector in
  let sector := bput sector (off + layout.TYPE_BYTE) [type_byte] in
  let sector := bput sector (off + layout.START_LBA) (le_bytes 4 start_lba) in
  let sector := bput sector (off + layout.SECTOR_COUNT) (le_bytes 4 sectors) in
  Ok sector.

Section writer.
Context {D : Type} `{!BlockDevice D}.

Definition write_mbr_assigning_slots (partitions : list Partition)
    (reserved : list ReservedEntry) : DevM D (list Z) :=
  writable ← dev_is_writable;
  _ ← pure_result (refuse_if (negb writable) (Block ReadOnly));
  _ ← pure_result (refuse_if (layout.ENTRY_COUNT <? zlen partitions + zlen reserved)
        (Invalid "MBR supports at most 4 primary partitions"));
  total_bytes ← dev_size_bytes;
  _ ← pure_result (refuse_if (total_bytes <? SECTOR_SIZE) DeviceTooSmall);
  spans ← pure_result (mbr_spans partitions total_bytes);
  let spans := sort_by pair_leb (spans ++ omap reserved_span reserved) in
  _ ← pure_result (refuse_if (neighbours_clash spans) (Invalid "partitions overlap"));
  let taken := map r_slot reserved in
  slots ← pure_result (assign_slots_with_taken partitions layout.ENTRY_COUNT taken);
  existing ← dev_read 0 SECTOR_SIZE;
  let sector := bzero existing layout.TABLE_START
                  (layout.TABLE_START + layout.ENTRY_COUNT * layout.ENTRY_SIZE) in
  let sector := foldl put_reserved sector reserved in
  sector ← pure_result (foldM (put_partition existing) sector (zip partitions slots));
  let sector := bput (bput sector 510 [0x55]) 511 [0xAA] in
  _ ← dev_write 0 sector;
  mret slots.

Definition write_mbr_preserving (partitions : list Partition)
    (reserved : list ReservedEntry) : DevM D unit :=
  _ ← write_mbr_assigning_slots partitions reserved; mret tt.

Definition write_mbr (partitions : list Partition) : DevM D unit :=
  write_mbr_preserving partitions [].
End writer.
