(* ===== verification/MbrCodec.v ===== *)
(** * The MBR codec: CHS addresses and the sixteen bytes of an entry

    [chs_decode] is the address scheme a BIOS reads; [chs_for_lba] inverts it
    where it reaches.  The entry lemmas say what [Mbr.parse_entry] reads from
    the bytes [Mbr.put_partition] writes. *)
From S2P Require Import Prelude Bytes Device Table Rules Slots Mbr.

(** ** CHS *)

(** The cylinder, head and sector a CHS field of an MBR entry names. *)
Definition chs_decode (b : list Z) : Z * Z * Z :=
  (byte_at b 2 + 256 * (byte_at b 1 / 64), byte_at b 0, byte_at b 1 mod 64).

(** The LBA of a CHS address on the conventional geometry. *)
Definition chs_lba (chs : Z * Z * Z) : Z :=
  let '(c, h, s) := chs in (c * CHS_HEADS + h) * CHS_SECTORS + (s - 1).

(** The first LBA CHS cannot name. *)
Definition CHS_LIMIT : Z := (CHS_MAX_CYLINDER + 1) * CHS_HEADS * CHS_SECTORS.

(** Two disjoint bit fields: six bits of sector, two of cylinder. *)
Lemma lor_fields a b : 0 ≤ a < 64 → 0 ≤ b < 4 → Z.lor a (b * 64) = a + b * 64.
Proof.
  intros Ha Hb.
  assert (∀ x y, x ∈ seqZ 0 64 → y ∈ seqZ 0 4 → (Z.lor x (y * 64) =? x + y * 64) = true) as H.
  { intros x y Hx Hy.
    assert (forallb (λ x, forallb (λ y, Z.lor x (y * 64) =? x + y * 64) (seqZ 0 4)) (seqZ 0 64) = true)
      as Hall by (vm_compute; reflexivity).
    rewrite forallb_forall in Hall. specialize (Hall x (proj1 (list_elem_of_In _ _) Hx)).
    rewrite forallb_forall in Hall. apply Hall. by apply list_elem_of_In. }
  apply Z.eqb_eq, H; apply elem_of_seqZ; lia.
Qed.

(** The three bytes of an address in reach. *)
Lemma chs_for_lba_fields lba : 0 ≤ lba < CHS_LIMIT →
  chs_for_lba lba =
  [lba mod 16065 / 63; lba mod 16065 mod 63 + 1 + (lba / 16065) / 256 * 64; (lba / 16065) mod 256].
Proof.
  unfold CHS_LIMIT, chs_for_lba, CHS_MAX_CYLINDER, CHS_HEADS, CHS_SECTORS.
  change (255 * 63) with 16065. change ((1023 + 1) * 255 * 63) with 16450560.
  intros H. rewrite (proj2 (Z.ltb_ge _ _)) by dlia.
  rewrite Z.shiftr_div_pow2, Z.shiftl_mul_pow2 by lia.
  change (2 ^ 8) with 256. change (2 ^ 6) with 64.
  change 0xFF with (Z.ones 8). rewrite (Z.land_ones (lba / 16065) 8) by lia.
  change (2 ^ 8) with 256.
  unfold u8. change (2 ^ 8) with 256.
  assert (0 ≤ lba / 16065 < 1024) by dlia. assert (0 ≤ lba mod 16065 < 16065) by dlia.
  assert (0 ≤ lba mod 16065 / 63 < 255) by dlia. assert (0 ≤ lba mod 16065 mod 63 < 63) by dlia.
  assert (0 ≤ lba / 16065 / 256 < 4) by dlia.
  rewrite (Z.mod_small (lba mod 16065 / 63)), (Z.mod_small (_ + 1)),
    (Z.mod_small (lba / 16065 / 256)), (Z.mod_small (_ * 64)) by lia.
  rewrite lor_fields by lia. done.
Qed.

Lemma chs_for_lba_ok lba : 0 ≤ lba → zlen (chs_for_lba lba) = 3 ∧ bytes_ok (chs_for_lba lba).
Proof.
  intros H. destruct (decide (lba < CHS_LIMIT)).
  - rewrite chs_for_lba_fields by done. split; [done|].
    unfold CHS_LIMIT, CHS_MAX_CYLINDER, CHS_HEADS, CHS_SECTORS, bytes_ok, is_u8 in *.
    rewrite !Forall_cons. split_and!; try done; dlia.
  - unfold chs_for_lba. rewrite (proj2 (Z.ltb_lt _ _)).
    + split; [done|]. repeat constructor; done.
    + unfold CHS_LIMIT, CHS_MAX_CYLINDER, CHS_HEADS, CHS_SECTORS in *. dlia.
Qed.

(** ** Entries *)

(** The sixteen bytes of entry [i]. *)
Definition mbr_win (sector : list Z) (i : Z) : list Z :=
  bslice sector (layout.entry_at i) (layout.entry_at i + layout.ENTRY_SIZE).

(** What [parse_entry] makes of sixteen bytes found in slot [i]. *)
Definition read_bytes (size i : Z) (w : list Z) : option Partition :=
  if (byte_at w 4 =? types.EMPTY) || (le32 w 12 =? 0) then None
  else
    let start := le32 w 8 * SECTOR_SIZE in
    let len := le32 w 12 * SECTOR_SIZE in
    Some (mkPartition start len
            (KindMbr (byte_at w 4) (negb (Z.land (byte_at w 0) STATUS_ACTIVE =? 0)))
            None None (Some i) 0 (available_on_device start len size)).

Lemma parse_entry_win sector size i : 0 ≤ i →
  parse_entry sector size i = Ok (read_bytes size i (mbr_win sector i)).
Proof.
  intros Hi. unfold parse_entry, read_bytes, mbr_win.
  assert (0 ≤ layout.entry_at i) by (unfold layout.entry_at, layout.TABLE_START, layout.ENTRY_SIZE; lia).
  unfold layout.TYPE_BYTE, layout.ENTRY_SIZE.
  rewrite <- !byte_at_window, <- !le32_window, !Z.add_0_r by lia.
  repeat case_match; try done; cbn in *; congruence.
Qed.

(** Sixteen bytes that say what partition [p] is. *)
Record says (w : list Z) (p : Partition) : Prop := {
  says_length : zlen w = 16;
  says_type : ∃ b, p_kind p = KindMbr (byte_at w 4) b ∧
    byte_at w 0 = (if b then STATUS_ACTIVE else 0);
  says_start : le32 w 8 = p_start p / SECTOR_SIZE;
  says_sectors : le32 w 12 = p_length p / SECTOR_SIZE;
}.

(** The partition a reader makes of one that was written into [slot]. *)
Definition as_read (size : Z) (p : Partition) (slot : Z) : Partition :=
  mkPartition (p_start p) (p_length p) (p_kind p) None None (Some slot) 0
    (available_on_device (p_start p) (p_length p) size).

(** What the writer demands of one partition on a device of [total] bytes. *)
Definition mbr_valid (total : Z) (p : Partition) : Prop :=
  (∃ t a, p_kind p = KindMbr t a) ∧ 0 < p_length p ∧
  is_multiple_of (p_start p) SECTOR_SIZE = true ∧ is_multiple_of (p_length p) SECTOR_SIZE = true ∧
  1 ≤ p_start p / SECTOR_SIZE ≤ MBR_LBA_MAX ∧ p_length p / SECTOR_SIZE ≤ MBR_LBA_MAX ∧
  p_start p + p_length p < 2 ^ 64 ∧ p_start p + p_length p ≤ total.

Definition type_of (p : Partition) : Z := match p_kind p with KindMbr t _ => t | _ => 0 end.

Lemma read_says size total i w p : mbr_valid total p → says w p →
  read_bytes size i w = if type_of p =? 0 then None else Some (as_read size p i).
Proof.
  intros ((t & a & Hk) & Hl & Ha & Hb & [Hs1 Hs2] & Hn & _) [_ (b & Hk' & Hst) E1 E2].
  unfold read_bytes, type_of, types.EMPTY. rewrite Hk in *. injection Hk' as <- <-. rewrite E1, E2.
  apply is_multiple_of_spec in Ha, Hb; [|done..].
  assert ((p_length p / SECTOR_SIZE =? 0) = false) as -> by (unfold SECTOR_SIZE in *; lia).
  rewrite orb_false_r. destruct (t =? 0); [done|]. unfold as_read.
  rewrite Hst, Hk, !(Z.mul_comm (_ / _) SECTOR_SIZE), <- Ha, <- Hb. by destruct a.
Qed.

(** ** The sector the writer builds *)

(** The writes of [put_partition] inside its entry. *)
Definition entry_fields (status type_byte start sectors : Z) (old : option (list Z))
    : list (Z * Z * list Z) :=
  (0, 1, [status]) ::
  match old with
  | Some chs => [(1, 3, bslice chs 0 3); (5, 3, bslice chs 4 7)]
  | None => []
  end ++
  [(4, 1, [type_byte]); (8, 4, le_bytes 4 start); (12, 4, le_bytes 4 sectors)].

Lemma entry_fields_fit status t s n old : opt_all (λ c, zlen c = 7) old →
  fits 16 (entry_fields status t s n old).
Proof.
  intros Ho. unfold fits, entry_fields. destruct old as [c|]; cbn [app opt_all] in *;
    rewrite !Forall_cons; cbn [field_fits]; rewrite ?zlen_le_bytes, ?zlen_bslice by lia;
    split_and!; try apply Forall_nil; done || lia.
Qed.

Lemma entry_fields_says w p status t s n old b : zlen w = 16 →
  opt_all (λ c, zlen c = 7) old → is_u32 s → is_u32 n →
  p_kind p = KindMbr t b → status = (if b then STATUS_ACTIVE else 0) →
  s = p_start p / SECTOR_SIZE → n = p_length p / SECTOR_SIZE →
  says (puts w (entry_fields status t s n old)) p.
Proof.
  intros Hw Ho Hs Hn Hk -> Es En. pose proof (entry_fields_fit (if b then STATUS_ACTIVE else 0) t s n old Ho) as Hf.
  rewrite <- Hw in Hf. constructor.
  - by rewrite puts_zlen.
  - exists b. rewrite Hk. split.
    + f_equal. symmetry. apply byte_at_field; [done|lia|]. by destruct old.
    + apply byte_at_field; [done|lia|]. by destruct old.
  - rewrite <- Es. apply le32_field; [done|lia|done|]. by destruct old.
  - rewrite <- En. apply le32_field; [done|lia|done|]. by destruct old.
Qed.

Lemma mbr_win_bput sector i j w : slot_in 4 i → slot_in 4 j → zlen sector = 512 → zlen w = 16 →
  mbr_win (bput sector (layout.entry_at j) w) i = if decide (i = j) then w else mbr_win sector i.
Proof.
  intros [? ?] [? ?] Hs Hw. unfold mbr_win, layout.entry_at, layout.TABLE_START, layout.ENTRY_SIZE.
  case_decide as E.
  - subst j. apply bslice_bput_same; lia.
  - apply bslice_bput_other; lia.
Qed.

(** Everything outside the four entries, which a write keeps. *)
Definition outside_same (a b : list Z) : Prop :=
  zlen a = zlen b ∧ bslice a 0 446 = bslice b 0 446 ∧ bslice a 510 512 = bslice b 510 512.

Lemma outside_bput sector i w : zlen sector = 512 → slot_in 4 i → zlen w = 16 →
  outside_same (bput sector (layout.entry_at i) w) sector.
Proof.
  intros Hs [? ?] Hw. unfold outside_same, layout.entry_at, layout.TABLE_START, layout.ENTRY_SIZE.
  split_and!; [rewrite zlen_bput; lia|apply bslice_bput_other; lia..].
Qed.

(** One round of the writer's loop is one write of a sixteen-byte entry that
    says what the partition is. *)
Lemma put_partition_window existing sector p slot total : mbr_valid total p → partition_typed p →
  zlen existing = 512 → bytes_ok existing → zlen sector = 512 → bytes_ok sector → slot_in 4 slot →
  ∃ w, put_partition existing sector (p, slot) = Ok (bput sector (layout.entry_at slot) w) ∧
    says w p ∧ bytes_ok w.
Proof.
  intros ((t & a & Hk) & Hl & Ha & Hb & Hs & Hn & _) [_ _ Htk _ _ _] He Heb Hz Hzb [? ?].
  rewrite Hk in Htk. unfold put_partition. rewrite Hk. cbn [mbind Result_bind].
  unfold MBR_LBA_MAX in *.
  assert (0 ≤ p_length p / SECTOR_SIZE) by (apply Z.div_pos; unfold SECTOR_SIZE; lia).
  rewrite (u32_small (p_start p / SECTOR_SIZE)), (u32_small (p_length p / SECTOR_SIZE)) by lia.
  set (o := layout.entry_at slot). unfold layout.ENTRY_SIZE.
  set (old := bslice existing o (o + 16)). set (same := _ && _).
  assert (0 ≤ o ∧ o + 16 ≤ 512) as [? ?]
    by (unfold o, layout.entry_at, layout.TABLE_START, layout.ENTRY_SIZE; lia).
  assert (zlen old = 16) by (unfold old; rewrite zlen_bslice; lia).
  set (chs := if same then Some (bslice old 1 8) else None).
  set (status := if a then STATUS_ACTIVE else 0x00).
  assert (opt_all (λ c, zlen c = 7) chs) as Hc
    by (unfold chs; destruct same; cbn; [rewrite zlen_bslice; lia|done]).
  set (fs := entry_fields status t (p_start p / SECTOR_SIZE) (p_length p / SECTOR_SIZE) chs).
  assert (zlen (bslice sector o (o + 16)) = 16) by (rewrite zlen_bslice; lia).
  exists (puts (bslice sector o (o + 16)) fs). split_and!.
  - f_equal. unfold fs. rewrite <- (puts_inside sector o 16) by
      (try apply entry_fields_fit; done || lia).
    unfold entry_fields, chs, layout.TYPE_BYTE, layout.START_LBA, layout.SECTOR_COUNT.
    destruct same; cbn [map app puts foldl]; rewrite Z.add_0_r; reflexivity.
  - eapply entry_fields_says; try done; unfold is_u32; lia.
  - apply puts_bytes_ok; [auto with bytes|]. unfold fs, entry_fields.
    assert (is_u8 status) by by destruct a.
    assert (∀ b, is_u8 b → bytes_ok [b]) by (intros; apply Forall_cons; split; [done|by apply Forall_nil]).
    unfold chs. destruct same; cbn [app]; rewrite !Forall_cons; cbn [snd]; unfold old;
      split_and!; auto with bytes; apply Forall_nil; done.
Qed.

Definition sector_ok (s : list Z) : Prop := zlen s = 512 ∧ bytes_ok s.

Definition reserved_typed4 (r : ReservedEntry) : Prop :=
  0 ≤ r_slot r ∧ zlen (r_bytes r) = 16 ∧ bytes_ok (r_bytes r).

Lemma outside_same_trans a b c : outside_same a b → outside_same b c → outside_same a c.
Proof. unfold outside_same. naive_solver congruence. Qed.

Lemma foldl_put_reserved sector rs : sector_ok sector → Forall reserved_typed4 rs →
  NoDup (map r_slot rs) → Forall (slot_in 4) (map r_slot rs) →
  let out := foldl put_reserved sector rs in
  sector_ok out ∧ outside_same out sector ∧ Forall (λ r, mbr_win out (r_slot r) = r_bytes r) rs ∧
  ∀ i, slot_in 4 i → i ∉ map r_slot rs → mbr_win out i = mbr_win sector i.
Proof.
  intros Hs Ht; revert sector Hs; induction Ht as [|r rs (Hr0 & Hr & Hrb) Ht IH];
    intros sector [Hl Hb] Hnd Hin; cbn [foldl map] in *; [by repeat split|].
  apply NoDup_cons in Hnd as [Hni Hnd]. apply Forall_cons in Hin as [Hi Hin].
  pose proof Hi as [Hi0 Hi1].
  destruct (IH (put_reserved sector r)) as (Hok & Ho & Hw & Hk); [|done..|].
  { unfold put_reserved, layout.entry_at, layout.TABLE_START, layout.ENTRY_SIZE. split; [|auto with bytes].
    rewrite zlen_bput; lia. }
  assert (∀ i, slot_in 4 i → mbr_win (put_reserved sector r) i =
    if decide (i = r_slot r) then r_bytes r else mbr_win sector i) as Hput
    by (intros; by apply mbr_win_bput).
  split_and!; [done| | |].
  - eapply outside_same_trans; [done|]. by apply outside_bput.
  - constructor; [|done]. rewrite Hk, Hput by done. by apply decide_True.
  - intros i Hii Hn. rewrite Hk, Hput by (done || set_solver). apply decide_False. set_solver.
Qed.

Lemma foldM_put_partition existing total sector ps slots : sector_ok existing →
  sector_ok sector → Forall (mbr_valid total) ps → Forall partition_typed ps →
  length slots = length ps → NoDup slots → Forall (slot_in 4) slots →
  ∃ out, foldM (put_partition existing) sector (zip ps slots) = Ok out ∧
  sector_ok out ∧ outside_same out sector ∧ Forall2 (λ p s, says (mbr_win out s) p) ps slots ∧
  ∀ i, slot_in 4 i → i ∉ slots → mbr_win out i = mbr_win sector i.
Proof.
  intros [He Heb]; revert slots sector; induction ps as [|p ps IH];
    intros [|s slots] sector [Hl Hb] Hv Ht Hlen Hnd Hin; try done.
  { exists sector. by repeat split. }
  apply Forall_cons in Hv as [Hp Hv], Ht as [Htp Ht], Hin as [Hs Hin].
  apply NoDup_cons in Hnd as [Hns Hnd]. cbn [zip zip_with foldM].
  destruct (put_partition_window existing sector p s total Hp Htp He Heb Hl Hb Hs) as (w & E & Hsw & Hwb).
  rewrite E. cbn [mbind Result_bind]. pose proof Hs as [Hs0 Hs1]. pose proof (says_length _ _ Hsw) as Hwl.
  destruct (IH slots (bput sector (layout.entry_at s) w)) as (out & Eo & Hok & Ho & Hw & Hk); try done.
  { split; [|auto with bytes]. unfold layout.entry_at, layout.TABLE_START, layout.ENTRY_SIZE.
    rewrite zlen_bput; lia. }
  { cbn in Hlen. lia. }
  assert (∀ i, slot_in 4 i → mbr_win (bput sector (layout.entry_at s) w) i =
    if decide (i = s) then w else mbr_win sector i) as Hput by (intros; by apply mbr_win_bput).
  exists out. split_and!; [done|done| | |].
  - eapply outside_same_trans; [done|]. by apply outside_bput.
  - constructor; [|done]. rewrite Hk, Hput by done. by rewrite decide_True.
  - intros i Hi Hn. rewrite Hk, Hput by (done || set_solver). apply decide_False. set_solver.
Qed.

(** Signing a sector changes its last two bytes. *)
Lemma signed_sector x : zlen x = 512 →
  let y := bput (bput x 510 [0x55]) 511 [0xAA] in
  zlen y = 512 ∧ bslice y 510 512 = [0x55; 0xAA] ∧
  (∀ a b, 0 ≤ a → b ≤ 510 → bslice y a b = bslice x a b) ∧
  (∀ i, slot_in 4 i → mbr_win y i = mbr_win x i).
Proof.
  intros Hx y. change (zlen [0x55]) with 1. assert (zlen (bput x 510 [0x55]) = 512) as Hl1
    by (rewrite zlen_bput; change (zlen [0x55]) with 1; lia).
  assert (zlen y = 512) as Hl2 by (unfold y; rewrite zlen_bput; change (zlen [0xAA]) with 1; lia).
  assert (∀ a b, 0 ≤ a → b ≤ 510 → bslice y a b = bslice x a b) as Hsl.
  { intros. unfold y. rewrite !bslice_bput_other;
      change (zlen [0x55]) with 1; change (zlen [0xAA]) with 1; done || lia. }
  split_and!; [done| |done|].
  - rewrite (bslice_app _ 510 511 512) by lia. unfold y.
    rewrite (bslice_bput_other (bput x 510 [0x55]) 511) by (change (zlen [0xAA]) with 1; lia).
    rewrite !bslice_bput_same; [done|..];
      change (zlen [0xAA]) with 1; change (zlen [0x55]) with 1; rewrite ?Hl1; lia.
  - intros i [? ?]. unfold mbr_win, layout.entry_at, layout.TABLE_START, layout.ENTRY_SIZE.
    apply Hsl; lia.
Qed.

(** The sector a write leaves: the boot code as it was, the signature, and in
    each slot a preserved entry, a partition, or nothing. *)
Record mbr_table (existing : list Z) (rs : list ReservedEntry) (ps : list Partition)
    (slots sector : list Z) : Prop := {
  tbl_ok : sector_ok sector;
  tbl_boot : bslice sector 0 446 = bslice existing 0 446;
  tbl_signature : bslice sector 510 512 = [0x55; 0xAA];
  tbl_reserved : Forall (λ r, mbr_win sector (r_slot r) = r_bytes r) rs;
  tbl_parts : Forall2 (λ p s, says (mbr_win sector s) p) ps slots;
  tbl_blank : ∀ i, slot_in 4 i → i ∉ map r_slot rs ++ slots → mbr_win sector i = zeros 16;
}.

Lemma build_mbr_table existing total rs ps slots : sector_ok existing →
  Forall reserved_typed4 rs → Forall (mbr_valid total) ps → Forall partition_typed ps →
  assignment ps 4 (map r_slot rs) slots →
  ∃ out, foldM (put_partition existing)
    (foldl put_reserved (bzero existing layout.TABLE_START
      (layout.TABLE_START + layout.ENTRY_COUNT * layout.ENTRY_SIZE)) rs) (zip ps slots) = Ok out ∧
    mbr_table existing rs ps slots (bput (bput out 510 [0x55]) 511 [0xAA]).
Proof.
  intros He Hr Hv Ht [Hlen Hnd Hin _ _]. pose proof He as [Hel Heb].
  apply NoDup_app in Hnd as (Hnd1 & Hdis & Hnd2). apply Forall_app in Hin as [Hin1 Hin2].
  change (bzero existing layout.TABLE_START
      (layout.TABLE_START + layout.ENTRY_COUNT * layout.ENTRY_SIZE)) with (bput existing 446 (zeros 64)).
  assert (sector_ok (bput existing 446 (zeros 64))) as Hz.
  { split; [|auto with bytes]. rewrite zlen_bput; rewrite ?zlen_zeros; lia. }
  destruct (foldl_put_reserved _ rs Hz Hr Hnd1 Hin1) as (Ha & Hao & Haw & Hak).
  destruct (foldM_put_partition existing total _ ps slots He Ha Hv Ht Hlen Hnd2 Hin2)
    as (out & E & [Hbl Hbb] & Hbo & Hbw & Hbk).
  exists out. split; [done|].
  destruct (outside_same_trans _ _ _ Hbo Hao) as (_ & Hboot & _).
  rewrite (bslice_bput_other existing 446 (zeros 64) 0 446) in Hboot by (rewrite ?zlen_zeros; lia).
  destruct (signed_sector out Hbl) as (Hl2 & Hsig & Hsl & Hwin).
  constructor.
  - split; [done|].
    repeat apply bytes_ok_bput; try done; repeat constructor; done.
  - by rewrite Hsl by lia.
  - exact Hsig.
  - apply list.Forall_forall. intros r Hrin.
    assert (r_slot r ∈ map r_slot rs) as Hrs by (by apply list_elem_of_fmap_2).
    pose proof (Forall_in _ _ _ Hin1 Hrs) as Hi. rewrite Hwin, Hbk by (done || by apply Hdis).
    exact (Forall_in _ _ _ Haw Hrin).
  - apply Forall2_same_length_lookup. split; [done|]. intros i p s Hp Hs.
    rewrite Hwin by (by eapply Forall_lookup_1 in Hin2). exact (Forall2_lookup_lr _ _ _ _ _ _ Hbw Hp Hs).
  - intros i Hi Hni. rewrite not_elem_of_app in Hni. rewrite Hwin, Hbk, Hak by tauto.
    destruct Hi. unfold mbr_win, layout.entry_at, layout.TABLE_START, layout.ENTRY_SIZE.
    rewrite bslice_bput_inside by (rewrite ?zlen_zeros; lia). rewrite bslice_zeros by lia. f_equal. lia.
Qed.

Lemma type_byte_window sector i : 0 ≤ i → type_byte_at sector i = byte_at (mbr_win sector i) 4.
Proof.
  intros. unfold type_byte_at, mbr_win, layout.TYPE_BYTE, layout.entry_at, layout.TABLE_START,
    layout.ENTRY_SIZE. by apply byte_at_window; lia.
Qed.
