(* ===== verification/Gpt.v ===== *)
(** * src/gpt.rs: the GPT header and entry array

    The parser.  [Header] is the decoded header, [parse_header_block] the
    header's validation in the order the source makes its tests,
    [parse_entry_array] the entry loop with the per-entry issue flags, and
    [parse], [parse_backup], [validate_backup] and [entry_tails] the entry
    points over a device. *)
From S2P Require Import Prelude Bytes Device Table Utf16 Rules.

Definition SIGNATURE : list Z := ascii_bytes "EFI PART".

Module header_offsets.
Definition SIGNATURE : Z := 0.
Definition REVISION : Z := 8.
Definition HEADER_SIZE : Z := 12.
Definition HEADER_CRC32 : Z := 16.
Definition MY_LBA : Z := 24.
Definition ALTERNATE_LBA : Z := 32.
Definition FIRST_USABLE_LBA : Z := 40.
Definition LAST_USABLE_LBA : Z := 48.
Definition DISK_GUID : Z := 56.
Definition PARTITION_ENTRY_LBA : Z := 72.
Definition NUM_PARTITION_ENTRIES : Z := 80.
Definition PARTITION_ENTRY_SIZE : Z := 84.
Definition PARTITION_ENTRY_ARRAY_CRC32 : Z := 88.
End header_offsets.

Record Header := mkHeader {
  my_lba : Z;
  alternate_lba : Z;
  first_usable_lba : Z;
  last_usable_lba : Z;
  disk_guid : list Z;
  partition_entry_lba : Z;
  num_partition_entries : Z;
  partition_entry_size : Z;
  partition_entry_array_crc32 : Z;
  header_crc32 : Z;
  header_size : Z;
}.

Definition ENTRY_STANDARD_BYTES : Z := 128.

(** ** The header *)
Section parser.
Context `{!Crc32}.

Definition parse_header_block (sector : list Z) : Result Error Header :=
  _ ← refuse_if (zlen sector <? SECTOR_SIZE)
        (GptCorrupt "header block shorter than a sector");
  _ ← refuse_if (negb (bytes_eqb
          (bslice sector header_offsets.SIGNATURE (header_offsets.SIGNATURE + 8)) SIGNATURE))
        (GptCorrupt "missing EFI PART signature");
  let header_size := le32 sector header_offsets.HEADER_SIZE in
  _ ← refuse_if (negb ((92 <=? header_size) && (header_size <=? zlen sector)))
        (GptCorrupt "header_size out of range");
  let stored_header_crc := le32 sector header_offsets.HEADER_CRC32 in
  let header_for_crc := bslice sector 0 header_size in
  let header_for_crc :=
    bzero header_for_crc header_offsets.HEADER_CRC32 (header_offsets.HEADER_CRC32 + 4) in
  let computed_header_crc := crc32_hash (bslice header_for_crc 0 header_size) in
  _ ← refuse_if (negb (computed_header_crc =? stored_header_crc)) GptHeaderCrc;
  let revision := le32 sector header_offsets.REVISION in
  _ ← refuse_if (negb (Z.shiftr revision 16 =? 1))
        (GptCorrupt "unsupported GPT header revision");
  let my_lba := le64 sector header_offsets.MY_LBA in
  let alternate_lba := le64 sector header_offsets.ALTERNATE_LBA in
  let first_usable_lba := le64 sector header_offsets.FIRST_USABLE_LBA in
  let last_usable_lba := le64 sector header_offsets.LAST_USABLE_LBA in
  let disk_guid := bslice sector header_offsets.DISK_GUID (header_offsets.DISK_GUID + 16) in
  let partition_entry_lba := le64 sector header_offsets.PARTITION_ENTRY_LBA in
  let num_partition_entries := le32 sector header_offsets.NUM_PARTITION_ENTRIES in
  let partition_entry_size := le32 sector header_offsets.PARTITION_ENTRY_SIZE in
  let partition_entry_array_crc32 := le32 sector header_offsets.PARTITION_ENTRY_ARRAY_CRC32 in
  _ ← refuse_if (negb ((128 <=? partition_entry_size) && (partition_entry_size <=? 4096)))
        (GptCorrupt "partition_entry_size out of range");
  _ ← refuse_if (negb (is_multiple_of partition_entry_size 128)
                 || negb (is_power_of_two (partition_entry_size / 128)))
        (GptCorrupt "partition_entry_size is not 128 times a power of two");
  _ ← refuse_if (4096 <? num_partition_entries)
        (GptCorrupt "num_partition_entries > 4096");
  Ok (mkHeader my_lba alternate_lba first_usable_lba last_usable_lba disk_guid
        partition_entry_lba num_partition_entries partition_entry_size
        partition_entry_array_crc32 stored_header_crc header_size).

(** The argument is a 512-byte sector. *)
Definition parse_header (sector : list Z) : Result Error Header :=
  parse_header_block sector.

(** ** The entry array *)
Fixpoint utf16_units (bytes : list Z) : list Z :=
  match bytes with
  | a :: b :: bytes =>
      let u := le_val [a; b] in if u =? 0 then [] else u :: utf16_units bytes
  | _ => []
  end.

Definition parse_utf16_label (bytes : list Z) : option (list Z) :=
  match utf16_units bytes with
  | [] => None
  | units => Some (from_utf16_lossy units)
  end.

(** One round of the entry loop: the partition and its span in sectors, or
    nothing for an unused entry. *)
Definition parse_entry (array : list Z) (entry_size size i : Z)
    : Result Error (option (Partition * (Z * Z))) :=
  let off := i * entry_size in
  let type_guid := bslice array off (off + 16) in
  if bytes_eqb type_guid type_guids.UNUSED then Ok None
  else
    let unique_guid := bslice array (off + 16) (off + 32) in
    let start_lba := le64 array (off + 32) in
    let end_lba := le64 array (off + 40) in
    _ ← refuse_if (end_lba <? start_lba) (GptCorrupt "ending_lba < starting_lba");
    let attributes := le64 array (off + 48) in
    start ← ok_or (checked_mul start_lba SECTOR_SIZE)
              (GptCorrupt "starting_lba overflows a byte offset");
    sectors ← ok_or (n ← checked_sub end_lba start_lba; checked_add n 1)
                (GptCorrupt "partition sector count overflows");
    len ← ok_or (checked_mul sectors SECTOR_SIZE)
            (GptCorrupt "partition length overflows a byte count");
    let label := parse_utf16_label (bslice array (off + 56) (off + 128)) in
    Ok (Some (mkPartition start len (KindGpt type_guid attributes) label
                (Some unique_guid) (Some i) entry_issue.NONE
                (available_on_device start len size),
              (start_lba, end_lba))).

(** The two loops that fill in [issues] once every entry has been read. *)
Definition set_issues (header : Header) (found : list (Partition * (Z * Z))) : list Partition :=
  let out := map (λ '(p, span),
    with_issues p (range_issues span.1 span.2 (first_usable_lba header)
                     (last_usable_lba header))) found in
  zip_with (λ p (overlaps : bool),
    if overlaps
    then with_issues p (Z.lor (p_issues p) entry_issue.OVERLAPS_ANOTHER) else p)
    out (mark_overlaps (map snd found)).

Section device.
Context {D : Type} `{!BlockRead D}.

Definition parse_entry_array (dev : D) (header : Header)
    : Result Error (list Partition * list Z) :=
  let total_array_bytes :=
    u64 (num_partition_entries header * partition_entry_size header) in
  array_offset ← ok_or (checked_mul (partition_entry_lba header) SECTOR_SIZE)
                   (GptCorrupt "partition_entry_lba overflows a byte offset");
  array_end ← ok_or (checked_add array_offset total_array_bytes)
                (GptCorrupt "partition entry array overflows");
  let size := size_bytes dev in
  _ ← refuse_if (negb (size =? 0) && (size <? array_end))
        (GptCorrupt "partition entry array reaches past the end of the device");
  array ← map_err Block (read_at dev array_offset total_array_bytes);
  let computed_entries_crc := crc32_hash array in
  _ ← refuse_if (negb (computed_entries_crc =? partition_entry_array_crc32 header))
        GptEntriesCrc;
  found ← collectM (parse_entry array (partition_entry_size header) size)
            (seqZ 0 (num_partition_entries header));
  Ok (set_issues header found, array).

Definition parse (dev : D) (lba1 : list Z) : Result Error (list Partition) :=
  header ← parse_header lba1;
  _ ← refuse_if (negb (my_lba header =? 1)) (GptCorrupt "primary header my_lba != 1");
  '(parts, _) ← parse_entry_array dev header;
  Ok parts.

(** The loop body of [entry_tails]: [continue] leaves the map as it is. *)
Definition keep_tail (array : list Z) (entry_size : Z) (out : gmap (list Z) (list Z))
    (p : Partition) : Result Error (gmap (list Z) (list Z)) :=
  match p_uuid p, p_slot p with
  | Some uuid, Some slot =>
      let off := slot * entry_size in
      let tail := bslice array (off + ENTRY_STANDARD_BYTES) (off + entry_size) in
      match out !! uuid with
      | Some kept =>
          if bytes_eqb kept tail then Ok out
          else Err (GptCorrupt "two entries share a unique partition GUID and carry different entry tails, which a rewrite cannot keep apart")
      | None => Ok (<[uuid := tail]> out)
      end
  | _, _ => Ok out
  end.

Definition entry_tails (dev : D) (header : Header) : Result Error (gmap (list Z) (list Z)) :=
  let entry_size := partition_entry_size header in
  if entry_size <=? ENTRY_STANDARD_BYTES then Ok ∅
  else
    '(parts, array) ← parse_entry_array dev header;
    foldM (keep_tail array entry_size) ∅ parts.

(** ** The backup *)
Inductive BackupStatus := BackupOk | Mismatch (why : string).

Definition parse_backup (dev : D) : Result Error (list Partition) :=
  let total := size_bytes dev in
  _ ← refuse_if (total <? 2 * SECTOR_SIZE) (GptCorrupt "device too small for GPT backup");
  let last_lba := u64 (total / SECTOR_SIZE - 1) in
  sector ← map_err Block (read_at dev (u64 (last_lba * SECTOR_SIZE)) SECTOR_SIZE);
  header ← parse_header sector;
  _ ← refuse_if (negb (my_lba header =? last_lba)) (GptCorrupt "backup my_lba != last LBA");
  '(parts, _) ← parse_entry_array dev header;
  Ok parts.

Fixpoint compare_copies (ab : list (Partition * Partition)) : BackupStatus :=
  match ab with
  | [] => BackupOk
  | (pa, pb) :: ab =>
      if negb (p_start pa =? p_start pb) || negb (p_length pa =? p_length pb)
      then Mismatch "partition range differs"
      else if negb (bool_decide (p_uuid pa = p_uuid pb)) then Mismatch "partition uuid differs"
      else if negb (bool_decide (p_kind pa = p_kind pb)) then Mismatch "partition type differs"
      else if negb (bool_decide (p_slot pa = p_slot pb)) then Mismatch "partition slot differs"
      else if negb (bool_decide (p_label pa = p_label pb)) then Mismatch "partition label differs"
      else compare_copies ab
  end.

Definition by_start (p q : Partition) : bool := p_start p <=? p_start q.

Definition validate_backup (dev : D) (primary : list Partition) : BackupStatus :=
  match parse_backup dev with
  | Err (GptCorrupt _) => Mismatch "backup header corrupt"
  | Err GptHeaderCrc => Mismatch "backup header CRC"
  | Err GptEntriesCrc => Mismatch "backup entries CRC"
  | Err _ => Mismatch "backup unreadable"
  | Ok backup =>
      if negb (length backup =? length primary)%nat then Mismatch "partition count differs"
      else compare_copies (zip (sort_by by_start primary) (sort_by by_start backup))
  end.
End device.
End parser.
