(* ===== verification/GptWrite.v ===== *)
(** * src/gpt_write.rs: the GPT writer

    [GptGeometry] is the shape of an entry array; [usable_range] decides
    whether it fits a device.  [write_gpt_assigning_slots] validates the
    partitions, builds the entry array and both headers, and writes LBA 0, the
    primary header, the array, the backup array and the backup header, in that
    order, through the device monad. *)
From S2P Require Import Prelude Bytes Device Table Utf16 Rules Slots Mbr Gpt.

(** [u64::MAX / SECTOR_SIZE]. *)
Definition MAX_LBA : Z := (2 ^ 64 - 1) / SECTOR_SIZE.

Record GptGeometry := mkGeometry {
  num_entries : Z;
  entry_size : Z;
  entry_lba : Z;
  declared_usable : option (Z * Z);
}.
#[export] Instance GptGeometry_eq_dec : EqDecision GptGeometry.
Proof. solve_decision. Defined.

Module geometry.
Definition canonical : GptGeometry :=
  mkGeometry gpt_layout.NUM_ENTRIES gpt_layout.ENTRY_SIZE 2 None.

Definition from_header (h : Header) : GptGeometry :=
  mkGeometry (num_partition_entries h) (partition_entry_size h) (partition_entry_lba h)
    (Some (first_usable_lba h, last_usable_lba h)).

Definition array_bytes (g : GptGeometry) : Z := u64 (num_entries g * entry_size g).
Definition array_sectors (g : GptGeometry) : Z := div_ceil (array_bytes g) SECTOR_SIZE.
Definition backup_reserve_sectors (g : GptGeometry) : Z := u64 (array_sectors g + 1).

Definition check_shape (g : GptGeometry) : Result Error unit :=
  _ ← refuse_if (num_entries g =? 0) (Invalid "a GPT with no entry slots");
  _ ← refuse_if (4096 <? num_entries g) (Invalid "a GPT with more than 4096 entry slots");
  _ ← refuse_if (4096 <? entry_size g) (Invalid "a GPT entry size above 4096 bytes");
  _ ← refuse_if (entry_size g <? gpt_layout.ENTRY_SIZE)
        (Invalid "a GPT entry size below 128 bytes");
  _ ← refuse_if (negb (is_multiple_of (entry_size g) gpt_layout.ENTRY_SIZE)
                 || negb (is_power_of_two (entry_size g / gpt_layout.ENTRY_SIZE)))
        (Invalid "a GPT entry size that is not 128 times a power of two");
  _ ← refuse_if (entry_lba g <? 2)
        (Invalid "a GPT entry array starting at or before the header");
  _ ← refuse_if (MAX_LBA <? entry_lba g)
        (Invalid "a GPT entry array at an LBA whose byte offset does not fit a u64");
  let array_sectors := array_sectors g in
  _ ← refuse_if (MAX_LBA <? array_sectors)
        (Invalid "a GPT entry array longer than any device could hold");
  refuse_if (match checked_add (entry_lba g) array_sectors with
             | None => true
             | Some first => MAX_LBA <? first
             end)
    (Invalid "a GPT whose entry array ends past the last addressable LBA").

Definition usable_range (g : GptGeometry) (total_sectors : Z) : Result Error (Z * Z) :=
  _ ← check_shape g;
  let first_possible := u64 (entry_lba g + array_sectors g) in
  let reserve := backup_reserve_sectors g in
  _ ← refuse_if (total_sectors <=? u64 (first_possible + reserve)) DeviceTooSmall;
  let last_possible := u64 (total_sectors - 1 - reserve) in
  match declared_usable g with
  | None => Ok (first_possible, last_possible)
  | Some (first, last) =>
      _ ← refuse_if (first <? first_possible)
            (Invalid "the table's first usable LBA is inside its own entry array");
      _ ← refuse_if (last_possible <? last)
            (Invalid "the table's last usable LBA is inside the space the backup copy needs");
      _ ← refuse_if (last <? first) (Invalid "the table's usable range runs backwards");
      Ok (first, last)
  end.
End geometry.

(** ** Validation *)
Definition validate_partition (p : Partition) (first_usable last_usable : Z)
    : Result Error unit :=
  _ ← match p_kind p with
      | KindGpt _ _ => Ok tt
      | _ => Err (Invalid "non-GPT partition kind in GPT write")
      end;
  _ ← refuse_if (p_length p =? 0) (Invalid "partition has zero length");
  _ ← refuse_if (negb (is_multiple_of (p_start p) SECTOR_SIZE)
                 || negb (is_multiple_of (p_length p) SECTOR_SIZE))
        (Invalid "partition not sector-aligned");
  '(start_lba, end_lba) ← sector_span p;
  let issues := range_issues start_lba end_lba first_usable last_usable in
  _ ← refuse_if (negb (Z.land issues entry_issue.BEFORE_FIRST_USABLE =? 0))
        (Invalid "partition starts before first usable LBA");
  _ ← refuse_if (negb (Z.land issues entry_issue.PAST_LAST_USABLE =? 0))
        (Invalid "partition runs past last usable LBA");
  match p_kind p with
  | KindGpt type_guid _ =>
      refuse_if (bytes_eqb type_guid type_guids.UNUSED)
        (Invalid "partition type GUID is the unused sentinel")
  | _ => Ok tt
  end.

(** The first loop: each partition is validated before its span is taken. *)
Definition gpt_spans (partitions : list Partition) (first_usable last_usable : Z)
    : Result Error (list (Z * Z)) :=
  collectM (λ p, _ ← validate_partition p first_usable last_usable;
                 s ← sector_span p; Ok (Some s)) partitions.

(** ** The entry array *)

(** The UTF-16 units [label] puts in the name field: whole characters, as
    long as 72 bytes hold them.  [written] counts units. *)
Fixpoint label_units (written : Z) (label : list Z) : list Z :=
  match label with
  | [] => []
  | c :: label =>
      let units := len_utf16 c in
      if 72 <? (written + units) * 2 then []
      else encode_utf16 c ++ label_units (written + units) label
  end.

Definition units_bytes (us : list Z) : list Z := us ≫= le_bytes 2.

(** One round of the loop over partitions: the tail first, then the 128
    standard bytes. *)
Definition put_entry (g : GptGeometry) (tails : gmap (list Z) (list Z)) (array : list Z)
    (pslot : Partition * Z) : Result Error (list Z) :=
  let '(p, slot) := pslot in
  let off := slot * entry_size g in
  '(type_guid, attributes) ←
    match p_kind p with
    | KindGpt type_guid attributes => Ok (type_guid, attributes)
    | _ => Err (Invalid "non-GPT partition kind in GPT write")
    end;
  uuid ← ok_or (p_uuid p) (Invalid "GPT partition missing UUID");
  '(start_lba, end_lba) ← sector_span p;
  let array :=
    if ENTRY_STANDARD_BYTES <? entry_size g then
      let room := entry_size g - ENTRY_STANDARD_BYTES in
      match tails !! uuid with
      | Some tail =>
          let take := Z.min (zlen tail) room in
          bput array (off + ENTRY_STANDARD_BYTES) (bslice tail 0 take)
      | None => array
      end
    else array in
  let array := bput array off type_guid in
  let array := bput array (off + 16) uuid in
  let array := bput array (off + 32) (le_bytes 8 start_lba) in
  let array := bput array (off + 40) (le_bytes 8 end_lba) in
  let array := bput array (off + 48) (le_bytes 8 attributes) in
  let array :=
    match p_label p with
    | Some label => bput array (off + 56) (units_bytes (label_units 0 label))
    | None => array
    end in
  Ok array.

Definition build_array (g : GptGeometry) (tails : gmap (list Z) (list Z))
    (partitions : list Partition) (slots : list Z) : Result Error (list Z) :=
  foldM (put_entry g tails) (zeros (geometry.array_bytes g)) (zip partitions slots).

(** ** Headers and LBA 0 *)
Section headers.
Context `{!Crc32}.

Definition build_header (my_lba alternate_lba entry_lba : Z) (usable : Z * Z)
    (disk_guid : list Z) (entry_array_crc : Z) (g : GptGeometry) : list Z :=
  let '(first_usable, last_usable) := usable in
  let h := zeros SECTOR_SIZE in
  let h := bput h 0 SIGNATURE in
  let h := bput h 8 (le_bytes 4 0x00010000) in
  let h := bput h 12 (le_bytes 4 gpt_layout.HEADER_SIZE) in
  let h := bput h header_offsets.MY_LBA (le_bytes 8 my_lba) in
  let h := bput h 32 (le_bytes 8 alternate_lba) in
  let h := bput h 40 (le_bytes 8 first_usable) in
  let h := bput h 48 (le_bytes 8 last_usable) in
  let h := bput h 56 disk_guid in
  let h := bput h header_offsets.PARTITION_ENTRY_LBA (le_bytes 8 entry_lba) in
  let h := bput h header_offsets.NUM_PARTITION_ENTRIES (le_bytes 4 (num_entries g)) in
  let h := bput h header_offsets.PARTITION_ENTRY_SIZE (le_bytes 4 (entry_size g)) in
  let h := bput h 88 (le_bytes 4 entry_array_crc) in
  let header_crc := crc32_hash (bslice h 0 gpt_layout.HEADER_SIZE) in
  bput h 16 (le_bytes 4 header_crc).
End headers.

(** A 16-byte MBR entry's [u32] field, as a [u64]. *)
Definition mbr_field (bytes : list Z) (at_ : Z) : Z := le32 bytes at_.

(** One round of the loop of [hybrid_lba0] over the entries LBA 0 held. *)
Definition keep_lba0_entry (rebuild_marker : bool) (partitions : list Partition)
    (st : list Z * option Z) (e : ReservedEntry) : list Z * option Z :=
  let '(out, marker_slot) := st in
  let type_byte := byte_at (r_bytes e) layout.TYPE_BYTE in
  let at_ := layout.entry_at (r_slot e) in
  if type_byte =? types.GPT_PROTECTIVE then
    let first := match marker_slot with None => true | Some _ => false end in
    let marker_slot :=
      match marker_slot with None => Some (r_slot e) | Some s => Some s end in
    if first && negb rebuild_marker then (bput out at_ (r_bytes e), marker_slot)
    else (out, marker_slot)
  else
    let sectors := mbr_field (r_bytes e) layout.SECTOR_COUNT in
    let stale_mirror :=
      bool_decide (entry_role type_byte = Volume) && negb (sectors =? 0)
      && (let start := mbr_field (r_bytes e) layout.START_LBA * SECTOR_SIZE in
          let still_mirrors :=
            existsb (λ p, (p_start p =? start) && (p_length p =? sectors * SECTOR_SIZE))
              partitions in
          negb still_mirrors) in
    if stale_mirror then (out, marker_slot)
    else (bput out at_ (r_bytes e), marker_slot).

Definition hybrid_lba0 (current : list Z) (lba0 : list ReservedEntry) (protective : list Z)
    (partitions : list Partition) : Result Error (list Z) :=
  _ ← refuse_if (existsb (λ e, layout.ENTRY_COUNT <=? r_slot e) lba0)
        (Invalid "reserved entry slot past the end of the table");
  let out := zeros SECTOR_SIZE in
  let out := bput out 0 (bslice current 0 layout.TABLE_START) in
  let rebuild_marker := is_protective current in
  let '(out, marker_slot) :=
    foldl (keep_lba0_entry rebuild_marker partitions) (out, None) lba0 in
  let keep_existing :=
    negb rebuild_marker && match marker_slot with Some _ => true | None => false end in
  out ←
    (if keep_existing then Ok out
     else
       slot ← ok_or
         (match marker_slot with
          | Some s => Some s
          | None => List.find (λ i, type_byte_at out i =? types.EMPTY) entry_indices
          end)
         (Invalid "LBA 0 has no protective entry and no free slot for one");
       Ok (bput out (layout.entry_at slot) protective));
  Ok (bput (bput out 510 [0x55]) 511 [0xAA]).

(** The bare protective MBR of a disk of [total_sectors]. *)
Definition protective_mbr (total_sectors : Z) : list Z :=
  let mbr := zeros SECTOR_SIZE in
  let mbr := bput mbr 446 [0x00] in
  let mbr := bput mbr 447 [0x00] in
  let mbr := bput mbr 448 [0x02] in
  let mbr := bput mbr 449 [0x00] in
  let mbr := bput mbr 450 [types.GPT_PROTECTIVE] in
  let last_chs := chs_for_lba (Z.min (u64 (total_sectors - 1)) MBR_LBA_MAX) in
  let mbr := bput mbr 451 [byte_at last_chs 0] in
  let mbr := bput mbr 452 [byte_at last_chs 1] in
  let mbr := bput mbr 453 [byte_at last_chs 2] in
  let mbr := bput mbr 454 (le_bytes 4 1) in
  let prot_sectors := u32 (Z.min (u64 (total_sectors - 1)) MBR_LBA_MAX) in
  let mbr := bput mbr 458 (le_bytes 4 prot_sectors) in
  bput (bput mbr 510 [0x55]) 511 [0xAA].

(** ** The writer *)
Section writer.
Context {D : Type} `{!BlockDevice D} `{!Crc32}.

Definition write_gpt_assigning_slots (partitions : list Partition) (disk_guid : list Z)
    (g : GptGeometry) (tails : gmap (list Z) (list Z)) (lba0 : list ReservedEntry)
    : DevM D (list Z) :=
  writable ← dev_is_writable;
  _ ← pure_result (refuse_if (negb writable) (Block ReadOnly));
  total_bytes ← dev_size_bytes;
  let total_sectors := total_bytes / SECTOR_SIZE in
  '(first_usable_lba, last_usable_lba) ← pure_result (geometry.usable_range g total_sectors);
  let last_lba := u64 (total_sectors - 1) in
  let array_sectors := geometry.array_sectors g in
  _ ← pure_result (refuse_if (num_entries g <? zlen partitions)
        (Invalid "more partitions than the table has entry slots"));
  spans ← pure_result (gpt_spans partitions first_usable_lba last_usable_lba);
  _ ← pure_result (refuse_if (existsb id (mark_overlaps spans)) (Invalid "partitions overlap"));
  slots ← pure_result (assign_slots partitions (num_entries g));
  array ← pure_result (build_array g tails partitions slots);
  let entry_array_crc := crc32_hash array in
  let mbr := protective_mbr total_sectors in
  mbr ←
    (match lba0 with
     | [] => mret mbr
     | _ =>
         current ← dev_read 0 SECTOR_SIZE;
         let protective := bslice mbr 446 462 in
         pure_result (hybrid_lba0 current lba0 protective partitions)
     end : DevM D (list Z));
  _ ← dev_write 0 mbr;
  let primary := build_header 1 last_lba (entry_lba g) (first_usable_lba, last_usable_lba)
                   disk_guid entry_array_crc g in
  _ ← dev_write SECTOR_SIZE primary;
  _ ← dev_write (u64 (entry_lba g * SECTOR_SIZE)) array;
  let backup_entries_lba := u64 (last_lba - array_sectors) in
  _ ← dev_write (u64 (backup_entries_lba * SECTOR_SIZE)) array;
  let backup := build_header last_lba 1 backup_entries_lba (first_usable_lba, last_usable_lba)
                  disk_guid entry_array_crc g in
  _ ← dev_write (u64 (last_lba * SECTOR_SIZE)) backup;
  mret slots.

Definition write_gpt_preserving_tails (partitions : list Partition) (disk_guid : list Z)
    (g : GptGeometry) (tails : gmap (list Z) (list Z)) : DevM D unit :=
  _ ← write_gpt_assigning_slots partitions disk_guid g tails []; mret tt.

Definition write_gpt_with_geometry (partitions : list Partition) (disk_guid : list Z)
    (g : GptGeometry) : DevM D unit :=
  write_gpt_preserving_tails partitions disk_guid g ∅.

Definition write_gpt (partitions : list Partition) (disk_guid : list Z) : DevM D unit :=
  write_gpt_with_geometry partitions disk_guid geometry.canonical.
End writer.
