(* ===== verification/GptCodec.v ===== *)
(** * The GPT codec: what the writer lays down, the reader reads back

    Headers: [Gpt.parse_header] of a header [GptWrite.build_header] built.
    Entries: the entry loop of [Gpt.parse_entry_array] over an array
    [GptWrite.build_array] built, window by window.  Labels: the name field
    holds the longest prefix of whole characters that fits. *)
From S2P Require Import Prelude Bytes Device Table Utf16 Rules Slots Gpt GptWrite.

(** ** Headers *)
Section header.
Context `{!Crc32} `{!Crc32Laws}.

(** The fields of a header, before its checksum. *)
Definition header_fields (my alt elba first last : Z) (guid : list Z) (crc : Z)
    (g : GptGeometry) : list (Z * Z * list Z) :=
  [(0, 8, Gpt.SIGNATURE); (8, 4, le_bytes 4 0x00010000);
   (12, 4, le_bytes 4 gpt_layout.HEADER_SIZE); (24, 8, le_bytes 8 my);
   (32, 8, le_bytes 8 alt); (40, 8, le_bytes 8 first); (48, 8, le_bytes 8 last);
   (56, 16, guid); (72, 8, le_bytes 8 elba); (80, 4, le_bytes 4 (num_entries g));
   (84, 4, le_bytes 4 (entry_size g)); (88, 4, le_bytes 4 crc)].

Definition header_sum my alt elba first last guid crc g : Z :=
  crc32_hash (bslice (puts (zeros 512) (header_fields my alt elba first last guid crc g)) 0 92).

Lemma header_fields_fit my alt elba first last guid crc g : zlen guid = 16 →
  fits 512 (header_fields my alt elba first last guid crc g).
Proof.
  intros Hg. unfold fits, header_fields, gpt_layout.HEADER_SIZE.
  repeat (apply Forall_cons; split);
    first [apply field_fits_le; lia | apply Forall_nil; done | cbn [field_fits]; rewrite ?Hg; done].
Qed.

Lemma build_header_puts my alt elba first last guid crc g :
  build_header my alt elba (first, last) guid crc g =
  puts (zeros 512) (header_fields my alt elba first last guid crc g ++
                    [(16, 4, le_bytes 4 (header_sum my alt elba first last guid crc g))]).
Proof. reflexivity. Qed.

Definition built_header my alt elba first last guid crc g : Header :=
  mkHeader my alt first last guid elba (num_entries g) (entry_size g) crc
    (header_sum my alt elba first last guid crc g) gpt_layout.HEADER_SIZE.

(** What [check_shape] and the field widths of the geometry promise. *)
Definition shape_ok (g : GptGeometry) : Prop :=
  0 ≤ num_entries g ≤ 4096 ∧ 128 ≤ entry_size g ≤ 4096 ∧
  is_multiple_of (entry_size g) 128 = true ∧ is_power_of_two (entry_size g / 128) = true.

Lemma entry_size_power es : es ≤ 4096 → is_multiple_of es 128 = true →
  is_power_of_two (es / 128) = true → ∃ k, 0 ≤ k ≤ 5 ∧ es = 128 * 2 ^ k.
Proof.
  intros Hle Hm (k & Hk & Ek)%is_power_of_two_spec. apply is_multiple_of_spec in Hm; [|lia].
  exists k. rewrite Hm, Ek. split; [|done]. split; [done|].
  destruct (Z.le_gt_cases k 5) as [|Hgt]; [done|exfalso].
  pose proof (Z.pow_le_mono_r 2 6 k ltac:(lia) ltac:(lia)) as Hpow. change (2 ^ 6) with 64 in Hpow. lia.
Qed.

Lemma parse_built_header my alt elba first last guid crc g :
  is_u64 my → is_u64 alt → is_u64 elba → is_u64 first → is_u64 last → is_u32 crc →
  guid16 guid → shape_ok g →
  parse_header (build_header my alt elba (first, last) guid crc g)
  = Ok (built_header my alt elba first last guid crc g).
Proof.
  intros Hmy Halt Hel Hf Hl Hc Hg (Hn & He & Hm & Hp).
  rewrite build_header_puts.
  set (sum := header_sum my alt elba first last guid crc g).
  set (fs := header_fields my alt elba first last guid crc g).
  assert (fits (zlen (zeros 512)) fs) as Hfit0 by (apply header_fields_fit, Hg).
  assert (fits (zlen (zeros 512)) (fs ++ [(16, 4, le_bytes 4 sum)])) as Hfit.
  { apply fits_app; split; [done|]. constructor; [|done]. by apply (field_fits_le _ 16 4). }
  assert (is_u32 sum) as Hs by apply crc32_is_u32.
  unfold parse_header, parse_header_block.
  rewrite refuse_no by (by rewrite puts_zlen).
  rewrite refuse_no by (by rewrite (bslice_field _ _ _ _ Gpt.SIGNATURE Hfit)).
  rewrite (le32_field _ _ header_offsets.HEADER_SIZE 92 Hfit) by done. cbn zeta.
  rewrite refuse_no by (by rewrite puts_zlen).
  rewrite (le32_field _ _ header_offsets.HEADER_CRC32 sum Hfit) by done.
  rewrite refuse_no.
  2:{ unfold bzero, header_offsets.HEADER_CRC32.
      assert (zlen (puts (zeros 512) fs) = 512) as Hz by by rewrite puts_zlen.
      rewrite puts_app. change (puts (puts (zeros 512) fs) [(16, 4, le_bytes 4 sum)])
        with (bput (puts (zeros 512) fs) 16 (le_bytes 4 sum)).
      replace (zeros (16 + 4 - 16)) with (bslice (puts (zeros 512) fs) 16 (16 + zlen (le_bytes 4 sum)))
        by (by rewrite (bslice_blank _ _ _ _ Hfit0) by done).
      rewrite bput_undo by (by rewrite ?Hz). rewrite bslice_bslice by lia.
      change (0 + 0) with 0. change (0 + 92) with 92.
      fold (header_sum my alt elba first last guid crc g). fold sum. by rewrite Z.eqb_refl. }
  rewrite (le32_field _ _ header_offsets.REVISION 0x10000 Hfit) by done.
  rewrite refuse_no by done.
  rewrite (le64_field _ _ header_offsets.MY_LBA my Hfit) by done.
  rewrite (le64_field _ _ header_offsets.ALTERNATE_LBA alt Hfit) by done.
  rewrite (le64_field _ _ header_offsets.FIRST_USABLE_LBA first Hfit) by done.
  rewrite (le64_field _ _ header_offsets.LAST_USABLE_LBA last Hfit) by done.
  rewrite (bslice_field _ _ header_offsets.DISK_GUID _ guid Hfit) by done.
  rewrite (le64_field _ _ header_offsets.PARTITION_ENTRY_LBA elba Hfit) by done.
  rewrite (le32_field _ _ header_offsets.NUM_PARTITION_ENTRIES (num_entries g) Hfit)
    by (done || unfold is_u32; lia).
  rewrite (le32_field _ _ header_offsets.PARTITION_ENTRY_SIZE (entry_size g) Hfit)
    by (done || unfold is_u32; lia).
  rewrite (le32_field _ _ header_offsets.PARTITION_ENTRY_ARRAY_CRC32 crc Hfit) by done.
  rewrite refuse_no by lia.
  rewrite refuse_no by (by rewrite Hm, Hp).
  by rewrite refuse_no by lia.
Qed.
End header.

(** ** Labels *)

(** The reference: the longest prefix of whole characters, up to the first
    NUL, that [room] UTF-16 units hold. *)
Fixpoint label_text (room : Z) (label : list Z) : list Z :=
  match label with
  | [] => []
  | c :: label =>
      if (c =? 0) || (room <? len_utf16 c) then []
      else c :: label_text (room - len_utf16 c) label
  end.

(** What a reader sees of a label that was written. *)
Definition stored_label (o : option (list Z)) : option (list Z) :=
  match o with
  | None => None
  | Some label => match label_text 36 label with [] => None | text => Some text end
  end.

(** The bytes of the name field. *)
Definition name_bytes (o : option (list Z)) : list Z :=
  match o with None => [] | Some label => units_bytes (label_units 0 label) end.

Definition is_label (label : list Z) : Prop := Forall is_char label.

Lemma len_utf16_cases c : len_utf16 c = 1 ∨ len_utf16 c = 2.
Proof. unfold len_utf16. case_match; lia. Qed.

Lemma zlen_units_bytes us : zlen (units_bytes us) = 2 * zlen us.
Proof.
  unfold units_bytes. induction us as [|u us IH]; [done|].
  cbn [mbind list_bind]. rewrite zlen_app, zlen_le_bytes, IH. unfold zlen. cbn [length]. lia.
Qed.

Lemma label_units_room written label : written ≤ 36 →
  zlen (label_units written label) ≤ 36 - written.
Proof.
  revert written; induction label as [|c label IH]; intros w Hw; cbn [label_units].
  { unfold zlen; cbn; lia. }
  case_match; [unfold zlen; cbn; lia|]. rewrite zlen_app, zlen_encode_utf16.
  specialize (IH (w + len_utf16 c) ltac:(lia)). lia.
Qed.

Lemma label_units_ok written label : is_label label →
  Forall (λ u, 0 ≤ u < 2 ^ 16) (label_units written label).
Proof.
  intros Hl; revert written; induction Hl as [|c label Hc Hl IH]; intros w; cbn [label_units]; [done|].
  case_match; [done|]. apply Forall_app; split; [by apply encode_utf16_units|apply IH].
Qed.

(** The units the reader keeps: those before the first zero. *)
Fixpoint before_nul (us : list Z) : list Z :=
  match us with [] => [] | u :: us => if u =? 0 then [] else u :: before_nul us end.

Lemma before_nul_app us vs : Forall (λ u, u ≠ 0) us → before_nul (us ++ vs) = us ++ before_nul vs.
Proof.
  induction 1 as [|u us Hu _ IH]; cbn; [done|].
  destruct (Z.eqb_spec u 0); [done|]. by rewrite IH.
Qed.

Lemma label_units_text written label : is_label label →
  before_nul (label_units written label) = label_text (36 - written) label ≫= encode_utf16.
Proof.
  intros Hl; revert written; induction Hl as [|c label Hc Hl IH]; intros w;
    cbn [label_units label_text]; [done|].
  destruct (Z.ltb_spec 72 ((w + len_utf16 c) * 2)).
  { rewrite (proj2 (Z.ltb_lt (36 - w) (len_utf16 c))) by lia. by rewrite orb_true_r. }
  rewrite (proj2 (Z.ltb_ge (36 - w) (len_utf16 c))) by lia. rewrite orb_false_r.
  destruct (Z.eqb_spec c 0) as [->|Hne]; [done|].
  rewrite before_nul_app by by apply encode_utf16_nonzero. rewrite IH.
  replace (36 - (w + len_utf16 c)) with (36 - w - len_utf16 c) by lia. done.
Qed.

Lemma utf16_units_pad us n : Forall (λ u, 0 ≤ u < 2 ^ 16) us → 2 * zlen us ≤ n →
  utf16_units (pad n (units_bytes us)) = before_nul us.
Proof.
  intros Hu Hn. unfold pad. rewrite zlen_units_bytes.
  assert (∀ k, utf16_units (zeros k) = []) as Hz.
  { intros k. unfold zeros. destruct (Z.to_nat k) as [|[|m]]; done. }
  clear Hn. generalize (n - 2 * zlen us) as k. intros k.
  induction Hu as [|u us Hu _ IH]; cbn [units_bytes mbind list_bind app]; [apply Hz|].
  fold (units_bytes us). cbn [le_bytes app utf16_units before_nul].
  assert (le_val [u mod 256; u / 256 mod 256] = u) as -> by (cbn [le_val]; dlia).
  case_match; [done|]. f_equal. exact IH.
Qed.

Lemma label_text_labels room label : is_label label → is_label (label_text room label).
Proof.
  intros Hl; revert room; induction Hl as [|c label Hc Hl IH]; intros r; cbn; [constructor|].
  case_match; constructor; [done|apply IH].
Qed.

(** Reading the name field of an entry that was written. *)
Lemma parse_name_field o : opt_all is_label o →
  parse_utf16_label (pad 72 (name_bytes o)) = stored_label o.
Proof.
  intros Ho. unfold parse_utf16_label. destruct o as [label|]; cbn [name_bytes stored_label]; [|done].
  rewrite utf16_units_pad.
  2: by apply label_units_ok.
  2:{ pose proof (label_units_room 0 label ltac:(lia)). lia. }
  rewrite label_units_text by done. change (36 - 0) with 36.
  pose proof (label_text_labels 36 label Ho) as Ht.
  pose proof (from_utf16_encode_all _ Ht) as He.
  destruct (label_text 36 label) as [|c text] eqn:E; [done|].
  destruct ((c :: text) ≫= encode_utf16) eqn:E2; [|by rewrite He].
  cbn in E2. unfold encode_utf16 in E2 at 1. by destruct (c <? 0x10000).
Qed.

Lemma name_bytes_fit o : zlen (name_bytes o) ≤ 72.
Proof.
  destruct o as [label|]; cbn [name_bytes]; [|done].
  rewrite zlen_units_bytes. pose proof (label_units_room 0 label ltac:(lia)). lia.
Qed.

(** ** Entries *)

(** The bytes of one entry, [es] of them. *)
Definition entry_image (es : Z) (tail type_guid uuid : list Z) (s e attributes : Z)
    (label : option (list Z)) : list Z :=
  type_guid ++ uuid ++ le_bytes 8 s ++ le_bytes 8 e ++ le_bytes 8 attributes ++
  pad 72 (name_bytes label) ++ pad (es - 128) tail.

(** The tail the writer restores for the entry with UUID [uuid]. *)
Definition kept_tail (g : GptGeometry) (tails : gmap (list Z) (list Z)) (uuid : list Z) : list Z :=
  match tails !! uuid with
  | Some tail => bslice tail 0 (Z.min (zlen tail) (entry_size g - 128))
  | None => []
  end.

(** The image of a partition, where it has one. *)
Definition gpt_image (g : GptGeometry) (tails : gmap (list Z) (list Z)) (p : Partition)
    : Result Error (list Z) :=
  '(type_guid, attributes) ←
    match p_kind p with
    | KindGpt type_guid attributes => Ok (type_guid, attributes)
    | _ => Err (Invalid "non-GPT partition kind in GPT write")
    end;
  uuid ← ok_or (p_uuid p) (Invalid "GPT partition missing UUID");
  '(s, e) ← sector_span p;
  Ok (entry_image (entry_size g) (kept_tail g tails uuid) type_guid uuid s e attributes
        (p_label p)).

(** The window of slot [i]. *)
Definition win (es : Z) (array : list Z) (i : Z) : list Z := bslice array (i * es) (i * es + es).

Lemma kept_tail_fits g tails uuid : 128 ≤ entry_size g →
  zlen (kept_tail g tails uuid) ≤ entry_size g - 128.
Proof.
  intros. unfold kept_tail. destruct (tails !! uuid) as [tail|]; [|change (zlen (@nil Z)) with 0; lia].
  pose proof (zlen_nonneg tail). rewrite zlen_bslice; lia.
Qed.

Lemma zlen_entry_image es tail t u s e a l : 128 ≤ es → zlen t = 16 → zlen u = 16 →
  zlen tail ≤ es - 128 → zlen (entry_image es tail t u s e a l) = es.
Proof.
  intros. unfold entry_image. pose proof (name_bytes_fit l).
  rewrite !zlen_app, !zlen_pad, !zlen_le_bytes by lia. lia.
Qed.

(** The writes of [put_entry] inside a blank window leave the image. *)
Definition entry_fields (tail t u : list Z) (s e a : Z) (name : list Z) : list (Z * Z * list Z) :=
  [(128, zlen tail, tail); (0, 16, t); (16, 16, u); (32, 8, le_bytes 8 s);
   (40, 8, le_bytes 8 e); (48, 8, le_bytes 8 a); (56, zlen name, name)].

Lemma entry_fields_image es tail t u s e a l : 128 ≤ es → zlen t = 16 → zlen u = 16 →
  zlen tail ≤ es - 128 →
  puts (zeros es) (entry_fields tail t u s e a (name_bytes l)) = entry_image es tail t u s e a l.
Proof.
  intros Hes Ht Hu Htl. pose proof (name_bytes_fit l) as Hn.
  pose proof (zlen_nonneg tail) as Hp1. pose proof (zlen_nonneg (name_bytes l)) as Hp2.
  set (name := name_bytes l) in *.
  set (h := puts (zeros es) [(128, zlen tail, tail); (0, 16, t); (16, 16, u);
    (32, 8, le_bytes 8 s); (40, 8, le_bytes 8 e); (48, 8, le_bytes 8 a)]).
  change (puts (zeros es) (entry_fields tail t u s e a name)) with (bput h 56 name).
  assert (fits (zlen (zeros es)) [(128, zlen tail, tail); (0, 16, t); (16, 16, u);
    (32, 8, le_bytes 8 s); (40, 8, le_bytes 8 e); (48, 8, le_bytes 8 a)]) as Hfit.
  { unfold fits. rewrite zlen_zeros by lia. repeat (apply Forall_cons; split);
      first [apply field_fits_le; lia | apply Forall_nil; done | cbn [field_fits]; rewrite ?zlen_le_bytes; lia]. }
  assert (zlen h = es) as Hh by (unfold h; rewrite puts_zlen, zlen_zeros by (done || lia); lia).
  assert (∀ x y bs, 0 ≤ x → y ≤ 56 → field_at [(128, zlen tail, tail); (0, 16, t); (16, 16, u);
    (32, 8, le_bytes 8 s); (40, 8, le_bytes 8 e); (48, 8, le_bytes 8 a)] x y = Found bs →
    bslice (bput h 56 name) x y = bs) as Hfield.
  { intros x y bs Hx Hy E. rewrite bslice_bput_other by lia. by apply bslice_field. }
  rewrite <- (bslice_full (bput h 56 name) es) by (rewrite zlen_bput; lia).
  unfold entry_image.
  rewrite (bslice_app _ 0 16 es) by (rewrite ?zlen_bput; lia). f_equal; [by apply Hfield|].
  rewrite (bslice_app _ 16 32 es) by (rewrite ?zlen_bput; lia). f_equal; [by apply Hfield|].
  rewrite (bslice_app _ 32 40 es) by (rewrite ?zlen_bput; lia). f_equal; [by apply Hfield|].
  rewrite (bslice_app _ 40 48 es) by (rewrite ?zlen_bput; lia). f_equal; [by apply Hfield|].
  rewrite (bslice_app _ 48 56 es) by (rewrite ?zlen_bput; lia). f_equal; [by apply Hfield|].
  rewrite (bslice_app _ 56 128 es) by (rewrite ?zlen_bput; lia). f_equal.
  - change 128 with (56 + 72). rewrite (bslice_bput_window h 56 72 0) by lia.
    unfold h. rewrite bslice_blank; [|done|lia|].
    + rewrite bslice_zeros by lia. change (56 + 72 - 56) with 72. rewrite bput_zeros; [done|lia].
    + cbn [field_at]. change (56 + 72) with 128. by rewrite (proj2 (Z.leb_le 128 128)) by lia.
  - rewrite bslice_bput_other by lia.
    assert (zlen (bput (zeros es) 128 tail) = es) as Hz
      by (rewrite zlen_bput; rewrite ?zlen_zeros; lia).
    unfold h. change (bslice (puts (bput (zeros es) 128 tail) [(0, 16, t); (16, 16, u);
      (32, 8, le_bytes 8 s); (40, 8, le_bytes 8 e); (48, 8, le_bytes 8 a)]) 128 es
      = pad (es - 128) tail).
    rewrite bslice_blank; [|rewrite Hz; rewrite zlen_zeros in Hfit by lia; by inversion Hfit|lia|].
    2:{ cbn [field_at]. by rewrite !(proj2 (Z.leb_gt es _)) by lia. }
    replace es with (128 + (es - 128)) at 2 by lia.
    rewrite (bslice_bput_window _ 128 (es - 128) 0); rewrite ?zlen_zeros; try lia.
    rewrite bslice_zeros by lia. replace (128 + (es - 128) - 128) with (es - 128) by lia.
    apply bput_zeros. lia.
Qed.

(** ** The entry array *)
Section array.
Context (g : GptGeometry) (tails : gmap (list Z) (list Z)).
Local Abbreviation es := (entry_size g).
Context (Hes : 128 ≤ es).

(** One round of the writer's loop over a blank window. *)
Lemma put_entry_image array p slot : partition_typed p → 0 ≤ slot →
  slot * es + es ≤ zlen array → win es array slot = zeros es →
  put_entry g tails array (p, slot) = (img ← gpt_image g tails p; Ok (bput array (slot * es) img)).
Proof.
  intros [_ _ Hk Hl Hu _] Hs Ha Hw. unfold put_entry, gpt_image.
  destruct (p_kind p) as [t a| |]; cbn [mbind Result_bind]; [|done..].
  destruct (p_uuid p) as [u|]; cbn [mbind Result_bind ok_or]; [|done].
  destruct (sector_span p) as [[s e]|]; cbn [mbind Result_bind]; [|done].
  f_equal. destruct Hk as [[Ht _] _]. destruct Hu as [Hu _].
  pose proof (kept_tail_fits g tails u Hes) as Htl.
  pose proof (name_bytes_fit (p_label p)). pose proof (zlen_nonneg (name_bytes (p_label p))).
  pose proof (zlen_nonneg (kept_tail g tails u)).
  rewrite <- (entry_fields_image es (kept_tail g tails u) t u s e a (p_label p)) by done.
  rewrite <- Hw. unfold win. rewrite <- puts_inside; [|lia..|].
  - cbn [entry_fields map puts foldl]. rewrite Z.add_0_r. unfold kept_tail, ENTRY_STANDARD_BYTES.
    destruct (Z.ltb_spec 128 es).
    + destruct (tails !! u); cbn [name_bytes]; destruct (p_label p); cbn [name_bytes];
        rewrite ?bput_nil; done.
    + assert (es = 128) as He by lia. destruct (tails !! u) as [tl|].
      * assert (bslice tl 0 (Z.min (zlen tl) (es - 128)) = []) as -> by (apply bslice_empty; lia).
        destruct (p_label p); cbn [name_bytes]; rewrite ?bput_nil; done.
      * destruct (p_label p); cbn [name_bytes]; rewrite ?bput_nil; done.
  - unfold fits, entry_fields. repeat (apply Forall_cons; split);
      first [apply Forall_nil; done | cbn [field_fits]; rewrite ?zlen_le_bytes; lia].
Qed.

Lemma zlen_gpt_image p img : partition_typed p → gpt_image g tails p = Ok img → zlen img = es.
Proof.
  intros [_ _ Hk _ Hu _]. unfold gpt_image.
  destruct (p_kind p) as [t a| |]; [|done..]. cbn [mbind Result_bind].
  destruct (p_uuid p) as [u|]; [|done]. cbn [mbind Result_bind ok_or].
  destruct (sector_span p) as [[s e]|]; [|done]. intros [= <-].
  destruct Hk as [[Ht _] _], Hu as [Hu _]. apply zlen_entry_image; [done..|].
  by apply kept_tail_fits.
Qed.

Lemma win_bput array i j img : 0 ≤ i → 0 ≤ j → zlen img = es → j * es + es ≤ zlen array →
  win es (bput array (j * es) img) i = if decide (i = j) then img else win es array i.
Proof.
  intros Hi Hj Hl Ha. unfold win. case_decide as E.
  - subst j. apply bslice_bput_same; lia.
  - apply bslice_bput_other; [lia..|]. rewrite Hl.
    destruct (decide (i < j)); [left|right]; nia.
Qed.

(** What the array holds once every partition has been laid down. *)
Record array_holds (n : Z) (ps : list Partition) (slots : list Z) (array : list Z) : Prop := {
  holds_length : zlen array = n * es;
  holds_blank : ∀ i, slot_in n i → i ∉ slots → win es array i = zeros es;
  holds_images : Forall2 (λ p s, gpt_image g tails p = Ok (win es array s)) ps slots;
}.

Lemma foldM_put_entry n ps slots array : length slots = length ps → Forall partition_typed ps →
  NoDup slots → Forall (slot_in n) slots → zlen array = n * es →
  (∀ s, s ∈ slots → win es array s = zeros es) →
  match foldM (put_entry g tails) array (zip ps slots) with
  | Ok array' =>
      zlen array' = n * es ∧
      (∀ i, slot_in n i → i ∉ slots → win es array' i = win es array i) ∧
      Forall2 (λ p s, gpt_image g tails p = Ok (win es array' s)) ps slots
  | Err _ => ¬ Forall (λ p, is_ok (gpt_image g tails p) = true) ps
  end.
Proof.
  revert slots array; induction ps as [|p ps IH]; intros [|s slots] array Hlen Ht Hnd Hr Hz Hb; try done.
  apply Forall_cons in Ht as [Hp Ht]. apply Forall_cons in Hr as [Hs Hr].
  apply NoDup_cons in Hnd as [Hns Hnd]. cbn [zip zip_with foldM]. unfold slot_in in Hs.
  rewrite put_entry_image; [|done|lia|nia|apply Hb; set_solver].
  destruct (gpt_image g tails p) as [img|] eqn:Ei; cbn [mbind Result_bind].
  2:{ rewrite Forall_cons, Ei. naive_solver. }
  pose proof (zlen_gpt_image p img Hp Ei) as Hli.
  assert (∀ i, 0 ≤ i → win es (bput array (s * es) img) i = if decide (i = s) then img else win es array i)
    as Hw by (intros; apply win_bput; [lia..|nia]).
  specialize (IH slots (bput array (s * es) img) ltac:(cbn in Hlen; lia) Ht Hnd Hr).
  destruct (foldM _ _ (zip ps slots)) as [array'|].
  - destruct IH as (Hl' & Hk' & Hi').
    + rewrite zlen_bput; nia.
    + intros x Hx. rewrite Hw by (eapply Forall_forall in Hr; [|done]; unfold slot_in in Hr; lia).
      rewrite decide_False by naive_solver. apply Hb. set_solver.
    + split_and!; [done| |constructor; [|done]].
      * intros i Hi Hni. rewrite Hk' by set_solver. rewrite Hw by (unfold slot_in in Hi; lia).
        apply decide_False. set_solver.
      * rewrite Ei, Hk', Hw by (done || lia). by rewrite decide_True.
  - intros Hall. apply IH; [rewrite zlen_bput; nia| |by apply Forall_cons in Hall as [_ ?]].
    intros x Hx. rewrite Hw by (eapply Forall_forall in Hr; [|done]; unfold slot_in in Hr; lia).
    rewrite decide_False by naive_solver. apply Hb. set_solver.
Qed.

Lemma build_array_holds ps slots array : 0 ≤ num_entries g ≤ 4096 → es ≤ 4096 →
  length slots = length ps → Forall partition_typed ps →
  NoDup slots → Forall (slot_in (num_entries g)) slots →
  build_array g tails ps slots = Ok array → array_holds (num_entries g) ps slots array.
Proof.
  intros Hn He Hl Ht Hnd Hr. unfold build_array, geometry.array_bytes.
  rewrite u64_small by nia.
  assert (∀ i, slot_in (num_entries g) i → win es (zeros (num_entries g * es)) i = zeros es) as Hz.
  { intros i [??]. unfold win. rewrite bslice_zeros by nia. f_equal. lia. }
  pose proof (foldM_put_entry (num_entries g) ps slots (zeros (num_entries g * es)) Hl Ht Hnd Hr) as H.
  destruct (foldM _ _ _) as [a|]; [|done]. intros [= <-].
  destruct H as (H1 & H2 & H3); [rewrite zlen_zeros by nia; lia| |].
  - intros s Hs. apply Hz. by eapply Forall_forall in Hr.
  - constructor; [done| |done]. intros i Hi Hni. rewrite H2 by done. by apply Hz.
Qed.

Lemma build_array_ok ps slots : 0 ≤ num_entries g ≤ 4096 → es ≤ 4096 →
  length slots = length ps → Forall partition_typed ps →
  NoDup slots → Forall (slot_in (num_entries g)) slots →
  Forall (λ p, is_ok (gpt_image g tails p) = true) ps →
  ∃ array, build_array g tails ps slots = Ok array.
Proof.
  intros Hn He Hl Ht Hnd Hr Hok. unfold build_array, geometry.array_bytes.
  rewrite u64_small by nia.
  pose proof (foldM_put_entry (num_entries g) ps slots (zeros (num_entries g * es)) Hl Ht Hnd Hr) as H.
  destruct (foldM _ _ _) as [a|]; [by eexists|]. exfalso. apply H; [| |done].
  - rewrite zlen_zeros by nia. lia.
  - intros s Hs. eapply Forall_forall in Hr as [??]; [|done]. unfold win.
    rewrite bslice_zeros by nia. f_equal. lia.
Qed.
End array.

(** ** Reading the array back *)

(** The partition a reader makes of one that was written into slot [slot] of
    a device of [size] bytes. *)
Definition as_written (size : Z) (p : Partition) (slot : Z) : Partition :=
  mkPartition (p_start p) (p_length p) (p_kind p) (stored_label (p_label p)) (p_uuid p)
    (Some slot) entry_issue.NONE (available_on_device (p_start p) (p_length p) size).

Lemma image_fields es tail t u s e a l : 128 ≤ es → zlen t = 16 → zlen u = 16 →
  zlen tail ≤ es - 128 →
  let img := entry_image es tail t u s e a l in
  bslice img 0 16 = t ∧ bslice img 16 32 = u ∧ bslice img 32 40 = le_bytes 8 s ∧
  bslice img 40 48 = le_bytes 8 e ∧ bslice img 48 56 = le_bytes 8 a ∧
  bslice img 56 128 = pad 72 (name_bytes l) ∧ bslice img 128 es = pad (es - 128) tail.
Proof.
  intros Hes Ht Hu Htl img. pose proof (name_bytes_fit l).
  assert (∀ n z, zlen (le_bytes n z) = Z.of_nat n) by apply zlen_le_bytes.
  assert (zlen (pad 72 (name_bytes l)) = 72) by by apply zlen_pad.
  assert (zlen (pad (es - 128) tail) = es - 128) by by apply zlen_pad.
  pose proof (zlen_le_bytes 8 s). pose proof (zlen_le_bytes 8 e). pose proof (zlen_le_bytes 8 a).
  unfold img, entry_image.
  split_and!; repeat first
    [ rewrite bslice_app_l by lia; apply bslice_full; lia
    | rewrite bslice_app_r by lia
    | apply bslice_full; lia ].
  all: rewrite ?Ht, ?Hu, ?zlen_le_bytes; try (rewrite bslice_app_l by lia; apply bslice_full; lia).
  rewrite zlen_pad by done. apply bslice_full; lia.
Qed.

(** An entry slot reads only its own window. *)
Lemma win_slice es array i x y : 0 ≤ i → 0 ≤ x → y ≤ es → 0 ≤ es →
  bslice array (i * es + x) (i * es + y) = bslice (win es array i) x y.
Proof. intros. unfold win. by rewrite bslice_bslice by nia. Qed.

Lemma parse_blank es size array i : 16 ≤ es → 0 ≤ i → win es array i = zeros es →
  parse_entry array es size i = Ok None.
Proof.
  intros Hes Hi Hw. unfold parse_entry.
  replace (i * es) with (i * es + 0) at 1 by lia. rewrite win_slice by lia.
  rewrite Hw, bslice_zeros by lia. done.
Qed.

(** What the reader's entry is made of. *)
Record entry_read (array : list Z) (es size i : Z) (p : Partition) (s e : Z) : Prop := {
  read_first : s = le64 array (i * es + 32);
  read_last : e = le64 array (i * es + 40);
  read_order : s ≤ e;
  read_start : p_start p = s * SECTOR_SIZE ∧ p_start p < 2 ^ 64;
  read_length : p_length p = (e - s + 1) * SECTOR_SIZE ∧ p_length p < 2 ^ 64;
  read_kind : p_kind p = KindGpt (bslice array (i * es) (i * es + 16)) (le64 array (i * es + 48));
  read_used : bslice array (i * es) (i * es + 16) ≠ type_guids.UNUSED;
  read_label : p_label p = parse_utf16_label (bslice array (i * es + 56) (i * es + 128));
  read_uuid : p_uuid p = Some (bslice array (i * es + 16) (i * es + 32));
  read_slot : p_slot p = Some i;
  read_issues : p_issues p = entry_issue.NONE;
  read_available : p_available_length p = available_on_device (p_start p) (p_length p) size;
}.

Lemma parse_entry_Some array es size i p s e :
  parse_entry array es size i = Ok (Some (p, (s, e))) → entry_read array es size i p s e.
Proof.
  unfold parse_entry. destruct (bytes_eqb _ _) eqn:Eu; [done|].
  apply bool_decide_eq_false in Eu. intros Hp. inv_ok. subst.
  destruct (checked_sub _ _) eqn:Es; [|done]. cbn in *. inv_ok. subst. zbool.
  by constructor.
Qed.

Lemma bytes_eqb_true a b : bytes_eqb a b = true ↔ a = b.
Proof. apply bool_decide_eq_true. Qed.
Lemma bytes_eqb_false a b : bytes_eqb a b = false ↔ a ≠ b.
Proof. apply bool_decide_eq_false. Qed.

Lemma parse_image es size array i tail t u s e a l : 128 ≤ es → 0 ≤ i →
  guid16 t → t ≠ type_guids.UNUSED → guid16 u → is_u64 a → 0 ≤ s ≤ e → e < 2 ^ 55 - 1 →
  opt_all is_label l → zlen tail ≤ es - 128 →
  win es array i = entry_image es tail t u s e a l →
  parse_entry array es size i =
  Ok (Some (mkPartition (s * SECTOR_SIZE) ((e - s + 1) * SECTOR_SIZE) (KindGpt t a)
              (stored_label l) (Some u) (Some i) entry_issue.NONE
              (available_on_device (s * SECTOR_SIZE) ((e - s + 1) * SECTOR_SIZE) size), (s, e))).
Proof.
  intros Hes Hi [Ht _] Hun [Hu _] Ha Hs He Hl Htl Hw.
  destruct (image_fields es tail t u s e a l Hes Ht Hu Htl) as (F1 & F2 & F3 & F4 & F5 & F6 & _).
  unfold parse_entry, le64.
  assert (bslice array (i * es) (i * es + 16) = bslice (win es array i) 0 16) as ->.
  { rewrite <- win_slice by lia. f_equal. lia. }
  rewrite <- !Z.add_assoc. rewrite !win_slice by lia. rewrite Hw.
  change (32 + 8) with 40. change (40 + 8) with 48. change (48 + 8) with 56.
  rewrite F1, F2, F3, F4, F5, F6.
  rewrite (proj2 (bytes_eqb_false _ _) Hun).
  assert (∀ z, is_u64 z → le_val (le_bytes 8 z) = z) as Hv by (intros; by apply le_val_le_bytes).
  rewrite !Hv by (done || unfold is_u64; lia).
  rewrite refuse_no by lia. unfold SECTOR_SIZE.
  rewrite checked_mul_ok by lia. cbn [mbind Result_bind ok_or].
  rewrite checked_sub_ok by lia. cbn [mbind option_bind].
  rewrite checked_add_ok by lia. cbn [mbind Result_bind ok_or].
  rewrite checked_mul_ok by lia.
  cbn [mbind Result_bind ok_or]. by rewrite parse_name_field.
Qed.

(** What the writer demands of a partition besides its place: a GPT kind with
    a type in use, a UUID, whole sectors, and a length. *)
Record entry_ok (p : Partition) : Prop := {
  ok_kind : ∃ t a, p_kind p = KindGpt t a ∧ t ≠ type_guids.UNUSED;
  ok_uuid : is_Some (p_uuid p);
  ok_start : is_multiple_of (p_start p) SECTOR_SIZE = true;
  ok_length : is_multiple_of (p_length p) SECTOR_SIZE = true;
  ok_nonempty : 0 < p_length p;
  ok_end : p_start p + p_length p < 2 ^ 64;
}.

Lemma gpt_image_ok g tails p : partition_typed p → entry_ok p →
  ∃ t a u, p_kind p = KindGpt t a ∧ t ≠ type_guids.UNUSED ∧ p_uuid p = Some u ∧
  gpt_image g tails p = Ok (entry_image (entry_size g) (kept_tail g tails u) t u
    (span_of p).1 (span_of p).2 a (p_label p)).
Proof.
  intros Ht [(t & a & Hk & Hun) [u Hu] _ _ ? ?]. exists t, a, u. split_and!; [done..|].
  unfold gpt_image. by rewrite Hk, Hu, span_of_spec.
Qed.

Section read_back.
Context (g : GptGeometry) (tails : gmap (list Z) (list Z)) (n size : Z).
Context (Hes : 128 ≤ entry_size g) (Hn : 0 ≤ n).

Lemma parse_written p s array : partition_typed p → entry_ok p → 0 ≤ s →
  gpt_image g tails p = Ok (win (entry_size g) array s) →
  parse_entry array (entry_size g) size s = Ok (Some (as_written size p s, span_of p)).
Proof.
  intros Ht Hok Hs Hi.
  destruct (gpt_image_ok g tails p Ht Hok) as (t & a & u & Hk & Hun & Hu & Hi').
  rewrite Hi in Hi'. injection Hi' as Hw.
  pose proof (kept_tail_fits g tails u Hes).
  destruct Ht as [[Hs0 Hs1] [Hl0 Hl1] Htk Htl Htu _]. rewrite Hk in Htk. rewrite Hu in Htu.
  destruct Htk as [Htg Hta], Hok as [_ _ Ha Hb Hp He].
  destruct (sector_span_aligned p (span_of p).1 (span_of p).2 Hs0 Hl0 Ha Hb) as [E1 E2].
  { by apply sector_span_Ok. }
  assert (p_length p ≤ 2 ^ 64 - 512 - p_start p) as Hb64.
  { unfold is_multiple_of, SECTOR_SIZE in *. apply Z.eqb_eq in Ha, Hb. dlia. }
  rewrite (parse_image _ size array s (kept_tail g tails u) t u (span_of p).1 (span_of p).2
    a (p_label p) Hes Hs Htg Hun Htu Hta); [| | |done|done|exact Hw].
  - rewrite <- E1, <- E2, <- Hk, <- Hu. by destruct (span_of p).
  - unfold span_of, SECTOR_SIZE. cbn. dlia.
  - unfold span_of, SECTOR_SIZE. cbn. dlia.
Qed.

Lemma collect_written ps slots array : Forall partition_typed ps → Forall entry_ok ps →
  NoDup slots → Forall (slot_in n) slots → array_holds g tails n ps slots array →
  ∃ found, collectM (parse_entry array (entry_size g) size) (seqZ 0 n) = Ok found ∧
    found ≡ₚ zip_with (λ p s, (as_written size p s, span_of p)) ps slots ∧
    StronglySorted (λ x y, default 0 (p_slot x.1) < default 0 (p_slot y.1)) found.
Proof.
  intros Ht Hok Hnd Hr [Hlen Hblank Him].
  set (h i := match parse_entry array (entry_size g) size i with Ok o => o | Err _ => None end).
  assert (Forall2 (λ p s, parse_entry array (entry_size g) size s
    = Ok (Some (as_written size p s, span_of p))) ps slots) as Hp.
  { clear Hblank Hnd. induction Him as [|p s ps slots Hi _ IH]; [constructor|].
    apply Forall_cons in Ht as [? ?], Hok as [? ?], Hr as [[? _] ?].
    constructor; [by apply parse_written|by apply IH]. }
  assert (∀ i, slot_in n i → i ∉ slots → parse_entry array (entry_size g) size i = Ok None) as Hb.
  { intros i Hi Hni. apply parse_blank; [lia|apply Hi|by apply Hblank]. }
  assert (∀ i, slot_in n i → parse_entry array (entry_size g) size i = Ok (h i)) as Hh.
  { intros i Hi. unfold h. destruct (decide (i ∈ slots)) as [Hin|]; [|by rewrite Hb].
    apply list_elem_of_lookup in Hin as [k Hk].
    destruct (Forall2_lookup_r _ _ _ _ _ Hp Hk) as (p & _ & ->). done. }
  exists (omap h (seqZ 0 n)). split_and!.
  - apply collectM_pure. intros i Hi%elem_of_seqZ. apply Hh. unfold slot_in. lia.
  - rewrite (omap_seqZ_perm h n slots) by
      (done || (intros; unfold h; by rewrite Hb)).
    rewrite (omap_Forall2 h (λ p s, (as_written size p s, span_of p)) ps); [done|].
    eapply Forall2_impl; [exact Hp|]. intros p s E. unfold h. by rewrite E.
  - apply omap_seqZ_sorted. intros i y. unfold h.
    destruct y as [p [s e]]. intros E. destruct (parse_entry _ _ _ _) as [o|] eqn:Ep; [|done].
    subst o. apply parse_entry_Some in Ep. cbn. by rewrite (read_slot _ _ _ _ _ _ _ Ep).
Qed.
End read_back.

(** A table with every entry in range and no two entries sharing a sector is
    read without a flag. *)
Lemma with_issues_same p i : p_issues p = i → with_issues p i = p.
Proof. intros <-. by destruct p. Qed.

Lemma set_issues_clean h found :
  Forall (λ x : Partition * (Z * Z), p_issues x.1 = entry_issue.NONE ∧
    first_usable_lba h ≤ x.2.1 ∧ x.2.1 ≤ x.2.2 ∧ x.2.2 ≤ last_usable_lba h) found →
  disjoint_spans (map snd found) → set_issues h found = map fst found.
Proof.
  intros Hf Hd. unfold set_issues.
  assert (map (λ '(p, span), with_issues p (range_issues span.1 span.2 (first_usable_lba h)
    (last_usable_lba h))) found = map fst found) as ->.
  { clear Hd. induction Hf as [|[p s] found (Hi & ? & ? & ?) _ IH]; cbn in *; [done|].
    rewrite IH. f_equal. apply with_issues_same. rewrite Hi. symmetry.
    apply range_issues_none. lia. }
  assert (spans_forward (map snd found)) as Hfw.
  { apply Forall_map. eapply Forall_impl; [exact Hf|]. intros [? ?]. cbn. lia. }
  apply mark_overlaps_any in Hd; [|done].
  assert (Forall (λ b, b = false) (mark_overlaps (map snd found))) as Hb.
  { apply list.Forall_forall. intros b Hb. destruct b; [|done]. exfalso.
    assert (existsb id (mark_overlaps (map snd found)) = true)
      by (apply existsb_exists; exists true; split; [by apply list_elem_of_In|done]).
    congruence. }
  pose proof (mark_overlaps_length (map snd found)) as Hl.
  rewrite length_map in Hl. rewrite <- (length_map fst) in Hl.
  revert Hb Hl. generalize (mark_overlaps (map snd found)) as bs, (map fst found) as l. clear.
  induction bs as [|b bs IH]; intros [|p l] Hb Hl; try done.
  apply Forall_cons in Hb as [-> Hb]. cbn. f_equal. apply IH; [done|]. cbn in Hl. lia.
Qed.

(** ** The issue flags, entry by entry *)
Definition issues_of (h : Header) (spans : list (Z * Z)) (k : nat) (s : Z * Z) : Z :=
  let base := range_issues s.1 s.2 (first_usable_lba h) (last_usable_lba h) in
  if default false (mark_overlaps spans !! k)
  then Z.lor base entry_issue.OVERLAPS_ANOTHER else base.

Lemma set_issues_lookup h found k p s : found !! k = Some (p, s) →
  set_issues h found !! k = Some (with_issues p (issues_of h (map snd found) k s)).
Proof.
  intros Hk. unfold set_issues, issues_of.
  pose proof (mark_overlaps_length (map snd found)) as Hl. rewrite length_map in Hl.
  destruct (lookup_lt_is_Some_2 (mark_overlaps (map snd found)) k) as [b Hb].
  { rewrite Hl. by eapply lookup_lt_Some. }
  rewrite lookup_zip_with. fold (@fmap list _). 
  assert (map (λ '(p, span), with_issues p (range_issues span.1 span.2 (first_usable_lba h)
    (last_usable_lba h))) found !! k = Some (with_issues p (range_issues s.1 s.2
    (first_usable_lba h) (last_usable_lba h)))) as ->.
  { change (@map) with (@fmap list _). by rewrite list_lookup_fmap, Hk. }
  rewrite Hb. cbn. by destruct b.
Qed.

Lemma set_issues_length h found : length (set_issues h found) = length found.
Proof.
  unfold set_issues. rewrite length_zip_with, length_map, mark_overlaps_length, length_map. lia.
Qed.

Lemma land_overlap_base s e f l :
  Z.land (range_issues s e f l) entry_issue.OVERLAPS_ANOTHER = 0.
Proof.
  unfold range_issues. destruct (Z.ltb_spec s f), (Z.ltb_spec l s), (Z.ltb_spec l e); reflexivity.
Qed.

(** The three bits, each with its meaning. *)
Lemma issues_of_bits h spans k s : spans_forward spans → spans !! k = Some s →
  let i := issues_of h spans k s in
  (Z.land i entry_issue.BEFORE_FIRST_USABLE ≠ 0 ↔ s.1 < first_usable_lba h) ∧
  (Z.land i entry_issue.PAST_LAST_USABLE ≠ 0 ↔ last_usable_lba h < s.1 ∨ last_usable_lba h < s.2) ∧
  (Z.land i entry_issue.OVERLAPS_ANOTHER ≠ 0 ↔ clashes spans k).
Proof.
  intros Hf Hk i. pose proof (mark_overlaps_flag spans k Hf) as Hm.
  pose proof (range_issues_before s.1 s.2 (first_usable_lba h) (last_usable_lba h)) as Hb.
  pose proof (range_issues_past s.1 s.2 (first_usable_lba h) (last_usable_lba h)) as Hp.
  pose proof (land_overlap_base s.1 s.2 (first_usable_lba h) (last_usable_lba h)) as Ho.
  unfold i, issues_of. destruct (mark_overlaps spans !! k) as [[]|] eqn:E; cbn [default from_option id].
  - rewrite !(Z.land_lor_distr_l _ entry_issue.OVERLAPS_ANOTHER), Ho. 
    change (Z.land entry_issue.OVERLAPS_ANOTHER entry_issue.BEFORE_FIRST_USABLE) with 0.
    change (Z.land entry_issue.OVERLAPS_ANOTHER entry_issue.PAST_LAST_USABLE) with 0.
    rewrite !Z.lor_0_r. split_and!; [done|done|]. split; [|done]. intros _. by apply Hm.
  - split_and!; [done|done|]. rewrite Ho. split; [done|]. intros Hc. by apply Hm in Hc.
  - split_and!; [done|done|]. rewrite Ho. split; [done|]. intros Hc. by apply Hm in Hc.
Qed.

(** ** The entry loop *)
Lemma collect_entries array es size n found :
  collectM (parse_entry array es size) (seqZ 0 n) = Ok found →
  (∀ k p s, found !! k = Some (p, s) → ∃ i, 0 ≤ i < n ∧ entry_read array es size i p s.1 s.2) ∧
  StronglySorted (λ x y, default 0 (p_slot x.1) < default 0 (p_slot y.1)) found ∧
  (∀ i, 0 ≤ i < n → bslice array (i * es) (i * es + 16) ≠ type_guids.UNUSED →
    ∃ x, x ∈ found ∧ p_slot x.1 = Some i).
Proof.
  intros Hc. apply collectM_Ok in Hc as (os & Hos & ->).
  set (h i := match parse_entry array es size i with Ok o => o | Err _ => None end).
  assert (omap id os = omap h (seqZ 0 n)) as E.
  { clear -Hos. induction Hos as [|i o l os Hi _ IH]; [done|]. cbn. unfold h at 1.
    rewrite Hi. destruct o; cbn; by rewrite IH. }
  rewrite E. split_and!.
  - intros k p s Hk%list_elem_of_lookup_2. apply list_elem_of_omap in Hk as (i & Hi & Hh).
    apply elem_of_seqZ in Hi. exists i. split; [lia|]. unfold h in Hh. case_match eqn:Hp; [|done].
    subst. destruct s. by apply parse_entry_Some.
  - apply omap_seqZ_sorted. intros i [p [s e]]. unfold h. case_match eqn:Hp; [|done].
    intros ->. apply parse_entry_Some in Hp. cbn. by rewrite (read_slot _ _ _ _ _ _ _ Hp).
  - intros i Hi Hu. assert (i ∈ seqZ 0 n) as Hin by (apply elem_of_seqZ; lia).
    pose proof Hin as [k Hk]%list_elem_of_lookup.
    destruct (Forall2_lookup_l _ _ _ _ _ Hos Hk) as (o & Ho & Hp).
    assert (∃ x, o = Some x) as [[p [s e]] ->].
    { unfold parse_entry in Hp. rewrite (proj2 (bytes_eqb_false _ _) Hu) in Hp.
      inv_ok. subst. by eexists. }
    exists (p, (s, e)). split.
    + apply list_elem_of_omap. exists i. split; [done|]. unfold h. by rewrite Hp.
    + apply parse_entry_Some in Hp. apply (read_slot _ _ _ _ _ _ _ Hp).
Qed.

Lemma set_issues_slots h found :
  map (λ p, default 0 (p_slot p)) (set_issues h found) = map (λ x, default 0 (p_slot x.1)) found.
Proof.
  apply list_eq. intros k. change (@map) with (@fmap list _). rewrite !list_lookup_fmap.
  destruct (found !! k) as [[p s]|] eqn:E.
  - by rewrite (set_issues_lookup h found k p s E).
  - rewrite (lookup_ge_None_2 (set_issues h found)); [done|].
    rewrite set_issues_length. by apply lookup_ge_None.
Qed.

(** What [parse_entry_array] returns, in full. *)
Lemma entry_array_facts {D} `{!BlockRead D} `{!Crc32} (dev : D) (h : Header)
    (parts : list Partition) (array : list Z) :
  let es := partition_entry_size h in
  let n := num_partition_entries h in
  let size := size_bytes dev in
  parse_entry_array dev h = Ok (parts, array) →
  crc32_hash array = partition_entry_array_crc32 h ∧
  read_at dev (partition_entry_lba h * 512) (u64 (n * es)) = Ok array ∧
  ∃ spans, length spans = length parts ∧ spans_forward spans ∧
    (∀ k p, parts !! k = Some p → ∃ i s e, 0 ≤ i < n ∧ spans !! k = Some (s, e) ∧
      entry_read array es size i (with_issues p entry_issue.NONE) s e ∧
      (Z.land (p_issues p) entry_issue.BEFORE_FIRST_USABLE ≠ 0 ↔ s < first_usable_lba h) ∧
      (Z.land (p_issues p) entry_issue.PAST_LAST_USABLE ≠ 0 ↔
        last_usable_lba h < s ∨ last_usable_lba h < e) ∧
      (Z.land (p_issues p) entry_issue.OVERLAPS_ANOTHER ≠ 0 ↔ clashes spans k)) ∧
    StronglySorted (λ p q, default 0 (p_slot p) < default 0 (p_slot q)) parts ∧
    (∀ i, 0 ≤ i < n → bslice array (i * es) (i * es + 16) ≠ type_guids.UNUSED →
      ∃ p, p ∈ parts ∧ p_slot p = Some i).
Proof.
  cbv zeta. intros Hp. unfold parse_entry_array in Hp. inv_ok. simplify_eq. zbool.
  split; [done|]. split; [done|]. rename x4 into found.
  apply collect_entries in Hx4 as (Hent & Hsort & Hall).
  assert (spans_forward (map snd found)) as Hfw.
  { apply Forall_map, Forall_lookup. intros k [p s] Hk.
    destruct (Hent k p s Hk) as (i & _ & He). cbn. by destruct He. }
  exists (map snd found). split; [by rewrite set_issues_length, length_map|]. split; [done|].
  assert (∀ k p, set_issues h found !! k = Some p → ∃ q s, found !! k = Some (q, s) ∧
    p = with_issues q (issues_of h (map snd found) k s)) as Hlk.
  { intros k p Hk. destruct (lookup_lt_is_Some_2 found k) as [[q s] Hq].
    { rewrite <- (set_issues_length h). by eapply lookup_lt_Some. }
    exists q, s. split; [done|]. rewrite (set_issues_lookup h found k q s Hq) in Hk. congruence. }
  split_and!.
  - intros k p Hk. destruct (Hlk k p Hk) as (q & s & Hq & ->).
    destruct (Hent k q s Hq) as (i & Hi & He). exists i, s.1, s.2.
    assert (map snd found !! k = Some s) as Hs
      by (change (@map) with (@fmap list _); by rewrite list_lookup_fmap, Hq).
    destruct (issues_of_bits h (map snd found) k s Hfw Hs) as (B1 & B2 & B3).
    split_and!; [lia|lia|by destruct s| |done|done|done].
    replace (with_issues (with_issues q _) entry_issue.NONE) with q; [done|].
    destruct q; unfold with_issues; cbn. by rewrite <- (read_issues _ _ _ _ _ _ _ He).
  - apply sorted_keys. rewrite set_issues_slots. by apply sorted_keys in Hsort.
  - intros i Hi Hu. destruct (Hall i Hi Hu) as ([q s] & Hq & Hqs).
    apply list_elem_of_lookup in Hq as [k Hk]. eexists. split.
    + eapply list_elem_of_lookup_2, set_issues_lookup, Hk.
    + done.
Qed.
