(* ===== verification/GptDisk.v ===== *)
(** * GPT on a device: when the writer accepts a table, and what it leaves

    [usable_range_facts] is the geometry's arithmetic; [gpt_accepts] the
    conditions under which [write_gpt_assigning_slots] succeeds, with
    [write_gpt_cases] proving that they are exact and that a refusal leaves the
    device alone; [write_gpt_image] says which bytes change; and
    [probe_written] that the prober reads the table back. *)
From S2P Require Import Prelude Bytes Device Table Utf16 Rules Slots Mbr MbrCodec Gpt GptWrite GptCodec.

(** ** The geometry *)
Record geometry_typed (g : GptGeometry) : Prop := {
  typed_entries : is_u32 (num_entries g);
  typed_entry_size : is_u32 (entry_size g);
  typed_entry_lba : is_u64 (entry_lba g);
  typed_usable : opt_all (λ r : Z * Z, is_u64 r.1 ∧ is_u64 r.2) (declared_usable g);
}.

(** The sectors of one copy of the array. *)
Definition array_span (g : GptGeometry) : Z := div_ceil (num_entries g * entry_size g) SECTOR_SIZE.

Record layout_facts (g : GptGeometry) (total first last : Z) : Prop := {
  lay_shape : shape_ok g;
  lay_entries : 1 ≤ num_entries g;
  lay_bytes : geometry.array_bytes g = num_entries g * entry_size g;
  lay_sectors : geometry.array_sectors g = array_span g;
  lay_span : num_entries g * entry_size g ≤ 512 * array_span g < num_entries g * entry_size g + 512;
  lay_first : 2 ≤ entry_lba g ∧ entry_lba g + array_span g ≤ first;
  lay_range : first ≤ last;
  lay_last : last + array_span g + 1 < total;
}.

Lemma check_shape_Ok g : geometry_typed g → geometry.check_shape g = Ok tt →
  shape_ok g ∧ 1 ≤ num_entries g ∧ 2 ≤ entry_lba g ∧
  geometry.array_bytes g = num_entries g * entry_size g ∧
  geometry.array_sectors g = array_span g ∧ entry_lba g + array_span g ≤ MAX_LBA.
Proof.
  intros [[Hn0 Hn1] [He0 He1] [Hl0 Hl1] _]. unfold geometry.check_shape. intros H. inv_ok.
  unfold gpt_layout.ENTRY_SIZE in *. zbool.
  destruct (checked_add _ _) as [fst|] eqn:Ef in H; [|done]. inv_ok. zbool.
  assert (geometry.array_bytes g = num_entries g * entry_size g) as Eb
    by (unfold geometry.array_bytes; apply u64_small; nia).
  assert (geometry.array_sectors g = array_span g) as Es
    by (unfold geometry.array_sectors, array_span; by rewrite Eb).
  rewrite Es in *. unfold shape_ok. split_and!; try done; lia.
Qed.

(** [usable_range] yields a range that both copies of the array fit around,
    and none of its sums wraps. *)
Lemma usable_range_facts g total first last : geometry_typed g → 0 ≤ total < 2 ^ 55 →
  geometry.usable_range g total = Ok (first, last) →
  layout_facts g total first last.
Proof.
  intros Hg Ht H. unfold geometry.usable_range in H. inv_ok. apply check_shape_Ok in Hx; [|done].
  destruct Hx as (Hsh & Hn & Hl & Hb & Hs & Hm). destruct Hsh as (Hn2 & He2 & Hsh).
  assert (num_entries g * entry_size g ≤ 512 * array_span g < num_entries g * entry_size g + 512) as Hsp.
  { unfold array_span, SECTOR_SIZE.
    pose proof (div_ceil_spec (num_entries g * entry_size g) 512). nia. }
  unfold geometry.backup_reserve_sectors in H, Hx0. rewrite Hs in H, Hx0.
  unfold MAX_LBA, SECTOR_SIZE in *. change ((2 ^ 64 - 1) / 512) with (2 ^ 55 - 1) in *.
  assert (0 ≤ array_span g < 2 ^ 16) by nia.
  rewrite (u64_small (array_span g + 1)), (u64_small (entry_lba g + array_span g)) in H, Hx0 by lia.
  zbool. rewrite u64_small in Hx0 by lia. rewrite u64_small in H by lia.
  destruct (declared_usable g) as [[df dl]|]; inv_ok; zbool; constructor; try done; try lia; simplify_eq; try lia.
Qed.

Lemma layout_bounds g total first last : layout_facts g total first last →
  1 ≤ array_span g ∧ 2 ≤ entry_lba g ∧ entry_lba g + array_span g ≤ first ≤ last ∧
  last + array_span g + 1 < total.
Proof. intros [((?&?)&(?&?)&_) ? ? ? ? ? ? ?]. nia. Qed.

(** ** Validation *)
Definition in_range (first last : Z) (p : Partition) : Prop :=
  first ≤ (span_of p).1 ∧ (span_of p).2 ≤ last.

(** What [validate_partition] accepts. *)
Definition valid_in (first last : Z) (p : Partition) : Prop :=
  (∃ t a, p_kind p = KindGpt t a ∧ t ≠ type_guids.UNUSED) ∧
  is_multiple_of (p_start p) SECTOR_SIZE = true ∧
  is_multiple_of (p_length p) SECTOR_SIZE = true ∧
  0 < p_length p ∧ p_start p + p_length p < 2 ^ 64 ∧ in_range first last p.

Lemma validate_partition_spec p first last : partition_typed p →
  validate_partition p first last = Ok tt ↔ valid_in first last p.
Proof.
  intros Ht. unfold validate_partition, valid_in. destruct (p_kind p) as [t a| |] eqn:Ek.
  2-3: split; [done|intros ((? & ? & ? & _) & _); done].
  cbn [mbind Result_bind]. split.
  - intros H. inv_ok. destruct x1 as [s e]. inv_ok.
    apply span_of_inv in Hx1 as (Hsp & Hl & Hend); [|done].
    pose proof (span_forward p Ht Hl). rewrite <- Hsp in *. cbn [fst snd] in *.
    zbool. apply bool_decide_eq_false in H.
    assert (¬ s < first) by (rewrite <- (range_issues_before s e first last); lia).
    assert (¬ (last < s ∨ last < e)) by (rewrite <- (range_issues_past s e first last); lia).
    unfold in_range. rewrite <- Hsp. cbn. naive_solver lia.
  - intros ((t' & a' & [= <- <-] & Hun) & Ha & Hb & Hl & Hend & Hr1 & Hr2).
    rewrite refuse_no by lia. rewrite refuse_no by (by rewrite Ha, Hb).
    rewrite (span_of_spec p Ht Hl Hend). cbn [mbind Result_bind].
    pose proof (span_forward p Ht Hl). destruct (span_of p) as [s e]. cbn [fst snd] in *.
    assert (range_issues s e first last = entry_issue.NONE) as -> by (apply range_issues_none; lia).
    rewrite !refuse_no by done. by rewrite (proj2 (bytes_eqb_false _ _) Hun).
Qed.

Lemma gpt_spans_cases ps first last : Forall partition_typed ps →
  match gpt_spans ps first last with
  | Ok spans => Forall (valid_in first last) ps ∧ spans = map span_of ps
  | Err _ => ¬ Forall (valid_in first last) ps
  end.
Proof.
  intros Ht. apply (collectM_all _ (valid_in first last) span_of). intros p Hp.
  assert (partition_typed p) as Htp by by eapply list.Forall_forall in Ht.
  pose proof (validate_partition_spec p first last Htp) as Hv.
  destruct (validate_partition p first last) as [[]|e]; cbn [mbind Result_bind].
  - assert (valid_in first last p) as Hval by by apply Hv.
    destruct Hval as (? & ? & ? & ? & ? & ?). by rewrite (span_of_spec p Htp).
  - intros Hval. apply Hv in Hval. discriminate.
Qed.

(** The conditions under which a table is written: a geometry the device has
    room for, partitions that are valid and apart, no more of them than
    slots, a UUID each, and recorded slots that are distinct and in range. *)
Record gpt_accepts (ps : list Partition) (g : GptGeometry) (total first last : Z) : Prop := {
  acc_usable : geometry.usable_range g total = Ok (first, last);
  acc_count : zlen ps ≤ num_entries g;
  acc_valid : Forall (valid_in first last) ps;
  acc_disjoint : disjoint_spans (map span_of ps);
  acc_slots : NoDup (recorded ps) ∧ Forall (slot_in (num_entries g)) (recorded ps);
  acc_uuids : Forall (λ p, is_Some (p_uuid p)) ps;
}.

Lemma gpt_image_is_ok g tails first last p : partition_typed p → valid_in first last p →
  is_ok (gpt_image g tails p) = true ↔ is_Some (p_uuid p).
Proof.
  intros Ht ((t & a & Hk & _) & _ & _ & ? & ? & _). unfold gpt_image. rewrite Hk.
  cbn [mbind Result_bind]. destruct (p_uuid p); cbn [ok_or mbind Result_bind].
  - rewrite span_of_spec by done. cbn [mbind Result_bind]. destruct (span_of p).
    by split; [eexists|].
  - split; [done|by intros [? ?]].
Qed.

Lemma valid_entry_ok first last p : valid_in first last p → is_Some (p_uuid p) → entry_ok p.
Proof. intros (? & ? & ? & ? & ? & _) ?. by constructor. Qed.

Lemma valid_forward ps first last : Forall partition_typed ps → Forall (valid_in first last) ps →
  spans_forward (map span_of ps).
Proof.
  intros Ht Hv. apply Forall_map. apply list.Forall_forall. intros p Hp.
  eapply list.Forall_forall in Ht, Hv; [|done..]. apply span_forward; [done|]. apply Hv.
Qed.

(** ** The writer's bytes *)
Section bytes_of_a_write.
Context `{!Crc32} `{!Crc32Laws}.

(** The LBA 0 a write leaves: the bare protective MBR, or what
    [hybrid_lba0] makes of the entries LBA 0 held. *)
Definition written_lba0 (total : Z) (current : list Z) (lba0 : list ReservedEntry)
    (ps : list Partition) : Result Error (list Z) :=
  match lba0 with
  | [] => Ok (protective_mbr total)
  | _ => hybrid_lba0 current lba0 (bslice (protective_mbr total) 446 462) ps
  end.

Definition primary_header (g : GptGeometry) (total first last : Z) (guid array : list Z) : list Z :=
  build_header 1 (total - 1) (entry_lba g) (first, last) guid (crc32_hash array) g.
Definition backup_header (g : GptGeometry) (total first last : Z) (guid array : list Z) : list Z :=
  build_header (total - 1) 1 (total - 1 - array_span g) (first, last) guid (crc32_hash array) g.

(** The five writes, in order. *)
Definition gpt_writes (g : GptGeometry) (total first last : Z) (guid mbr array : list Z)
    : list (Z * Z * list Z) :=
  [(0, 512, mbr); (512, 512, primary_header g total first last guid array);
   (entry_lba g * 512, num_entries g * entry_size g, array);
   ((total - 1 - array_span g) * 512, num_entries g * entry_size g, array);
   ((total - 1) * 512, 512, backup_header g total first last guid array)].
End bytes_of_a_write.

(** ** Every write is whole and made of bytes *)
Definition tails_typed (tails : gmap (list Z) (list Z)) : Prop := map_Forall (λ _ t, bytes_ok t) tails.

Record reserved_typed (r : ReservedEntry) : Prop := {
  typed_r_slot : is_u32 (r_slot r);
  typed_r_bytes : zlen (r_bytes r) = 16 ∧ bytes_ok (r_bytes r);
}.

Lemma units_bytes_ok us : bytes_ok (units_bytes us).
Proof.
  unfold units_bytes. induction us as [|u us IH]; [constructor|].
  cbn [mbind list_bind]. apply bytes_ok_app; [apply le_bytes_ok|exact IH].
Qed.

Lemma put_entry_bytes g tails p slot array array' : tails_typed tails → partition_typed p →
  put_entry g tails array (p, slot) = Ok array' → bytes_ok array → bytes_ok array'.
Proof.
  intros Htl [_ _ Hk _ Hu _] H Ha. unfold put_entry in H.
  destruct (p_kind p) as [t a| |]; [|done..]. destruct (p_uuid p) as [u|]; [|done].
  cbn [mbind Result_bind ok_or] in H. destruct (sector_span p) as [[s e]|]; [|done].
  destruct Hk as [[_ Hk] _], Hu as [_ Hu]. cbn [mbind Result_bind] in H. injection H as <-.
  assert (bytes_ok (if ENTRY_STANDARD_BYTES <? entry_size g
    then match tails !! u with
         | Some tail => bput array (slot * entry_size g + ENTRY_STANDARD_BYTES)
             (bslice tail 0 (Z.min (zlen tail) (entry_size g - ENTRY_STANDARD_BYTES)))
         | None => array end else array)) as Hb.
  { case_match; [|done]. destruct (tails !! u) as [tl|] eqn:E; [|done].
    pose proof (Htl _ _ E). auto with bytes. }
  destruct (p_label p); repeat apply bytes_ok_bput;
    first [exact (le_bytes_ok 8 _) | auto using units_bytes_ok with bytes].
Qed.

Lemma build_array_bytes g tails ps slots array : tails_typed tails → Forall partition_typed ps →
  build_array g tails ps slots = Ok array → bytes_ok array.
Proof.
  intros Htl Ht. unfold build_array. assert (bytes_ok (zeros (geometry.array_bytes g))) as Hz by auto with bytes.
  revert Hz. generalize (zeros (geometry.array_bytes g)) as a.
  revert slots; induction Ht as [|p ps Hp _ IH]; intros [|s slots] a Ha H; cbn [zip zip_with foldM] in H;
    try by injection H as <-.
  inv_ok. eapply IH; [|exact H]. by eapply put_entry_bytes.
Qed.

Section lba0.
Context (current : list Z) (Hc : zlen current = 512) (Hb : bytes_ok current).

Lemma keep_lba0_entry_ok b ps st r : reserved_typed r → r_slot r < 4 →
  zlen st.1 = 512 ∧ bytes_ok st.1 →
  zlen (keep_lba0_entry b ps st r).1 = 512 ∧ bytes_ok (keep_lba0_entry b ps st r).1.
Proof.
  intros [[Hr0 _] [Hr1 Hr2]] Hs [Hl Hok]. destruct st as [out ms].
  unfold keep_lba0_entry, layout.entry_at, layout.TABLE_START, layout.ENTRY_SIZE.
  cbn [fst] in *. repeat case_match; cbn [fst]; try done;
    (split; [rewrite zlen_bput; lia|auto with bytes]).
Qed.

Lemma foldl_keep_lba0 b ps lba0 st : Forall reserved_typed lba0 → Forall (λ r, r_slot r < 4) lba0 →
  zlen st.1 = 512 ∧ bytes_ok st.1 →
  zlen (foldl (keep_lba0_entry b ps) st lba0).1 = 512 ∧
  bytes_ok (foldl (keep_lba0_entry b ps) st lba0).1.
Proof.
  intros Ht Hs; revert st; induction Ht as [|r lba0 Hr Ht IH]; intros st Hst; cbn; [done|].
  apply Forall_cons in Hs as [? ?]. apply IH; [done|]. by apply keep_lba0_entry_ok.
Qed.

(** The marker is put into one of the four entries. *)
Lemma marker_slot_range b ps lba0 out ms : Forall reserved_typed lba0 →
  Forall (λ r, r_slot r < 4) lba0 → opt_all (slot_in 4) ms →
  opt_all (slot_in 4) (foldl (keep_lba0_entry b ps) (out, ms) lba0).2.
Proof.
  intros Ht Hs; revert out ms; induction Ht as [|r lba0 [[Hr _] _] Ht IH]; intros out ms Hm; cbn [foldl]; [done|].
  apply Forall_cons in Hs as [? ?].
  destruct (keep_lba0_entry b ps (out, ms) r) as [out' ms'] eqn:E. apply IH; [done|].
  unfold keep_lba0_entry in E. repeat case_match; simplify_eq; cbn; try done; by split.
Qed.

Lemma signed_ok out : zlen out = 512 → bytes_ok out →
  zlen (bput (bput out 510 [0x55]) 511 [0xAA]) = 512 ∧
  bytes_ok (bput (bput out 510 [0x55]) 511 [0xAA]).
Proof.
  intros Hl Ho. split.
  - rewrite !zlen_bput; rewrite ?zlen_bput; change (zlen [0x55]) with 1; change (zlen [0xAA]) with 1; lia.
  - repeat apply bytes_ok_bput; try done; repeat constructor; done.
Qed.

Lemma hybrid_lba0_ok lba0 prot ps mbr : Forall reserved_typed lba0 →
  zlen prot = 16 → bytes_ok prot → hybrid_lba0 current lba0 prot ps = Ok mbr →
  zlen mbr = 512 ∧ bytes_ok mbr.
Proof.
  intros Ht Hp Hpb H. unfold hybrid_lba0 in H. inv_ok.
  assert (Forall (λ r, r_slot r < 4) lba0) as Hs.
  { apply list.Forall_forall. intros r Hr. destruct (Z.ltb_spec (r_slot r) 4); [done|].
    assert (existsb (λ e, layout.ENTRY_COUNT <=? r_slot e) lba0 = true); [|congruence].
    apply existsb_exists. exists r. split; [by apply list_elem_of_In|].
    unfold layout.ENTRY_COUNT. lia. }
  set (out0 := bput (zeros SECTOR_SIZE) 0 (bslice current 0 layout.TABLE_START)) in *.
  assert (zlen (bslice current 0 layout.TABLE_START) = 446) as Hl446
    by (rewrite zlen_bslice; unfold layout.TABLE_START; lia).
  assert (zlen out0 = 512 ∧ bytes_ok out0) as Ho.
  { unfold out0. split; [|auto with bytes]. rewrite zlen_bput; rewrite ?Hl446; done. }
  pose proof (foldl_keep_lba0 (is_protective current) ps lba0 (out0, None) Ht Hs Ho) as Hf.
  pose proof (marker_slot_range (is_protective current) ps lba0 out0 None Ht Hs I) as Hm.
  destruct (foldl _ (out0, None) lba0) as [out ms]. inv_ok. subst mbr. cbn [fst snd] in *.
  assert (zlen x = 512 ∧ bytes_ok x) as [? ?]; [|by apply signed_ok].
  case_match; inv_ok; [by subst|]. subst x.
  assert (slot_in 4 x0) as [? ?].
  { destruct ms; simplify_eq; [done|]. apply List.find_some in Hx1 as [Hin _].
    apply list_elem_of_In, elem_of_seqZ in Hin. unfold slot_in, layout.ENTRY_COUNT in *. lia. }
  destruct Hf. unfold layout.entry_at, layout.TABLE_START, layout.ENTRY_SIZE.
  split; [rewrite zlen_bput; lia|auto with bytes].
Qed.
End lba0.

(** ** The bare protective MBR *)
Definition protective_fields (total : Z) : list (Z * Z * list Z) :=
  let chs := chs_for_lba (Z.min (u64 (total - 1)) MBR_LBA_MAX) in
  [(446, 1, [0x00]); (447, 1, [0x00]); (448, 1, [0x02]); (449, 1, [0x00]);
   (450, 1, [types.GPT_PROTECTIVE]); (451, 1, [byte_at chs 0]); (452, 1, [byte_at chs 1]);
   (453, 1, [byte_at chs 2]); (454, 4, le_bytes 4 1);
   (458, 4, le_bytes 4 (u32 (Z.min (u64 (total - 1)) MBR_LBA_MAX)));
   (510, 1, [0x55]); (511, 1, [0xAA])].

Lemma protective_puts total : protective_mbr total = puts (zeros SECTOR_SIZE) (protective_fields total).
Proof. unfold protective_mbr, protective_fields, puts. cbn [foldl]. reflexivity. Qed.

Lemma protective_fields_fit total : fits (zlen (zeros SECTOR_SIZE)) (protective_fields total).
Proof.
  unfold fits, protective_fields. rewrite !Forall_cons. cbn [field_fits].
  rewrite !zlen_le_bytes. change (zlen (zeros SECTOR_SIZE)) with 512.
  split_and!; try lia; try done.
Qed.

Lemma protective_ok total : zlen (protective_mbr total) = 512 ∧ bytes_ok (protective_mbr total).
Proof.
  rewrite protective_puts. split.
  - rewrite puts_zlen by apply protective_fields_fit. done.
  - apply puts_bytes_ok; [auto with bytes|]. unfold protective_fields.
    assert (bytes_ok (chs_for_lba (Z.min (u64 (total - 1)) MBR_LBA_MAX))) as Hch.
    { apply chs_for_lba_ok. unfold u64, MBR_LBA_MAX. dlia. }
    assert (∀ b, is_u8 b → bytes_ok [b]) as H1
      by (intros; apply Forall_cons; split; [done|by apply Forall_nil]).
    rewrite !Forall_cons. cbn [snd].
    split_and!; try apply le_bytes_ok; try done; apply H1; first [by apply byte_at_is_u8 | done].
Qed.

(** ** The writer on a device *)
Section device.
Context {D : Type} `{!BlockDevice D} `{!DeviceLaws D} `{!Crc32} `{!Crc32Laws}.
Context (ps : list Partition) (guid : list Z) (g : GptGeometry)
  (tails : gmap (list Z) (list Z)) (lba0 : list ReservedEntry).
Context (Hps : Forall partition_typed ps) (Hguid : guid16 guid) (Hg : geometry_typed g)
  (Htails : tails_typed tails) (Hlba0 : Forall reserved_typed lba0).

Local Abbreviation total d := (size_bytes d / SECTOR_SIZE).

(** What a successful write did. *)
Record gpt_written (d d' : D) (slots : list Z) (first last : Z) (mbr array : list Z) : Prop := {
  wr_accepts : gpt_accepts ps g (total d) first last;
  wr_lba0 : written_lba0 (total d) (bslice (image d) 0 512) lba0 ps = Ok mbr;
  wr_slots : assignment ps (num_entries g) [] slots;
  wr_array : build_array g tails ps slots = Ok array;
  wr_image : dev_with_image d d'
    (puts (image d) (gpt_writes g (total d) first last guid mbr array));
}.

Lemma total_small d : dev_ok d → 0 ≤ total d < 2 ^ 55 ∧ total d * 512 ≤ size_bytes d.
Proof. intros Hd. destruct (image_u64 d Hd). unfold SECTOR_SIZE. split; dlia. Qed.

Lemma ps_slots_nonneg : slots_nonneg ps.
Proof.
  intros p s Hp Hs. eapply list.Forall_forall in Hps; [|done].
  destruct Hps as [_ _ _ _ _ Ht]. rewrite Hs in Ht. apply Ht.
Qed.

Lemma header_zlen my alt elba usable crc :
  zlen (build_header my alt elba usable guid crc g) = 512 ∧
  bytes_ok (build_header my alt elba usable guid crc g).
Proof.
  destruct usable as [f l], Hguid as [Hgl Hgb]. rewrite build_header_puts. split.
  - rewrite puts_zlen; [done|]. apply fits_app. split; [by apply header_fields_fit|].
    constructor; [|done]. by apply (field_fits_le _ 16 4).
  - apply puts_bytes_ok; [auto with bytes|]. apply Forall_app. split.
    + unfold header_fields. rewrite !Forall_cons. cbn [snd].
      split_and!; try apply le_bytes_ok; try done. repeat constructor; done.
    + constructor; [apply le_bytes_ok|done].
Qed.

Lemma gpt_writes_fit d first last mbr array : dev_ok d →
  layout_facts g (total d) first last → zlen mbr = 512 →
  zlen array = num_entries g * entry_size g →
  fits (size_bytes d) (gpt_writes g (total d) first last guid mbr array).
Proof.
  intros Hd [((?&?)&(?&?)&_) ? ? ? Hsp ? ? ?] Hm Ha. destruct (total_small d Hd).
  unfold gpt_writes, primary_header, backup_header, fits. unfold SECTOR_SIZE in *.
  repeat (apply Forall_cons; split); [..|apply Forall_nil; done]; cbn [field_fits];
    rewrite ?(proj1 (header_zlen _ _ _ _ _)), ?Hm, ?Ha; nia.
Qed.

Lemma usable_range_total first last d : dev_ok d →
  geometry.usable_range g (total d) = Ok (first, last) → layout_facts g (total d) first last.
Proof. intros Hd Hu. eapply usable_range_facts; [done|by apply total_small|done]. Qed.

(** The five writes, once everything has been validated. *)
Lemma write_five d first last mbr array slots : dev_ok d → is_writable d = true →
  layout_facts g (total d) first last → zlen mbr = 512 → bytes_ok mbr →
  zlen array = num_entries g * entry_size g → bytes_ok array →
  ∃ d', (_ ← dev_write 0 mbr;
         _ ← dev_write SECTOR_SIZE (build_header 1 (u64 (total d - 1)) (entry_lba g) (first, last)
               guid (crc32_hash array) g);
         _ ← dev_write (u64 (entry_lba g * SECTOR_SIZE)) array;
         _ ← dev_write (u64 (u64 (u64 (total d - 1) - geometry.array_sectors g) * SECTOR_SIZE)) array;
         _ ← dev_write (u64 (u64 (total d - 1) * SECTOR_SIZE))
               (build_header (u64 (total d - 1)) 1 (u64 (u64 (total d - 1) - geometry.array_sectors g))
                  (first, last) guid (crc32_hash array) g);
         mret slots : DevM D (list Z)) d = (d', Ok slots) ∧
        dev_with_image d d' (puts (image d) (gpt_writes g (total d) first last guid mbr array)).
Proof.
  intros Hd Hw Hlay Hm Hmb Ha Hab.
  pose proof (gpt_writes_fit d first last mbr array Hd Hlay Hm Ha) as Hfit.
  destruct (write_all_ok (gpt_writes g (total d) first last guid mbr array) (mret slots) d
    Hd Hw Hfit) as (d' & E & Hd').
  { unfold gpt_writes. rewrite !Forall_cons. cbn [snd].
    split_and!; try done; apply header_zlen. }
  exists d'. split; [|done]. etransitivity; [|exact E].
  destruct (total_small d Hd) as [Ht _]. destruct Hlay as [((?&?)&(?&?)&_) ? ? -> ? ? ? ?].
  unfold SECTOR_SIZE in *.
  rewrite (u64_small (size_bytes d / 512 - 1)) by lia.
  rewrite (u64_small (size_bytes d / 512 - 1 - array_span g)) by lia.
  rewrite !u64_small by lia. reflexivity.
Qed.

Lemma written_lba0_ok d mbr : dev_ok d → 512 ≤ size_bytes d →
  written_lba0 (total d) (bslice (image d) 0 512) lba0 ps = Ok mbr → zlen mbr = 512 ∧ bytes_ok mbr.
Proof.
  intros Hd Hs. unfold written_lba0. destruct lba0 as [|r rs].
  - intros [= <-]. apply protective_ok.
  - destruct (protective_ok (total d)). pose proof (image_size d Hd).
    apply hybrid_lba0_ok; [rewrite zlen_bslice; lia|by apply bytes_ok_bslice, image_bytes|done|rewrite zlen_bslice; lia|
      auto with bytes].
Qed.

(** The block that chooses LBA 0 only reads. *)
Lemma choose_lba0 d : dev_ok d → 512 ≤ size_bytes d →
  (match lba0 with
   | [] => mret (protective_mbr (total d))
   | _ => current ← dev_read 0 SECTOR_SIZE;
          pure_result (hybrid_lba0 current lba0 (bslice (protective_mbr (total d)) 446 462) ps)
   end : DevM D (list Z)) d
  = (d, written_lba0 (total d) (bslice (image d) 0 512) lba0 ps).
Proof.
  intros Hd Hs. unfold written_lba0. destruct lba0; [done|].
  by rewrite dev_read_inside.
Qed.

(** Slots and array: assigned and built exactly when the partitions' slots
    and UUIDs allow it. *)
Lemma slots_and_array_cases first last tot : layout_facts g tot first last →
  zlen ps ≤ num_entries g → Forall (valid_in first last) ps →
  match (slots ← assign_slots ps (num_entries g);
         array ← build_array g tails ps slots; Ok (slots, array)) with
  | Ok (slots, array) =>
      assignment ps (num_entries g) [] slots ∧ build_array g tails ps slots = Ok array ∧
      array_holds g tails (num_entries g) ps slots array ∧ Forall (λ p, is_Some (p_uuid p)) ps ∧
      NoDup (recorded ps) ∧ Forall (slot_in (num_entries g)) (recorded ps)
  | Err _ => ¬ (NoDup (recorded ps) ∧ Forall (slot_in (num_entries g)) (recorded ps) ∧
                Forall (λ p, is_Some (p_uuid p)) ps)
  end.
Proof.
  intros [(Hn & He & _) Hn1 _ _ _ _ _ _] Hcount Hvalid. unfold assign_slots.
  pose proof (assign_slots_cases ps (num_entries g) [] ltac:(lia) ps_slots_nonneg ltac:(done)) as Has.
  destruct (assign_slots_with_taken ps (num_entries g) []) as [slots|]; cbn [mbind Result_bind].
  2:{ intros (? & ? & _). apply Has. cbn [app]. split_and!; [done..|].
      change (zlen (@nil Z)) with 0. lia. }
  pose proof Has as [Hal Hand Har _ _]. cbn [app] in Hand, Har.
  assert (∀ p, p ∈ ps → is_ok (gpt_image g tails p) = true ↔ is_Some (p_uuid p)) as Him.
  { intros p Hp. eapply gpt_image_is_ok; [by eapply Forall_in in Hps|by eapply Forall_in in Hvalid]. }
  destruct (build_array g tails ps slots) as [array|] eqn:Eb; cbn [mbind Result_bind].
  - assert (array_holds g tails (num_entries g) ps slots array) as Hh
      by (eapply build_array_holds; done || lia).
    split_and!; try done.
    + apply list.Forall_forall. intros p Hp. apply Him; [done|].
      apply list_elem_of_lookup in Hp as [i Hi]. destruct Hh as [_ _ Hh].
      by destruct (Forall2_lookup_l _ _ _ _ _ Hh Hi) as (s & _ & ->).
    + by apply (assignment_recorded _ _ [] _ Has).
    + by apply (assignment_recorded _ _ [] _ Has).
  - intros (_ & _ & Hu). destruct (build_array_ok g tails ltac:(lia) ps slots); try done; try lia; [|congruence].
    apply list.Forall_forall. intros p Hp. apply Him; [done|]. by eapply Forall_in in Hu.
Qed.

Lemma write_gpt_cases d : dev_ok d → is_writable d = true →
  match write_gpt_assigning_slots ps guid g tails lba0 d with
  | (d', Ok slots) => ∃ first last mbr array, gpt_written d d' slots first last mbr array
  | (d', Err _) => d' = d ∧
      ¬ ∃ first last mbr, gpt_accepts ps g (total d) first last ∧
          written_lba0 (total d) (bslice (image d) 0 512) lba0 ps = Ok mbr
  end.
Proof.
  intros Hd Hw. unfold write_gpt_assigning_slots.
  rewrite DevM_bind_writable, Hw, DevM_bind_pure. cbn [negb refuse_if].
  rewrite DevM_bind_size, DevM_bind_pure.
  destruct (geometry.usable_range g (total d)) as [[first last]|] eqn:Eu.
  2:{ split; [done|]. intros (f & l & m & [Hu] & _). congruence. }
  pose proof (usable_range_total _ _ _ Hd Eu) as Hlay.
  assert (∀ f l, gpt_accepts ps g (total d) f l → f = first ∧ l = last) as Huniq
    by (intros f l [? _ _ _ _ _]; split; congruence).
  rewrite DevM_bind_pure. destruct (Z.ltb_spec (num_entries g) (zlen ps)) as [|Hcount]; cbn [refuse_if].
  { split; [done|]. intros (f & l & m & [] & _). lia. }
  rewrite DevM_bind_pure. pose proof (gpt_spans_cases ps first last Hps) as Hsp.
  destruct (gpt_spans ps first last) as [spans|].
  2:{ split; [done|]. intros (f & l & m & Ha & _). destruct (Huniq f l Ha) as [-> ->]. by destruct Ha. }
  destruct Hsp as [Hvalid ->].
  rewrite DevM_bind_pure. pose proof (mark_overlaps_any _ (valid_forward _ _ _ Hps Hvalid)) as Hov.
  destruct (existsb id (mark_overlaps (map span_of ps))); cbn [refuse_if].
  { split; [done|]. intros (f & l & m & Hacc & _).
    by pose proof (proj2 Hov (acc_disjoint _ _ _ _ _ Hacc)). }
  assert (disjoint_spans (map span_of ps)) as Hdis by by apply Hov.
  pose proof (slots_and_array_cases first last _ Hlay Hcount Hvalid) as Hsa. rewrite DevM_bind_pure.
  destruct (assign_slots ps (num_entries g)) as [slots|]; cbn [mbind Result_bind] in Hsa.
  2:{ split; [done|]. intros (f & l & m & [_ _ _ _ [??] ?] & _). by apply Hsa. }
  rewrite DevM_bind_pure. destruct (build_array g tails ps slots) as [array|] eqn:Eb; cbn [mbind Result_bind] in Hsa.
  2:{ split; [done|]. intros (f & l & m & [_ _ _ _ [??] ?] & _). by apply Hsa. }
  destruct Hsa as (Has & _ & Hh & Hu & Hnd & Hr).
  assert (512 ≤ size_bytes d) as H512.
  { destruct (total_small d Hd). pose proof (layout_bounds _ _ _ _ Hlay). lia. }
  rewrite DevM_bind_eq. pose proof (choose_lba0 d Hd H512) as Hlba. cbv zeta in Hlba |- *.
  rewrite Hlba. clear Hlba.
  destruct (written_lba0 (total d) (bslice (image d) 0 512) lba0 ps) as [mbr|] eqn:Em.
  2:{ split; [done|]. intros (f & l & m & _ & [=]). }
  destruct (written_lba0_ok d mbr Hd H512 Em) as [Hm Hmb].
  destruct (write_five d first last mbr array slots Hd Hw Hlay Hm Hmb) as (d' & E & Hd').
  { by destruct Hh. }
  { by eapply build_array_bytes. }
  rewrite E. exists first, last, mbr, array. by constructor.
Qed.
End device.

(** ** Errors, on any device *)
Section any_device.
Context {D : Type} `{!BlockDevice D} `{!Crc32}.

Lemma write_gpt_clean ps guid g tails lba0 :
  clean (write_gpt_assigning_slots (D:=D) ps guid g tails lba0).
Proof.
  unfold write_gpt_assigning_slots.
  apply clean_bind; [done|intros w]. apply clean_bind; [done|intros _].
  apply clean_bind; [done|intros total]. apply clean_bind; [done|intros [first last]].
  do 5 (apply clean_bind; [done|intros ?]).
  apply clean_bind; [destruct lba0; [done|by apply reader_bind]|intros mbr].
  apply io_clean. do 5 (apply io_bind; [apply io_write|intros _]). apply io_ret.
Qed.
End any_device.
