(* ===== verification/Probe.v ===== *)
(** * src/probe.rs: which table a device carries

    [probe_inner] reads LBA 0 and LBA 1 and dispatches: a GPT signature sends
    it to the GPT parser (and, when asked, to the backup), an [0xEE] marker
    without one to the 4Kn test, a protective MBR to an error, and any other
    MBR to the MBR parser. *)
From S2P Require Import Prelude Bytes Device Table.
From S2P Require Gpt Mbr.

(** LBA 1 of a disk with 4096-byte sectors. *)
Definition FOUR_K_LBA1 : Z := 4096.

Inductive TableSource :=
| SourceMbr
| SourcePrimary
| SourcePrimaryBackupStale (why : string)
| SourceRecoveredFromBackup.

Section probe.
Context `{!Crc32} {D : Type} `{!BlockRead D}.

Definition looks_like_4kn_gpt (dev : D) : option string :=
  block ← ok (read_at dev FOUR_K_LBA1 4096);
  header ← ok (Gpt.parse_header_block block);
  if negb (Gpt.my_lba header =? 1) then None
  else Some "this disk keeps its GPT at byte 4096, so its logical sectors are 4096 bytes (4Kn); this crate reads partition tables in 512-byte units only".

Definition recover_from_backup (dev : D) (primary : Error)
    : Result Error (TableKind * list Partition * TableSource) :=
  match Gpt.parse_backup dev with
  | Ok parts => Ok (TableGpt, parts, SourceRecoveredFromBackup)
  | Err _ => Err primary
  end.

(** LBA 1, or zeros when the device says it has none. *)
Definition read_lba1 (dev : D) : Result Error (list Z) :=
  match read_at dev 512 SECTOR_SIZE with
  | Ok lba1 => Ok lba1
  | Err e =>
      let past_the_end :=
        match e with ShortRead _ _ _ | OutOfBounds _ _ _ => true | _ => false end in
      let said_so := (1 <=? size_bytes dev) && (size_bytes dev <? 1024) in
      if negb (past_the_end || said_so) then Err (Block e) else Ok (zeros SECTOR_SIZE)
  end.

Definition probe_inner (dev : D) (consult_backup : bool)
    : Result Error (TableKind * list Partition * TableSource) :=
  lba0 ← map_err Block (read_at dev 0 SECTOR_SIZE);
  lba1 ← read_lba1 dev;
  let has_mbr_sig := (byte_at lba0 510 =? 0x55) && (byte_at lba0 511 =? 0xAA) in
  let gpt_sig := bslice lba1 0 8 in
  let has_gpt_sig := bytes_eqb gpt_sig Gpt.SIGNATURE in
  if has_gpt_sig then
    match Gpt.parse dev lba1 with
    | Ok parts =>
        if consult_backup then
          let source :=
            match Gpt.validate_backup dev parts with
            | Gpt.BackupOk => SourcePrimary
            | Gpt.Mismatch why => SourcePrimaryBackupStale why
            end in
          Ok (TableGpt, parts, source)
        else Ok (TableGpt, parts, SourcePrimary)
    | Err primary =>
        if consult_backup then recover_from_backup dev primary else Err primary
    end
  else
    _ ← (if has_mbr_sig && Mbr.has_gpt_marker lba0 then
           match looks_like_4kn_gpt dev with
           | Some why => Err (UnsupportedSectorSize why)
           | None => Ok tt
           end
         else Ok tt);
    if has_mbr_sig then
      if Mbr.is_protective lba0 then
        let primary := GptCorrupt "protective MBR present but no GPT signature" in
        if consult_backup then recover_from_backup dev primary else Err primary
      else
        parts ← Mbr.parse lba0 (size_bytes dev);
        Ok (TableMbr, parts, SourceMbr)
    else Err NoPartitionTable.

Definition probe (dev : D) : Result Error (TableKind * list Partition) :=
  (λ '(kind, parts, _), (kind, parts)) <$> probe_inner dev false.

Definition probe_with_status (dev : D)
    : Result Error (TableKind * list Partition * TableSource) :=
  probe_inner dev true.
End probe.
