(* ===== verification/Sniff.v ===== *)
(** * src/sniff.rs: filesystem signatures

    [classify] looks for signatures in a buffer, in the source's order;
    [sniff] reads the window it is given from a device. *)
From S2P Require Import Prelude Bytes Device Table.

Inductive ExtVersion := Ext2OrAny | Ext3 | Ext4.
Inductive FsKind :=
| Ext (version : ExtVersion)
| Ntfs | ExFat | Fat32 | Fat16 | HfsPlus | Apfs | LinuxSwap | Iso9660 | Squashfs
| Unknown.
#[export] Instance ExtVersion_eq_dec : EqDecision ExtVersion.
Proof. solve_decision. Defined.
#[export] Instance FsKind_eq_dec : EqDecision FsKind.
Proof. solve_decision. Defined.

Definition ISO9660_END : Z := 0x8006.
Definition SWAP_PAGES : list Z := [4096; 8192; 16384; 32768; 65536].

Definition WINDOW : Z :=
  let largest_page := byte_at SWAP_PAGES (zlen SWAP_PAGES - 1) in
  if ISO9660_END <? largest_page then largest_page else ISO9660_END.

(** [b.len() >= need && &b[from..to] == magic]. *)
Definition magic_at (buf : list Z) (need from to : Z) (magic : string) : bool :=
  (need <=? zlen buf) && bytes_eqb (bslice buf from to) (ascii_bytes magic).

Definition EXT3_FEATURE_COMPAT_HAS_JOURNAL : Z := 0x4.
Definition EXT4_INCOMPAT_MASK : Z :=
  foldl Z.lor 0x040 [0x080; 0x100; 0x200; 0x400; 0x1000; 0x2000; 0x4000; 0x8000].

Definition classify_ext (buf : list Z) : ExtVersion :=
  let sb := 1024 in
  if zlen buf <? sb + 0x68 then Ext2OrAny
  else
    let feature_compat := le32 buf (sb + 0x5C) in
    let feature_incompat := le32 buf (sb + 0x60) in
    if negb (Z.land feature_incompat EXT4_INCOMPAT_MASK =? 0) then Ext4
    else if negb (Z.land feature_compat EXT3_FEATURE_COMPAT_HAS_JOURNAL =? 0) then Ext3
    else Ext2OrAny.

(** The boot-sector block: what it returns, if anything. *)
Definition classify_boot_sector (buf : list Z) : option FsKind :=
  if (512 <=? zlen buf) && (byte_at buf 510 =? 0x55) && (byte_at buf 511 =? 0xAA) then
    let oem := bslice buf 3 11 in
    if bytes_eqb oem (ascii_bytes "NTFS    ") then Some Ntfs
    else if bytes_eqb oem (ascii_bytes "EXFAT   ") then Some ExFat
    else if magic_at buf 0x5A 0x52 0x5A "FAT32   " then Some Fat32
    else if magic_at buf 0x3E 0x36 0x3E "FAT16   " || magic_at buf 0x3E 0x36 0x3E "FAT12   "
    then Some Fat16
    else None
  else None.

Definition classify (buf : list Z) : FsKind :=
  if magic_at buf 4 0 4 "hsqs" then Squashfs
  else
    match classify_boot_sector buf with
    | Some k => k
    | None =>
        if (1082 <=? zlen buf) && (le_val [byte_at buf 1080; byte_at buf 1081] =? 0xEF53)
        then Ext (classify_ext buf)
        else if magic_at buf 1026 1024 1026 "H+" || magic_at buf 1026 1024 1026 "HX"
        then HfsPlus
        else if magic_at buf 36 32 36 "NXSB" then Apfs
        else if existsb (λ page, magic_at buf page (page - 10) page "SWAPSPACE2") SWAP_PAGES
        then LinuxSwap
        else if magic_at buf ISO9660_END 0x8001 ISO9660_END "CD001" then Iso9660
        else Unknown
    end.

Section sniff.
Context {D : Type} `{!BlockRead D}.

Definition sniff (dev : D) (partition : Partition) : Result Error FsKind :=
  let device_size := size_bytes dev in
  if device_size <=? p_start partition then
    Err (Block (ShortRead (p_start partition) (Z.min WINDOW (p_length partition)) 0))
  else
    let want := Z.min WINDOW (p_length partition) in
    let available := device_size - p_start partition in
    buf ← map_err Block (read_at dev (p_start partition) (Z.min want available));
    Ok (classify buf).
End sniff.
