(* ===== verification/Mutation.v ===== *)
(** * src/mutation.rs: the in-memory partition set

    [PartitionSet] with [add], [remove], [resize] and [commit]; the first-fit
    finder [find_free]; [from_probe], which reads a set off a device; and the
    UUID generator, whose environment (the random source, the clock, the
    process id) is the record [Entropy]. *)
From S2P Require Import Prelude Bytes Device Table Rules.
From S2P Require Gpt Mbr GptWrite Probe.

Definition GPT_FIRST_USABLE_LBA : Z := gpt_layout.FIRST_USABLE_LBA.
Definition ALIGNMENT_SECTORS : Z := 2048.

Inductive PartitionTypeId :=
| EfiSystem | MicrosoftBasicData | LinuxFilesystem | LinuxSwap | AppleHfsPlus | AppleApfs
| GptCustom (g : list Z)
| MbrCustom (b : Z).

Definition to_gpt_guid (t : PartitionTypeId) : Result Error (list Z) :=
  match t with
  | EfiSystem => Ok type_guids.EFI_SYSTEM
  | MicrosoftBasicData => Ok type_guids.MICROSOFT_BASIC_DATA
  | LinuxFilesystem => Ok type_guids.LINUX_FILESYSTEM
  | LinuxSwap => Ok type_guids.LINUX_SWAP
  | AppleHfsPlus => Ok type_guids.APPLE_HFS_PLUS
  | AppleApfs => Ok type_guids.APPLE_APFS
  | GptCustom g => Ok g
  | MbrCustom _ => Err (Invalid "MBR type byte used in GPT context")
  end.

Definition to_mbr_byte (t : PartitionTypeId) : Result Error Z :=
  match t with
  | EfiSystem => Ok Mbr.types.EFI_SYSTEM
  | MicrosoftBasicData => Ok Mbr.types.NTFS_OR_EXFAT
  | LinuxFilesystem => Ok Mbr.types.LINUX
  | LinuxSwap => Ok Mbr.types.LINUX_SWAP
  | AppleHfsPlus => Ok Mbr.types.HFS_PLUS
  | AppleApfs => Err (Invalid "APFS has no MBR type byte; use GPT")
  | MbrCustom b => Ok b
  | GptCustom _ => Err (Invalid "GPT type GUID used in MBR context")
  end.

Inductive PartitionRef := Index (i : Z) | Uuid (u : list Z).

Record PartitionSet := mkSet {
  table_kind : TableKind;
  partitions : list Partition;
  disk_size : Z;
  disk_guid : list Z;
  gpt_entry_tails : gmap (list Z) (list Z);
  gpt_geometry : GptWrite.GptGeometry;
  reserved : list Mbr.ReservedEntry;
}.

Definition with_partitions (s : PartitionSet) (ps : list Partition) : PartitionSet :=
  mkSet (table_kind s) ps (disk_size s) (disk_guid s) (gpt_entry_tails s)
    (gpt_geometry s) (reserved s).

(** ** UUIDs *)

(** What [random_uuid] reads of its environment: sixteen bytes of
    [/dev/urandom] where it can be read, the nanoseconds since the epoch where
    the clock is past it, and the process id. *)
Record Entropy := mkEntropy {
  urandom : option (list Z);
  nanos_since_epoch : option Z;
  process_id : Z;
}.

Definition fill_from_urandom (env : Entropy) : option (list Z) := urandom env.

Definition xorshift64 (state : Z) : Z :=
  let state := Z.lxor state (u64 (Z.shiftl state 13)) in
  let state := Z.lxor state (Z.shiftr state 7) in
  Z.lxor state (u64 (Z.shiftl state 17)).

Definition fill_from_prng (env : Entropy) : list Z :=
  let nanos := match nanos_since_epoch env with
               | Some n => u64 n
               | None => 0x9E3779B97F4A7C15
               end in
  let state := u64 (u64 (nanos * 0x9E3779B97F4A7C15) + process_id env) in
  let state := if state =? 0 then 0x9E3779B97F4A7C15 else state in
  let state1 := xorshift64 state in
  let state2 := xorshift64 state1 in
  le_bytes 8 state1 ++ le_bytes 8 state2.

Definition random_uuid (env : Entropy) : list Z :=
  let bytes := match fill_from_urandom env with
               | Some b => b
               | None => fill_from_prng env
               end in
  let bytes := bput bytes 7 [Z.lor (Z.land (byte_at bytes 7) 0x0F) 0x40] in
  bput bytes 8 [Z.lor (Z.land (byte_at bytes 8) 0x3F) 0x80].

(** ** Planning *)
Definition align_up (value align : Z) : Z :=
  let rem := value mod align in
  if rem =? 0 then value else u64 (value + (align - rem)).

Definition usable_range (s : PartitionSet) : Z * Z :=
  let total_sectors := disk_size s / SECTOR_SIZE in
  match table_kind s with
  | TableGpt =>
      match GptWrite.geometry.usable_range (gpt_geometry s) total_sectors with
      | Ok range => range
      | Err _ => (GPT_FIRST_USABLE_LBA, GPT_FIRST_USABLE_LBA - 1)
      end
  | TableMbr =>
      if total_sectors <? 2 then (1, 0)
      else (1, Z.min (total_sectors - 1) MBR_LBA_MAX)
  end.

(** The index of the first partition with UUID [u]. *)
Fixpoint position_uuid (u : list Z) (ps : list Partition) : option nat :=
  match ps with
  | [] => None
  | p :: ps =>
      if bool_decide (p_uuid p = Some u) then Some O else S <$> position_uuid u ps
  end.

Definition resolve (s : PartitionSet) (target : PartitionRef) : Result Error nat :=
  match target with
  | Index i =>
      _ ← refuse_if (zlen (partitions s) <=? i) (Invalid "index out of range");
      Ok (Z.to_nat i)
  | Uuid u => ok_or (position_uuid u (partitions s)) (Invalid "uuid not found")
  end.

(** The partitions other than number [skip]; [j] counts. *)
Fixpoint other_spans (j : nat) (skip : option nat) (ps : list Partition)
    : Result Error (list (Z * Z)) :=
  match ps with
  | [] => Ok []
  | p :: ps =>
      if bool_decide (Some j = skip) then other_spans (S j) skip ps
      else span ← sector_span p; rest ← other_spans (S j) skip ps; Ok (span :: rest)
  end.

Definition occupied_spans (s : PartitionSet) (skip : option nat)
    : Result Error (list (Z * Z)) :=
  spans ← other_spans 0 skip (partitions s);
  Ok (match table_kind s with
      | TableMbr => spans ++ omap Mbr.reserved_span (reserved s)
      | TableGpt => spans
      end).

(** The loop of [find_free]: [inl] is its early [return Ok(cursor)], [inr]
    the cursor it leaves behind. *)
Fixpoint find_gap (length_sectors last_usable cursor : Z) (sorted : list (Z * Z)) : Z + Z :=
  match sorted with
  | [] => inr cursor
  | (p_start, p_end) :: sorted =>
      let wanted_end := saturating_sub (saturating_add cursor length_sectors) 1 in
      if (wanted_end <? p_start) && (wanted_end <=? last_usable) then inl cursor
      else find_gap length_sectors last_usable
             (Z.max cursor (align_up (u64 (p_end + 1)) ALIGNMENT_SECTORS)) sorted
  end.

Definition find_free (s : PartitionSet) (length_sectors first_usable last_usable : Z)
    : Result Error Z :=
  spans ← occupied_spans s None;
  let sorted := sort_by pair_leb spans in
  match find_gap length_sectors last_usable (align_up first_usable ALIGNMENT_SECTORS) sorted with
  | inl cursor => Ok cursor
  | inr cursor =>
      if saturating_sub (saturating_add cursor length_sectors) 1 <=? last_usable
      then Ok cursor
      else Err (Invalid "no free space large enough")
  end.

(** [start_lba <= p_end && end_lba >= p_start], for any occupied span. *)
Definition hits (start_lba end_lba : Z) (spans : list (Z * Z)) : bool :=
  existsb (λ '(p_start, p_end), (start_lba <=? p_end) && (p_start <=? end_lba)) spans.

(** ** Editing *)
Definition add (env : Entropy) (s : PartitionSet) (start_hint : option Z) (len : Z)
    (type_id : PartitionTypeId) (label : option (list Z))
    : Result Error (PartitionSet * Z) :=
  _ ← refuse_if (len =? 0) (Invalid "zero length");
  _ ← refuse_if (bool_decide (table_kind s = TableMbr)
                 && (Mbr.layout.ENTRY_COUNT <=? zlen (partitions s) + zlen (reserved s)))
        (Invalid "MBR primary table is full (4 entries)");
  _ ← refuse_if (bool_decide (table_kind s = TableGpt)
                 && (GptWrite.num_entries (gpt_geometry s) <=? zlen (partitions s)))
        (Invalid "the GPT's entry array is full");
  let length_sectors := align_up (div_ceil len SECTOR_SIZE) ALIGNMENT_SECTORS in
  let '(first_usable_lba, last_usable_lba) := usable_range s in
  _ ← refuse_if (last_usable_lba <? first_usable_lba) DeviceTooSmall;
  start_lba ←
    match start_hint with
    | Some byte =>
        let raw_sectors := div_ceil byte SECTOR_SIZE in
        Ok (align_up (Z.max raw_sectors first_usable_lba) ALIGNMENT_SECTORS)
    | None => find_free s length_sectors first_usable_lba last_usable_lba
    end;
  end_lba ← ok_or (checked_add start_lba (u64 (length_sectors - 1)))
              (Invalid "partition end overflows");
  _ ← refuse_if (last_usable_lba <? end_lba)
        (Invalid "partition extends past last usable LBA");
  _ ← refuse_if (bool_decide (table_kind s = TableMbr)
                 && ((MBR_LBA_MAX <? start_lba) || (MBR_LBA_MAX <? length_sectors)))
        (Invalid "partition exceeds MBR 32-bit LBA range");
  spans ← occupied_spans s None;
  _ ← refuse_if (hits start_lba end_lba spans) (Invalid "partition overlaps existing entry");
  kind ←
    match table_kind s with
    | TableGpt => g ← to_gpt_guid type_id; Ok (KindGpt g 0)
    | TableMbr => b ← to_mbr_byte type_id; Ok (KindMbr b false)
    end;
  let uuid := match table_kind s with TableGpt => Some (random_uuid env) | TableMbr => None end in
  let part := mkPartition (u64 (start_lba * SECTOR_SIZE)) (u64 (length_sectors * SECTOR_SIZE))
                kind label uuid None 0 (u64 (length_sectors * SECTOR_SIZE)) in
  let idx := zlen (partitions s) in
  Ok (with_partitions s (partitions s ++ [part]), idx).

(** The [enumerate().filter_map()] of [refresh_overlap_issues]. *)
Fixpoint enum_spans (i : nat) (ps : list Partition) : list (nat * (Z * Z)) :=
  match ps with
  | [] => []
  | p :: ps =>
      match sector_span p with
      | Ok span => (i, span) :: enum_spans (S i) ps
      | Err _ => enum_spans (S i) ps
      end
  end.

Definition set_overlap_bit (overlaps : bool) (p : Partition) : Partition :=
  if overlaps then with_issues p (Z.lor (p_issues p) entry_issue.OVERLAPS_ANOTHER)
  else with_issues p (Z.ldiff (p_issues p) entry_issue.OVERLAPS_ANOTHER).

Definition refresh_overlap_issues (s : PartitionSet) : PartitionSet :=
  match table_kind s with
  | TableMbr => s
  | TableGpt =>
      let spans := enum_spans 0 (partitions s) in
      let only_spans := map snd spans in
      with_partitions s
        (foldl (λ ps '((i, _), overlaps), alter (set_overlap_bit overlaps) i ps)
           (partitions s) (zip spans (mark_overlaps only_spans)))
  end.

Definition remove (s : PartitionSet) (target : PartitionRef) : Result Error PartitionSet :=
  idx ← resolve s target;
  Ok (refresh_overlap_issues (with_partitions s (delete idx (partitions s)))).

Definition resize (s : PartitionSet) (target : PartitionRef) (new_length : Z)
    : Result Error PartitionSet :=
  _ ← refuse_if (new_length =? 0) (Invalid "zero length");
  idx ← resolve s target;
  let new_length_sectors := align_up (div_ceil new_length SECTOR_SIZE) ALIGNMENT_SECTORS in
  let '(_, last_usable_lba) := usable_range s in
  let start_lba := from_option p_start 0 (partitions s !! idx) / SECTOR_SIZE in
  new_end_lba ← ok_or (checked_add start_lba (u64 (new_length_sectors - 1)))
                  (Invalid "partition end overflows");
  _ ← refuse_if (last_usable_lba <? new_end_lba)
        (Invalid "resize extends past last usable LBA");
  _ ← refuse_if (bool_decide (table_kind s = TableMbr) && (MBR_LBA_MAX <? new_length_sectors))
        (Invalid "resize exceeds MBR 32-bit LBA range");
  spans ← occupied_spans s (Some idx);
  _ ← refuse_if (hits start_lba new_end_lba spans)
        (Invalid "resize would overlap another partition");
  let grow p :=
    let p := with_length p (u64 (new_length_sectors * SECTOR_SIZE)) in
    with_issues p (Z.ldiff (p_issues p) entry_issue.PAST_LAST_USABLE) in
  Ok (refresh_overlap_issues (with_partitions s (alter grow idx (partitions s)))).

(** ** Sets from nothing and from a device *)
Definition empty_gpt (env : Entropy) (size : Z) : PartitionSet :=
  mkSet TableGpt [] size (random_uuid env) ∅ GptWrite.geometry.canonical [].
Definition empty_mbr (size : Z) : PartitionSet :=
  mkSet TableMbr [] size (zeros 16) ∅ GptWrite.geometry.canonical [].

Section device.
Context {D : Type} `{!BlockDevice D} `{!Crc32}.

Definition from_probe (dev : D) : Result Error PartitionSet :=
  '(kind, parts) ← Probe.probe dev;
  let size := size_bytes dev in
  sector ← map_err Block (read_at dev 0 SECTOR_SIZE);
  let res :=
    if bool_decide (kind = TableMbr) then Mbr.reserved_entries sector
    else Mbr.lba0_entries sector in
  '(guid, geo, tails) ←
    (if bool_decide (kind = TableGpt) then
       sector ← map_err Block (read_at dev SECTOR_SIZE SECTOR_SIZE);
       header ← Gpt.parse_header sector;
       tails ← Gpt.entry_tails dev header;
       Ok (Gpt.disk_guid header, GptWrite.geometry.from_header header, tails)
     else Ok (zeros 16, GptWrite.geometry.canonical, ∅));
  Ok (mkSet kind parts size guid tails geo res).

(** ** Committing *)
Definition write_and_flush (s : PartitionSet) : DevM D (list Z) :=
  slots ←
    match table_kind s with
    | TableGpt =>
        GptWrite.write_gpt_assigning_slots (partitions s) (disk_guid s) (gpt_geometry s)
          (gpt_entry_tails s) (reserved s)
    | TableMbr => Mbr.write_mbr_assigning_slots (partitions s) (reserved s)
    end;
  _ ← dev_flush;
  mret slots.

Definition commit (s : PartitionSet) : DevM D unit :=
  _ ← write_and_flush s; mret tt.

(** The set as [commit_mut] leaves it, for a commit that succeeded: the writers
    return a slot for every partition. *)
Definition record_slots (s : PartitionSet) (slots : list Z) : PartitionSet :=
  with_partitions s (zip_with (λ p slot, with_slot p (Some slot)) (partitions s) slots).

Definition commit_mut (s : PartitionSet) : DevM D PartitionSet :=
  slots ← write_and_flush s;
  mret (record_slots s slots).
End device.
