(* ===== verification/Hybrid.v ===== *)
(** * LBA 0 of a GPT disk: what a rewrite keeps

    [hybrid_lba0] rebuilds LBA 0 from what it held.  [kept_inv] is the
    invariant of its loop: the boot code is there, every entry that is neither
    a marker nor a stale mirror is there byte for byte, and the first marker is
    remembered. *)
From S2P Require Import Prelude Bytes Device Table Rules Slots Mbr MbrCodec Gpt GptWrite GptDisk.

(** An entry that mirrors a GPT partition no longer in the set. *)
Definition stale_mirror (ps : list Partition) (r : ReservedEntry) : bool :=
  let sectors := le32 (r_bytes r) 12 in
  bool_decide (entry_role (byte_at (r_bytes r) 4) = Volume) && negb (sectors =? 0)
  && negb (existsb (λ p, (p_start p =? le32 (r_bytes r) 8 * SECTOR_SIZE)
                         && (p_length p =? sectors * SECTOR_SIZE)) ps).

Definition is_marker (r : ReservedEntry) : Prop := byte_at (r_bytes r) 4 = types.GPT_PROTECTIVE.

(** An entry the rewrite must keep. *)
Definition must_keep (ps : list Partition) (r : ReservedEntry) : Prop :=
  ¬ is_marker r ∧ byte_at (r_bytes r) 4 ≠ types.EMPTY ∧ stale_mirror ps r = false.

Record kept_inv (rebuild : bool) (ps : list Partition) (boot : list Z)
    (before : list ReservedEntry) (st : list Z * option Z) : Prop := {
  ki_length : zlen st.1 = 512;
  ki_boot : bslice st.1 0 446 = boot;
  ki_kept : ∀ r, r ∈ before → must_keep ps r → mbr_win st.1 (r_slot r) = r_bytes r;
  ki_marker : match st.2 with
              | None => ∀ r, r ∈ before → ¬ is_marker r
              | Some s => ∃ r, r ∈ before ∧ r_slot r = s ∧ is_marker r ∧
                  (rebuild = false → mbr_win st.1 s = r_bytes r)
              end;
}.

Section loop.
Context (rebuild : bool) (ps : list Partition) (boot : list Z).

(** Laying an entry into a slot no earlier entry has. *)
Lemma kept_inv_put before out ms r : kept_inv rebuild ps boot before (out, ms) →
  slot_in 4 (r_slot r) → zlen (r_bytes r) = 16 → Forall (λ q, slot_in 4 (r_slot q)) before →
  r_slot r ∉ map r_slot before → ¬ is_marker r →
  kept_inv rebuild ps boot (before ++ [r]) (bput out (layout.entry_at (r_slot r)) (r_bytes r), ms).
Proof.
  intros [Hl Hb Hk Hm] Hs Hz Hin Hni Hnm. cbn [fst snd] in *.
  assert (∀ q, q ∈ before → mbr_win (bput out (layout.entry_at (r_slot r)) (r_bytes r)) (r_slot q)
    = mbr_win out (r_slot q)) as Hw.
  { intros q Hq. rewrite mbr_win_bput; [|exact (Forall_in _ _ _ Hin Hq)|done..].
    apply decide_False. intros E. apply Hni. rewrite <- E. by apply list_elem_of_fmap_2. }
  destruct (outside_bput out _ _ Hl Hs Hz) as (Hl' & Hb' & _).
  constructor; cbn [fst snd].
  - congruence.
  - congruence.
  - intros q [Hq| ->%list_elem_of_singleton]%elem_of_app Hmk.
    + rewrite Hw by done. by apply Hk.
    + rewrite mbr_win_bput by done. by apply decide_True.
  - destruct ms as [s|].
    + destruct Hm as (q & Hq & <- & Hqm & Hqw). exists q. split_and!; [set_solver|done|done|].
      intros Hr. rewrite Hw by done. by apply Hqw.
    + intros q [Hq| ->%list_elem_of_singleton]%elem_of_app; [by apply Hm|done].
Qed.

(** Passing an entry over. *)
Lemma kept_inv_skip before out ms r : kept_inv rebuild ps boot before (out, ms) →
  ¬ must_keep ps r → (is_marker r → is_Some ms) →
  kept_inv rebuild ps boot (before ++ [r]) (out, ms).
Proof.
  intros [Hl Hb Hk Hm] Hnk Hmk. constructor; [done|done| |]; cbn [fst snd] in *.
  - intros q [Hq| ->%list_elem_of_singleton]%elem_of_app ?; [by apply Hk|done].
  - destruct ms as [s|].
    + destruct Hm as (q & Hq & ?). exists q. split; [set_solver|done].
    + intros q [Hq| ->%list_elem_of_singleton]%elem_of_app Hq'; [by apply (Hm q)|].
      by destruct (Hmk Hq').
Qed.

(** The first marker: kept, or only remembered when it is to be rebuilt. *)
Lemma kept_inv_marker before out r : kept_inv rebuild ps boot before (out, None) →
  slot_in 4 (r_slot r) → zlen (r_bytes r) = 16 → Forall (λ q, slot_in 4 (r_slot q)) before →
  r_slot r ∉ map r_slot before → is_marker r →
  kept_inv rebuild ps boot (before ++ [r])
    (if negb rebuild then bput out (layout.entry_at (r_slot r)) (r_bytes r) else out, Some (r_slot r)).
Proof.
  intros [Hl Hb Hk Hm] Hs Hz Hin Hni Hmk. cbn [fst snd] in *.
  destruct (outside_bput out _ _ Hl Hs Hz) as (Hl' & Hb' & _).
  assert (∀ q, q ∈ before → mbr_win (bput out (layout.entry_at (r_slot r)) (r_bytes r)) (r_slot q)
    = mbr_win out (r_slot q)) as Hw.
  { intros q Hq. rewrite mbr_win_bput; [|exact (Forall_in _ _ _ Hin Hq)|done..].
    apply decide_False. intros E. apply Hni. rewrite <- E. by apply list_elem_of_fmap_2. }
  constructor; cbn [fst snd].
  - destruct rebuild; cbn [negb]; congruence.
  - destruct rebuild; cbn [negb]; congruence.
  - intros q [Hq| ->%list_elem_of_singleton]%elem_of_app Hmq; [|by destruct Hmq].
    destruct rebuild; cbn [negb]; [by apply Hk|]. rewrite Hw by done. by apply Hk.
  - exists r. split_and!; [set_solver|done|done|]. intros ->. cbn [negb].
    rewrite mbr_win_bput by done. by apply decide_True.
Qed.

Lemma keep_lba0_step before st r : kept_inv rebuild ps boot before st →
  slot_in 4 (r_slot r) → zlen (r_bytes r) = 16 → Forall (λ q, slot_in 4 (r_slot q)) before →
  r_slot r ∉ map r_slot before →
  kept_inv rebuild ps boot (before ++ [r]) (keep_lba0_entry rebuild ps st r).
Proof.
  intros Hi Hs Hz Hin Hni. destruct st as [out ms]. unfold keep_lba0_entry.
  change layout.TYPE_BYTE with 4. destruct (Z.eqb_spec (byte_at (r_bytes r) 4) types.GPT_PROTECTIVE) as [Hm|Hm].
  - destruct ms as [s|]; cbn [andb].
    + apply kept_inv_skip; [done|by intros [? _]|by eexists].
    + pose proof (kept_inv_marker before out r Hi Hs Hz Hin Hni Hm) as Hx. by destruct rebuild.
  - change (bool_decide (entry_role (byte_at (r_bytes r) 4) = Volume) && _ && _)
      with (stale_mirror ps r).
    destruct (stale_mirror ps r) eqn:Est.
    + apply kept_inv_skip; [done| |done]. intros (_ & _ & ?). congruence.
    + by apply kept_inv_put.
Qed.

Lemma keep_lba0_all before rest st : kept_inv rebuild ps boot before st →
  Forall (λ q, slot_in 4 (r_slot q) ∧ zlen (r_bytes q) = 16) (before ++ rest) →
  NoDup (map r_slot (before ++ rest)) →
  kept_inv rebuild ps boot (before ++ rest) (foldl (keep_lba0_entry rebuild ps) st rest).
Proof.
  revert before st; induction rest as [|r rest IH]; intros before st Hi Hf Hnd.
  { by rewrite app_nil_r. }
  pose proof Hf as [Hfb [[Hs Hz] Hfr]%Forall_cons]%Forall_app.
  rewrite map_app, NoDup_app in Hnd. destruct Hnd as (Hn1 & Hn2 & Hn3).
  replace (before ++ r :: rest) with ((before ++ [r]) ++ rest) in * by by rewrite <- app_assoc.
  cbn [foldl]. apply IH; [|done|].
  - apply keep_lba0_step; [done|done|done| |].
    + eapply Forall_impl; [exact Hfb|]. by intros q [? _].
    + intros Hx. apply (Hn2 _ Hx). cbn. set_solver.
  - rewrite !map_app, <- app_assoc. apply NoDup_app. done.
Qed.
End loop.

(** The marker's place: kept where it was, rebuilt there, or put into a free
    entry. *)
Lemma place_marker rebuild ps boot lba0 prot out ms x :
  kept_inv rebuild ps boot lba0 (out, ms) →
  Forall (λ q, slot_in 4 (r_slot q) ∧ zlen (r_bytes q) = 16) lba0 → NoDup (map r_slot lba0) →
  zlen prot = 16 → byte_at prot 4 = types.GPT_PROTECTIVE →
  (if negb rebuild && match ms with Some _ => true | None => false end then Ok out
   else slot ← ok_or (match ms with
                      | Some s => Some s
                      | None => List.find (λ i, type_byte_at out i =? types.EMPTY) entry_indices
                      end) (Invalid "LBA 0 has no protective entry and no free slot for one");
        Ok (bput out (layout.entry_at slot) prot)) = Ok x →
  zlen x = 512 ∧ bslice x 0 446 = boot ∧
  (∀ r, r ∈ lba0 → must_keep ps r → mbr_win x (r_slot r) = r_bytes r) ∧
  ∃ i, slot_in 4 i ∧ byte_at (mbr_win x i) 4 = types.GPT_PROTECTIVE.
Proof.
  intros [Hl Hb Hk Hm] Hin Hnd Hpl Hpt Hx. cbn [fst snd] in *.
  destruct (negb rebuild && _) eqn:Ek.
  { injection Hx as <-. split_and!; [done..|]. apply andb_true_iff in Ek as [Er%negb_true_iff Ems].
    destruct ms as [s|]; [|done]. destruct Hm as (q & Hq & <- & Hqm & Hw).
    exists (r_slot q). split; [by destruct (Forall_in _ _ _ Hin Hq)|]. by rewrite Hw. }
  inv_ok. subst x. rename x0 into slot.
  assert (slot_in 4 slot ∧ ∀ r, r ∈ lba0 → must_keep ps r → r_slot r ≠ slot) as [Hs Hne].
  { destruct ms as [s|].
    - injection Hx0 as <-. destruct Hm as (q & Hq & <- & Hqm & _).
      split; [by destruct (Forall_in _ _ _ Hin Hq)|]. intros r Hr [Hnm _] E. apply Hnm.
      apply list_elem_of_lookup in Hr as [i Hi], Hq as [j Hj].
      assert (i = j) as ->; [|congruence].
      eapply NoDup_lookup; [exact Hnd|..]; change (@map) with (@fmap list _);
        rewrite list_lookup_fmap, ?Hi, ?Hj; cbn; by rewrite ?E.
    - apply List.find_some in Hx0 as [Hi He]. apply list_elem_of_In, elem_of_seqZ in Hi.
      unfold layout.ENTRY_COUNT in Hi. split; [split; lia|]. intros r Hr Hmk E. subst slot.
      rewrite type_byte_window in He by lia. rewrite (Hk r Hr Hmk) in He. destruct Hmk as (_ & Hne & _).
      by apply Z.eqb_eq in He. }
  destruct (outside_bput out slot prot Hl Hs Hpl) as (Hl' & Hb' & _).
  split_and!; [congruence|congruence| |].
  - intros r Hr Hmk. rewrite mbr_win_bput; [|by destruct (Forall_in _ _ _ Hin Hr)|done..].
    rewrite decide_False by by apply Hne. by apply Hk.
  - exists slot. split; [done|]. rewrite mbr_win_bput by done. by rewrite decide_True.
Qed.

(** The rebuilt sector. *)
Lemma hybrid_lba0_keeps current lba0 prot ps mbr : sector_ok current →
  Forall reserved_typed lba0 → NoDup (map r_slot lba0) →
  zlen prot = 16 → byte_at prot 4 = types.GPT_PROTECTIVE →
  hybrid_lba0 current lba0 prot ps = Ok mbr →
  bslice mbr 0 446 = bslice current 0 446 ∧ bslice mbr 510 512 = [0x55; 0xAA] ∧
  (∀ r, r ∈ lba0 → must_keep ps r → mbr_win mbr (r_slot r) = r_bytes r) ∧
  has_gpt_marker mbr = true.
Proof.
  intros [Hcl Hcb] Ht Hnd Hpl Hpt H. unfold hybrid_lba0 in H. inv_ok.
  assert (Forall (λ q, slot_in 4 (r_slot q) ∧ zlen (r_bytes q) = 16) lba0) as Hin.
  { apply list.Forall_forall. intros r Hr. destruct (Forall_in _ _ _ Ht Hr) as [[? _] [? _]].
    split; [|done]. split; [done|]. destruct (Z.ltb_spec (r_slot r) 4); [done|].
    assert (existsb (λ e, layout.ENTRY_COUNT <=? r_slot e) lba0 = true); [|congruence].
    apply existsb_exists. exists r. split; [by apply list_elem_of_In|]. unfold layout.ENTRY_COUNT. lia. }
  set (out0 := bput (zeros SECTOR_SIZE) 0 (bslice current 0 layout.TABLE_START)) in *.
  assert (zlen (bslice current 0 446) = 446) as Hb0 by (rewrite zlen_bslice; lia).
  assert (kept_inv (is_protective current) ps (bslice current 0 446) [] (out0, None)) as Hi.
  { unfold out0. change layout.TABLE_START with 446. constructor; cbn [fst snd].
    - rewrite zlen_bput; rewrite ?zlen_zeros; unfold SECTOR_SIZE; lia.
    - apply bslice_bput_same; rewrite ?zlen_zeros; unfold SECTOR_SIZE; lia.
    - intros r Hr. by apply elem_of_nil in Hr.
    - intros r Hr. by apply elem_of_nil in Hr. }
  pose proof (keep_lba0_all _ _ _ [] lba0 _ Hi Hin Hnd) as Hk. cbn [app] in Hk.
  destruct (foldl _ (out0, None) lba0) as [out ms]. inv_ok.
  destruct (place_marker _ _ _ _ _ _ _ x Hk Hin Hnd Hpl Hpt Hx0) as (Hxl & Hxb & Hxk & Hxm).
  subst mbr. destruct (signed_sector x Hxl) as (_ & Hsig & Hsl & Hwin).
  split_and!; [by rewrite Hsl|done| |].
  - intros r Hr Hmk. rewrite Hwin; [by apply Hxk|]. by destruct (Forall_in _ _ _ Hin Hr).
  - destruct Hxm as (i & Hi' & Hi2). pose proof Hi' as [? ?]. unfold has_gpt_marker. apply existsb_exists.
    exists i. split; [apply list_elem_of_In, elem_of_seqZ; unfold layout.ENTRY_COUNT; lia|].
    rewrite type_byte_window by lia. rewrite Hwin, Hi2 by done. done.
Qed.

(** What [lba0_entries] hands to the writer: every entry in use, once. *)
Lemma lba0_entries_spec sector : sector_ok sector → bslice sector 510 512 = [0x55; 0xAA] →
  Forall reserved_typed (lba0_entries sector) ∧ NoDup (map r_slot (lba0_entries sector)) ∧
  ∀ i, slot_in 4 i → byte_at (mbr_win sector i) 4 ≠ types.EMPTY →
    mkReserved i (mbr_win sector i) ∈ lba0_entries sector.
Proof.
  intros [Hl Hb] Hsig. unfold lba0_entries. rewrite Hsig. cbn [bytes_eqb]. unfold bytes_eqb.
  rewrite bool_decide_eq_true_2 by done. cbn [negb].
  set (f i := if byte_at sector (layout.entry_at i + layout.TYPE_BYTE) =? types.EMPTY then None
    else Some (mkReserved i (bslice sector (layout.entry_at i) (layout.entry_at i + layout.ENTRY_SIZE)))).
  change (omap _ entry_indices) with (omap f entry_indices). split_and!.
  - apply list.Forall_forall. intros r (i & Hi & Hr)%list_elem_of_omap. apply elem_of_seqZ in Hi.
    unfold layout.ENTRY_COUNT in Hi. unfold f in Hr. case_match; [done|]. injection Hr as <-.
    assert (0 ≤ layout.entry_at i ∧ layout.entry_at i + 16 ≤ 512)
      by (unfold layout.entry_at, layout.TABLE_START, layout.ENTRY_SIZE; lia).
    constructor; cbn; [unfold is_u32; lia|]. unfold layout.ENTRY_SIZE.
    split; [rewrite zlen_bslice; lia|auto with bytes].
  - apply sorted_lt_NoDup. apply (sorted_keys r_slot). apply omap_seqZ_sorted.
    intros i y. unfold f. case_match; [done|]. by intros [= <-].
  - intros i [? ?] Hne. apply list_elem_of_omap. exists i.
    split; [apply elem_of_seqZ; unfold layout.ENTRY_COUNT; lia|]. unfold f, mbr_win in *.
    pose proof (type_byte_window sector i ltac:(lia)) as Ht. unfold type_byte_at, mbr_win in Ht.
    rewrite Ht. by rewrite (proj2 (Z.eqb_neq _ _) Hne).
Qed.

(** The bare protective MBR carries the marker in entry 0. *)
Lemma protective_marker total : byte_at (protective_mbr total) 450 = types.GPT_PROTECTIVE.
Proof. rewrite protective_puts. apply byte_at_field; [apply protective_fields_fit|lia|done]. Qed.

(** A marker among the entries is always remembered, so LBA 0 then always has
    a slot for the marker and the rewrite cannot fail. *)
Lemma keep_lba0_finds rebuild ps lba0 st : Exists is_marker lba0 ∨ is_Some st.2 →
  is_Some (foldl (keep_lba0_entry rebuild ps) st lba0).2.
Proof.
  revert st. induction lba0 as [|r lba0 IH]; intros [out ms] H; cbn [foldl snd] in *.
  { destruct H as [H|H]; [inversion H|done]. }
  apply IH. unfold keep_lba0_entry. destruct (_ =? types.GPT_PROTECTIVE) eqn:Em.
  - right. destruct ms; cbn; [by eexists|]. destruct (negb rebuild); by eexists.
  - destruct H as [[Hm|H]%Exists_cons|H]; [|by left|].
    + apply Z.eqb_neq in Em. done.
    + right. by destruct (_ && _).
Qed.

Lemma hybrid_lba0_marked current lba0 prot ps : Forall (λ r, slot_in 4 (r_slot r)) lba0 →
  Exists is_marker lba0 → ∃ mbr, hybrid_lba0 current lba0 prot ps = Ok mbr.
Proof.
  intros Hin Hm. unfold hybrid_lba0.
  assert (existsb (λ e, layout.ENTRY_COUNT <=? r_slot e) lba0 = false) as ->.
  { apply not_true_iff_false. intros (r & Hr%list_elem_of_In & Hs%Z.leb_le)%existsb_exists.
      pose proof (Forall_in _ _ _ Hin Hr) as [_ ?]. unfold layout.ENTRY_COUNT in Hs. lia. }
  cbn [refuse_if mbind Result_bind]. set (st0 := (bput _ _ _, None)).
  pose proof (keep_lba0_finds (is_protective current) ps lba0 st0 (or_introl Hm)) as [s Hs].
  destruct (foldl _ st0 lba0) as [out ms]. cbn [snd] in Hs. subst ms.
  cbn [ok_or mbind Result_bind]. destruct (negb _); by eexists.
Qed.
