(* ===== verification/GptRoundTrip.v ===== *)
(** * GPT round trip: a table that was written is the table a prober finds

    [parse_copy] reads either copy of a written table; [probe_written] puts
    the two copies and the dispatcher together. *)
From S2P Require Import Prelude Bytes Device Table Utf16 Rules Slots Mbr Gpt GptWrite GptCodec.
From S2P Require Import GptDisk Probe.

Section written.
Context {D : Type} `{!BlockDevice D} `{!DeviceLaws D} `{!Crc32} `{!Crc32Laws}.
Context (ps : list Partition) (guid : list Z) (g : GptGeometry)
  (tails : gmap (list Z) (list Z)) (lba0 : list ReservedEntry).
Context (Hps : Forall partition_typed ps) (Hguid : guid16 guid) (Hg : geometry_typed g)
  (Htails : tails_typed tails) (Hlba0 : Forall reserved_typed lba0).

Local Abbreviation total d := (size_bytes d / SECTOR_SIZE).

(** The table a reader finds: the partitions as written, in slot order. *)
Definition table_read (size : Z) (slots : list Z) (parts : list Partition) : Prop :=
  parts ≡ₚ zip_with (as_written size) ps slots ∧
  StronglySorted (λ p q, default 0 (p_slot p) < default 0 (p_slot q)) parts.

Lemma zip_with_map {A B C E} (f : C → E) (h : A → B → C) l k :
  map f (zip_with h l k) = zip_with (λ a b, f (h a b)) l k.
Proof. revert k; induction l as [|a l IH]; intros [|b k]; cbn; congruence. Qed.

Lemma zip_with_fst {A B C} (f : A → C) (l : list A) (k : list B) : length k = length l →
  zip_with (λ a _, f a) l k = map f l.
Proof. revert k; induction l as [|a l IH]; intros [|b k] Hl; cbn in *; try done. f_equal. apply IH. lia. Qed.

(** [h] describes a copy of [array] on the device. *)
Record describes (d : D) (first last : Z) (array : list Z) (h : Header) : Prop := {
  des_count : num_partition_entries h = num_entries g;
  des_size : partition_entry_size h = entry_size g;
  des_first : first_usable_lba h = first;
  des_last : last_usable_lba h = last;
  des_crc : partition_entry_array_crc32 h = crc32_hash array;
  des_lba : 0 ≤ partition_entry_lba h;
  des_room : partition_entry_lba h * 512 + num_entries g * entry_size g ≤ size_bytes d;
  des_bytes : bslice (image d) (partition_entry_lba h * 512)
    (partition_entry_lba h * 512 + num_entries g * entry_size g) = array;
}.

(** Every copy of the array yields the same partitions. *)
Lemma parse_copies d first last slots array : dev_ok d →
  Forall (valid_in first last) ps → Forall (λ p, is_Some (p_uuid p)) ps →
  disjoint_spans (map span_of ps) → assignment ps (num_entries g) [] slots →
  0 ≤ num_entries g ≤ 4096 → 128 ≤ entry_size g ≤ 4096 →
  array_holds g tails (num_entries g) ps slots array →
  ∃ parts, table_read (size_bytes d) slots parts ∧
    ∀ h, describes d first last array h → parse_entry_array d h = Ok (parts, array).
Proof.
  intros Hd Hv Hu Hdis [Hlen Hnd Hr _ _] Hn He Hh. cbn [app] in Hnd, Hr.
  assert (Forall entry_ok ps) as Hok.
  { apply list.Forall_forall. intros p Hp. exact (valid_entry_ok _ _ _ (Forall_in _ _ _ Hv Hp) (Forall_in _ _ _ Hu Hp)). }
  destruct (collect_written g tails (num_entries g) (size_bytes d) (proj1 He)
    ps slots array Hps Hok Hnd Hr Hh) as (found & Hc & Hp & Hs).
  exists (map fst found). split.
  { split; [by rewrite Hp, zip_with_map|]. clear Hc Hp.
    induction Hs as [|x l Hs IH Hx]; cbn; constructor; [done|]. by apply Forall_map. }
  intros h [E1 E2 E3 E4 E5 H1 H2 H3]. unfold parse_entry_array.
  destruct (image_u64 d Hd) as [_ Hsz]. unfold SECTOR_SIZE. rewrite E1, E2.
  rewrite u64_small by nia. rewrite checked_mul_ok by nia. cbn [ok_or mbind Result_bind].
  rewrite checked_add_ok by nia. cbn [ok_or mbind Result_bind].
  rewrite refuse_no by (destruct (_ =? 0); cbn; lia).
  rewrite read_inside by (done || nia). cbn [map_err mbind Result_bind]. rewrite H3.
  rewrite refuse_no by (by rewrite E5, Z.eqb_refl).
  rewrite Hc. cbn [mbind Result_bind]. do 2 f_equal.
  apply set_issues_clean.
  - rewrite E3, E4. rewrite Hp.
    clear - Hps Hv. revert slots. induction ps as [|p l IH]; intros [|s slots]; cbn; constructor.
    + apply Forall_cons in Hps as [Ht _], Hv as [(_ & _ & _ & ? & _ & ? & ?) _].
      pose proof (span_forward p Ht). cbn. naive_solver.
    + apply Forall_cons in Hps as [_ ?], Hv as [_ ?]. by apply IH.
  - rewrite Hp, zip_with_map. cbn [snd]. by rewrite zip_with_fst.
Qed.

(** ** The whole device *)
Section device.
Context (d d' : D) (slots : list Z) (first last : Z) (mbr array : list Z).
Context (Hd : dev_ok d) (Hw : gpt_written ps guid g tails lba0 d d' slots first last mbr array).

Local Abbreviation tot := (size_bytes d / SECTOR_SIZE).

Lemma written_layout : layout_facts g tot first last.
Proof. destruct Hw as [[Hu _ _ _ _ _] _ _ _ _]. by apply usable_range_total. Qed.

Lemma written_sizes : zlen mbr = 512 ∧ zlen array = num_entries g * entry_size g ∧
  array_holds g tails (num_entries g) ps slots array.
Proof.
  pose proof written_layout as Hl. pose proof (layout_bounds _ _ _ _ Hl).
  destruct (total_small d Hd) as [Ht Hs]. destruct Hw as [Ha Hm Has Hb _].
  assert (512 ≤ size_bytes d) as H512 by lia.
  destruct (written_lba0_ok ps lba0 Hlba0 d mbr Hd H512 Hm) as [? _].
  destruct Has as [Hlen Hnd Hr _ _], Hl as [(Hn & He & _) ? ? ? ? ? ? ?].
  assert (array_holds g tails (num_entries g) ps slots array) as Hh
    by (eapply build_array_holds; done || lia).
  split_and!; [done| |done]. by destruct Hh.
Qed.

Lemma written_fit : fits (zlen (image d)) (gpt_writes g tot first last guid mbr array).
Proof.
  destruct written_sizes as (? & ? & _). rewrite (image_size d Hd).
  apply gpt_writes_fit; [done..|apply written_layout|done|done].
Qed.

(** What is where. *)
Lemma written_slices :
  bslice (image d') 512 1024 = primary_header g tot first last guid array ∧
  bslice (image d') (entry_lba g * 512) (entry_lba g * 512 + num_entries g * entry_size g) = array ∧
  bslice (image d') ((tot - 1 - array_span g) * 512)
    ((tot - 1 - array_span g) * 512 + num_entries g * entry_size g) = array ∧
  bslice (image d') ((tot - 1) * 512) ((tot - 1) * 512 + 512) =
    backup_header g tot first last guid array.
Proof.
  pose proof written_fit as Hf. pose proof written_layout as Hl.
  destruct (layout_bounds _ _ _ _ Hl) as (Hb1 & Hb2 & Hb3 & Hb4).
  pose proof (lay_span _ _ _ _ Hl) as [_ Hb5]. pose proof (lay_span _ _ _ _ Hl) as [Hb6 _].
  destruct Hw as [_ _ _ _ [_ _ -> _]]. unfold gpt_writes in *.
  split_and!.
  - apply (puts_found (image d) [_] 512 512 _ _ Hf).
    rewrite !Forall_cons. cbn [fst snd]. split_and!; try lia. done.
  - apply (puts_found (image d) [_; _] _ _ _ _ Hf).
    rewrite !Forall_cons. cbn [fst snd]. split_and!; try lia. done.
  - apply (puts_found (image d) [_; _; _] _ _ _ _ Hf).
    rewrite !Forall_cons. cbn [fst snd]. split_and!; try lia. done.
  - apply (puts_found (image d) [_; _; _; _] _ _ _ _ Hf). done.
Qed.

Definition primary_read : Header :=
  built_header 1 (tot - 1) (entry_lba g) first last guid (crc32_hash array) g.
Definition backup_read : Header :=
  built_header (tot - 1) 1 (tot - 1 - array_span g) first last guid (crc32_hash array) g.

Lemma headers_parse :
  parse_header (primary_header g tot first last guid array) = Ok primary_read ∧
  parse_header (backup_header g tot first last guid array) = Ok backup_read.
Proof.
  pose proof written_layout as Hl. destruct (layout_bounds _ _ _ _ Hl) as (Hb1 & Hb2 & Hb3 & Hb4).
  destruct (total_small d Hd) as [Ht _]. pose proof (crc32_is_u32 array).
  pose proof (lay_shape _ _ _ _ Hl). unfold SECTOR_SIZE in *.
  split; apply parse_built_header; try done; unfold is_u64, SECTOR_SIZE; lia.
Qed.

Lemma size_kept : size_bytes d' = size_bytes d ∧ dev_ok d'.
Proof. by destruct Hw as [_ _ _ _ [? ? ? ?]]. Qed.

Lemma headers_describe :
  describes d' first last array primary_read ∧ describes d' first last array backup_read.
Proof.
  pose proof written_layout as Hl. destruct (layout_bounds _ _ _ _ Hl) as (Hb1 & Hb2 & Hb3 & Hb4).
  pose proof (lay_span _ _ _ _ Hl) as [? ?]. destruct (total_small d Hd) as [Ht Ht'].
  destruct written_slices as (_ & ? & ? & _). destruct size_kept as [Hs _].
  unfold SECTOR_SIZE in *.
  split; constructor; try done; cbn; rewrite ?Hs; unfold SECTOR_SIZE; lia.
Qed.

Lemma read_sector (off : Z) : 0 ≤ off → off + 512 ≤ size_bytes d →
  read_at d' off SECTOR_SIZE = Ok (bslice (image d') off (off + 512)).
Proof. intros. destruct size_kept as [Hs ?]. apply read_inside; rewrite ?Hs; done || lia. Qed.

Lemma compare_copies_refl l : compare_copies (zip l l) = BackupOk.
Proof.
  induction l as [|p l IH]; cbn [zip zip_with compare_copies]; [done|].
  rewrite !Z.eqb_refl, !bool_decide_eq_true_2 by done. exact IH.
Qed.

(** Both copies parse to the same table, and the backup agrees with the
    primary. *)
Lemma gpt_reads_back : ∃ parts, table_read (size_bytes d) slots parts ∧
  parse d' (primary_header g tot first last guid array) = Ok parts ∧
  parse_backup d' = Ok parts ∧
  parse_entry_array d' primary_read = Ok (parts, array).
Proof.
  destruct size_kept as [Hs Hd'].
  pose proof written_layout as Hl. destruct (layout_bounds _ _ _ _ Hl) as (Hb1 & Hb2 & Hb3 & Hb4).
  destruct (total_small d Hd) as [Ht Ht']. destruct written_sizes as (_ & _ & Hh).
  destruct headers_parse as [Hp1 Hp2], headers_describe as [Hd1 Hd2].
  destruct written_slices as (_ & _ & _ & Hbk).
  destruct Hw as [[_ _ Hv Hdis _ Hu] _ Has _ _]. destruct (lay_shape _ _ _ _ Hl) as (Hn & He & _).
  destruct (parse_copies d' first last slots array Hd' Hv Hu Hdis Has Hn He Hh)
    as (parts & Hread & Hcopies).
  exists parts. rewrite Hs in Hread. split_and!; [done| | |by apply Hcopies].
  - unfold parse. rewrite Hp1. cbn [mbind Result_bind]. rewrite refuse_no by done.
    by rewrite Hcopies.
  - unfold parse_backup. rewrite Hs. unfold SECTOR_SIZE in *.
    rewrite refuse_no by lia. rewrite (u64_small (size_bytes d / 512 - 1)) by lia.
    rewrite u64_small by lia. rewrite read_sector by lia. cbn [map_err mbind Result_bind].
    rewrite Hbk, Hp2. cbn [mbind Result_bind]. rewrite refuse_no by (cbn; by rewrite Z.eqb_refl).
    by rewrite Hcopies.
Qed.

Lemma lba1_reads_back : read_lba1 d' = Ok (primary_header g tot first last guid array).
Proof.
  unfold read_lba1. destruct (total_small d Hd) as [Ht Ht'].
  pose proof written_layout as Hl. destruct (layout_bounds _ _ _ _ Hl) as (Hb1 & Hb2 & Hb3 & Hb4).
  unfold SECTOR_SIZE in Ht', Hb4 |- *. rewrite read_sector by lia.
  change (512 + 512) with 1024. by destruct written_slices as (-> & _).
Qed.

(** The signature of a header that was built. *)
Lemma built_signature my alt elba crc : 
  bslice (build_header my alt elba (first, last) guid crc g) 0 8 = Gpt.SIGNATURE.
Proof.
  rewrite build_header_puts. apply bslice_field; [|done|done].
  apply fits_app. destruct Hguid. split; [by apply header_fields_fit|].
  constructor; [|done]. by apply (field_fits_le _ 16 4).
Qed.

Lemma probe_written : ∃ parts, table_read (size_bytes d) slots parts ∧
  probe_with_status d' = Ok (TableGpt, parts, SourcePrimary) ∧ probe d' = Ok (TableGpt, parts).
Proof.
  destruct gpt_reads_back as (parts & Hread & Hp & Hb & _). exists parts.
  destruct (total_small d Hd) as [Ht Ht'].
  pose proof written_layout as Hl. destruct (layout_bounds _ _ _ _ Hl) as (Hb1 & Hb2 & Hb3 & Hb4).
  assert (∀ b, probe_inner d' b = Ok (TableGpt, parts, SourcePrimary)) as Hi.
  { intros b. unfold probe_inner. unfold SECTOR_SIZE in Ht', Hb4.
    rewrite (read_sector 0) by lia. cbn [map_err mbind Result_bind].
    rewrite lba1_reads_back. cbn [mbind Result_bind].
    unfold primary_header at 1. rewrite built_signature.
    rewrite (proj2 (bytes_eqb_true _ _) eq_refl). rewrite Hp.
    destruct b; [|done]. unfold validate_backup. rewrite Hb, Nat.eqb_refl. cbn [negb].
    by rewrite compare_copies_refl. }
  split_and!; [done|apply Hi|]. unfold probe. by rewrite Hi.
Qed.
End device.
End written.
