(* ===== verification/MbrDisk.v ===== *)
(** * MBR on a device: when the writer accepts a table, and what it leaves

    [mbr_accepts] are the conditions under which [write_mbr_assigning_slots]
    succeeds; [write_mbr_cases] proves that they are exact, that a refusal
    leaves the device alone, and that a success changes sector 0 and nothing
    else. *)
From S2P Require Import Prelude Bytes Device Table Rules Slots Mbr MbrCodec.
From S2P Require Gpt Probe.

(** ** Sorted spans: neighbours are enough *)
Lemma neighbours_clash_sorted spans : sorted_by pair_leb spans → spans_forward spans →
  neighbours_clash spans = false ↔ disjoint_spans spans.
Proof.
  unfold sorted_by, spans_forward. induction 1 as [|a spans Hs IH Ha]; intros Hf.
  { split; [intros _; apply disjoint_spans_nil|done]. }
  apply Forall_cons in Hf as [Hfa Hf]. specialize (IH Hf). rewrite disjoint_spans_cons.
  destruct spans as [|b spans]; cbn [neighbours_clash].
  { split; [|done]. intros _. split; [constructor|apply disjoint_spans_nil]. }
  rewrite orb_false_iff. split.
  - intros [Hab Hn]. apply IH in Hn. split; [|done]. apply list.Forall_forall. intros x Hx [Ho1 Ho2].
    assert (b.1 ≤ x.1); [|lia]. apply elem_of_cons in Hx as [->|Hx]; [done|].
    apply StronglySorted_inv in Hs as [_ Hb]. by apply pair_leb_fst, (Forall_in _ _ _ Hb).
  - intros [Hov Hd]. split; [|by apply IH]. apply Forall_cons in Hov as [Hab _], Ha as [Hle _], Hf as [Hfb _].
    apply pair_leb_fst in Hle. destruct (Z.leb_spec b.1 a.2); [|done]. exfalso. apply Hab. split; lia.
Qed.

Lemma sorted_clash spans : spans_forward spans →
  neighbours_clash (sort_by pair_leb spans) = false ↔ disjoint_spans spans.
Proof.
  intros Hf. rewrite neighbours_clash_sorted.
  - by rewrite (sort_by_perm pair_leb spans).
  - apply sort_by_sorted; [apply pair_leb_total|apply pair_leb_trans].
  - unfold spans_forward. by rewrite sort_by_perm.
Qed.

(** ** Validation *)
Lemma validate_mbr_spec p total : partition_typed p →
  validate_mbr_partition p total = Ok tt ↔ mbr_valid total p.
Proof.
  intros Ht. unfold validate_mbr_partition, mbr_valid. destruct (p_kind p) as [|t a|] eqn:Ek.
  1,3: split; [done|intros ((? & ? & ?) & _); done].
  cbn [mbind Result_bind]. split.
  - intros H. inv_ok. destruct x1 as [s e]. inv_ok.
    apply span_of_inv in Hx1 as (Hsp & Hl & Hend); [|done]. unfold span_of in Hsp.
    injection Hsp as -> ->. subst. zbool. naive_solver lia.
  - intros (_ & Hl & Ha & Hb & [Hs1 Hs2] & Hn & Hend & Htot).
    rewrite refuse_no by lia. rewrite refuse_no by (by rewrite Ha, Hb).
    rewrite (span_of_spec p Ht Hl Hend). cbn [mbind Result_bind span_of].
    rewrite refuse_no by lia. rewrite refuse_no by lia.
    rewrite checked_add_ok by done. cbn [ok_or mbind Result_bind]. unfold refuse_if.
    by rewrite (proj2 (Z.ltb_ge _ _)) by lia.
Qed.

Lemma mbr_spans_cases ps total : Forall partition_typed ps →
  match mbr_spans ps total with
  | Ok spans => Forall (mbr_valid total) ps ∧ spans = map span_of ps
  | Err _ => ¬ Forall (mbr_valid total) ps
  end.
Proof.
  intros Ht. apply (collectM_all _ (mbr_valid total) span_of). intros p Hp.
  pose proof (Forall_in _ _ _ Ht Hp) as Htp. pose proof (validate_mbr_spec p total Htp) as Hv.
  destruct (validate_mbr_partition p total) as [[]|e]; cbn [mbind Result_bind].
  - assert (mbr_valid total p) as Hval by by apply Hv.
    pose proof Hval as (_ & ? & _ & _ & _ & _ & ? & _). by rewrite (span_of_spec p Htp).
  - intros Hval. apply Hv in Hval. discriminate.
Qed.

(** The spans of preserved entries run forwards. *)
Lemma reserved_forward rs : Forall reserved_typed4 rs → spans_forward (omap reserved_span rs).
Proof.
  intros Ht. apply list.Forall_forall. intros s (r & Hin & Hr)%list_elem_of_omap.
  destruct (Forall_in _ _ _ Ht Hin) as (_ & Hl & Hb).
  pose proof (le32_bound (r_bytes r) 12 Hb ltac:(lia) ltac:(lia)) as [? _].
  unfold reserved_span in Hr. unfold layout.SECTOR_COUNT in *. repeat case_match; simplify_eq. cbn. lia.
Qed.

(** The conditions under which a table is written. *)
Record mbr_accepts (ps : list Partition) (rs : list ReservedEntry) (total : Z) : Prop := {
  macc_count : zlen ps + zlen rs ≤ 4;
  macc_size : SECTOR_SIZE ≤ total;
  macc_valid : Forall (mbr_valid total) ps;
  macc_disjoint : disjoint_spans (map span_of ps ++ omap reserved_span rs);
  macc_slots : NoDup (map r_slot rs ++ recorded ps) ∧ Forall (slot_in 4) (map r_slot rs ++ recorded ps);
}.

Section device.
Context {D : Type} `{!BlockDevice D} `{!DeviceLaws D}.
Context (ps : list Partition) (rs : list ReservedEntry).
Context (Hps : Forall partition_typed ps) (Hrs : Forall reserved_typed4 rs).

(** What a successful write did: sector 0 is a table of the partitions and
    the preserved entries, and the rest of the device is as it was. *)
Record mbr_written (d d' : D) (slots sector : list Z) : Prop := {
  mwr_accepts : mbr_accepts ps rs (size_bytes d);
  mwr_slots : assignment ps 4 (map r_slot rs) slots;
  mwr_table : mbr_table (bslice (image d) 0 512) rs ps slots sector;
  mwr_image : dev_with_image d d' (bput (image d) 0 sector);
}.

Lemma mbr_slots_nonneg : slots_nonneg ps.
Proof.
  intros p s Hp Hs. pose proof (Forall_in _ _ _ Hps Hp) as [_ _ _ _ _ Ht].
  rewrite Hs in Ht. apply Ht.
Qed.

Lemma valid_spans_forward total : Forall (mbr_valid total) ps →
  spans_forward (map span_of ps ++ omap reserved_span rs).
Proof.
  intros Hv. apply Forall_app. split; [|by apply reserved_forward].
  apply Forall_map, list.Forall_forall. intros p Hp.
  apply span_forward; [exact (Forall_in _ _ _ Hps Hp)|apply (Forall_in _ _ _ Hv Hp)].
Qed.

Lemma write_mbr_cases d : dev_ok d → is_writable d = true →
  match write_mbr_assigning_slots ps rs d with
  | (d', Ok slots) => ∃ sector, mbr_written d d' slots sector
  | (d', Err _) => d' = d ∧ ¬ mbr_accepts ps rs (size_bytes d)
  end.
Proof.
  intros Hd Hw. unfold write_mbr_assigning_slots.
  rewrite DevM_bind_writable, Hw, DevM_bind_pure. cbn [negb refuse_if]. rewrite DevM_bind_pure.
  destruct (Z.ltb_spec layout.ENTRY_COUNT (zlen ps + zlen rs)) as [Hc|Hc]; cbn [refuse_if];
    unfold layout.ENTRY_COUNT in Hc.
  { split; [done|]. intros []. lia. }
  rewrite DevM_bind_size, DevM_bind_pure.
  destruct (Z.ltb_spec (size_bytes d) SECTOR_SIZE) as [Hs|Hs]; cbn [refuse_if].
  { split; [done|]. intros []. lia. }
  rewrite DevM_bind_pure. pose proof (mbr_spans_cases ps (size_bytes d) Hps) as Hsp.
  destruct (mbr_spans ps (size_bytes d)) as [spans|]; [|split; [done|by intros []]].
  destruct Hsp as [Hv ->]. rewrite DevM_bind_pure.
  pose proof (sorted_clash _ (valid_spans_forward _ Hv)) as Hov.
  destruct (neighbours_clash _); cbn [refuse_if].
  { split; [done|]. intros Ha. by pose proof (proj2 Hov (macc_disjoint _ _ _ Ha)). }
  assert (Forall (λ s, 0 ≤ s) (map r_slot rs)) as Hrn.
  { apply Forall_map. eapply Forall_impl; [exact Hrs|]. by intros r [? _]. }
  rewrite DevM_bind_pure. pose proof (assign_slots_cases ps 4 (map r_slot rs) ltac:(lia)
    mbr_slots_nonneg Hrn) as Has. unfold layout.ENTRY_COUNT.
  destruct (assign_slots_with_taken ps 4 (map r_slot rs)) as [slots|].
  2:{ split; [done|]. intros [_ _ _ _ [??]]. apply Has. split_and!; [done..|].
      unfold zlen in *. rewrite length_map. lia. }
  rewrite dev_read_inside by (unfold SECTOR_SIZE in *; done || lia). unfold SECTOR_SIZE in Hs |- *.
  change (0 + 512) with 512. pose proof (image_size d Hd) as Hsz.
  assert (sector_ok (bslice (image d) 0 512)) as He.
  { split; [rewrite zlen_bslice; lia|apply bytes_ok_bslice, (image_bytes d Hd)]. }
  destruct (build_mbr_table _ _ rs ps slots He Hrs Hv Hps Has) as (out & E & Ht).
  unfold layout.ENTRY_COUNT in E. rewrite DevM_bind_pure, E. destruct (tbl_ok _ _ _ _ _ Ht) as [Hl Hb].
  edestruct (dev_write_inside 0 (bput (bput out 510 [0x55]) 511 [0xAA]) (λ _, mret slots) d)
    as (d' & E' & ? & ? & ? & ?); [done..|lia|]. unfold mbind in E' |- *. rewrite E'. cbn.
  exists (bput (bput out 510 [0x55]) 511 [0xAA]). constructor; [|done..].
  constructor; [done|done|done|by apply Hov|exact (assignment_recorded _ _ _ _ Has)].
Qed.
End device.

(** ** Reading the table back *)

(** An entry that [parse] leaves out. *)
Definition hidden (w : list Z) : Prop :=
  byte_at w 4 = types.EMPTY ∨ le32 w 12 = 0 ∨ entry_role (byte_at w 4) ≠ Volume.

(** What [parse] makes of the entry in slot [i]. *)
Definition volume_in (size : Z) (sector : list Z) (i : Z) : option Partition :=
  match read_bytes size i (mbr_win sector i) with
  | Some p => if is_volume p then Some p else None
  | None => None
  end.

Lemma parse_volumes sector size : Mbr.parse sector size = Ok (omap (volume_in size sector) entry_indices).
Proof.
  unfold Mbr.parse, parse_all_entries.
  rewrite (collectM_pure _ (λ i, read_bytes size i (mbr_win sector i))).
  - cbn [mbind Result_bind]. by rewrite filter_omap.
  - intros i Hi%elem_of_seqZ. apply parse_entry_win. lia.
Qed.

Lemma volume_in_slot size sector i p : volume_in size sector i = Some p → p_slot p = Some i.
Proof. unfold volume_in, read_bytes. repeat case_match; intros; by simplify_eq. Qed.

(** [reserved_entry], on the sixteen bytes. *)
Lemma reserved_entry_win sector i : 0 ≤ i →
  reserved_entry sector i =
  if byte_at (mbr_win sector i) 4 =? types.EMPTY then None
  else if bool_decide (entry_role (byte_at (mbr_win sector i) 4) = Volume)
          && negb (le32 (mbr_win sector i) 12 =? 0) then None
  else Some (mkReserved i (mbr_win sector i)).
Proof.
  intros Hi. unfold reserved_entry, mbr_win, layout.TYPE_BYTE, layout.SECTOR_COUNT, layout.ENTRY_SIZE.
  assert (0 ≤ layout.entry_at i) by (unfold layout.entry_at, layout.TABLE_START, layout.ENTRY_SIZE; lia).
  by rewrite (byte_at_window _ _ 16), (le32_window _ _ 16) by lia.
Qed.

Lemma reserved_entry_slot sector i r : reserved_entry sector i = Some r → r_slot r = i.
Proof. unfold reserved_entry. repeat case_match; intros; by simplify_eq. Qed.

Lemma hidden_volume size sector i : hidden (mbr_win sector i) ↔ volume_in size sector i = None.
Proof.
  unfold hidden, volume_in, read_bytes, is_volume.
  destruct (Z.eqb_spec (byte_at (mbr_win sector i) 4) types.EMPTY); cbn [orb]; [naive_solver|].
  destruct (Z.eqb_spec (le32 (mbr_win sector i) 12) 0); [naive_solver|].
  cbn. case_bool_decide; naive_solver.
Qed.

Lemma reserved_entries_hidden sector r : sector_ok sector → r ∈ reserved_entries sector →
  reserved_typed4 r ∧ slot_in 4 (r_slot r) ∧ r_bytes r = mbr_win sector (r_slot r) ∧ hidden (r_bytes r).
Proof.
  intros [Hl Hb] (i & Hi & Hr)%list_elem_of_omap. apply elem_of_seqZ in Hi.
  unfold reserved_entry in Hr. destruct (_ =? types.EMPTY) eqn:Et; [done|].
  destruct (_ && _) eqn:Ev; [done|]. injection Hr as <-. unfold layout.ENTRY_COUNT in Hi.
  unfold reserved_typed4, hidden, mbr_win, layout.TYPE_BYTE, layout.SECTOR_COUNT,
    layout.ENTRY_SIZE in *. cbn [r_slot r_bytes].
  assert (0 ≤ layout.entry_at i ∧ layout.entry_at i + 16 ≤ 512)
    by (unfold layout.entry_at, layout.TABLE_START, layout.ENTRY_SIZE; lia).
  split_and!; try lia; [rewrite zlen_bslice; lia|auto with bytes|by split; lia|done|].
  rewrite (byte_at_window _ _ 16), (le32_window _ _ 16) in * by lia.
  apply andb_false_iff in Ev as [Ev|Ev]; [right; right; by case_bool_decide|].
  right; left. by destruct (Z.eqb_spec (le32 (bslice sector (layout.entry_at i) (layout.entry_at i + 16)) 12) 0).
Qed.

Section read_back.
Context (ps : list Partition) (rs : list ReservedEntry) (total size : Z).
Context (Hv : Forall (mbr_valid total) ps) (Hhid : Forall (λ r, hidden (r_bytes r)) rs)
  (Hvol : Forall (λ p, type_of p ≠ types.EMPTY ∧ entry_role (type_of p) = Volume) ps).

Lemma parse_table existing slots sector : mbr_table existing rs ps slots sector →
  assignment ps 4 (map r_slot rs) slots →
  ∃ parts, Mbr.parse sector size = Ok parts ∧ parts ≡ₚ zip_with (as_read size) ps slots ∧
    StronglySorted (λ p q, default 0 (p_slot p) < default 0 (p_slot q)) parts.
Proof.
  intros [_ _ _ Hres Hparts Hblank] [_ Hnd Hin _ _].
  apply NoDup_app in Hnd as (_ & _ & Hnd). apply Forall_app in Hin as [_ Hin].
  exists (omap (volume_in size sector) entry_indices). split_and!; [apply parse_volumes| |].
  - unfold entry_indices, layout.ENTRY_COUNT. rewrite (omap_seqZ_perm _ 4 slots Hnd Hin).
    + rewrite (omap_Forall2 _ (as_read size) ps); [done|].
      apply Forall2_same_length_lookup. split; [by eapply Forall2_length|].
      intros i p s Hp Hs. pose proof (Forall2_lookup_lr _ _ _ _ _ _ Hparts Hp Hs) as Hsay.
      pose proof (Forall_lookup_1 _ _ _ _ Hv Hp) as Hvp.
      destruct (Forall_lookup_1 _ _ _ _ Hvol Hp) as [Ht Hr].
      unfold volume_in. rewrite (read_says _ _ _ _ _ Hvp Hsay).
      rewrite (proj2 (Z.eqb_neq (type_of p) 0) Ht). unfold is_volume, as_read. cbn [p_kind].
      unfold type_of in Hr. destruct (p_kind p); [done|by rewrite bool_decide_eq_true_2|done].
    + intros i Hi Hni. apply hidden_volume.
      destruct (decide (i ∈ map r_slot rs)) as [Hir|Hir].
      * apply list_elem_of_fmap in Hir as (r & -> & Hr).
        rewrite (Forall_in _ _ _ Hres Hr). exact (Forall_in _ _ _ Hhid Hr).
      * rewrite Hblank; [by left|done|]. set_solver.
  - apply omap_seqZ_sorted. intros i y. unfold volume_in, read_bytes.
    repeat case_match; intros; simplify_eq; done.
Qed.
End read_back.

(** ** The whole device *)
Lemma no_marker_not_protective lba0 : has_gpt_marker lba0 = false → is_protective lba0 = false.
Proof.
  unfold has_gpt_marker, is_protective. change entry_indices with [0; 1; 2; 3].
  cbn [existsb foldl]. generalize (type_byte_at lba0). intros t.
  unfold types.EMPTY. rewrite !orb_false_iff. intros (E0 & E1 & E2 & E3 & _).
  destruct (t 0 =? 0), (t 1 =? 0), (t 2 =? 0), (t 3 =? 0);
    rewrite ?E0; cbn; rewrite ?E1; cbn; rewrite ?E2; cbn; rewrite ?E3; done.
Qed.

Section probe.
Context {D : Type} `{!BlockDevice D} `{!DeviceLaws D} `{!Crc32}.
Context (ps : list Partition) (rs : list ReservedEntry).
Context (Hps : Forall partition_typed ps) (Hrs : Forall reserved_typed4 rs).
Context (Hhid : Forall (λ r, hidden (r_bytes r) ∧ byte_at (r_bytes r) 4 ≠ types.GPT_PROTECTIVE) rs)
  (Hvol : Forall (λ p, type_of p ≠ types.EMPTY ∧ entry_role (type_of p) = Volume) ps).

(** No entry of the written table is a GPT marker. *)
Lemma table_no_marker existing slots sector total : mbr_table existing rs ps slots sector →
  Forall (mbr_valid total) ps → has_gpt_marker sector = false.
Proof.
  intros [_ _ _ Hres Hparts Hblank] Hv. unfold has_gpt_marker.
  destruct (existsb _ entry_indices) eqn:E; [|done]. exfalso.
  apply existsb_exists in E as (i & Hi & Ht). apply list_elem_of_In, elem_of_seqZ in Hi.
  unfold layout.ENTRY_COUNT in Hi. apply Z.eqb_eq in Ht. rewrite type_byte_window in Ht by lia.
  unfold TYPE_GPT_PROTECTIVE in Ht.
  destruct (decide (i ∈ map r_slot rs)) as [(r & -> & Hr)%list_elem_of_fmap|Hir].
  { rewrite (Forall_in _ _ _ Hres Hr) in Ht. by destruct (Forall_in _ _ _ Hhid Hr). }
  destruct (decide (i ∈ slots)) as [(k & Hk)%list_elem_of_lookup|His].
  - destruct (Forall2_lookup_r _ _ _ _ _ Hparts Hk) as (p & Hp & [_ (b & Hkd & _) _ _]).
    destruct (Forall_lookup_1 _ _ _ _ Hvol Hp) as [_ Hr]. unfold type_of in Hr.
    rewrite Hkd, Ht in Hr. discriminate.
  - rewrite Hblank in Ht; [discriminate|by split; lia|set_solver].
Qed.

Lemma probe_mbr_written d d' slots sector : dev_ok d → mbr_written ps rs d d' slots sector →
  bslice (image d) 512 520 ≠ Gpt.SIGNATURE →
  ∃ parts, Probe.probe d' = Ok (TableMbr, parts) ∧
    parts ≡ₚ zip_with (as_read (size_bytes d)) ps slots ∧
    StronglySorted (λ p q, default 0 (p_slot p) < default 0 (p_slot q)) parts.
Proof.
  intros Hd [[_ Hs Hv _ _] Has Ht [Hd' _ Hi Hz]] Hsig. unfold SECTOR_SIZE in Hs.
  destruct (parse_table ps rs _ (size_bytes d) Hv) with (existing := bslice (image d) 0 512)
    (slots := slots) (sector := sector) as (parts & Hp & Hperm & Hsort); try done.
  { eapply Forall_impl; [exact Hhid|]. by intros r [? _]. }
  exists parts. split; [|done]. pose proof (image_size d Hd) as Hsz.
  destruct (tbl_ok _ _ _ _ _ Ht) as [Hl Hb]. pose proof (tbl_signature _ _ _ _ _ Ht) as Hst.
  unfold Probe.probe, Probe.probe_inner. rewrite read_inside by (unfold SECTOR_SIZE; done || lia).
  rewrite Hi. cbn [map_err mbind Result_bind]. 
  rewrite (bslice_bput_same (image d) 0 sector (0 + SECTOR_SIZE)) by (unfold SECTOR_SIZE; lia).
  assert (∃ lba1, Probe.read_lba1 d' = Ok lba1 ∧ bslice lba1 0 8 ≠ Gpt.SIGNATURE) as (lba1 & E1 & Hn).
  { unfold Probe.read_lba1. destruct (decide (1024 ≤ size_bytes d)).
    - rewrite read_inside by (unfold SECTOR_SIZE; done || lia). eexists; split; [done|].
      rewrite Hi, bslice_bput_other by lia. by rewrite bslice_bslice by (unfold SECTOR_SIZE; lia).
    - rewrite read_outside by (unfold SECTOR_SIZE; done || lia). cbn. by eexists. }
  rewrite E1. cbn [mbind Result_bind]. rewrite (proj2 (bool_decide_eq_false _) Hn : bytes_eqb _ _ = false).
  assert (byte_at sector 510 = 0x55 ∧ byte_at sector 511 = 0xAA) as [-> ->].
  { pose proof (byte_at_bslice sector 510 512 0) as B0. pose proof (byte_at_bslice sector 510 512 1) as B1.
    rewrite Hst in B0, B1. split; symmetry; [apply B0|apply B1]; lia. }
  rewrite (table_no_marker _ _ _ _ Ht Hv). cbn [andb Z.eqb Pos.eqb mbind Result_bind].
  rewrite (no_marker_not_protective _ (table_no_marker _ _ _ _ Ht Hv)).
  by rewrite Hz, Hp.
Qed.
End probe.

(** ** Errors, on any device *)
Lemma write_mbr_clean {D} `{!BlockDevice D} ps rs :
  clean (write_mbr_assigning_slots (D:=D) ps rs).
Proof.
  unfold write_mbr_assigning_slots.
  do 9 (apply clean_bind; [done|intros ?]).
  apply clean_bind; [done|intros sector].
  apply io_clean, io_bind; [apply io_write|intros _]. apply io_ret.
Qed.
