(* ===== verification/GptProps.v ===== *)
(** * GPT: the properties

    The theorems about the GPT reader and writer, each with a witness on a
    small disk in memory ([Sample]). *)
From S2P Require Import Prelude Bytes Device Table Utf16 Rules Slots Mbr MbrCodec Gpt GptWrite.
From S2P Require Import GptCodec GptDisk Hybrid GptRoundTrip Probe.

(** ** A small disk

    Sixteen sectors, a four-slot entry array, two partitions. *)
Module Sample.
Import Crc32Ieee.
Definition disk : MemDevice := Mem (zeros 8192) true.
Definition shape : GptGeometry := mkGeometry 4 128 2 None.
Definition guid (n : Z) : list Z := pad 16 [n].
Definition part (start sectors n : Z) (label : option (list Z)) (slot : option Z) : Partition :=
  mkPartition (start * 512) (sectors * 512) (KindGpt type_guids.LINUX_FILESYSTEM 4) label
    (Some (guid n)) slot 0 (sectors * 512).
(** One partition is labelled with an astral character, the other asks for
    slot 2. *)
Definition parts : list Partition :=
  [part 8 2 1 None (Some 2); part 3 4 2 (Some [65; 0x1F600]) None].

Lemma disk_ok : dev_ok disk.
Proof. split; [apply bytes_ok_zeros|vm_compute; reflexivity]. Qed.
Lemma guid_ok l : zlen l = 16 → forallb (λ b, (0 <=? b) && (b <? 256)) l = true → guid16 l.
Proof. intros. split; [done|by apply bytes_by_compute]. Qed.
Lemma parts_typed : Forall partition_typed parts.
Proof.
  unfold parts. rewrite !Forall_cons. split_and!; [..|by apply Forall_nil];
    constructor; cbn; unfold is_u64, is_u32; try lia;
    try (split; [by apply guid_ok|lia]); try (by apply guid_ok).
  rewrite !Forall_cons. split_and!; [lia..|by apply Forall_nil].
Qed.
Lemma shape_typed : geometry_typed shape.
Proof. constructor; cbn; unfold is_u32, is_u64; lia || done. Qed.
End Sample.

(** C2: A GPT the writer has written is the GPT the prober reads: from any
    device, whatever LBA 0 held, [probe_with_status] on the result finds the
    same partitions (starts, lengths, types, attributes, UUIDs, and labels cut
    to the 36 units of the name field) in their assigned slots, in slot order,
    with no issue flags, and reports the backup copy as agreeing. *)
Theorem write_then_probe {D} `{!BlockDevice D} `{!DeviceLaws D} `{!Crc32} `{!Crc32Laws}
    (ps : list Partition) (guid : list Z) (g : GptGeometry) (tails : gmap (list Z) (list Z))
    (lba0 : list ReservedEntry) (d d' : D) (slots : list Z) :
  Forall partition_typed ps → guid16 guid → geometry_typed g → tails_typed tails →
  Forall reserved_typed lba0 → dev_ok d →
  write_gpt_assigning_slots ps guid g tails lba0 d = (d', Ok slots) →
  ∃ parts, probe_with_status d' = Ok (TableGpt, parts, SourcePrimary) ∧
    parts ≡ₚ zip_with (as_written (size_bytes d)) ps slots ∧
    StronglySorted (λ p q, default 0 (p_slot p) < default 0 (p_slot q)) parts.
Proof.
  intros Hps Hguid Hg Ht Hl Hd Hwr. destruct (is_writable d) eqn:Hw.
  2:{ unfold write_gpt_assigning_slots in Hwr. by rewrite DevM_bind_writable, Hw in Hwr. }
  pose proof (write_gpt_cases ps guid g tails lba0 Hps Hguid Hg Ht Hl d Hd Hw) as Hc.
  rewrite Hwr in Hc. destruct Hc as (first & last & mbr & array & Hc).
  destruct (probe_written ps guid g tails lba0 Hps Hguid Hg Hl d d' slots first last mbr array Hd Hc)
    as (parts & [Hperm Hsort] & Hp & _). by exists parts.
Qed.

Module write_then_probe_example.
Import Sample Crc32Ieee.
Local Abbreviation written := (write_gpt_assigning_slots parts (guid 9) shape ∅ [] disk).

Lemma write_then_probe_witness :
  written.2 = Ok [2; 0] ∧
  ∃ ps, probe_with_status written.1 = Ok (TableGpt, ps, SourcePrimary) ∧
    ps ≡ₚ zip_with (as_written (size_bytes disk)) parts [2; 0] ∧
    StronglySorted (λ p q, default 0 (p_slot p) < default 0 (p_slot q)) ps.
Proof.
  assert (written.2 = Ok [2; 0]) as Hok by (vm_compute; reflexivity).
  split; [exact Hok|].
  exact (write_then_probe parts (guid 9) shape ∅ [] disk written.1 [2; 0] parts_typed
    (guid_ok (guid 9) eq_refl eq_refl) shape_typed (map_Forall_empty _) (Forall_nil_2 _)
    disk_ok (outcome written (Ok [2; 0]) Hok)).
Defined.
End write_then_probe_example.

(** C3: The GPT writer accepts exactly the tables it should, and a refusal
    costs nothing.  On a writable device: success means the geometry fits, every
    partition is valid and in the usable range, no two share a sector, recorded
    slots are distinct and in range, and every partition has a UUID; then the
    image is the old one with the five writes (LBA 0, header, array, array,
    backup header) applied, and nothing else.  Failure means the conditions do
    not hold, and the device is as it was. *)
Theorem write_gpt_exact {D} `{!BlockDevice D} `{!DeviceLaws D} `{!Crc32} `{!Crc32Laws}
    (ps : list Partition) (guid : list Z) (g : GptGeometry) (tails : gmap (list Z) (list Z))
    (lba0 : list ReservedEntry) (d : D) :
  Forall partition_typed ps → guid16 guid → geometry_typed g → tails_typed tails →
  Forall reserved_typed lba0 → dev_ok d → is_writable d = true →
  match write_gpt_assigning_slots ps guid g tails lba0 d with
  | (d', Ok slots) => ∃ first last mbr array,
      gpt_accepts ps g (size_bytes d / SECTOR_SIZE) first last ∧
      written_lba0 (size_bytes d / SECTOR_SIZE) (bslice (image d) 0 512) lba0 ps = Ok mbr ∧
      assignment ps (num_entries g) [] slots ∧ build_array g tails ps slots = Ok array ∧
      image d' = puts (image d)
        (gpt_writes g (size_bytes d / SECTOR_SIZE) first last guid mbr array) ∧
      size_bytes d' = size_bytes d
  | (d', Err _) => d' = d ∧
      ¬ ∃ first last mbr, gpt_accepts ps g (size_bytes d / SECTOR_SIZE) first last ∧
          written_lba0 (size_bytes d / SECTOR_SIZE) (bslice (image d) 0 512) lba0 ps = Ok mbr
  end.
Proof.
  intros Hps Hguid Hg Ht Hl Hd Hw.
  pose proof (write_gpt_cases ps guid g tails lba0 Hps Hguid Hg Ht Hl d Hd Hw) as Hc.
  destruct (write_gpt_assigning_slots ps guid g tails lba0 d) as [d' [slots|e]]; [|done].
  destruct Hc as (first & last & mbr & array & [? ? ? ? []]). by exists first, last, mbr, array.
Qed.

Module write_gpt_exact_example.
Import Sample Crc32Ieee.
(** Two partitions that share a sector. *)
Definition clash : list Partition := [part 8 2 1 None None; part 3 6 2 None None].
Lemma clash_typed : Forall partition_typed clash.
Proof.
  unfold clash. rewrite !Forall_cons. split_and!; [..|by apply Forall_nil];
    constructor; cbn; unfold is_u64; try lia; try done;
    try (split; [by apply guid_ok|lia]); by apply guid_ok.
Qed.
Lemma write_gpt_exact_witness :
  (write_gpt_assigning_slots clash (guid 9) shape ∅ [] disk).2 = Err (Invalid "partitions overlap") ∧
  (write_gpt_assigning_slots clash (guid 9) shape ∅ [] disk).1 = disk.
Proof.
  assert ((write_gpt_assigning_slots clash (guid 9) shape ∅ [] disk).2
    = Err (Invalid "partitions overlap")) as He by (vm_compute; reflexivity).
  split; [exact He|].
  pose proof (write_gpt_exact clash (guid 9) shape ∅ [] disk clash_typed
    (guid_ok (guid 9) eq_refl eq_refl) shape_typed (map_Forall_empty _) (Forall_nil_2 _)
    disk_ok eq_refl) as Hx.
  rewrite (outcome _ _ He) in Hx. exact (proj1 Hx).
Defined.
End write_gpt_exact_example.

(** C17: Writing a table never touches the contents of a partition: after a
    successful write every byte of every partition given is what it was, and so
    is every byte of the usable range. *)
Theorem write_gpt_keeps_data {D} `{!BlockDevice D} `{!DeviceLaws D} `{!Crc32} `{!Crc32Laws}
    (ps : list Partition) (guid : list Z) (g : GptGeometry) (tails : gmap (list Z) (list Z))
    (lba0 : list ReservedEntry) (d d' : D) (slots : list Z) :
  Forall partition_typed ps → guid16 guid → geometry_typed g → tails_typed tails →
  Forall reserved_typed lba0 → dev_ok d →
  write_gpt_assigning_slots ps guid g tails lba0 d = (d', Ok slots) →
  (∀ p, p ∈ ps → bslice (image d') (p_start p) (p_start p + p_length p) =
                 bslice (image d) (p_start p) (p_start p + p_length p)) ∧
  (∃ first last, geometry.usable_range g (size_bytes d / SECTOR_SIZE) = Ok (first, last) ∧
    bslice (image d') (first * 512) ((last + 1) * 512) =
    bslice (image d) (first * 512) ((last + 1) * 512)).
Proof.
  intros Hps Hguid Hg Ht Hl Hd Hwr. destruct (is_writable d) eqn:Hw.
  2:{ unfold write_gpt_assigning_slots in Hwr. by rewrite DevM_bind_writable, Hw in Hwr. }
  pose proof (write_gpt_cases ps guid g tails lba0 Hps Hguid Hg Ht Hl d Hd Hw) as Hc.
  rewrite Hwr in Hc. destruct Hc as (first & last & mbr & array & Hc).
  pose proof (written_fit ps guid g tails lba0 Hps Hguid Hg Hl d d' slots first last mbr array Hd Hc) as Hfit.
  pose proof (written_layout ps guid g tails lba0 Hg d d' slots first last mbr array Hd Hc) as Hlay.
  destruct Hc as [[Hu _ Hv _ _ _] _ _ _ [_ _ Hi _]].
  assert (∀ x y, first * 512 ≤ x → y ≤ (last + 1) * 512 → bslice (image d') x y = bslice (image d) x y) as Hk.
  { intros x y Hx Hy. rewrite Hi. destruct (layout_bounds _ _ _ _ Hlay) as (?&?&?&?).
    pose proof (lay_span _ _ _ _ Hlay). apply puts_untouched; [done|lia|].
    unfold gpt_writes. rewrite !Forall_cons. cbn [fst snd]. split_and!; try lia. by apply Forall_nil. }
  split; [|exists first, last; split; [done|apply Hk; lia]].
  intros p Hp. pose proof (Forall_in _ _ _ Hv Hp) as (_ & _ & _ & _ & _ & H1 & H2).
  unfold span_of, SECTOR_SIZE in H1, H2. cbn [fst snd] in H1, H2. apply Hk; dlia.
Qed.

Module write_gpt_keeps_data_example.
Import Sample Crc32Ieee.
Definition filled : MemDevice := Mem (replicate (Z.to_nat 8192) 7) true.
Lemma filled_ok : dev_ok filled.
Proof. split; [|vm_compute; reflexivity]. apply Forall_replicate. by split. Qed.
Local Abbreviation written := (write_gpt_assigning_slots parts (guid 9) shape ∅ [] filled).
Lemma write_gpt_keeps_data_witness :
  bslice (image written.1) (8 * 512) (10 * 512) = replicate (Z.to_nat 1024) 7.
Proof.
  assert (written.2 = Ok [2; 0]) as Hok by (vm_compute; reflexivity).
  pose proof (proj1 (write_gpt_keeps_data parts (guid 9) shape ∅ [] filled written.1 [2; 0] parts_typed
    (guid_ok (guid 9) eq_refl eq_refl) shape_typed (map_Forall_empty _) (Forall_nil_2 _)
    filled_ok (outcome written (Ok [2; 0]) Hok)) _ (list_elem_of_here _ _)) as Hx.
  etransitivity; [exact Hx|]. vm_compute. reflexivity.
Defined.
End write_gpt_keeps_data_example.

(** C18: The usable range the geometry grants leaves room for everything the
    table occupies: the first LBA is past the primary array, the last leaves a
    whole array and a header behind it, both copies of the array fit their
    sectors, the range runs forwards, and a declared range is kept as declared.
    All of this for any device size below 2^55 sectors, so no sum on the way
    wraps. *)
Theorem usable_range_sound (g : GptGeometry) (total first last : Z) :
  geometry_typed g → 0 ≤ total < 2 ^ 55 →
  geometry.usable_range g total = Ok (first, last) →
  2 ≤ entry_lba g ∧ 1 ≤ num_entries g ≤ 4096 ∧
  (∃ k, 0 ≤ k ≤ 5 ∧ entry_size g = 128 * 2 ^ k) ∧
  geometry.array_bytes g = num_entries g * entry_size g ∧
  num_entries g * entry_size g ≤ 512 * geometry.array_sectors g < num_entries g * entry_size g + 512 ∧
  entry_lba g + geometry.array_sectors g ≤ first ∧ first ≤ last ∧
  last + geometry.array_sectors g + 1 < total ∧
  (match declared_usable g with Some r => r = (first, last) | None => True end).
Proof.
  intros Hg Ht Hu. pose proof (usable_range_facts _ _ _ _ Hg Ht Hu) as [[Hn [He [Hm Hp]]] ? Hb Hs Hsp ? ? ?].
  rewrite Hs. split_and!; try done; try lia.
  - apply entry_size_power; done || lia.
  - unfold geometry.usable_range in Hu. inv_ok. destruct (declared_usable g) as [[df dl]|]; [|done].
    inv_ok. congruence.
Qed.

Lemma usable_range_sound_witness :
  34 + 1 ≤ 35 ∧ geometry.usable_range geometry.canonical 2048 = Ok (34, 2014) ∧
  geometry.array_sectors geometry.canonical = 32 ∧ 2014 + 32 + 1 < 2048.
Proof.
  assert (geometry_typed geometry.canonical) as Hg by (by constructor).
  assert (geometry.usable_range geometry.canonical 2048 = Ok (34, 2014)) as Hu by reflexivity.
  pose proof (usable_range_sound geometry.canonical 2048 34 2014 Hg ltac:(lia) Hu) as Hx.
  split_and!; [lia|exact Hu|reflexivity|]. apply Hx.
Defined.

(** C28: What [parse_header_block] accepts: a signature, a header size within
    the block, a checksum that matches the header with its checksum field
    cleared, a 1.x revision, and an entry array small and regular enough that
    its byte length cannot overflow; the header's fields are the block's. *)
Theorem parse_header_sound `{!Crc32} (sector : list Z) (h : Header) :
  bytes_ok sector → parse_header_block sector = Ok h →
  512 ≤ zlen sector ∧ bslice sector 0 8 = Gpt.SIGNATURE ∧
  92 ≤ header_size h ≤ zlen sector ∧ header_size h = le32 sector 12 ∧
  header_crc32 h = le32 sector 16 ∧
  crc32_hash (bput (bslice sector 0 (header_size h)) 16 (zeros 4)) = header_crc32 h ∧
  le32 sector 8 / 2 ^ 16 = 1 ∧
  my_lba h = le64 sector 24 ∧ alternate_lba h = le64 sector 32 ∧
  first_usable_lba h = le64 sector 40 ∧ last_usable_lba h = le64 sector 48 ∧
  disk_guid h = bslice sector 56 72 ∧ partition_entry_lba h = le64 sector 72 ∧
  num_partition_entries h = le32 sector 80 ∧ partition_entry_size h = le32 sector 84 ∧
  partition_entry_array_crc32 h = le32 sector 88 ∧
  0 ≤ num_partition_entries h ≤ 4096 ∧
  (∃ k, 0 ≤ k ≤ 5 ∧ partition_entry_size h = 128 * 2 ^ k).
Proof.
  intros Hb Hp. unfold parse_header_block in Hp. inv_ok. subst h. zbool. cbn.
  apply bytes_eqb_true in Hx0. unfold SECTOR_SIZE in Hx.
  pose proof (le32_bound sector 80 Hb ltac:(lia) ltac:(lia)) as [? _].
  rewrite Z.shiftr_div_pow2 in Hx3 by lia.
  unfold header_offsets.SIGNATURE, header_offsets.HEADER_SIZE, header_offsets.HEADER_CRC32,
    header_offsets.REVISION, header_offsets.NUM_PARTITION_ENTRIES,
    header_offsets.PARTITION_ENTRY_SIZE in *.
  split_and!; try done; try lia.
  - unfold bzero in Hx2. change (16 + 4 - 16) with 4 in Hx2.
    rewrite (bslice_full (bput _ _ _)) in Hx2; [done|].
    rewrite zlen_bput; rewrite ?zlen_bslice; rewrite ?zlen_zeros; lia.
  - by apply entry_size_power.
Qed.

Module parse_header_sound_example.
Import Sample Crc32Ieee.
Lemma parse_header_sound_witness :
  ∃ h, parse_header_block (build_header 1 15 2 (3, 13) (guid 9) 77 shape) = Ok h ∧
    num_partition_entries h = 4 ∧ ∃ k, 0 ≤ k ≤ 5 ∧ partition_entry_size h = 128 * 2 ^ k.
Proof.
  set (sector := build_header 1 15 2 (3, 13) (guid 9) 77 shape).
  assert (bytes_ok sector) as Hb by (apply bytes_by_compute; vm_compute; reflexivity).
  destruct (parse_header_block sector) as [h|e] eqn:E; [|vm_compute in E; discriminate E].
  pose proof (parse_header_sound sector h Hb E) as Hx. exists h. split_and!; [done| |apply Hx].
  assert (num_partition_entries h = le32 sector 80) as -> by apply Hx. vm_compute. reflexivity.
Defined.
End parse_header_sound_example.


(** C14: What [parse_entry_array] returns, for any header and any reader: the
    array is the bytes the header points at and matches its checksum; the
    partitions come in slot order, one for each slot whose type is in use, with
    the start, length, type, UUID, label and available length the entry says
    (and no overflow on the way); and the issue bits are exact — the range bits
    say that the entry leaves the usable range, the overlap bit that some other
    entry shares a sector with it. *)
Theorem parse_entry_array_sound {D} `{!BlockRead D} `{!Crc32} (dev : D) (h : Header)
    (parts : list Partition) (array : list Z) :
  let es := partition_entry_size h in
  let n := num_partition_entries h in
  let size := size_bytes dev in
  parse_entry_array dev h = Ok (parts, array) →
  crc32_hash array = partition_entry_array_crc32 h ∧
  read_at dev (partition_entry_lba h * 512) (u64 (n * es)) = Ok array ∧
  ∃ spans, length spans = length parts ∧ spans_forward spans ∧
    (∀ k p, parts !! k = Some p → ∃ i s e, 0 ≤ i < n ∧ spans !! k = Some (s, e) ∧
      entry_read array es size i (with_issues p entry_issue.NONE) s e ∧
      (Z.land (p_issues p) entry_issue.BEFORE_FIRST_USABLE ≠ 0 ↔ s < first_usable_lba h) ∧
      (Z.land (p_issues p) entry_issue.PAST_LAST_USABLE ≠ 0 ↔
        last_usable_lba h < s ∨ last_usable_lba h < e) ∧
      (Z.land (p_issues p) entry_issue.OVERLAPS_ANOTHER ≠ 0 ↔ clashes spans k)) ∧
    StronglySorted (λ p q, default 0 (p_slot p) < default 0 (p_slot q)) parts ∧
    (∀ i, 0 ≤ i < n → bslice array (i * es) (i * es + 16) ≠ type_guids.UNUSED →
      ∃ p, p ∈ parts ∧ p_slot p = Some i).
Proof. apply entry_array_facts. Qed.

Module parse_entry_array_sound_example.
Import Sample Crc32Ieee.
Local Abbreviation written := (write_gpt_assigning_slots parts (guid 9) shape ∅ [] disk).
(** A header that declares a narrower usable range than the entries use. *)
Definition narrow : Header :=
  mkHeader 1 15 4 8 (guid 9) 2 4 128 (crc32_hash (bslice (mem_image written.1) 1024 1536)) 0 92.
Lemma parse_entry_array_sound_witness :
  ∃ ps a, parse_entry_array written.1 narrow = Ok (ps, a) ∧
    StronglySorted (λ p q, default 0 (p_slot p) < default 0 (p_slot q)) ps ∧ length ps = 2%nat.
Proof.
  assert (is_ok (parse_entry_array written.1 narrow) = true ∧
    match parse_entry_array written.1 narrow with Ok (ps, _) => length ps = 2%nat | _ => False end)
    as [Hk Hl] by (split; vm_compute; reflexivity).
  destruct (parse_entry_array written.1 narrow) as [[ps a]|e] eqn:E; [|done].
  destruct (parse_entry_array_sound written.1 narrow ps a E)
    as (_ & _ & spans & _ & _ & _ & Hs & _).
  exists ps, a. exact (conj eq_refl (conj Hs Hl)).
Defined.
End parse_entry_array_sound_example.


(** C29: Rewriting LBA 0 of a GPT disk from the entries it held keeps what was
    there: the boot code and disk signature (bytes 0 to 445), and every entry
    that is neither the [0xEE] marker nor the mirror of a partition that is
    gone, byte for byte; and the result still carries a marker and the boot
    signature. *)
Theorem lba0_rewrite_keeps (current mbr : list Z) (ps : list Partition) (total : Z) :
  sector_ok current → bslice current 510 512 = [0x55; 0xAA] →
  hybrid_lba0 current (lba0_entries current) (bslice (protective_mbr total) 446 462) ps = Ok mbr →
  bslice mbr 0 446 = bslice current 0 446 ∧ bslice mbr 510 512 = [0x55; 0xAA] ∧
  has_gpt_marker mbr = true ∧
  ∀ i, slot_in 4 i → byte_at (mbr_win current i) 4 ≠ types.EMPTY →
    byte_at (mbr_win current i) 4 ≠ types.GPT_PROTECTIVE →
    stale_mirror ps (mkReserved i (mbr_win current i)) = false →
    mbr_win mbr i = mbr_win current i.
Proof.
  intros Hc Hsig Hh. destruct (lba0_entries_spec current Hc Hsig) as (Ht & Hnd & Hall).
  destruct (protective_ok total) as [Hpl Hpb].
  destruct (hybrid_lba0_keeps current _ (bslice (protective_mbr total) 446 462) ps mbr Hc Ht Hnd)
    as (H1 & H2 & H3 & H4); [rewrite zlen_bslice; lia| |done|].
  { rewrite byte_at_bslice by lia. apply protective_marker. }
  split_and!; [done..|]. intros i Hi Hne Hnm Hst.
  exact (H3 (mkReserved i (mbr_win current i)) (Hall i Hi Hne) (conj Hnm (conj Hne Hst))).
Qed.

Module lba0_rewrite_keeps_example.
(** A hybrid LBA 0: boot code, a marker in entry 0, an EFI entry without
    sectors in entry 2. *)
Definition hybrid : list Z :=
  puts (zeros 512) [(0, 2, [0xEB; 0x63]); (450, 1, [0xEE]); (482, 1, [0xEF]); (510, 2, [0x55; 0xAA])].
Lemma lba0_rewrite_keeps_witness :
  ∃ mbr, hybrid_lba0 hybrid (lba0_entries hybrid) (bslice (protective_mbr 64) 446 462) [] = Ok mbr ∧
    bslice mbr 0 446 = bslice hybrid 0 446 ∧ mbr_win mbr 2 = mbr_win hybrid 2.
Proof.
  assert (sector_ok hybrid) as Hs
    by (split; [reflexivity|apply bytes_by_compute; vm_compute; reflexivity]).
  destruct (hybrid_lba0 hybrid (lba0_entries hybrid) (bslice (protective_mbr 64) 446 462) [])
    as [mbr|e] eqn:E; [|vm_compute in E; discriminate E].
  destruct (lba0_rewrite_keeps hybrid mbr [] 64 Hs ltac:(vm_compute; reflexivity) E) as (H1 & _ & _ & H2).
  exists mbr. split_and!; [done|exact H1|].
  apply (H2 2); [by split|vm_compute; discriminate|vm_compute; discriminate|vm_compute; reflexivity].
Defined.
End lba0_rewrite_keeps_example.
