(* ===== verification/MbrProps.v ===== *)
(** * MBR: the properties

    The theorems about the MBR reader and writer, with witnesses on a small
    disk in memory. *)
From S2P Require Import Prelude Bytes Device Table Rules Slots Mbr MbrCodec MbrDisk Hybrid.
From S2P Require Gpt GptWrite Probe.

Module Sample.
(** Sixteen sectors of boot code and zeros. *)
Definition disk : MemDevice := Mem (bput (zeros 8192) 0 [0xEB; 0x63; 0x90]) true.
Definition part (start sectors t : Z) (active : bool) (slot : option Z) : Partition :=
  mkPartition (start * 512) (sectors * 512) (KindMbr t active) None None slot 0 0.
Definition parts : list Partition := [part 8 4 0x83 true (Some 3); part 2 3 0x07 false None].
(** An extended container in slot 0. *)
Definition container : ReservedEntry :=
  mkReserved 0 ([0; 0; 0; 0; 0x05; 0; 0; 0] ++ le_bytes 4 13 ++ le_bytes 4 2).

Lemma boot_disk_ok : dev_ok disk.
Proof. split; [apply bytes_by_compute; vm_compute; reflexivity|vm_compute; reflexivity]. Qed.
Lemma part_typed start sectors t a slot : 0 ≤ start < 2 ^ 32 → 0 ≤ sectors < 2 ^ 32 → is_u8 t →
  opt_all is_u32 slot → partition_typed (part start sectors t a slot).
Proof. intros. constructor; cbn; unfold is_u64; try lia; done. Qed.
Lemma table_typed : Forall partition_typed parts.
Proof.
  unfold parts. rewrite !Forall_cons. split_and!; [..|by apply Forall_nil]; by apply part_typed.
Qed.
Lemma container_typed : Forall reserved_typed4 [container].
Proof.
  rewrite Forall_cons. split; [|by apply Forall_nil].
  split_and!; [done|reflexivity|apply bytes_by_compute; vm_compute; reflexivity].
Qed.
End Sample.

(** C30: [chs_for_lba] is the inverse of the CHS address scheme where that
    scheme reaches: below LBA 16450560 the three bytes decode to a cylinder up
    to 1023, a head below 255 and a sector from 1 to 63 whose LBA is the one
    given; from there on the field is [FF FF FF]. *)
Theorem chs_exact (lba : Z) :
  0 ≤ lba →
  if lba <? CHS_LIMIT then
    let '(c, h, s) := chs_decode (chs_for_lba lba) in
    0 ≤ c ≤ CHS_MAX_CYLINDER ∧ 0 ≤ h < CHS_HEADS ∧ 1 ≤ s ≤ CHS_SECTORS ∧ chs_lba (c, h, s) = lba
  else chs_for_lba lba = [0xFF; 0xFF; 0xFF].
Proof.
  intros H0. destruct (Z.ltb_spec lba CHS_LIMIT) as [Hlt|Hge].
  - rewrite chs_for_lba_fields by done. unfold chs_decode, chs_lba. cbn [byte_at].
    unfold byte_at. cbn [lookup list_lookup default Z.to_nat Pos.to_nat Pos.iter_op from_option id].
    change (Z.to_nat 2) with 2%nat. change (Z.to_nat 1) with 1%nat. cbn [list_lookup].
    unfold CHS_LIMIT, CHS_MAX_CYLINDER, CHS_HEADS, CHS_SECTORS in *.
    cbn. assert (0 ≤ lba / 16065 < 1024 ∧ 0 ≤ lba mod 16065 < 16065 ∧
      lba = 16065 * (lba / 16065) + lba mod 16065) as (Hq & Hr & ->) by dlia.
    generalize (lba / 16065) (lba mod 16065) Hq Hr. clear. intros q r Hq Hr.
    change (Z.to_nat 0) with 0%nat. cbn [list_lookup lookup default from_option id].
    assert ((16065 * q + r) / 16065 = q ∧ (16065 * q + r) mod 16065 = r) as [-> ->] by dlia.
    assert ((r mod 63 + 1 + q / 256 * 64) / 64 = q / 256 ∧
      (r mod 63 + 1 + q / 256 * 64) mod 64 = r mod 63 + 1) as [-> ->] by dlia.
    assert (q mod 256 + 256 * (q / 256) = q) as -> by dlia.
    split_and!; try lia; dlia.
  - unfold chs_for_lba. rewrite (proj2 (Z.ltb_lt _ _)); [done|].
    unfold CHS_LIMIT, CHS_MAX_CYLINDER, CHS_HEADS, CHS_SECTORS in *. dlia.
Qed.

Lemma chs_exact_witness : chs_lba (chs_decode (chs_for_lba 1048575)) = 1048575.
Proof.
  pose proof (chs_exact 1048575 ltac:(lia)) as Hx. change (1048575 <? CHS_LIMIT) with true in Hx.
  cbv iota in Hx. destruct (chs_decode (chs_for_lba 1048575)) as [[c h] s]. apply Hx.
Defined.

(** C8: The MBR writer accepts exactly the tables it should, and touches
    sector 0 only.  Success means at most four entries counting the preserved
    ones, every partition valid for a 32-bit LBA field and inside the device, no
    two ranges sharing a sector (preserved ranges included), slots distinct;
    then only sector 0 changes, and it holds the old boot code, the signature,
    every preserved entry byte for byte, an entry for each partition, and zeros
    in the slots left.  Failure means the conditions do not hold, and the device
    is as it was. *)
Theorem write_mbr_exact {D} `{!BlockDevice D} `{!DeviceLaws D} (ps : list Partition)
    (rs : list ReservedEntry) (d : D) :
  Forall partition_typed ps → Forall reserved_typed4 rs → dev_ok d → is_writable d = true →
  match write_mbr_assigning_slots ps rs d with
  | (d', Ok slots) => ∃ sector, mbr_accepts ps rs (size_bytes d) ∧
      assignment ps 4 (map r_slot rs) slots ∧
      mbr_table (bslice (image d) 0 512) rs ps slots sector ∧
      image d' = bput (image d) 0 sector ∧ size_bytes d' = size_bytes d
  | (d', Err _) => d' = d ∧ ¬ mbr_accepts ps rs (size_bytes d)
  end.
Proof.
  intros Hps Hrs Hd Hw. pose proof (write_mbr_cases ps rs Hps Hrs d Hd Hw) as Hc.
  destruct (write_mbr_assigning_slots ps rs d) as [d' [slots|e]]; [|done].
  destruct Hc as (sector & [? ? ? []]). by exists sector.
Qed.

Module write_mbr_exact_example.
Import Sample.
Local Abbreviation written := (write_mbr_assigning_slots parts [container] disk).
(** The container's range overlaps the first partition's once it grows. *)
Local Abbreviation refused := (write_mbr_assigning_slots [part 8 6 0x83 true None] [container] disk).
Lemma grown_typed : Forall partition_typed [part 8 6 0x83 true None].
Proof. apply Forall_singleton. by apply part_typed. Qed.
Lemma write_mbr_exact_witness :
  written.2 = Ok [3; 1] ∧ bslice (image written.1) 0 446 = bslice (image disk) 0 446 ∧
  refused.2 = Err (Invalid "partitions overlap") ∧ refused.1 = disk.
Proof.
  assert (written.2 = Ok [3; 1]) as Hok by (vm_compute; reflexivity).
  assert (refused.2 = Err (Invalid "partitions overlap")) as Her by (vm_compute; reflexivity).
  pose proof (write_mbr_exact parts [container] disk table_typed container_typed boot_disk_ok eq_refl) as Hx.
  pose proof (write_mbr_exact _ [container] disk grown_typed container_typed boot_disk_ok eq_refl) as Hy.
  rewrite (outcome _ _ Hok) in Hx. rewrite (outcome _ _ Her) in Hy.
  destruct Hx as (sector & _ & _ & Htab & Hi & _).
  split_and!; [exact Hok| |exact Her|apply Hy].
  pose proof (proj1 (tbl_ok _ _ _ _ _ Htab)) as Hz. pose proof (image_size disk boot_disk_ok) as Hs.
  change (size_bytes disk) with 8192 in Hs. clear Hok Her Hy.
  rewrite Hi, bslice_bput_inside, !Z.sub_0_r, (tbl_boot _ _ _ _ _ Htab), bslice_bslice by lia.
  reflexivity.
Defined.
End write_mbr_exact_example.

(** C19: An MBR the writer has written is the MBR the prober reads.  On a disk
    with no GPT signature at LBA 1, with partitions of volume types and
    preserved entries the reader leaves out, [probe] on the result finds
    the same partitions (start, length, type, active flag) in their assigned
    slots, in slot order. *)
Theorem write_mbr_then_probe {D} `{!BlockDevice D} `{!DeviceLaws D} `{!Crc32}
    (ps : list Partition) (rs : list ReservedEntry) (d d' : D) (slots : list Z) :
  Forall partition_typed ps → Forall reserved_typed4 rs →
  Forall (λ r, hidden (r_bytes r) ∧ byte_at (r_bytes r) 4 ≠ types.GPT_PROTECTIVE) rs →
  Forall (λ p, type_of p ≠ types.EMPTY ∧ entry_role (type_of p) = Volume) ps →
  dev_ok d → bslice (image d) 512 520 ≠ Gpt.SIGNATURE →
  write_mbr_assigning_slots ps rs d = (d', Ok slots) →
  ∃ parts, Probe.probe d' = Ok (TableMbr, parts) ∧
    parts ≡ₚ zip_with (as_read (size_bytes d)) ps slots ∧
    StronglySorted (λ p q, default 0 (p_slot p) < default 0 (p_slot q)) parts.
Proof.
  intros Hps Hrs Hh Hv Hd Hsig Hwr. destruct (is_writable d) eqn:Hw.
  2:{ unfold write_mbr_assigning_slots in Hwr. by rewrite DevM_bind_writable, Hw in Hwr. }
  pose proof (write_mbr_cases ps rs Hps Hrs d Hd Hw) as Hc. rewrite Hwr in Hc.
  destruct Hc as (sector & Hc). by eapply probe_mbr_written.
Qed.

Module write_mbr_then_probe_example.
Import Sample Crc32Ieee.
Local Abbreviation written := (write_mbr_assigning_slots parts [container] disk).
Lemma write_mbr_then_probe_witness :
  written.2 = Ok [3; 1] ∧
  ∃ ps, Probe.probe written.1 = Ok (TableMbr, ps) ∧
    ps ≡ₚ zip_with (as_read (size_bytes disk)) parts [3; 1] ∧
    StronglySorted (λ p q, default 0 (p_slot p) < default 0 (p_slot q)) ps.
Proof.
  assert (written.2 = Ok [3; 1]) as Hok by (vm_compute; reflexivity).
  split; [exact Hok|].
  refine (write_mbr_then_probe parts [container] disk written.1 [3; 1] table_typed container_typed
    _ _ boot_disk_ok _ (outcome written (Ok [3; 1]) Hok)).
  - apply Forall_singleton. split; [right; right|]; vm_compute; discriminate.
  - unfold parts. rewrite !Forall_cons. by split_and!.
  - vm_compute. discriminate.
Defined.
End write_mbr_then_probe_example.

(** C20: [parse] and [reserved_entries] are complements: each of the four slots
    of any sector that holds a type is in exactly one of the two lists, and a
    slot that is empty is in neither, so a rewrite from both loses nothing. *)
Theorem mbr_complement (sector : list Z) (size i : Z) (parts : list Partition) :
  slot_in 4 i → Mbr.parse sector size = Ok parts →
  (byte_at (mbr_win sector i) 4 = types.EMPTY ∧
    (∀ p, p ∈ parts → p_slot p ≠ Some i) ∧ (∀ r, r ∈ reserved_entries sector → r_slot r ≠ i)) ∨
  (byte_at (mbr_win sector i) 4 ≠ types.EMPTY ∧ le32 (mbr_win sector i) 12 ≠ 0 ∧
    entry_role (byte_at (mbr_win sector i) 4) = Volume ∧
    (∃ p, p ∈ parts ∧ p_slot p = Some i ∧ p_start p = le32 (mbr_win sector i) 8 * 512 ∧
      p_length p = le32 (mbr_win sector i) 12 * 512) ∧
    (∀ r, r ∈ reserved_entries sector → r_slot r ≠ i)) ∨
  (byte_at (mbr_win sector i) 4 ≠ types.EMPTY ∧
    (∀ p, p ∈ parts → p_slot p ≠ Some i) ∧
    mkReserved i (mbr_win sector i) ∈ reserved_entries sector).
Proof.
  intros Hi Hp. rewrite parse_volumes in Hp. injection Hp as <-.
  assert (i ∈ entry_indices) as Hin
    by (destruct Hi; apply elem_of_seqZ; unfold layout.ENTRY_COUNT; lia).
  assert (∀ p, p ∈ omap (volume_in size sector) entry_indices → p_slot p = Some i →
    volume_in size sector i = Some p) as Hparts.
  { intros p (j & Hj & Hv)%list_elem_of_omap Hs. by rewrite (volume_in_slot _ _ _ _ Hv) in Hs; simplify_eq. }
  assert (∀ r, r ∈ reserved_entries sector → r_slot r = i → reserved_entry sector i = Some r) as Hres.
  { intros r (j & Hj & Hr)%list_elem_of_omap Hs. by rewrite (reserved_entry_slot _ _ _ Hr) in Hs; subst. }
  assert (∀ p, volume_in size sector i = Some p → p ∈ omap (volume_in size sector) entry_indices) as Hvin
    by (intros p Hp; apply list_elem_of_omap; by exists i).
  assert (∀ r, reserved_entry sector i = Some r → r ∈ reserved_entries sector) as Hrin
    by (intros r Hr; apply list_elem_of_omap; by exists i).
  assert (volume_in size sector i = None → ∀ p,
    p ∈ omap (volume_in size sector) entry_indices → p_slot p ≠ Some i) as Hnop
    by (intros Hn p Hp Hs; specialize (Hparts p Hp Hs); congruence).
  pose proof (reserved_entry_win sector i (proj1 Hi)) as Hre. rewrite Hre in Hres.
  pose proof (hidden_volume size sector i) as Hhid. unfold hidden in Hhid.
  destruct (Z.eqb_spec (byte_at (mbr_win sector i) 4) types.EMPTY) as [He|He].
  { left. split_and!; [done|by apply Hnop, Hhid; left|]. intros r Hr Hs. by specialize (Hres r Hr Hs). }
  right. destruct (Z.eqb_spec (le32 (mbr_win sector i) 12) 0) as [Hz|Hz].
  { right. rewrite andb_false_r in Hre. split_and!; [done|by apply Hnop, Hhid; right; left|].
    exact (Hrin _ Hre). }
  case_bool_decide as Hv; cbn [negb andb] in Hre, Hres.
  - left. split_and!; [done..| |intros r Hr Hs; by specialize (Hres r Hr Hs)].
    destruct (volume_in size sector i) as [p|] eqn:Ev.
    2:{ exfalso. destruct (proj2 Hhid eq_refl) as [|[|Hnv]]; [done..|]. exact (Hnv Hv). }
    exists p. split; [exact (Hvin p eq_refl)|]. unfold volume_in, read_bytes in Ev.
    repeat case_match; simplify_eq; done.
  - right. split_and!; [done|by apply Hnop, Hhid; right; right|].
    exact (Hrin _ Hre).
Qed.

Lemma mbr_complement_witness :
  let sector := bslice (image (write_mbr_assigning_slots Sample.parts [Sample.container] Sample.disk).1) 0 512 in
  mkReserved 0 (mbr_win sector 0) ∈ reserved_entries sector.
Proof.
  cbv zeta. set (sector := bslice _ 0 512).
  destruct (Mbr.parse sector 8192) as [ps|e] eqn:E; [|vm_compute in E; discriminate E].
  destruct (mbr_complement sector 8192 0 ps ltac:(by split) E) as [[H _]|[(_ & _ & H & _)|(_ & _ & H)]].
  - exfalso. vm_compute in H. discriminate H.
  - exfalso. vm_compute in H. discriminate H.
  - exact H.
Defined.

(** C31: The recorded defect: the writer accepts a partition whose type byte is
    0x00, the marker of an empty slot, and the reader then finds no partition
    in that slot.  The GPT writer refuses the corresponding unused type. *)
Theorem mbr_type_zero_lost {D} `{!BlockDevice D} `{!DeviceLaws D} (p : Partition) (d : D) :
  partition_typed p → type_of p = types.EMPTY → mbr_valid (size_bytes d) p →
  p_slot p = None → dev_ok d → is_writable d = true → 512 ≤ size_bytes d →
  ∃ d' sector, write_mbr_assigning_slots [p] [] d = (d', Ok [0]) ∧
    bslice (image d') 0 512 = sector ∧ Mbr.parse sector (size_bytes d) = Ok [].
Proof.
  intros Ht Hz Hv Hs Hd Hw Hsz.
  pose proof (write_mbr_cases [p] [] (proj2 (Forall_singleton _ _) Ht) (Forall_nil_2 _) d Hd Hw) as Hc.
  destruct (write_mbr_assigning_slots [p] [] d) as [d' [slots|e]].
  - destruct Hc as (sector & [_ Hasg Htab [_ _ Hi _]]). cbn [map] in *.
    pose proof (asg_length _ _ _ _ Hasg) as Hlen. destruct slots as [|s [|]]; try done.
    assert (slot_in 4 s) as Hin by (pose proof (asg_range _ _ _ _ Hasg) as Hr; by apply Forall_cons in Hr as [? _]).
    assert (s = 0) as ->.
    { destruct (decide (s = 0)) as [|Hne]; [done|exfalso]. destruct Hin.
      pose proof (asg_lowest _ _ _ _ Hasg 0%nat p s eq_refl Hs eq_refl 0 ltac:(lia)) as Hx.
      unfold recorded in Hx. cbn in Hx. rewrite Hs in Hx. cbn in Hx. by apply elem_of_nil in Hx. }
    exists d', sector. split; [done|]. destruct (tbl_ok _ _ _ _ _ Htab) as [Hl _].
    pose proof (image_size d Hd). split.
    { rewrite Hi. change 512 with (0 + 512). apply bslice_bput_same; lia. }
    rewrite parse_volumes. f_equal. apply omap_none. intros i Hi4%elem_of_seqZ.
    unfold layout.ENTRY_COUNT in Hi4. destruct (decide (i = 0)) as [->|Hne].
    + unfold volume_in. pose proof (tbl_parts _ _ _ _ _ Htab) as Hp. apply Forall2_cons in Hp as [Hsay _].
      rewrite (read_says _ _ _ _ _ Hv Hsay). by rewrite Hz.
    + apply hidden_volume. left. rewrite (tbl_blank _ _ _ _ _ Htab); [done|by split; lia|].
      cbn. intros Hx%list_elem_of_singleton. done.
  - destruct Hc as [_ Hno]. exfalso. apply Hno. constructor.
    + cbn. unfold zlen. cbn. lia.
    + done.
    + by apply Forall_singleton.
    + cbn. apply disjoint_spans_cons. split; [apply Forall_nil_2|apply disjoint_spans_nil].
    + unfold recorded. cbn. rewrite Hs. cbn. split; constructor.
Qed.

Lemma mbr_type_zero_lost_witness :
  ∃ d' sector, write_mbr_assigning_slots [Sample.part 8 4 0 false None] [] Sample.disk = (d', Ok [0]) ∧
    bslice (image d') 0 512 = sector ∧ Mbr.parse sector (size_bytes Sample.disk) = Ok [].
Proof.
  refine (mbr_type_zero_lost (D := MemDevice) (Sample.part 8 4 0 false None) Sample.disk
    _ eq_refl _ eq_refl Sample.boot_disk_ok eq_refl _).
  - by apply Sample.part_typed.
  - split_and!; try (vm_compute; done). by eexists _, _.
  - vm_compute. discriminate.
Defined.
