(* ===== verification/Gf256.v ===== *)
(** * GF(2^8) as RAID6 uses it

    [gf_tables], [gf_pow2], [gf_mul] and [gf_inv] of src/md.rs, with the
    tables built by the loop that builds them in the source.  [times] is the
    reference: multiplication of polynomials over GF(2) modulo
    [x^8 + x^4 + x^3 + x^2 + 1].  The table lookups are proved equal to it by
    evaluation over all pairs, and the laws the reconstruction of two lost
    chunks needs follow. *)
From S2P Require Import Prelude Bytes.

(** ** The tables *)

(** One round of the loop of [gf_tables], on [(exp, log, x)]. *)
Definition gf_table_step (st : list Z * list Z * Z) (i : Z) : list Z * list Z * Z :=
  let '(exp, log, x) := st in
  let exp := <[Z.to_nat i := u8 x]> exp in
  let log := <[Z.to_nat x := u8 i]> log in
  let x := Z.shiftl x 1 mod 2 ^ 16 in
  let x := if negb (Z.land x 0x100 =? 0) then Z.lxor x 0x11d else x in
  (exp, log, x).

Definition gf_tables : list Z * list Z :=
  let '(exp, log, _) := foldl gf_table_step (zeros 256, zeros 256, 1) (seqZ 0 255) in
  (<[255%nat := byte_at exp 0]> exp, log).

Definition GF_EXP : list Z := gf_tables.1.
Definition GF_LOG : list Z := gf_tables.2.

(** [{02}^e], for any exponent: [rem_euclid] is [Z.modulo] here. *)
Definition gf_pow2 (e : Z) : Z := byte_at GF_EXP (e mod 255).

Definition gf_mul (a b : Z) : Z :=
  if (a =? 0) || (b =? 0) then 0
  else byte_at GF_EXP ((byte_at GF_LOG a + byte_at GF_LOG b) mod 255).

Definition gf_inv (a : Z) : Z := byte_at GF_EXP ((255 - byte_at GF_LOG a) mod 255).

#[global] Opaque gf_tables.

(** ** The field, from its polynomial *)

(** Multiplication by [{02}]. *)
Definition xtime (a : Z) : Z :=
  let d := Z.shiftl a 1 in if Z.testbit d 8 then Z.lxor d 0x11d else d.

(** [a] times the polynomial whose bits are [b]'s low [n]. *)
Fixpoint times_upto (n : nat) (a b : Z) : Z :=
  match n with
  | O => 0
  | S n => Z.lxor (if Z.testbit b (Z.of_nat n) then Nat.iter n xtime a else 0)
                  (times_upto n a b)
  end.
Definition times (a b : Z) : Z := times_upto 8 a b.

(** ** The lookups are the field *)
Definition all_bytes : list Z := seqZ 0 256.

Lemma all_bytes_in a : is_u8 a → a ∈ all_bytes.
Proof. unfold is_u8. intros. apply elem_of_seqZ. lia. Qed.

Definition is_u8b (a : Z) : bool := (0 <=? a) && (a <? 2 ^ 8).
Lemma is_u8b_spec a : is_u8b a = true → is_u8 a.
Proof. unfold is_u8b, is_u8. lia. Qed.

(** A decidable fact about every byte, by evaluation. *)
Lemma bytes_by_cases (f : Z → bool) :
  forallb f all_bytes = true → ∀ a, is_u8 a → f a = true.
Proof.
  intros H a Ha. rewrite forallb_forall in H. apply H, list_elem_of_In, all_bytes_in, Ha.
Qed.

Lemma pairs_by_cases (f : Z → Z → bool) :
  forallb (λ a, forallb (f a) all_bytes) all_bytes = true →
  ∀ a b, is_u8 a → is_u8 b → f a b = true.
Proof.
  intros H a b Ha Hb. apply (bytes_by_cases (f a)); [|done].
  by apply (bytes_by_cases (λ a, forallb (f a) all_bytes)).
Qed.

Lemma gf_mul_times a b : is_u8 a → is_u8 b → gf_mul a b = times a b.
Proof.
  intros Ha Hb. apply Z.eqb_eq. revert a b Ha Hb.
  apply (pairs_by_cases (λ a b, gf_mul a b =? times a b)). vm_compute. reflexivity.
Qed.

(** The antilog table holds bytes. *)
Lemma exp_u8 r : 0 ≤ r < 255 → is_u8 (byte_at GF_EXP r).
Proof.
  intros Hr. apply is_u8b_spec.
  apply (bytes_by_cases (λ r, is_u8b (byte_at GF_EXP r))); [|unfold is_u8; lia].
  vm_compute. reflexivity.
Qed.

Lemma gf_mul_u8 a b : is_u8 (gf_mul a b).
Proof.
  unfold gf_mul. destruct (_ || _); [unfold is_u8; lia|]. apply exp_u8, Z.mod_pos_bound. lia.
Qed.

Lemma gf_mul_comm a b : gf_mul a b = gf_mul b a.
Proof. unfold gf_mul. rewrite orb_comm, Z.add_comm. done. Qed.

Lemma gf_mul_0_l a : gf_mul 0 a = 0.
Proof. done. Qed.
Lemma gf_mul_0_r a : gf_mul a 0 = 0.
Proof. by rewrite gf_mul_comm. Qed.
Lemma gf_mul_1_l a : is_u8 a → gf_mul 1 a = a.
Proof.
  intros Ha. apply Z.eqb_eq. revert a Ha.
  apply (bytes_by_cases (λ a, gf_mul 1 a =? a)). vm_compute. reflexivity.
Qed.

(** ** Addition *)
Lemma lxor_u8 a b : is_u8 a → is_u8 b → is_u8 (Z.lxor a b).
Proof.
  intros Ha Hb. unfold is_u8 in *.
  assert (Z.lxor a b = Z.lxor a b mod 2 ^ 8) as E.
  { apply Z.bits_inj'. intros n Hn. destruct (Z.ltb_spec n 8).
    - by rewrite Z.mod_pow2_bits_low.
    - rewrite Z.mod_pow2_bits_high, Z.lxor_spec by lia.
      rewrite <- (Z.mod_small a (2 ^ 8)), <- (Z.mod_small b (2 ^ 8)) by lia.
      by rewrite !Z.mod_pow2_bits_high by lia. }
  rewrite E. apply Z.mod_pos_bound. lia.
Qed.

Lemma lxor_swap a b c d :
  Z.lxor (Z.lxor a b) (Z.lxor c d) = Z.lxor (Z.lxor a c) (Z.lxor b d).
Proof. rewrite !Z.lxor_assoc. f_equal. by rewrite <- !Z.lxor_assoc, (Z.lxor_comm b c). Qed.

Lemma lxor_cancel a b : Z.lxor a (Z.lxor a b) = b.
Proof. by rewrite <- Z.lxor_assoc, Z.lxor_nilpotent, Z.lxor_0_l. Qed.

Lemma times_lxor n a b c :
  times_upto n a (Z.lxor b c) = Z.lxor (times_upto n a b) (times_upto n a c).
Proof.
  induction n as [|n IH]; cbn [times_upto]; [done|].
  rewrite IH, Z.lxor_spec, lxor_swap. f_equal.
  destruct (Z.testbit b _), (Z.testbit c _); cbn [xorb];
    rewrite ?Z.lxor_nilpotent, ?Z.lxor_0_l, ?Z.lxor_0_r; done.
Qed.

Lemma gf_mul_lxor_r a b c : is_u8 a → is_u8 b → is_u8 c →
  gf_mul a (Z.lxor b c) = Z.lxor (gf_mul a b) (gf_mul a c).
Proof.
  intros Ha Hb Hc. rewrite !gf_mul_times by auto using lxor_u8. apply times_lxor.
Qed.

Lemma gf_mul_lxor_l a b c : is_u8 a → is_u8 b → is_u8 c →
  gf_mul (Z.lxor a b) c = Z.lxor (gf_mul a c) (gf_mul b c).
Proof.
  intros. rewrite (gf_mul_comm (Z.lxor a b)), gf_mul_lxor_r by done.
  by rewrite (gf_mul_comm c a), (gf_mul_comm c b).
Qed.

(** ** Powers of [{02}] *)
Lemma gf_pow2_u8 e : is_u8 (gf_pow2 e).
Proof. apply exp_u8, Z.mod_pos_bound. lia. Qed.

Lemma gf_pow2_0 : gf_pow2 0 = 1.
Proof. vm_compute. reflexivity. Qed.

Lemma gf_pow2_mod e : gf_pow2 (e mod 255) = gf_pow2 e.
Proof. unfold gf_pow2. by rewrite Z.mod_mod by lia. Qed.

(** The tables' indices and their values correspond one to one. *)
Lemma gf_log_pow2 e : 0 ≤ e < 255 →
  byte_at GF_LOG (gf_pow2 e) = e ∧ gf_pow2 e ≠ 0.
Proof.
  intros He.
  assert ((byte_at GF_LOG (gf_pow2 e) =? e) && negb (gf_pow2 e =? 0) || (e =? 255) = true) as H.
  { apply (bytes_by_cases (λ e, (byte_at GF_LOG (gf_pow2 e) =? e) && negb (gf_pow2 e =? 0) || (e =? 255)));
      [vm_compute; reflexivity|unfold is_u8; lia]. }
  lia.
Qed.

Lemma gf_pow2_nonzero e : gf_pow2 e ≠ 0.
Proof. rewrite <- gf_pow2_mod. apply gf_log_pow2, Z.mod_pos_bound. lia. Qed.

Lemma gf_pow2_inj e f : gf_pow2 e = gf_pow2 f → e mod 255 = f mod 255.
Proof.
  rewrite <- (gf_pow2_mod e), <- (gf_pow2_mod f). intros E.
  destruct (gf_log_pow2 (e mod 255)) as [<- _]; [apply Z.mod_pos_bound; lia|].
  destruct (gf_log_pow2 (f mod 255)) as [<- _]; [apply Z.mod_pos_bound; lia|].
  by rewrite E.
Qed.

Lemma gf_pow2_add e f : gf_mul (gf_pow2 e) (gf_pow2 f) = gf_pow2 (e + f).
Proof.
  rewrite <- (gf_pow2_mod e), <- (gf_pow2_mod f), <- (gf_pow2_mod (e + f)), Z.add_mod by lia.
  pose proof (Z.mod_pos_bound e 255 ltac:(lia)) as He.
  pose proof (Z.mod_pos_bound f 255 ltac:(lia)) as Hf.
  unfold gf_mul. destruct (gf_log_pow2 _ He) as [-> H1], (gf_log_pow2 _ Hf) as [-> H2].
  apply Z.eqb_neq in H1, H2. rewrite H1, H2. cbn [orb]. unfold gf_pow2.
  by rewrite Z.mod_mod by lia.
Qed.

(** Every non-zero byte is a power of [{02}]. *)
Lemma gf_exp_log a : is_u8 a → a ≠ 0 → gf_pow2 (byte_at GF_LOG a) = a.
Proof.
  intros Ha Hz.
  assert ((gf_pow2 (byte_at GF_LOG a) =? a) || (a =? 0) = true) as H; [|lia].
  apply (bytes_by_cases (λ a, (gf_pow2 (byte_at GF_LOG a) =? a) || (a =? 0)));
    [vm_compute; reflexivity|done].
Qed.

Lemma gf_mul_assoc a b c : is_u8 a → is_u8 b → is_u8 c →
  gf_mul a (gf_mul b c) = gf_mul (gf_mul a b) c.
Proof.
  intros Ha Hb Hc.
  destruct (decide (a = 0)) as [->|Ha0]; [done|].
  destruct (decide (b = 0)) as [->|Hb0]; [by rewrite gf_mul_0_l, gf_mul_0_r|].
  destruct (decide (c = 0)) as [->|Hc0]; [by rewrite !gf_mul_0_r|].
  rewrite <- (gf_exp_log a), <- (gf_exp_log b), <- (gf_exp_log c) by done.
  rewrite !gf_pow2_add. f_equal. lia.
Qed.

Lemma gf_cancel e d : is_u8 d → gf_mul (gf_pow2 (- e)) (gf_mul (gf_pow2 e) d) = d.
Proof.
  intros Hd. rewrite gf_mul_assoc, gf_pow2_add by auto using gf_pow2_u8.
  replace (- e + e) with 0 by lia. rewrite gf_pow2_0. by apply gf_mul_1_l.
Qed.

Lemma gf_inv_u8 a : is_u8 (gf_inv a).
Proof. apply (gf_pow2_u8 (255 - byte_at GF_LOG a)). Qed.

Lemma gf_inv_r a : is_u8 a → a ≠ 0 → gf_mul a (gf_inv a) = 1.
Proof.
  intros Ha Hz. change (gf_inv a) with (gf_pow2 (255 - byte_at GF_LOG a)).
  rewrite <- (gf_exp_log a) at 1 by done. rewrite gf_pow2_add.
  replace (byte_at GF_LOG a + (255 - byte_at GF_LOG a)) with 255 by lia.
  vm_compute. reflexivity.
Qed.

#[global] Opaque gf_mul gf_pow2 gf_inv.
#[export] Hint Resolve gf_mul_u8 lxor_u8 gf_pow2_u8 gf_inv_u8 : bytes.

(** ** Recovering two lost chunks

    From [p = x + y] and [q = g^ex x + g^ey y] the source recovers [x]. *)
Lemma gf_recover x y ex ey : is_u8 x → is_u8 y → (ey - ex) mod 255 ≠ 0 →
  let p := Z.lxor x y in
  let q := Z.lxor (gf_mul (gf_pow2 ex) x) (gf_mul (gf_pow2 ey) y) in
  let gyx := gf_pow2 (ey - ex) in
  let denom := gf_inv (Z.lxor gyx 1) in
  Z.lxor (gf_mul (gf_mul gyx denom) p) (gf_mul (gf_mul (gf_pow2 (- ex)) denom) q) = x.
Proof.
  intros Hx Hy Hne p q gyx denom.
  assert (is_u8 gyx) as Hg by apply gf_pow2_u8.
  assert (is_u8 denom) as Hd by apply gf_inv_u8.
  assert (is_u8 1) as H1 by (unfold is_u8; lia).
  assert (is_u8 (gf_mul gyx denom)) as Hgd by auto with bytes.
  assert (Z.lxor gyx 1 ≠ 0) as Hnz.
  { intros E%Z.lxor_eq. apply Hne. change 1 with (gf_pow2 0) in E.
    apply gf_pow2_inj in E. by rewrite E. }
  assert (∀ e z, is_u8 z →
    gf_mul (gf_mul (gf_pow2 (- ex)) denom) (gf_mul (gf_pow2 e) z) =
    gf_mul (gf_mul (gf_pow2 (e - ex)) denom) z) as Hq.
  { intros e z Hz. rewrite gf_mul_assoc by auto with bytes. f_equal.
    rewrite (gf_mul_comm _ denom), <- gf_mul_assoc by auto with bytes.
    rewrite gf_pow2_add, gf_mul_comm. do 2 f_equal. lia. }
  unfold p, q. rewrite !gf_mul_lxor_r by auto 6 with bytes. rewrite (Hq ex x), (Hq ey y) by done.
  rewrite Z.sub_diag, gf_pow2_0, (gf_mul_1_l denom) by done. fold gyx.
  rewrite lxor_swap, Z.lxor_nilpotent, Z.lxor_0_r.
  rewrite <- gf_mul_lxor_l by done.
  replace (Z.lxor (gf_mul gyx denom) denom) with (gf_mul (Z.lxor gyx 1) denom)
    by (by rewrite gf_mul_lxor_l, (gf_mul_1_l denom)).
  replace (gf_mul (Z.lxor gyx 1) denom) with 1 by (symmetry; apply gf_inv_r; [by apply lxor_u8|done]).
  by apply gf_mul_1_l.
Qed.
