(* ===== verification/Utf8.v ===== *)
(** * [String::from_utf8_lossy]

    A text is the list of its code points.  Ill-formed input is replaced the
    way the standard library documents: one U+FFFD for each maximal prefix of
    a well-formed sequence, then decoding goes on at the byte that broke it. *)
From S2P Require Import Prelude Bytes.

Definition in_range (lo hi b : Z) : bool := (lo <=? b) && (b <=? hi).

(** The bytes that may follow a lead byte [b]: the range of the first
    continuation byte and how many there are. [None] for a byte that leads
    nothing. *)
Definition utf8_lead (b : Z) : option (Z * Z * nat) :=
  if in_range 0xC2 0xDF b then Some (0x80, 0xBF, 1%nat)
  else if b =? 0xE0 then Some (0xA0, 0xBF, 2%nat)
  else if b =? 0xED then Some (0x80, 0x9F, 2%nat)
  else if in_range 0xE1 0xEF b then Some (0x80, 0xBF, 2%nat)
  else if b =? 0xF0 then Some (0x90, 0xBF, 3%nat)
  else if in_range 0xF1 0xF3 b then Some (0x80, 0xBF, 3%nat)
  else if b =? 0xF4 then Some (0x80, 0x8F, 3%nat)
  else None.

Definition utf8_payload (b : Z) (n : nat) : Z :=
  match n with 1%nat => Z.land b 0x1F | 2%nat => Z.land b 0x0F | _ => Z.land b 0x07 end.

(** Continuation bytes [n] of them, the first in [lo, hi]: the code point and
    the rest, or the rest from the byte that broke the sequence. *)
Fixpoint utf8_tail (n : nat) (lo hi acc : Z) (bs : list Z) : Z * list Z :=
  match n with
  | O => (acc, bs)
  | S n =>
      match bs with
      | b :: rest =>
          if in_range lo hi b then utf8_tail n 0x80 0xBF (acc * 64 + Z.land b 0x3F) rest
          else (0xFFFD, bs)
      | [] => (0xFFFD, [])
      end
  end.

(** Every round consumes a byte, so the length is enough fuel. *)
Fixpoint utf8_lossy (fuel : nat) (bs : list Z) : list Z :=
  match fuel, bs with
  | S fuel, b :: rest =>
      if b <? 0x80 then b :: utf8_lossy fuel rest
      else match utf8_lead b with
           | None => 0xFFFD :: utf8_lossy fuel rest
           | Some (lo, hi, n) =>
               let '(c, rest) := utf8_tail n lo hi (utf8_payload b n) rest in
               c :: utf8_lossy fuel rest
           end
  | _, _ => []
  end.

Definition from_utf8_lossy (bs : list Z) : list Z := utf8_lossy (length bs) bs.

(** UTF-8 of a code point. *)
Definition encode_utf8 (c : Z) : list Z :=
  if c <? 0x80 then [c]
  else if c <? 0x800 then [0xC0 + c / 64; 0x80 + c mod 64]
  else if c <? 0x10000 then [0xE0 + c / 4096; 0x80 + c / 64 mod 64; 0x80 + c mod 64]
  else [0xF0 + c / 262144; 0x80 + c / 4096 mod 64; 0x80 + c / 64 mod 64; 0x80 + c mod 64].

Example lossy_samples :
  from_utf8_lossy [0x68; 0xC3; 0xA9; 0xE2; 0x82; 0xAC; 0xF0; 0x9F; 0x98; 0x80]
    = [0x68; 0xE9; 0x20AC; 0x1F600] ∧
  from_utf8_lossy [0xE2; 0x82; 0x41; 0xFF; 0xED; 0xA0; 0x80] =
    [0xFFFD; 0x41; 0xFFFD; 0xFFFD; 0xFFFD; 0xFFFD].
Proof. vm_compute. done. Qed.

(** ASCII text decodes to itself. *)
Lemma from_utf8_lossy_ascii bs :
  Forall (λ b, 0 ≤ b < 0x80) bs → from_utf8_lossy bs = bs.
Proof.
  unfold from_utf8_lossy. induction 1 as [|b bs Hb _ IH]; cbn [length utf8_lossy]; [done|].
  rewrite (proj2 (Z.ltb_lt b 0x80)) by lia. by rewrite IH.
Qed.

(** ** Decoding undoes encoding *)
Lemma utf8_tail_length n lo hi acc bs : (length (utf8_tail n lo hi acc bs).2 ≤ length bs)%nat.
Proof.
  revert lo hi acc bs. induction n as [|n IH]; intros lo hi acc [|b bs]; cbn; try lia.
  destruct (in_range lo hi b); cbn; [|lia]. specialize (IH 0x80 0xBF (acc * 64 + Z.land b 0x3F) bs). lia.
Qed.

(** More fuel than bytes changes nothing. *)
Lemma utf8_lossy_fuel f g bs : (length bs ≤ f)%nat → (length bs ≤ g)%nat →
  utf8_lossy f bs = utf8_lossy g bs.
Proof.
  revert g bs. induction f as [|f IH]; intros [|g] [|b bs] Hf Hg; cbn in *; try done; try lia.
  destruct (b <? 0x80); [f_equal; apply IH; lia|].
  destruct (utf8_lead b) as [[[lo hi] n]|]; [|f_equal; apply IH; lia].
  pose proof (utf8_tail_length n lo hi (utf8_payload b n) bs) as Hl.
  destruct (utf8_tail n lo hi (utf8_payload b n) bs) as [c rest]. cbn in Hl.
  f_equal. apply IH; lia.
Qed.

Lemma in_range_true lo hi b : lo ≤ b ≤ hi → in_range lo hi b = true.
Proof. unfold in_range. lia. Qed.
Lemma in_range_false lo hi b : b < lo ∨ hi < b → in_range lo hi b = false.
Proof. unfold in_range. lia. Qed.

Lemma low_bits k b n : 0 ≤ n → 0 ≤ b < 2 ^ n → Z.land (k * 2 ^ n + b) (Z.ones n) = b.
Proof. intros Hn Hb. rewrite Z.land_ones by done. rewrite Z.add_comm, Z.mod_add by lia. by apply Z.mod_small. Qed.

(** A continuation byte. *)
Lemma tail_step n lo hi acc x bs : 0 ≤ x < 64 → lo ≤ 0x80 + x ≤ hi →
  utf8_tail (S n) lo hi acc (0x80 + x :: bs) = utf8_tail n 0x80 0xBF (acc * 64 + x) bs.
Proof.
  intros Hx Hr. cbn [utf8_tail]. rewrite in_range_true by done.
  pose proof (low_bits 2 x 6) as Hl. change (Z.ones 6) with 0x3F in Hl. change (2 * 2 ^ 6) with 0x80 in Hl.
  by rewrite Hl.
Qed.

(** One well-formed sequence of several bytes. *)
Lemma utf8_multi b lo hi n bs c rest : 0x80 ≤ b → utf8_lead b = Some (lo, hi, n) →
  utf8_tail n lo hi (utf8_payload b n) bs = (c, rest) →
  from_utf8_lossy (b :: bs) = c :: from_utf8_lossy rest.
Proof.
  intros Hb Hl Ht. unfold from_utf8_lossy. cbn [length]. cbn [utf8_lossy].
  rewrite (proj2 (Z.ltb_ge b 0x80)) by done. rewrite Hl, Ht. f_equal.
  pose proof (utf8_tail_length n lo hi (utf8_payload b n) bs) as Hlen. rewrite Ht in Hlen. cbn in Hlen.
  by apply utf8_lossy_fuel.
Qed.

Lemma lead2 x : 2 ≤ x < 32 → utf8_lead (0xC0 + x) = Some (0x80, 0xBF, 1%nat).
Proof. intros. unfold utf8_lead. by rewrite in_range_true by lia. Qed.
Lemma lead3 x : 0 ≤ x < 16 → ∃ lo hi, utf8_lead (0xE0 + x) = Some (lo, hi, 2%nat) ∧
  lo = (if x =? 0 then 0xA0 else 0x80) ∧ hi = (if x =? 13 then 0x9F else 0xBF).
Proof.
  intros Hx. unfold utf8_lead. rewrite in_range_false by lia.
  destruct (Z.eqb_spec x 0) as [->|]; [by eexists _, _|].
  rewrite (proj2 (Z.eqb_neq (0xE0 + x) 0xE0)) by lia.
  destruct (Z.eqb_spec x 13) as [->|]; [by eexists _, _|].
  rewrite (proj2 (Z.eqb_neq (0xE0 + x) 0xED)) by lia. rewrite in_range_true by lia. by eexists _, _.
Qed.
Lemma lead4 x : 0 ≤ x < 5 → ∃ lo hi, utf8_lead (0xF0 + x) = Some (lo, hi, 3%nat) ∧
  lo = (if x =? 0 then 0x90 else 0x80) ∧ hi = (if x =? 4 then 0x8F else 0xBF).
Proof.
  intros Hx. assert (x = 0 ∨ x = 1 ∨ x = 2 ∨ x = 3 ∨ x = 4) as Hcases by lia.
  destruct Hcases as [-> | [-> | [-> | [-> | ->]]]]; by eexists _, _.
Qed.

Lemma payload_bits k b m : 0 ≤ m → 0 ≤ b < 2 ^ m → Z.land (k * 2 ^ m + b) (2 ^ m - 1) = b.
Proof. intros Hm Hb. replace (2 ^ m - 1) with (Z.ones m) by (rewrite Z.ones_equiv; lia). by apply low_bits. Qed.

Lemma payload2 x : 0 ≤ x < 32 → Z.land (0xC0 + x) 0x1F = x.
Proof. intros Hx. exact (payload_bits 6 x 5 ltac:(lia) Hx). Qed.
Lemma payload3 x : 0 ≤ x < 16 → Z.land (0xE0 + x) 0x0F = x.
Proof. intros Hx. exact (payload_bits 14 x 4 ltac:(lia) Hx). Qed.
Lemma payload4 x : 0 ≤ x < 8 → Z.land (0xF0 + x) 0x07 = x.
Proof. intros Hx. exact (payload_bits 30 x 3 ltac:(lia) Hx). Qed.

Lemma utf8_step c bs : 0 ≤ c < 0xD800 ∨ 0xE000 ≤ c < 0x110000 →
  from_utf8_lossy (encode_utf8 c ++ bs) = c :: from_utf8_lossy bs.
Proof.
  intros Hc. unfold encode_utf8.
  destruct (Z.ltb_spec c 0x80) as [H1|H1].
  { unfold from_utf8_lossy. cbn [app length utf8_lossy]. by rewrite (proj2 (Z.ltb_lt c 0x80)) by lia. }
  destruct (Z.ltb_spec c 0x800) as [H2|H2]; [|destruct (Z.ltb_spec c 0x10000) as [H3|H3]]; cbn [app].
  - eapply utf8_multi; [dlia|apply lead2; dlia|].
    cbn [utf8_payload]. rewrite payload2 by dlia.
    rewrite tail_step by dlia. cbn [utf8_tail]. f_equal. dlia.
  - destruct (lead3 (c / 4096)) as (lo & hi & Hl & Elo & Ehi); [dlia|].
    eapply utf8_multi; [dlia|exact Hl|].
    cbn [utf8_payload]. rewrite payload3 by dlia.
    rewrite tail_step; [|dlia|].
    2:{ rewrite Elo, Ehi. destruct (Z.eqb_spec (c / 4096) 0), (Z.eqb_spec (c / 4096) 13); dlia. }
    rewrite tail_step by dlia. cbn [utf8_tail]. f_equal. dlia.
  - destruct (lead4 (c / 262144)) as (lo & hi & Hl & Elo & Ehi); [dlia|].
    eapply utf8_multi; [dlia|exact Hl|].
    cbn [utf8_payload]. rewrite payload4 by dlia.
    rewrite tail_step; [|dlia|].
    2:{ rewrite Elo, Ehi. destruct (Z.eqb_spec (c / 262144) 0), (Z.eqb_spec (c / 262144) 4); dlia. }
    rewrite tail_step by dlia. rewrite tail_step by dlia. cbn [utf8_tail]. f_equal. dlia.
Qed.

(** The text a well-formed buffer encodes. *)
Lemma from_utf8_encode cs : Forall (λ c, 0 ≤ c < 0xD800 ∨ 0xE000 ≤ c < 0x110000) cs →
  from_utf8_lossy (cs ≫= encode_utf8) = cs.
Proof. induction 1 as [|c cs Hc _ IH]; [done|]. cbn [mbind list_bind]. rewrite utf8_step by done. by f_equal. Qed.
