(* ===== verification/Fmt.v ===== *)
(** * The messages' formatting

    What the source's messages use of [std::fmt]: texts as UTF-8, [{:#x}],
    [{:#010x}] and the [{:?}] of a list of numbers and of a text.  Which
    characters a text's [{:?}] shows as they are is decided, past ASCII, by the
    standard library's Unicode tables: [CharTables]. *)
From S2P Require Import Prelude Bytes Device Table Utf8.

(** [fs_core::Error]'s own [Display]. *)
Class FsDisplay := fs_display : FsError → string.

(** ** Texts *)
Definition as_bytes (text : list Z) : list Z := text ≫= encode_utf8.

(** A text inside a message. *)
Definition show (text : list Z) : string :=
  String.string_of_list_ascii (map (λ b, Ascii.ascii_of_N (Z.to_N b)) (as_bytes text)).

(** ** Numbers *)
Definition hex_digit (d : Z) : string := show [if d <? 10 then 48 + d else 87 + d].
Fixpoint hex_digits (fuel : nat) (z : Z) (acc : string) : string :=
  match fuel with
  | O => acc
  | S fuel =>
      let acc := hex_digit (z mod 16) +:+ acc in
      if z <? 16 then acc else hex_digits fuel (z / 16) acc
  end.

(** [{:#x}], of at most 64 bits. *)
Definition hex (z : Z) : string := "0x" +:+ hex_digits 16 z "".

(** [{:#010x}]: eight digits at least. *)
Definition hex_padded (z : Z) : string :=
  let digits := hex_digits 16 z "" in
  "0x" +:+ show (replicate (8 - String.length digits) 48) +:+ digits.

Definition show_bool (b : bool) : string := if b then "true" else "false".

(** [{:?}] of a list of numbers. *)
Definition debug_list (l : list Z) : string := "[" +:+ entry_issue.join ", " (map pretty l) +:+ "]".

(** ** [{:?}] of a text *)
Class CharTables := char_printable : Z → bool.

Definition escaped (c : Z) : string := show [92; c].

Definition debug_char `{!CharTables} (c : Z) : string :=
  if c =? 0 then escaped 48
  else if c =? 9 then escaped 116
  else if c =? 13 then escaped 114
  else if c =? 10 then escaped 110
  else if (c =? 34) || (c =? 92) then escaped c
  else if (if c <? 0x80 then (0x20 <=? c) && (c <? 0x7F) else char_printable c) then show [c]
  else escaped 117 +:+ "{" +:+ hex_digits 16 c "" +:+ "}".

Definition debug_str `{!CharTables} (text : list Z) : string :=
  show [34] +:+ foldr String.append "" (map debug_char text) +:+ show [34].

Example hex_samples : hex 0 = "0x0" ∧ hex 0xbeef = "0xbeef" ∧ hex_padded 0xbeef = "0x0000beef".
Proof. vm_compute. done. Qed.

Example debug_samples `{!CharTables} :
  debug_list [3; 1] = "[3, 1]" ∧
  debug_str (ascii_bytes "a'" ++ [34; 10; 0x7F]) = show [34; 97; 39; 92; 34; 92; 110] +:+ show [92] +:+ "u{7f}" +:+ show [34].
Proof. vm_compute. done. Qed.

(** Tables that escape everything past ASCII, for concrete inputs. *)
Module AsciiOnly.
#[export] Instance ascii_only : CharTables := λ _, false.
End AsciiOnly.
