(* ===== verification/MdLayout.v ===== *)
(** * Where an md array keeps its chunks

    The placement arithmetic of src/md.rs: [parity_map] and [raid6_map] (which
    member of a row holds a data chunk, P and Q), [q_exponent] (the weight of a
    data chunk in Q), [raid0_zones] and [Raid10].  Members, chunk numbers and
    rows are [Z]; products and sums of chunk rows, which can exceed a [u64] on
    absurd input, are written with their wrap-around.  Member numbers are below
    the member count, at most 2^32, so their sums need none. *)
From S2P Require Import Prelude Bytes.

(** ** Constants *)
Definition LEVEL_LINEAR : Z := -1.
Definition LEVEL_RAID0 : Z := 0.
Definition LEVEL_RAID1 : Z := 1.
Definition LEVEL_RAID4 : Z := 4.
Definition LEVEL_RAID5 : Z := 5.
Definition LEVEL_RAID6 : Z := 6.
Definition LEVEL_RAID10 : Z := 10.

Definition RAID0_LAYOUT_ORIGINAL : Z := 1.
Definition RAID0_LAYOUT_ALTERNATE : Z := 2.

Definition RAID10_OFFSET : Z := Z.shiftl 1 16.

Definition LAYOUT_LEFT_ASYMMETRIC : Z := 0.
Definition LAYOUT_RIGHT_ASYMMETRIC : Z := 1.
Definition LAYOUT_LEFT_SYMMETRIC : Z := 2.
Definition LAYOUT_RIGHT_SYMMETRIC : Z := 3.
Definition LAYOUT_PARITY_FIRST : Z := 4.
Definition LAYOUT_PARITY_LAST : Z := 5.
Definition LAYOUT_ROTATING_ZERO_RESTART : Z := 8.
Definition LAYOUT_ROTATING_N_RESTART : Z := 9.
Definition LAYOUT_ROTATING_N_CONTINUE : Z := 10.
Definition LAYOUT_LEFT_ASYMMETRIC_6 : Z := 16.
Definition LAYOUT_RIGHT_ASYMMETRIC_6 : Z := 17.
Definition LAYOUT_LEFT_SYMMETRIC_6 : Z := 18.
Definition LAYOUT_RIGHT_SYMMETRIC_6 : Z := 19.
Definition LAYOUT_PARITY_FIRST_6 : Z := 20.

(** ** RAID6 rows *)

Definition raid6_layout_known (layout : Z) : bool :=
  (LAYOUT_LEFT_ASYMMETRIC <=? layout) && (layout <=? LAYOUT_PARITY_LAST)
  || (LAYOUT_ROTATING_ZERO_RESTART <=? layout) && (layout <=? LAYOUT_ROTATING_N_CONTINUE)
  || (LAYOUT_LEFT_ASYMMETRIC_6 <=? layout) && (layout <=? LAYOUT_PARITY_FIRST_6).

(** The closure [asymmetric] of [raid6_map]. *)
Definition asymmetric (n i pd : Z) : Z * Z * Z :=
  if pd =? n - 1 then (i + 1, pd, 0)
  else if pd <=? i then (i + 2, pd, pd + 1)
  else (i, pd, pd + 1).

(** [(data member, P, Q)]. The last arm is the source's [unreachable!], which
    [raid6_layout_known] keeps every assembled array from. *)
Definition raid6_map (layout n stripe i : Z) : Z * Z * Z :=
  let data := n - 2 in
  if layout =? LAYOUT_LEFT_ASYMMETRIC then asymmetric n i (n - 1 - stripe mod n)
  else if layout =? LAYOUT_ROTATING_N_RESTART then
    asymmetric n i (n - 1 - u64 (stripe + 1) mod n)
  else if (layout =? LAYOUT_RIGHT_ASYMMETRIC) || (layout =? LAYOUT_ROTATING_ZERO_RESTART) then
    asymmetric n i (stripe mod n)
  else if layout =? LAYOUT_LEFT_SYMMETRIC then
    let pd := n - 1 - stripe mod n in ((pd + 2 + i) mod n, pd, (pd + 1) mod n)
  else if layout =? LAYOUT_RIGHT_SYMMETRIC then
    let pd := stripe mod n in ((pd + 2 + i) mod n, pd, (pd + 1) mod n)
  else if layout =? LAYOUT_PARITY_FIRST then (i + 2, 0, 1)
  else if layout =? LAYOUT_PARITY_LAST then (i, data, data + 1)
  else if layout =? LAYOUT_ROTATING_N_CONTINUE then
    let pd := n - 1 - stripe mod n in ((pd + 1 + i) mod n, pd, (pd + n - 1) mod n)
  else if (layout =? LAYOUT_LEFT_ASYMMETRIC_6) || (layout =? LAYOUT_RIGHT_ASYMMETRIC_6) then
    let pd := if layout =? LAYOUT_LEFT_ASYMMETRIC_6 then data - stripe mod (n - 1)
              else stripe mod (n - 1) in
    (if pd <=? i then i + 1 else i, pd, n - 1)
  else if (layout =? LAYOUT_LEFT_SYMMETRIC_6) || (layout =? LAYOUT_RIGHT_SYMMETRIC_6) then
    let pd := if layout =? LAYOUT_LEFT_SYMMETRIC_6 then data - stripe mod (n - 1)
              else stripe mod (n - 1) in
    ((pd + 1 + i) mod (n - 1), pd, n - 1)
  else (i + 1, 0, n - 1).

(** ** RAID4 and RAID5 rows, and the dispatch *)
Definition parity_map (level layout n stripe i : Z) : Z * Z * option Z :=
  if level =? LEVEL_RAID6 then
    let '(dd, pd, qd) := raid6_map layout n stripe i in (dd, pd, Some qd)
  else
    let data := n - 1 in
    let '(pd, dd) :=
      if layout =? LAYOUT_LEFT_ASYMMETRIC then
        let pd := data - stripe mod n in (pd, if pd <=? i then i + 1 else i)
      else if layout =? LAYOUT_RIGHT_ASYMMETRIC then
        let pd := stripe mod n in (pd, if pd <=? i then i + 1 else i)
      else if layout =? LAYOUT_LEFT_SYMMETRIC then
        let pd := data - stripe mod n in (pd, (pd + 1 + i) mod n)
      else if layout =? LAYOUT_RIGHT_SYMMETRIC then
        let pd := stripe mod n in (pd, (pd + 1 + i) mod n)
      else if layout =? LAYOUT_PARITY_FIRST then (0, i + 1)
      else (data, i) in
    (dd, pd, None).

(** ** Q's coefficients *)

(** The [while m != dd] loop of [q_exponent], one member a round. *)
Fixpoint q_slots (fuel : nat) (n dd pd qd m slot : Z) : Z :=
  match fuel with
  | O => slot
  | S fuel =>
      if m =? dd then slot
      else q_slots fuel n dd pd qd ((m + 1) mod n)
             (if negb (m =? pd) && negb (m =? qd) then slot + 1 else slot)
  end.

(** The loop walks the members once at most, so [n] rounds are enough
    ([q_slots_walk] below). *)
Definition q_exponent (layout n stripe i : Z) : Z :=
  let '(dd, pd, qd) := raid6_map layout n stripe i in
  if (LAYOUT_ROTATING_ZERO_RESTART <=? layout) && (layout <=? LAYOUT_ROTATING_N_CONTINUE)
  then dd
  else q_slots (Z.to_nat n) n dd pd qd (if qd =? n - 1 then 0 else qd + 1) 0.

(** ** RAID0 zones *)
Record Zone := mkZone {
  z_start : Z;
  z_len : Z;
  z_dev_start : Z;
  z_slots : list Z;
}.

(** [Vec::dedup]. *)
Fixpoint dedup (l : list Z) : list Z :=
  match l with
  | x :: (y :: _) as rest => if x =? y then dedup rest else x :: dedup rest
  | _ => l
  end.

(** The slots whose members reach [end_]. *)
Definition slots_reaching (sizes : list Z) (end_ : Z) : list Z :=
  List.filter (λ s, end_ <=? byte_at sizes s) (seqZ 0 (zlen sizes)).

(** The [for end in ends] loop. *)
Fixpoint zone_loop (sizes ends : list Z) (start prev : Z) : list Zone :=
  match ends with
  | [] => []
  | end_ :: ends =>
      let slots := slots_reaching sizes end_ in
      let len := u64 ((end_ - prev) * zlen slots) in
      mkZone start len prev slots :: zone_loop sizes ends (u64 (start + len)) end_
  end.

Definition raid0_zones (sizes : list Z) : list Zone :=
  zone_loop sizes (dedup (sort_by Z.leb (List.filter (Z.ltb 0) sizes))) 0 0.

(** ** RAID10 *)
Record Raid10 := mkRaid10 {
  near : Z;
  far : Z;
  r_offset : bool;
  stride : Z;
}.

Definition Raid10_near (n : Z) : Raid10 := mkRaid10 n 1 false 0.

Definition primary (g : Raid10) (d c : Z) : Z * Z :=
  let at_ := u64 (c * near g) in
  let row := at_ / d in
  let row := if r_offset g then u64 (row * far g) else row in
  (at_ mod d, row).

Definition copy_at (g : Raid10) (d c i k : Z) : Z * Z :=
  let at_ := u64 (c * near g + i) in
  let '(dev, row) := (at_ mod d, at_ / d) in
  ((dev + k * near g) mod d,
   if r_offset g then u64 (row * far g + k) else u64 (row + k * stride g)).

Definition copies (g : Raid10) (d c : Z) : list (Z * Z) :=
  i ← seqZ 0 (near g); k ← seqZ 0 (far g); [copy_at g d c i k].
