(* ===== verification/Md.v ===== *)
(** * Linux md: superblocks and assembly

    The superblock readers of src/md.rs ([parse_v1], [parse_v0],
    [read_superblock_of]), [scan] and [MdArray::assemble].  A member is a device
    of any type with [BlockRead]; where the source would panic (an index out of
    range, a failed [expect]) the model returns the error [panicked], which no
    assembled array is proved to reach. *)
From S2P Require Import Prelude Bytes Device Table Utf8 Fmt MdLayout.

Definition MD_MAGIC : Z := 0xa92b4efc.
Definition SECTOR : Z := 512.
Definition V1_FIXED : Z := 256.
Definition V1_MAX_DEV : Z := (4096 - V1_FIXED) / 2.
Definition V0_SIZE : Z := 4096.
Definition V0_RESERVED : Z := 64 * 1024.
Definition FEATURE_RECOVERY_OFFSET : Z := 0x2.
Definition FEATURE_RESHAPE_ACTIVE : Z := 0x4.

Inductive MdVersion := V0_90 | V1_0 | V1_1 | V1_2.
Inductive MdRole := Active (slot : Z) | Spare | Faulty | Journal.

#[export] Instance MdVersion_eq_dec : EqDecision MdVersion.
Proof. solve_decision. Defined.
#[export] Instance MdRole_eq_dec : EqDecision MdRole.
Proof. solve_decision. Defined.

Record MdSuperblock := mkSb {
  version : MdVersion;
  superblock_offset : Z;
  array_uuid : list Z;
  name : list Z;
  level : Z;
  layout : Z;
  chunk_bytes : Z;
  raid_disks : Z;
  role : MdRole;
  data_offset : Z;
  data_size : Z;
  component_size : Z;
  events : Z;
  feature_map : Z;
}.

#[export] Instance MdSuperblock_eq_dec : EqDecision MdSuperblock.
Proof. solve_decision. Defined.

Inductive MdError :=
| MdBlock (e : FsError)
| NoSuperblock (member : Z)
| BadChecksum (member stored computed : Z)
| Corrupt (member : Z) (reason : string)
| MixedArrays (member : Z)
| DuplicateRole (slot : Z)
| TooFewMembers (level present needed : Z)
| NoCopyLeft (slots : list Z)
| Unsupported (s : string)
| Empty.

(** A Rust panic. *)
Definition panicked : FsError := OtherFs "panicked".

(** [MdError]'s [Display]; [of_block] is the device error's own. *)
Definition md_message (of_block : FsError → string) (e : MdError) : string :=
  match e with
  | MdBlock e => of_block e
  | NoSuperblock member => "member " +:+ pretty member +:+ ": no md superblock"
  | BadChecksum member stored computed =>
      "member " +:+ pretty member +:+ ": superblock checksum " +:+ hex_padded stored
      +:+ ", computed " +:+ hex_padded computed
  | Corrupt member reason => "member " +:+ pretty member +:+ ": " +:+ reason
  | MixedArrays member => "member " +:+ pretty member +:+ " belongs to a different array"
  | DuplicateRole slot => "two members claim slot " +:+ pretty slot
  | TooFewMembers level present needed =>
      "RAID" +:+ pretty level +:+ " needs " +:+ pretty needed +:+ " usable members, "
      +:+ pretty present +:+ " present"
  | NoCopyLeft slots => "every copy of some data is on missing slots " +:+ debug_list slots
  | Unsupported s => "unsupported: " +:+ s
  | Empty => "no members given"
  end.

(** [as i32] on a [u32]. *)
Definition as_i32 (z : Z) : Z := if z <? 2 ^ 31 then z else z - 2 ^ 32.

(** ** The 1.x superblock *)

(** The [while i + 4 <= sb.len()] loop of [v1_checksum], a word a round. *)
Fixpoint sum_words (fuel : nat) (sb : list Z) (i sum : Z) : Z * Z :=
  match fuel with
  | O => (i, sum)
  | S fuel =>
      if i + 4 <=? zlen sb
      then sum_words fuel sb (i + 4) (if negb (i =? 216) then u64 (sum + le32 sb i) else sum)
      else (i, sum)
  end.

Definition v1_checksum (sb : list Z) : Z :=
  let '(i, sum) := sum_words (length sb) sb 0 0 in
  let sum := if i + 2 <=? zlen sb then u64 (sum + le16 sb i) else sum in
  u32 (Z.land sum 0xffffffff + Z.shiftr sum 32).

(** [name_raw.iter().position(|&c| c == 0).unwrap_or(32)], cut there. *)
Fixpoint until_nul (bs : list Z) : list Z :=
  match bs with
  | [] => []
  | b :: bs => if b =? 0 then [] else b :: until_nul bs
  end.

Definition to_bytes (member sectors : Z) (what : string) : Result MdError Z :=
  ok_or (checked_mul sectors SECTOR) (Corrupt member (what +:+ " overflows")).

Definition v1_role (r : Z) : MdRole :=
  if r =? 0xffff then Spare
  else if r =? 0xfffe then Faulty
  else if r =? 0xfffd then Journal
  else Active r.

Definition parse_v1 (buf : list Z) (at_ : Z) (v : MdVersion) (dev_size member : Z)
    : Result MdError (option MdSuperblock) :=
  if negb (le32 buf 0 =? MD_MAGIC) || negb (le32 buf 4 =? 1) then Ok None
  else if negb (bool_decide (checked_mul (le64 buf 144) SECTOR = Some at_)) then Ok None
  else
    let max_dev := le32 buf 220 in
    _ ← refuse_if (V1_MAX_DEV <? max_dev)
          (Corrupt member ("max_dev " +:+ pretty max_dev +:+ " exceeds 4 KiB"));
    let len := V1_FIXED + 2 * max_dev in
    let stored := le32 buf 216 in
    let computed := v1_checksum (bslice buf 0 len) in
    _ ← refuse_if (negb (stored =? computed)) (BadChecksum member stored computed);
    let dev_number := le32 buf 160 in
    data_offset ← to_bytes member (le64 buf 128) "data_offset";
    data_size ← to_bytes member (le64 buf 136) "data_size";
    component_size ← to_bytes member (le64 buf 80) "size";
    _ ← refuse_if
          (match checked_add data_offset data_size with
           | Some end_ => negb (end_ <=? dev_size) | None => true end)
          (Corrupt member ("data area " +:+ pretty data_offset +:+ "+" +:+ pretty data_size
             +:+ " runs past the device (" +:+ pretty dev_size +:+ " bytes)"));
    _ ← refuse_if (max_dev <=? dev_number)
          (Corrupt member ("dev_number " +:+ pretty dev_number
             +:+ " is outside the role table (" +:+ pretty max_dev +:+ ")"));
    Ok (Some {|
      version := v;
      superblock_offset := at_;
      array_uuid := bslice buf 16 32;
      name := from_utf8_lossy (until_nul (bslice buf 32 64));
      level := as_i32 (le32 buf 72);
      layout := le32 buf 76;
      chunk_bytes := le32 buf 88 * SECTOR;
      raid_disks := le32 buf 92;
      role := v1_role (le16 buf (V1_FIXED + 2 * dev_number));
      data_offset := data_offset;
      data_size := data_size;
      component_size := component_size;
      events := le64 buf 200;
      feature_map := le32 buf 8;
    |}).

(** ** The 0.90 superblock *)
Definition parse_v0 (buf : list Z) (at_ member : Z) : Result MdError (option MdSuperblock) :=
  let w i := le32 buf (i * 4) in
  if negb (w 0 =? MD_MAGIC) || negb (w 1 =? 0) || negb (w 2 =? 90) then Ok None
  else
    let size_kib := w 8 in
    let this := 992 in
    let raid_disk := w (this + 3) in
    let state := w (this + 4) in
    let role :=
      if negb (Z.land state 1 =? 0) then Faulty
      else if negb (Z.land state 2 =? 0) && negb (Z.land state 4 =? 0) then Active raid_disk
      else Spare in
    let component_size := size_kib * 1024 in
    _ ← refuse_if (at_ <? component_size)
          (Corrupt member ("size " +:+ pretty component_size
             +:+ " runs into the superblock at " +:+ pretty at_));
    Ok (Some {|
      version := V0_90;
      superblock_offset := at_;
      array_uuid := [5; 13; 14; 15] ≫= (λ word, bslice buf (word * 4) (word * 4 + 4));
      name := [];
      level := as_i32 (w 7);
      layout := w 64;
      chunk_bytes := w 65;
      raid_disks := w 10;
      role := role;
      data_offset := 0;
      data_size := at_;
      component_size := component_size;
      events := le64 buf (39 * 4);
      feature_map := 0;
    |}).

(** ** Reading a member *)
Section devices.
Context {R : Type} `{!BlockRead R}.

(** [dev.read_at(..)?] *)
Definition md_read (dev : R) (off n : Z) : Result MdError (list Z) :=
  map_err MdBlock (read_at dev off n).

(** [for (at, version) in candidates]. *)
Fixpoint try_v1 (dev : R) (member : Z) (candidates : list (Z * MdVersion))
    : Result MdError (option MdSuperblock) :=
  match candidates with
  | [] => Ok None
  | (at_, v) :: candidates =>
      if size_bytes dev <? at_ + 4096 then try_v1 dev member candidates
      else
        buf ← md_read dev at_ 4096;
        sb ← parse_v1 buf at_ v (size_bytes dev) member;
        match sb with
        | Some sb => Ok (Some sb)
        | None => try_v1 dev member candidates
        end
  end.

(** The places a 1.x superblock may be on a device of [size] bytes. *)
Definition v1_candidates (size : Z) : list (Z * MdVersion) :=
  [(0, V1_1); (4096, V1_2)] ++
  match checked_sub (size / SECTOR) 16 with
  | Some end_ => [(end_ / 8 * 8 * SECTOR, V1_0)]
  | None => []
  end.

Definition read_superblock_of (dev : R) (member : Z) : Result MdError (option MdSuperblock) :=
  let size := size_bytes dev in
  sb ← try_v1 dev member (v1_candidates size);
  match sb with
  | Some sb => Ok (Some sb)
  | None =>
      if V0_RESERVED <=? size then
        let at_ := size / V0_RESERVED * V0_RESERVED - V0_RESERVED in
        b0 ← md_read dev at_ V0_SIZE;
        parse_v0 b0 at_ member
      else Ok None
  end.

Definition read_superblock (dev : R) : Result MdError (option MdSuperblock) :=
  read_superblock_of dev 0.

(** ** Sorting devices into arrays *)
Record MdGroup := mkGroup {
  g_array_uuid : list Z;
  g_superblock : MdSuperblock;
  g_members : list R;
}.

Record MdScan := mkScan {
  arrays : list MdGroup;
  others : list R;
  refused : list (R * MdError);
}.

(** [found.arrays.iter_mut().find(..)], then the [match] on what it found. *)
Fixpoint join_group (gs : list MdGroup) (dev : R) (sb : MdSuperblock) : list MdGroup :=
  match gs with
  | [] => [mkGroup (array_uuid sb) sb [dev]]
  | g :: gs =>
      if bytes_eqb (g_array_uuid g) (array_uuid sb)
      then mkGroup (g_array_uuid g)
             (if events (g_superblock g) <? events sb then sb else g_superblock g)
             (g_members g ++ [dev]) :: gs
      else g :: join_group gs dev sb
  end.

Definition scan_one (found : MdScan) (x : Z * R) : MdScan :=
  let '(member, dev) := x in
  match read_superblock_of dev member with
  | Ok None => mkScan (arrays found) (others found ++ [dev]) (refused found)
  | Err e => mkScan (arrays found) (others found) (refused found ++ [(dev, e)])
  | Ok (Some sb) => mkScan (join_group (arrays found) dev sb) (others found) (refused found)
  end.

(** [into_iter().enumerate()]. *)
Definition enumerate {A} (l : list A) : list (Z * A) := zip (seqZ 0 (zlen l)) l.

Definition scan (devices : list R) : MdScan :=
  foldl scan_one (mkScan [] [] []) (enumerate devices).

(** ** Assembly *)
Record Member := mkMember {
  m_dev : R;
  m_data_offset : Z;
  m_data_size : Z;
}.

Record MdArray := mkArray {
  a_slots : list (option Member);
  a_level : Z;
  a_layout : Z;
  a_chunk : Z;
  a_size : Z;
  a_zones : list Zone;
  a_raid10 : option Raid10;
  a_superblock : MdSuperblock;
}.

(** The first loop: every device's superblock. *)
Definition read_found (x : Z * R) : Result MdError (option (Z * R * MdSuperblock)) :=
  let '(member, dev) := x in
  o ← read_superblock_of dev member;
  sb ← ok_or o (NoSuperblock member);
  Ok (Some (member, dev, sb)).

(** [found.iter().map(events).max().unwrap_or(0)]. *)
Definition newest_of (found : list (Z * R * MdSuperblock)) : Z :=
  foldr (λ f m, Z.max (events f.2) m) 0 found.

(** One round of the loop that places members in their slots. *)
Definition place_member (n newest : Z) (slots : list (option Member))
    (f : Z * R * MdSuperblock) : Result MdError (list (option Member)) :=
  let '(_, dev, sb) := f in
  match role sb with
  | Active slot =>
      if (events sb <? newest) || negb (Z.land (feature_map sb) FEATURE_RECOVERY_OFFSET =? 0)
      then Ok slots
      else if n <=? slot then Ok slots
      else match slots !! Z.to_nat slot with
           | Some (Some _) => Err (DuplicateRole slot)
           | _ => Ok (<[Z.to_nat slot := Some (mkMember dev (data_offset sb) (data_size sb))]> slots)
           end
  | _ => Ok slots
  end.

Definition present_in (slots : list (option Member)) : Z := zlen (omap id slots).

(** The closures [need] and [needs_chunk]. *)
Definition need (lvl present needed : Z) : Result MdError unit :=
  refuse_if (present <? needed) (TooFewMembers lvl present needed).
Definition needs_chunk (chunk : Z) : Result MdError unit :=
  refuse_if ((chunk =? 0) || negb (chunk mod SECTOR =? 0))
    (Corrupt 0 ("chunk size " +:+ pretty chunk)).

(** The linear arm's loop over the slots, from [slot] on, at [start]. *)
Fixpoint linear_zones (chunk : Z) (slots : list (option Member)) (slot start : Z)
    : Result MdError (list Zone * Z) :=
  match slots with
  | [] => Ok ([], start)
  | None :: _ => Err (MdBlock panicked)
  | Some m :: slots =>
      let len := if chunk =? 0 then m_data_size m else m_data_size m / chunk * chunk in
      start' ← ok_or (checked_add start len) (Corrupt 0 "array size overflows");
      r ← linear_zones chunk slots (slot + 1) start';
      Ok (mkZone start len 0 [slot] :: r.1, r.2)
  end.

(** [slots[s].is_none()]. *)
Definition vacant (slots : list (option Member)) (s : Z) : bool :=
  match slots !! Z.to_nat s with Some None => true | _ => false end.

(** The RAID10 arm's test of one chunk. *)
Definition copy_left (slots : list (option Member)) (geo : Raid10) (d : Z) (u : unit) (c : Z)
    : Result MdError unit :=
  let cs := copies geo d c in
  refuse_if (forallb (λ x, vacant slots x.1) cs)
    (NoCopyLeft (map fst cs)).

(** The [match level] of [assemble]: the array's size, zones and RAID10
    layout. *)
Definition arrange (lead : MdSuperblock) (slots : list (option Member))
    : Result MdError (Z * list Zone * option Raid10) :=
  let n := raid_disks lead in
  let lvl := level lead in
  let present := present_in slots in
  let chunk := chunk_bytes lead in
  let per_member := component_size lead in
  if lvl =? LEVEL_LINEAR then
    _ ← need lvl present n;
    r ← linear_zones chunk slots 0 0;
    Ok (r.2, r.1, None)
  else if lvl =? LEVEL_RAID1 then
    _ ← need lvl present 1;
    Ok (per_member, [], None)
  else if lvl =? LEVEL_RAID0 then
    _ ← need lvl present n;
    _ ← needs_chunk chunk;
    let sizes := map (λ m, m_data_size m / chunk * chunk) (omap id slots) in
    let zones := raid0_zones sizes in
    _ ← refuse_if ((1 <? zlen zones) && negb (layout lead =? RAID0_LAYOUT_ALTERNATE)
                     && negb (layout lead =? RAID0_LAYOUT_ORIGINAL))
          (Unsupported ("multi-zone RAID0 with layout " +:+ pretty (layout lead)));
    Ok (foldl (λ s z, u64 (s + z_len z)) 0 zones, zones, None)
  else if lvl =? LEVEL_RAID10 then
    _ ← needs_chunk chunk;
    _ ← refuse_if (negb (Z.land (layout lead) (Z.lxor 0xffffffff (Z.lor RAID10_OFFSET 0xffff)) =? 0))
          (Unsupported ("RAID10 layout " +:+ hex (layout lead)));
    let near := Z.land (layout lead) 0xff in
    let far := Z.land (Z.shiftr (layout lead) 8) 0xff in
    let d := n in
    _ ← refuse_if ((near =? 0) || (far =? 0) || (d <? near * far))
          (Corrupt 0 ("RAID10 layout " +:+ hex (layout lead) +:+ " over " +:+ pretty n +:+ " members"));
    let dev_chunks := per_member / chunk in
    let geo := mkRaid10 near far (negb (Z.land (layout lead) RAID10_OFFSET =? 0)) (dev_chunks / far) in
    _ ← foldM (copy_left slots geo d) tt (seqZ 0 d);
    size ← ok_or (checked_mul (u64 (dev_chunks / far * d) / near) chunk)
             (Corrupt 0 "array size overflows");
    Ok (size, [], Some geo)
  else if (lvl =? LEVEL_RAID4) || (lvl =? LEVEL_RAID5) || (lvl =? LEVEL_RAID6) then
    _ ← needs_chunk chunk;
    let parity := if lvl =? LEVEL_RAID6 then 2 else 1 in
    _ ← refuse_if (n <=? parity)
          (Corrupt 0 ("RAID" +:+ pretty lvl +:+ " with " +:+ pretty n +:+ " members"));
    _ ← refuse_if ((lvl =? LEVEL_RAID6) && negb (raid6_layout_known (layout lead)))
          (Unsupported ("RAID6 layout " +:+ pretty (layout lead)));
    _ ← refuse_if ((lvl =? LEVEL_RAID5) && (LAYOUT_PARITY_LAST <? layout lead))
          (Unsupported ("RAID5 layout " +:+ pretty (layout lead)));
    _ ← need lvl present (n - parity);
    size ← ok_or (checked_mul (per_member / chunk * chunk) (n - parity))
             (Corrupt 0 "array size overflows");
    Ok (size, [], None)
  else Err (Unsupported ("RAID level " +:+ pretty lvl)).

(** The last loop: the member reaches as far as the array reads it. *)
Definition member_reaches (lvl size per_member : Z) (u : unit) (m : Member) : Result MdError unit :=
  let span := if lvl =? LEVEL_RAID1 then size
              else if (lvl =? LEVEL_RAID0) || (lvl =? LEVEL_LINEAR) then 0
              else per_member in
  refuse_if
    (match checked_add (m_data_offset m) span with
     | Some end_ => negb (end_ <=? size_bytes (m_dev m)) | None => true end)
    (Corrupt 0 "a member is shorter than the array needs").

(** The newest superblock of [found], which speaks for the array. *)
Definition lead_of (found : list (Z * R * MdSuperblock)) : Result MdError MdSuperblock :=
  ok_or (snd <$> List.find (λ f, events f.2 =? newest_of found) found) (MdBlock panicked).

Definition same_array (first : MdSuperblock) (u : unit) (f : Z * R * MdSuperblock)
    : Result MdError unit :=
  refuse_if (negb (bytes_eqb (array_uuid f.2) (array_uuid first))) (MixedArrays f.1.1).

Definition assemble (devices : list R) : Result MdError MdArray :=
  _ ← refuse_if (match devices with [] => true | _ => false end) Empty;
  found ← collectM read_found (enumerate devices);
  first ← ok_or (snd <$> head found) (MdBlock panicked);
  _ ← foldM (same_array first) tt found;
  let newest := newest_of found in
  lead ← lead_of found;
  _ ← refuse_if (negb (Z.land (feature_map lead) FEATURE_RESHAPE_ACTIVE =? 0))
        (Unsupported "the array is mid-reshape");
  let n := raid_disks lead in
  _ ← refuse_if ((n =? 0) || (V1_MAX_DEV <? n)) (Corrupt 0 ("raid_disks " +:+ pretty n));
  slots ← foldM (place_member n newest) (replicate (Z.to_nat n) None) found;
  r ← arrange lead slots;
  let '(size, zones, raid10) := r in
  _ ← foldM (member_reaches (level lead) size (component_size lead)) tt (omap id slots);
  Ok {|
    a_slots := slots;
    a_level := level lead;
    a_layout := layout lead;
    a_chunk := chunk_bytes lead;
    a_size := size;
    a_zones := zones;
    a_raid10 := raid10;
    a_superblock := lead;
  |}.

(** [MdGroup::assemble]. *)
Definition group_assemble (g : MdGroup) : Result MdError MdArray := assemble (g_members g).

Definition present (a : MdArray) : Z := present_in (a_slots a).
Definition is_degraded (a : MdArray) : bool := present a <? zlen (a_slots a).
End devices.
Arguments Member : clear implicits.
Arguments MdArray : clear implicits.
Arguments MdGroup : clear implicits.
Arguments MdScan : clear implicits.
