(* ===== verification/MdRead.v ===== *)
(** * Linux md: reading an assembled array

    [read_member], [read_raid1], [read_zoned], the free functions [read_chunk]
    and [rebuild_raid6], and [MdArray]'s [BlockRead::read_at], from src/md.rs.
    A reader of [n] bytes returns the bytes it fills the buffer with; [Ok None]
    of a member reader is the source's [Ok(false)], a missing member. *)
From S2P Require Import Prelude Bytes Device Table Fmt Gf256 MdLayout Md.

(** ** Striped rows *)

Record Striping := mkStriping {
  st_level : Z;
  st_layout : Z;
  st_chunk : Z;
  st_members : Z;
  st_raid10 : option Raid10;
}.

(** [ReadMember]: [f slot off n]. *)
Definition ReadMember : Type := Z → Z → Z → Result FsError (option (list Z)).

(** [for (b, t) in buf.iter_mut().zip(&tmp) { *b ^= t }]. *)
Definition xor_into (b t : list Z) : list Z := zip_with Z.lxor b t.

(** The RAID10 loop over copies: the first that reads, or the last error. *)
Fixpoint first_copy (member : ReadMember) (chunk within n k : Z) (last : option FsError)
    (places : list (Z * Z)) : Result FsError (list Z) :=
  match places with
  | [] => Err (default (Custom ("md: no copy of chunk " +:+ pretty k +:+ " is present")) last)
  | (slot, row) :: places =>
      match member slot (u64 (u64 (row * chunk) + within)) n with
      | Ok (Some bs) => Ok bs
      | Ok None => first_copy member chunk within n k last places
      | Err e => first_copy member chunk within n k (Some e) places
      end
  end.

(** One round of the RAID4/5 loop over the slots of a row. *)
Definition xor_slot (member : ReadMember) (dd off len : Z) (qd : option Z) (buf : list Z) (slot : Z)
    : Result FsError (list Z) :=
  if (slot =? dd) || bool_decide (Some slot = qd) then Ok buf
  else
    o ← member slot off len;
    match o with
    | Some tmp => Ok (xor_into buf tmp)
    | None => Err (Custom ("md: slot " +:+ pretty slot
                     +:+ " missing while reconstructing slot " +:+ pretty dd))
    end.

(** One round of [rebuild_raid6]'s loop, on [(p, q, missing)]: a data chunk
    that is present is taken back out of P and Q. *)
Definition take_out (s : Striping) (member : ReadMember) (stripe off len : Z)
    (st : list Z * list Z * list Z) (i : Z) : Result FsError (list Z * list Z * list Z) :=
  let '(p, q, missing) := st in
  let n := st_members s in
  let '(slot, _, _) := parity_map LEVEL_RAID6 (st_layout s) n stripe i in
  o ← member slot off len;
  match o with
  | None => Ok (p, q, missing ++ [i])
  | Some d =>
      let g := gf_pow2 (q_exponent (st_layout s) n stripe i) in
      Ok (xor_into p d, xor_into q (map (gf_mul g) d), missing)
  end.

(** The closure [lost]. *)
Definition lost (stripe : Z) (missing : list Z) (have_p have_q : bool) : FsError :=
  Custom ("md: RAID6 row " +:+ pretty stripe +:+ " has lost data chunks "
          +:+ debug_list missing +:+ ", P present " +:+ show_bool have_p
          +:+ ", Q present " +:+ show_bool have_q).

Definition is_there {A} (o : option A) : bool := match o with Some _ => true | None => false end.

(** [&[a, b] if have_p && have_q]: both lost chunks from P and Q. *)
Definition solve_two (ex ey : Z) (p q : list Z) : option (list Z) :=
  let gyx := gf_pow2 (ey - ex) in
  if Z.lxor gyx 1 =? 0 then None
  else
    let denom := gf_inv (Z.lxor gyx 1) in
    let ca := gf_mul gyx denom in
    let cb := gf_mul (gf_pow2 (- ex)) denom in
    Some (zip_with (λ pb qb, Z.lxor (gf_mul ca pb) (gf_mul cb qb)) p q).

Definition rebuild_raid6 (s : Striping) (member : ReadMember) (stripe x off len : Z)
    : Result FsError (list Z) :=
  let n := st_members s in
  let '(_, pd, qd) := parity_map LEVEL_RAID6 (st_layout s) n stripe 0 in
  qd ← ok_or qd panicked;
  op ← member pd off len;
  oq ← member qd off len;
  let have_p := is_there op in
  let have_q := is_there oq in
  r ← foldM (take_out s member stripe off len)
        (default (zeros len) op, default (zeros len) oq, []) (seqZ 0 (n - 2));
  let '(p, q, missing) := r in
  match missing with
  | [_] =>
      if have_p then Ok p
      else if have_q then
        Ok (map (gf_mul (gf_pow2 (- q_exponent (st_layout s) n stripe x))) q)
      else Err (lost stripe missing have_p have_q)
  | [a; b] =>
      if have_p && have_q then
        let y := if a =? x then b else a in
        let ex := q_exponent (st_layout s) n stripe x in
        let ey := q_exponent (st_layout s) n stripe y in
        ok_or (solve_two ex ey p q) (lost stripe missing have_p have_q)
      else Err (lost stripe missing have_p have_q)
  | _ => Err (lost stripe missing have_p have_q)
  end.

(** Read [len] bytes of array chunk [k], from [within] bytes into it. *)
Definition read_chunk (s : Striping) (member : ReadMember) (k within len : Z)
    : Result FsError (list Z) :=
  let n := st_members s in
  match st_raid10 s with
  | Some geo =>
      let '(slot, row) := primary geo n k in
      match member slot (u64 (u64 (row * st_chunk s) + within)) len with
      | Ok (Some bs) => Ok bs
      | Ok None => first_copy member (st_chunk s) within len k None (tail (copies geo n k))
      | Err e => first_copy member (st_chunk s) within len k (Some e) (tail (copies geo n k))
      end
  | None =>
      let parity := if st_level s =? LEVEL_RAID6 then 2 else 1 in
      let data := n - parity in
      let stripe := k / data in
      let layout := if st_level s =? LEVEL_RAID4 then LAYOUT_PARITY_LAST else st_layout s in
      let '(dd, _, qd) := parity_map (st_level s) layout n stripe (k mod data) in
      let off := u64 (u64 (stripe * st_chunk s) + within) in
      o ← member dd off len;
      match o with
      | Some bs => Ok bs
      | None =>
          if st_level s =? LEVEL_RAID6 then rebuild_raid6 s member stripe (k mod data) off len
          else foldM (xor_slot member dd off len qd) (zeros len) (seqZ 0 n)
      end
  end.

(** ** The array *)
Section array.
Context {R : Type} `{!BlockRead R}.

Definition read_member (a : MdArray R) : ReadMember := λ slot off len,
  match a_slots a !! Z.to_nat slot with
  | Some (Some m) => Some <$> read_at (m_dev m) (u64 (m_data_offset m + off)) len
  | Some None => Ok None
  | None => Err panicked
  end.

(** [read_raid1]'s loop over the members present. *)
Fixpoint read_any (ms : list (Member R)) (last : option FsError) (offset len : Z)
    : Result FsError (list Z) :=
  match ms with
  | [] => Err (default (Custom "no RAID1 member present") last)
  | m :: ms =>
      match read_at (m_dev m) (u64 (m_data_offset m + offset)) len with
      | Ok bs => Ok bs
      | Err e => read_any ms (Some e) offset len
      end
  end.

Definition read_raid1 (a : MdArray R) (offset len : Z) : Result FsError (list Z) :=
  read_any (omap id (a_slots a)) None offset len.

(** [self.read_member(slot, off, &mut buf[..take])?; return Ok(take)]: the
    bytes of [buf[..take]] after the call. *)
Definition read_take (a : MdArray R) (slot off take : Z) : Result FsError (list Z) :=
  o ← read_member a slot off take; Ok (default (zeros take) o).

(** Which zone an array byte is in. *)
Definition zone_of (zones : list Zone) (pos : Z) : option Zone :=
  List.find (λ z, (z_start z <=? pos) && (pos <? u64 (z_start z + z_len z))) zones.

(** The bytes read from [pos] on, at most [len] and at least one. *)
Definition read_zoned (a : MdArray R) (pos len : Z) : Result FsError (list Z) :=
  z ← ok_or (zone_of (a_zones a) pos) panicked;
  let within := pos - z_start z in
  if a_level a =? LEVEL_LINEAR then
    let take := Z.min (z_len z - within) len in
    slot ← ok_or (head (z_slots z)) panicked;
    read_take a slot (u64 (z_dev_start z + within)) take
  else
    let k := zlen (z_slots z) in
    let c := within / a_chunk a in
    let inner := within mod a_chunk a in
    let take := Z.min (a_chunk a - inner) len in
    let off := u64 (u64 (z_dev_start z + u64 (c / k * a_chunk a)) + inner) in
    let pick := if a_layout a =? RAID0_LAYOUT_ORIGINAL then pos / a_chunk a else c in
    slot ← ok_or (z_slots z !! Z.to_nat (pick mod k)) panicked;
    read_take a slot off take.

Definition striping_of (a : MdArray R) : Striping :=
  mkStriping (a_level a) (a_layout a) (a_chunk a) (zlen (a_slots a)) (a_raid10 a).

(** [MdArray::read_chunk]. *)
Definition array_read_chunk (a : MdArray R) (k within len : Z) : Result FsError (list Z) :=
  read_chunk (striping_of a) (read_member a) k within len.

(** The [while done < buf.len()] loops of [read_at], on the bytes read so far. *)
Fixpoint zoned_loop (fuel : nat) (a : MdArray R) (offset len : Z) (acc : list Z)
    : Result FsError (list Z) :=
  match fuel with
  | O => Ok acc
  | S fuel =>
      if zlen acc <? len then
        bs ← read_zoned a (offset + zlen acc) (len - zlen acc);
        zoned_loop fuel a offset len (acc ++ bs)
      else Ok acc
  end.

Fixpoint striped_loop (fuel : nat) (a : MdArray R) (offset len : Z) (acc : list Z)
    : Result FsError (list Z) :=
  match fuel with
  | O => Ok acc
  | S fuel =>
      if zlen acc <? len then
        let pos := offset + zlen acc in
        let k := pos / a_chunk a in
        let within := pos mod a_chunk a in
        let take := Z.min (a_chunk a - within) (len - zlen acc) in
        bs ← array_read_chunk a k within take;
        striped_loop fuel a offset len (acc ++ bs)
      else Ok acc
  end.

(** Every round reads a byte, so [len] rounds are enough. *)
Definition md_read_at (a : MdArray R) (offset len : Z) : Result FsError (list Z) :=
  _ ← refuse_if
        (match checked_add offset len with
         | Some end_ => negb (end_ <=? a_size a) | None => true end)
        (OutOfBounds offset len (a_size a));
  if a_level a =? LEVEL_RAID1 then read_raid1 a offset len
  else if (a_level a =? LEVEL_RAID0) || (a_level a =? LEVEL_LINEAR)
  then zoned_loop (Z.to_nat len) a offset len []
  else striped_loop (Z.to_nat len) a offset len [].

#[export] Instance MdArray_read : BlockRead (MdArray R) :=
  {| read_at := md_read_at; size_bytes := a_size |}.
End array.
