(* ===== verification/MdRows.v ===== *)
(** * Rows of an md array: every member has one job

    For every RAID4, 5 and 6 layout the data members, P and Q of a row are the
    members of the array, each once; Q's exponents tell the data chunks of a row
    apart; and RAID10 puts the copies of a chunk on different members, the
    primary first. *)
From S2P Require Import Prelude Bytes MdLayout.

(** A remainder that is never more than one turn away. *)
Lemma mod_turn a n : 0 ≤ a < 2 * n → a mod n = if a <? n then a else a - n.
Proof.
  intros H. destruct (Z.ltb_spec a n); [apply Z.mod_small; lia|].
  symmetry. apply (Z.mod_unique a n 1); lia.
Qed.

(** Case on the turn of each remainder and on each [if] of a layout. *)
Ltac turns :=
  repeat match goal with
  | |- context [?a mod ?m] => rewrite (mod_turn a m) by lia
  end;
  repeat match goal with
  | |- context [if ?b then _ else _] => let E := fresh "E" in destruct b eqn:E
  end; cbn [fst snd] in *; zbool; try lia.

(** ** What a row must be *)

(** [dd i] holds data chunk [i] of [nd], and [checks] hold P and Q: the
    members [0..n), each once. *)
Definition row_of (n nd : Z) (dd : Z → Z) (checks : list Z) : Prop :=
  map dd (seqZ 0 nd) ++ checks ≡ₚ seqZ 0 n.

(** Distinct numbers below [n], [n] of them, are all of them. *)
Lemma perm_seqZ n l : 0 ≤ n →
  NoDup l → zlen l = n → Forall (λ x, 0 ≤ x < n) l → l ≡ₚ seqZ 0 n.
Proof.
  intros Hn Hnd Hl Hf. apply submseteq_length_Permutation.
  - apply NoDup_submseteq; [done|]. intros x Hx. apply elem_of_seqZ.
    pose proof (Forall_in _ _ _ Hf Hx) as H. cbn in H. lia.
  - rewrite length_seqZ. unfold zlen in Hl. lia.
Qed.

Lemma NoDup_map_inj {A B} (f : A → B) l :
  (∀ x y, x ∈ l → y ∈ l → f x = f y → x = y) → NoDup l → NoDup (map f l).
Proof.
  intros Hf. induction 1 as [|x l Hx Hl IH]; cbn; constructor.
  - intros (y & E & Hy)%list_elem_of_fmap. apply Hx.
    rewrite (Hf x y); [done|set_solver..].
  - apply IH. intros ????. apply Hf; set_solver.
Qed.

Lemma zlen_map {A B} (f : A → B) l : zlen (map f l) = zlen l.
Proof. unfold zlen. by rewrite length_map. Qed.
Lemma zlen_seqZ a n : 0 ≤ n → zlen (seqZ a n) = n.
Proof. intros. unfold zlen. rewrite length_seqZ. lia. Qed.

Lemma row_intro n nd dd checks : 0 ≤ nd → 0 ≤ n → nd + zlen checks = n →
  (∀ i, 0 ≤ i < nd → 0 ≤ dd i < n ∧ dd i ∉ checks) →
  (∀ i j, 0 ≤ i < nd → 0 ≤ j < nd → dd i = dd j → i = j) →
  NoDup checks → Forall (λ x, 0 ≤ x < n) checks →
  row_of n nd dd checks.
Proof.
  intros Hnd Hn Hlen Hdd Hinj Hch Hchr. apply perm_seqZ; [done| | |].
  - apply NoDup_app. split_and!; [|intros x (i & -> & Hi%elem_of_seqZ)%list_elem_of_fmap|done].
    + apply NoDup_map_inj; [|apply NoDup_seqZ].
      intros i j Hi%elem_of_seqZ Hj%elem_of_seqZ. apply Hinj; lia.
    + apply Hdd. lia.
  - rewrite zlen_app, zlen_map, zlen_seqZ by done. lia.
  - apply Forall_app. split; [|done]. apply Forall_map, list.Forall_forall.
    intros i Hi%elem_of_seqZ. apply Hdd. lia.
Qed.

(** ** RAID6 *)
Definition dd6 (layout n stripe i : Z) : Z := (raid6_map layout n stripe i).1.1.
Definition pd6 (layout n stripe : Z) : Z := (raid6_map layout n stripe 0).1.2.
Definition qd6 (layout n stripe : Z) : Z := (raid6_map layout n stripe 0).2.

(** The codes [raid6_layout_known] accepts. *)
Lemma raid6_known_cases layout : raid6_layout_known layout = true →
  layout ∈ [0; 1; 2; 3; 4; 5; 8; 9; 10; 16; 17; 18; 19; 20].
Proof.
  unfold raid6_layout_known, LAYOUT_LEFT_ASYMMETRIC, LAYOUT_PARITY_LAST,
    LAYOUT_ROTATING_ZERO_RESTART, LAYOUT_ROTATING_N_CONTINUE, LAYOUT_LEFT_ASYMMETRIC_6,
    LAYOUT_PARITY_FIRST_6. intros H.
  assert (layout = 0 ∨ layout = 1 ∨ layout = 2 ∨ layout = 3 ∨ layout = 4 ∨ layout = 5 ∨
    layout = 8 ∨ layout = 9 ∨ layout = 10 ∨ layout = 16 ∨ layout = 17 ∨ layout = 18 ∨
    layout = 19 ∨ layout = 20) by lia. set_solver.
Qed.

(** One RAID6 layout at a time. *)
Ltac each_layout H :=
  apply raid6_known_cases in H;
  repeat (apply elem_of_cons in H as [->|H]); [..|by apply not_elem_of_nil in H].

(** P and Q of a row do not depend on the data chunk asked for. *)
Lemma raid6_map_eq layout n stripe i : raid6_layout_known layout = true →
  raid6_map layout n stripe i = (dd6 layout n stripe i, pd6 layout n stripe, qd6 layout n stripe).
Proof.
  intros H. unfold dd6, pd6, qd6. each_layout H; unfold raid6_map; cbn; try done;
    unfold asymmetric; by repeat case_match.
Qed.

Section raid6.
Context (layout n stripe : Z).
Context (Hl : raid6_layout_known layout = true) (Hn : 3 ≤ n).

(** One layout at a time, with its remainders as numbers below their
    modulus. *)
Ltac raid6_cases :=
  pose proof (Z.mod_pos_bound stripe n ltac:(lia));
  pose proof (Z.mod_pos_bound stripe (n - 1) ltac:(lia));
  pose proof (Z.mod_pos_bound (u64 (stripe + 1)) n ltac:(lia));
  let H := fresh "Hk" in pose proof Hl as H; unfold dd6, pd6, qd6;
  each_layout H; unfold raid6_map; cbn; unfold asymmetric;
  generalize dependent (stripe mod n); generalize dependent (stripe mod (n - 1));
  generalize dependent (u64 (stripe + 1) mod n); intros ? ? ? ? ? ?; turns.

Lemma raid6_place i : 0 ≤ i < n - 2 →
  0 ≤ dd6 layout n stripe i < n ∧
  dd6 layout n stripe i ≠ pd6 layout n stripe ∧ dd6 layout n stripe i ≠ qd6 layout n stripe.
Proof. intros Hi. raid6_cases. Qed.

Lemma raid6_checks :
  0 ≤ pd6 layout n stripe < n ∧ 0 ≤ qd6 layout n stripe < n ∧
  pd6 layout n stripe ≠ qd6 layout n stripe.
Proof. raid6_cases. Qed.

Lemma raid6_inj i j : 0 ≤ i < n - 2 → 0 ≤ j < n - 2 →
  dd6 layout n stripe i = dd6 layout n stripe j → i = j.
Proof. intros Hi Hj. raid6_cases. Qed.

Lemma raid6_row : row_of n (n - 2) (dd6 layout n stripe)
  [pd6 layout n stripe; qd6 layout n stripe].
Proof.
  destruct raid6_checks as (Hp & Hq & Hpq).
  apply row_intro; [lia|lia|unfold zlen; cbn [length]; lia| |apply raid6_inj| |].
  - intros i Hi. destruct (raid6_place i Hi) as (? & ? & ?). set_solver.
  - repeat constructor; set_solver.
  - repeat (apply Forall_cons; split; [lia|]). constructor.
Qed.
End raid6.

(** ** RAID4, RAID5 and RAID6 at once *)

(** How many members of a row hold checks. *)
Definition parity_of (level : Z) : Z := if level =? LEVEL_RAID6 then 2 else 1.

Definition data_at (level layout n stripe i : Z) : Z := (parity_map level layout n stripe i).1.1.
Definition p_at (level layout n stripe : Z) : Z := (parity_map level layout n stripe 0).1.2.
Definition q_at (level layout n stripe : Z) : option Z := (parity_map level layout n stripe 0).2.

(** A layout the level places: RAID6 has gaps in its codes, the others read
    an unknown code as parity-last. *)
Definition placed_layout (level layout : Z) : Prop :=
  level = LEVEL_RAID6 → raid6_layout_known layout = true.

Lemma parity_map_6 layout n stripe i : raid6_layout_known layout = true →
  parity_map LEVEL_RAID6 layout n stripe i =
  (dd6 layout n stripe i, pd6 layout n stripe, Some (qd6 layout n stripe)).
Proof. intros. unfold parity_map. cbn [Z.eqb LEVEL_RAID6 Pos.eqb]. by rewrite raid6_map_eq. Qed.

Section rows.
Context (level layout n stripe : Z).
Context (Hl : placed_layout level layout) (Hn : parity_of level < n).

Lemma parity_map_eq i : parity_map level layout n stripe i =
  (data_at level layout n stripe i, p_at level layout n stripe, q_at level layout n stripe).
Proof.
  unfold data_at, p_at, q_at, parity_map. destruct (Z.eqb_spec level LEVEL_RAID6) as [E|_].
  - by rewrite !raid6_map_eq by auto.
  - by repeat (destruct (layout =? _); [done|]).
Qed.

Ltac raid5_cases :=
  pose proof (Z.mod_pos_bound stripe n ltac:(lia));
  unfold data_at, p_at, parity_map in *;
  rewrite (proj2 (Z.eqb_neq level LEVEL_RAID6)) by done;
  generalize dependent (stripe mod n); intros ? ?; turns.

Lemma row_members :
  row_of n (n - parity_of level) (data_at level layout n stripe)
    (p_at level layout n stripe :: option_list (q_at level layout n stripe)).
Proof.
  unfold parity_of in *. destruct (Z.eqb_spec level LEVEL_RAID6) as [->|E].
  - pose proof (raid6_row layout n stripe (Hl eq_refl) ltac:(lia)) as H.
    unfold p_at, q_at, data_at, row_of in *. rewrite !parity_map_6 by auto.
    rewrite (map_ext _ (dd6 layout n stripe)); [apply H|].
    intros i. by rewrite parity_map_6 by auto.
  - assert (q_at level layout n stripe = None) as ->.
    { unfold q_at, parity_map. rewrite (proj2 (Z.eqb_neq _ _)) by done.
      by repeat (destruct (layout =? _); [done|]). }
    change (option_list None) with (@nil Z).
    apply row_intro; [lia|lia|unfold zlen; simpl length; lia| | | |].
    + intros i Hi. rewrite list_elem_of_singleton. raid5_cases.
    + intros i j Hi Hj. raid5_cases.
    + repeat constructor. set_solver.
    + apply Forall_singleton. raid5_cases.
Qed.
End rows.

(** ** Q's exponents *)

Section q_exponent.
Context (n pd qd : Z) (Hn : 0 < n).

Definition is_data (m : Z) : bool := negb (m =? pd) && negb (m =? qd).

(** Data members among the [k] from [m] on. *)
Fixpoint data_from (k : nat) (m : Z) : Z :=
  match k with
  | O => 0
  | S k => (if is_data m then 1 else 0) + data_from k ((m + 1) mod n)
  end.

Lemma data_from_bound k m : 0 ≤ data_from k m ≤ Z.of_nat k.
Proof.
  revert m; induction k as [|k IH]; intros m; cbn [data_from]; [lia|].
  specialize (IH ((m + 1) mod n)). destruct (is_data m); lia.
Qed.

Lemma step_mod m k : 0 ≤ m < n → ((m + 1) mod n + k) mod n = (m + (1 + k)) mod n.
Proof. intros Hm. rewrite Zplus_mod_idemp_l. f_equal. lia. Qed.

Lemma data_from_app j k m : 0 ≤ m < n →
  data_from (j + k) m = data_from j m + data_from k ((m + Z.of_nat j) mod n).
Proof.
  revert m; induction j as [|j IH]; intros m Hm; cbn [data_from plus].
  - rewrite Z.add_0_r, Z.mod_small by lia. done.
  - rewrite IH by (apply Z.mod_pos_bound; lia). rewrite step_mod by done.
    rewrite Nat2Z.inj_succ. replace (1 + Z.of_nat j) with (Z.succ (Z.of_nat j)) by lia. lia.
Qed.

(** How far along the walk from [m] member [dd] stands. *)
Definition walk (m dd : Z) : Z := (dd - m) mod n.

Lemma walk_bound m dd : 0 ≤ walk m dd < n.
Proof. apply Z.mod_pos_bound. lia. Qed.

Lemma walk_reaches m dd : 0 ≤ dd < n → (m + walk m dd) mod n = dd.
Proof.
  intros. unfold walk. rewrite Zplus_mod_idemp_r. rewrite <- (Z.mod_small dd n) at 2 by done.
  f_equal. lia.
Qed.

Lemma walk_step m dd : 0 ≤ m < n → 0 ≤ dd < n → m ≠ dd →
  walk m dd = 1 + walk ((m + 1) mod n) dd.
Proof.
  intros. unfold walk.
  replace (1 + (dd - (m + 1) mod n) mod n) with (1 + (dd - (m + 1)) mod n)
    by (by rewrite Zminus_mod_idemp_r).
  destruct (Z.ltb_spec m dd).
  - rewrite !Z.mod_small by lia. lia.
  - replace (dd - m) with (dd - m + n + (-1) * n) by lia.
    replace (dd - (m + 1)) with (dd - (m + 1) + n + (-1) * n) by lia.
    rewrite !Z.mod_add, !Z.mod_small by lia. lia.
Qed.

(** The loop of [q_exponent] counts the data members before [dd]; the walk
    ends within [n] rounds. *)
Lemma q_slots_walk fuel dd m slot : 0 ≤ m < n → 0 ≤ dd < n → walk m dd < Z.of_nat fuel →
  q_slots fuel n dd pd qd m slot = slot + data_from (Z.to_nat (walk m dd)) m.
Proof.
  revert m slot; induction fuel as [|fuel IH]; intros m slot Hm Hd Hf.
  { pose proof (walk_bound m dd). lia. }
  cbn [q_slots]. destruct (Z.eqb_spec m dd) as [->|Hne].
  { unfold walk. rewrite Z.sub_diag, Z.mod_0_l by lia. change (Z.to_nat 0) with O. cbn [data_from]. lia. }
  rewrite walk_step in Hf |- * by done.
  pose proof (walk_bound ((m + 1) mod n) dd).
  rewrite IH by (try apply Z.mod_pos_bound; lia).
  replace (Z.to_nat (1 + walk ((m + 1) mod n) dd)) with (S (Z.to_nat (walk ((m + 1) mod n) dd))) by lia.
  cbn [data_from]. unfold is_data. destruct (negb (m =? pd) && negb (m =? qd)); lia.
Qed.

(** A data member further along counts for more. *)
Lemma data_from_inj m x y : 0 ≤ m < n → 0 ≤ x < n → 0 ≤ y < n →
  is_data x = true → is_data y = true →
  data_from (Z.to_nat (walk m x)) m = data_from (Z.to_nat (walk m y)) m → x = y.
Proof.
  intros Hm.
  assert (∀ x y, 0 ≤ x < n → 0 ≤ y < n → is_data x = true → walk m x < walk m y →
    data_from (Z.to_nat (walk m x)) m < data_from (Z.to_nat (walk m y)) m) as Hlt.
  { clear x y. intros x y Hx Hy Dx Hw. pose proof (walk_bound m x).
    replace (Z.to_nat (walk m y)) with
      (Z.to_nat (walk m x) + S (Z.to_nat (walk m y - walk m x - 1)))%nat by lia.
    rewrite data_from_app by done. rewrite Z2Nat.id, walk_reaches by lia. cbn [data_from].
    rewrite Dx. pose proof (data_from_bound (Z.to_nat (walk m y - walk m x - 1)) ((x + 1) mod n)). lia. }
  intros Hx Hy Dx Dy E. destruct (Z.lt_total (walk m x) (walk m y)) as [H|[H|H]].
  - specialize (Hlt x y Hx Hy Dx H). lia.
  - rewrite <- (walk_reaches m x), <- (walk_reaches m y) by done. by rewrite H.
  - specialize (Hlt y x Hy Hx Dy H). lia.
Qed.
End q_exponent.

Section exponents.
Context (layout n stripe : Z).
Context (Hl : raid6_layout_known layout = true) (Hn : 3 ≤ n).

Lemma q_exponent_eq i : 0 ≤ i < n - 2 →
  q_exponent layout n stripe i =
  if (LAYOUT_ROTATING_ZERO_RESTART <=? layout) && (layout <=? LAYOUT_ROTATING_N_CONTINUE)
  then dd6 layout n stripe i
  else let qd := qd6 layout n stripe in let d0 := if qd =? n - 1 then 0 else qd + 1 in
       data_from n (pd6 layout n stripe) qd (Z.to_nat (walk n d0 (dd6 layout n stripe i))) d0.
Proof.
  intros Hi. unfold q_exponent. rewrite raid6_map_eq by done.
  destruct (raid6_place layout n stripe Hl Hn i Hi) as (? & _).
  destruct (raid6_checks layout n stripe Hl Hn) as (_ & ? & _).
  destruct (_ && _); [done|]. cbn zeta. rewrite q_slots_walk; [done|lia| |lia|].
  - destruct (Z.eqb_spec (qd6 layout n stripe) (n - 1)); lia.
  - rewrite Z2Nat.id by lia. apply walk_bound. lia.
Qed.

Lemma q_exponent_range i : 0 ≤ i < n - 2 → 0 ≤ q_exponent layout n stripe i < n.
Proof.
  intros Hi. rewrite q_exponent_eq by done.
  destruct (raid6_place layout n stripe Hl Hn i Hi) as (? & _).
  destruct (_ && _); [done|]. cbn zeta. set (d0 := if _ =? _ then _ else _).
  pose proof (walk_bound n ltac:(lia) d0 (dd6 layout n stripe i)) as Hw.
  pose proof (data_from_bound n (pd6 layout n stripe) (qd6 layout n stripe)
    (Z.to_nat (walk n d0 (dd6 layout n stripe i))) d0). lia.
Qed.

Lemma q_exponent_inj i j : 0 ≤ i < n - 2 → 0 ≤ j < n - 2 →
  q_exponent layout n stripe i = q_exponent layout n stripe j → i = j.
Proof.
  intros Hi Hj. rewrite !q_exponent_eq by done.
  destruct (raid6_place layout n stripe Hl Hn i Hi) as (? & ? & ?).
  destruct (raid6_place layout n stripe Hl Hn j Hj) as (? & ? & ?).
  destruct (raid6_checks layout n stripe Hl Hn) as (_ & ? & _).
  intros E. apply (raid6_inj layout n stripe Hl Hn); [done..|].
  destruct (_ && _); [done|]. cbn zeta in E.
  eapply data_from_inj in E; [done|lia| |done|done|unfold is_data; lia..].
  destruct (Z.eqb_spec (qd6 layout n stripe) (n - 1)); lia.
Qed.
End exponents.

(** ** RAID10 copies *)

Lemma mod_inj a b d : 0 < d → a mod d = b mod d → - d < a - b < d → a = b.
Proof.
  intros Hd E Hr. pose proof (Z.div_mod a d ltac:(lia)) as Ha.
  pose proof (Z.div_mod b d ltac:(lia)) as Hb. rewrite E in Ha.
  assert (a - b = d * (a / d - b / d)) as Hq by lia.
  generalize dependent (a / d - b / d). intros q Hq.
  assert (- 1 < q < 1) by (split; apply (Z.mul_lt_mono_pos_l d); lia).
  assert (q = 0) as -> by lia. lia.
Qed.

Lemma euclid_inj b q1 r1 q2 r2 : 0 ≤ r1 < b → 0 ≤ r2 < b →
  q1 * b + r1 = q2 * b + r2 → q1 = q2 ∧ r1 = r2.
Proof. intros. apply (Z.div_mod_unique b); [by left..|lia]. Qed.

(** A layout over [d] members of [far] sections of [stride] chunk rows, small
    enough that no product of the placement wraps. *)
Record raid10_ok (g : Raid10) (d : Z) : Prop := {
  r10_near : 0 < near g;
  r10_far : 0 < far g;
  r10_fits : near g * far g ≤ d;
  r10_stride : 0 ≤ stride g;
  r10_rows : stride g * d < 2 ^ 64;
  r10_chunks : stride g * far g < 2 ^ 64;
}.

(** The chunks such an array has. *)
Definition raid10_chunks (g : Raid10) (d : Z) : Z := stride g * d / near g.

Section raid10.
Context (g : Raid10) (d : Z) (Hg : raid10_ok g d).

Lemma raid10_pos : 0 < d.
Proof. destruct Hg. nia. Qed.

Lemma copy_bounds c i : 0 ≤ c < raid10_chunks g d → 0 ≤ i < near g →
  0 ≤ c * near g + i < stride g * d ∧ u64 (c * near g + i) = c * near g + i.
Proof.
  intros Hc Hi. destruct Hg. unfold raid10_chunks in Hc.
  assert ((c + 1) * near g ≤ stride g * d).
  { pose proof (Z.mul_div_le (stride g * d) (near g) ltac:(lia)). nia. }
  split; [nia|]. apply u64_small. nia.
Qed.

(** The place of a copy, without the machine's wrap-around. *)
Lemma copy_at_eq c i k : 0 ≤ c < raid10_chunks g d → 0 ≤ i < near g → 0 ≤ k < far g →
  copy_at g d c i k =
  ((c * near g + i + k * near g) mod d,
   let row := (c * near g + i) / d in
   if r_offset g then row * far g + k else row + k * stride g) ∧
  0 ≤ (c * near g + i) / d < stride g.
Proof.
  intros Hc Hi Hk. destruct (copy_bounds c i Hc Hi) as [Hb Hu].
  pose proof raid10_pos as Hd. destruct Hg.
  assert (0 ≤ (c * near g + i) / d < stride g) as Hr.
  { split; [apply Z.div_pos; lia|apply Z.div_lt_upper_bound; lia]. }
  split; [|done]. unfold copy_at. rewrite Hu. rewrite Zplus_mod_idemp_l. f_equal.
  destruct (r_offset g); apply u64_small; nia.
Qed.

(** The copies of one chunk are on different members. *)
Lemma copy_slots_inj c i k i' k' : 0 ≤ c < raid10_chunks g d →
  0 ≤ i < near g → 0 ≤ k < far g → 0 ≤ i' < near g → 0 ≤ k' < far g →
  (copy_at g d c i k).1 = (copy_at g d c i' k').1 → i = i' ∧ k = k'.
Proof.
  intros Hc Hi Hk Hi' Hk'.
  destruct (copy_at_eq c i k) as [-> _]; [done..|].
  destruct (copy_at_eq c i' k') as [-> _]; [done..|]. cbn. intros E.
  pose proof raid10_pos. destruct Hg.
  apply mod_inj in E; [|done|nia].
  destruct (euclid_inj (near g) k i k' i'); [done|done|lia|done].
Qed.

Lemma copies_elem c x : x ∈ copies g d c ↔
  ∃ i k, 0 ≤ i < near g ∧ 0 ≤ k < far g ∧ x = copy_at g d c i k.
Proof.
  unfold copies. rewrite list_elem_of_bind. setoid_rewrite list_elem_of_bind.
  setoid_rewrite list_elem_of_singleton. setoid_rewrite elem_of_seqZ. split.
  - intros (i & (k & -> & Hk) & Hi). exists i, k. split_and!; [lia..|done].
  - intros (i & k & Hi & Hk & ->). exists i. split; [|lia]. exists k. split; [done|lia].
Qed.

Lemma copies_slots_NoDup c : 0 ≤ c < raid10_chunks g d → NoDup (map fst (copies g d c)).
Proof.
  intros Hc. unfold copies.
  assert (map fst (i ← seqZ 0 (near g); k ← seqZ 0 (far g); [copy_at g d c i k]) =
    (seqZ 0 (near g) ≫= λ i, seqZ 0 (far g) ≫= λ k, [(copy_at g d c i k).1])) as ->.
  { induction (seqZ 0 (near g)) as [|i l IH]; cbn; [done|]. rewrite map_app. f_equal; [|apply IH].
    clear. induction (seqZ 0 (far g)) as [|k l IH]; cbn; [done|]. by f_equal. }
  apply NoDup_bind; [| |apply NoDup_seqZ].
  - intros i i' y Hi%elem_of_seqZ Hi'%elem_of_seqZ
      (k & ->%list_elem_of_singleton & Hk%elem_of_seqZ)%list_elem_of_bind
      (k' & E%list_elem_of_singleton & Hk'%elem_of_seqZ)%list_elem_of_bind.
    apply copy_slots_inj in E; [naive_solver|lia..].
  - intros i Hi%elem_of_seqZ. apply NoDup_bind; [| |apply NoDup_seqZ].
    + intros k k' y Hk%elem_of_seqZ Hk'%elem_of_seqZ ->%list_elem_of_singleton
        E%list_elem_of_singleton.
      apply copy_slots_inj in E; [naive_solver|lia..].
    + intros. apply NoDup_singleton.
Qed.

Lemma copies_length c : 0 ≤ near g → 0 ≤ far g → zlen (copies g d c) = near g * far g.
Proof.
  intros H1 H2. unfold copies.
  assert (∀ i l, length (k ← l; [copy_at g d c i k]) = length l) as Hin.
  { intros i l. induction l as [|k l IH]; cbn; [done|]. by f_equal. }
  assert (∀ l, length (i ← l; k ← seqZ 0 (far g); [copy_at g d c i k])
    = (length l * length (seqZ 0 (far g)))%nat) as Hout.
  { intros l. induction l as [|i l IH]; [done|]. cbn [mbind list_bind length].
    rewrite length_app, Hin. cbn [mbind] in IH. rewrite IH. lia. }
  unfold zlen. rewrite Hout, !length_seqZ. nia.
Qed.

(** The primary copy is the first. *)
Lemma copies_head c : 0 ≤ c < raid10_chunks g d →
  copies g d c = primary g d c :: tail (copies g d c).
Proof.
  intros Hc. pose proof raid10_pos. destruct (copy_at_eq c 0 0) as [E Hr]; [done|destruct Hg; lia..|].
  destruct (copy_bounds c 0 Hc) as [Hb Hu]; [destruct Hg; lia|].
  unfold copies. rewrite (seqZ_cons 0 (near g)), (seqZ_cons 0 (far g)) by (destruct Hg; lia).
  cbn [mbind list_bind app tail]. f_equal. rewrite E.
  rewrite Z.add_0_r in Hr, Hb, Hu.
  unfold primary. cbn zeta. rewrite Hu, Z.mul_0_l, !Z.add_0_r. f_equal.
  destruct (r_offset g); [|done]. rewrite u64_small; [done|]. destruct Hg. nia.
Qed.

(** Two copies never share a place: the array's chunks can all be kept. *)
Lemma copy_at_inj c i k c' i' k' :
  0 ≤ c < raid10_chunks g d → 0 ≤ c' < raid10_chunks g d →
  0 ≤ i < near g → 0 ≤ k < far g → 0 ≤ i' < near g → 0 ≤ k' < far g →
  copy_at g d c i k = copy_at g d c' i' k' → c = c' ∧ i = i' ∧ k = k'.
Proof.
  intros Hc Hc' Hi Hk Hi' Hk'. pose proof raid10_pos as Hd.
  destruct (copy_at_eq c i k) as [-> Hr]; [done..|].
  destruct (copy_at_eq c' i' k') as [-> Hr']; [done..|]. cbn zeta. intros [= Es Er].
  assert (k = k' ∧ (c * near g + i) / d = (c' * near g + i') / d) as [<- Erow].
  { destruct (r_offset g).
    - destruct (euclid_inj (far g) ((c * near g + i) / d) k ((c' * near g + i') / d) k'); lia.
    - destruct (euclid_inj (stride g) k ((c * near g + i) / d) k' ((c' * near g + i') / d)); lia. }
  assert (c * near g + i = c' * near g + i') as Eat.
  { pose proof (Z.div_mod (c * near g + i) d ltac:(lia)) as H1. rewrite Erow in H1.
    pose proof (Z.div_mod (c' * near g + i') d ltac:(lia)) as H2.
    pose proof (Z.mod_pos_bound (c * near g + i) d Hd).
    pose proof (Z.mod_pos_bound (c' * near g + i') d Hd).
    apply mod_inj in Es; lia. }
  destruct (euclid_inj (near g) c i c' i'); [done|done|lia|done].
Qed.

(** Every copy is on a member of the array, inside its rows. *)
Lemma copy_at_inside c i k : 0 ≤ c < raid10_chunks g d → 0 ≤ i < near g → 0 ≤ k < far g →
  0 ≤ (copy_at g d c i k).1 < d ∧ 0 ≤ (copy_at g d c i k).2 < stride g * far g.
Proof.
  intros Hc Hi Hk. destruct (copy_at_eq c i k) as [-> Hr]; [done..|]. cbn.
  pose proof raid10_pos. split; [apply Z.mod_pos_bound; lia|].
  destruct Hg, (r_offset g); nia.
Qed.
End raid10.
