(* ===== verification/MdStripe.v ===== *)
(** * Reading a chunk of a striped array, whole or degraded

    What the members of a RAID4, 5, 6 or 10 array must hold for the array's
    bytes to be [L] ([parity_holds], [raid10_holds]), and the proof that
    [read_chunk] returns them while no more members are missing than the level
    allows: through P, through Q, and through both. *)
From S2P Require Import Prelude Bytes Device Gf256 MdLayout MdRows Md MdRead.

(** ** Buffers as functions *)

(** [len] bytes of [f] from [off]. *)
Definition bytes_of (f : Z → Z) (off len : Z) : list Z := map (λ j, f (off + j)) (seqZ 0 len).

Lemma bytes_of_eq f a g b len : (∀ j, 0 ≤ j < len → f (a + j) = g (b + j)) →
  bytes_of f a len = bytes_of g b len.
Proof.
  intros H. apply map_ext_in. intros j Hj%list_elem_of_In%elem_of_seqZ. apply H. lia.
Qed.

Lemma zlen_bytes_of f a len : 0 ≤ len → zlen (bytes_of f a len) = len.
Proof. intros. unfold bytes_of. by rewrite zlen_map, zlen_seqZ. Qed.

Lemma bytes_of_zeros a len : zeros len = bytes_of (λ _, 0) a len.
Proof.
  unfold zeros, bytes_of. rewrite <- (length_seqZ 0 len).
  induction (seqZ 0 len) as [|x l IH]; cbn; [done|]. by rewrite IH.
Qed.

Lemma zip_with_map_same {A} (h : Z → Z → Z) (f g : A → Z) l :
  zip_with h (map f l) (map g l) = map (λ x, h (f x) (g x)) l.
Proof. induction l as [|x l IH]; cbn; [done|]. by rewrite IH. Qed.

Lemma xor_into_bytes f g a b len :
  xor_into (bytes_of f a len) (bytes_of g b len) =
  bytes_of (λ j, Z.lxor (f (a + j)) (g (b + j))) 0 len.
Proof. apply zip_with_map_same. Qed.

Lemma map_bytes h f a len : map h (bytes_of f a len) = bytes_of (λ j, h (f j)) a len.
Proof. unfold bytes_of. by rewrite map_map. Qed.

(** ** Sums over GF(2) *)
Fixpoint xsum {A} (l : list A) (f : A → Z) : Z :=
  match l with [] => 0 | x :: l => Z.lxor (f x) (xsum l f) end.

Lemma xsum_app {A} (l k : list A) f : xsum (l ++ k) f = Z.lxor (xsum l f) (xsum k f).
Proof.
  induction l as [|x l IH]; cbn; [by rewrite Z.lxor_0_l|].
  by rewrite IH, Z.lxor_assoc.
Qed.

#[export] Instance xsum_perm {A} : Proper ((≡ₚ) ==> (=) ==> (=)) (@xsum A).
Proof.
  intros l k Hl f ? <-. induction Hl as [|x l k _ IH|x y l|l k m _ IH1 _ IH2]; cbn; [done| | |congruence].
  - by rewrite IH.
  - by rewrite <- !Z.lxor_assoc, (Z.lxor_comm (f y)).
Qed.

Lemma xsum_ext {A} (l : list A) f g : (∀ x, x ∈ l → f x = g x) → xsum l f = xsum l g.
Proof.
  induction l as [|x l IH]; intros H; cbn; [done|]. rewrite H by set_solver.
  rewrite IH; [done|]. set_solver.
Qed.

Lemma xsum_map {A B} (h : A → B) l f : xsum (map h l) f = xsum l (λ x, f (h x)).
Proof. induction l as [|x l IH]; cbn; [done|]. by rewrite IH. Qed.

Lemma xsum_u8 {A} (l : list A) f : (∀ x, x ∈ l → is_u8 (f x)) → is_u8 (xsum l f).
Proof.
  induction l as [|x l IH]; intros H; cbn; [unfold is_u8; lia|].
  apply lxor_u8; [apply H|apply IH]; set_solver.
Qed.

(** What is there and what is not. *)
Lemma xsum_split {A} (b : A → bool) l f :
  xsum l f = Z.lxor (xsum (List.filter b l) f) (xsum (List.filter (λ x, negb (b x)) l) f).
Proof.
  induction l as [|x l IH]; cbn; [done|]. rewrite IH.
  destruct (b x); cbn; rewrite <- !Z.lxor_assoc; [done|].
  f_equal. apply Z.lxor_comm.
Qed.

(** All but one term. *)
Lemma xsum_without l x f : NoDup l → x ∈ l →
  xsum l f = Z.lxor (xsum (List.filter (λ y, negb (y =? x)) l) f) (f x).
Proof.
  intros Hnd Hx. rewrite (xsum_split (λ y, negb (y =? x))). f_equal.
  induction Hnd as [|y l Hy Hnd IH]; [by apply not_elem_of_nil in Hx|]. cbn.
  rewrite negb_involutive. destruct (Z.eqb_spec y x) as [->|Hne].
  - assert (List.filter (λ z, negb (negb (z =? x))) l = []) as ->; [|cbn; by rewrite Z.lxor_0_r].
    clear -Hy. induction l as [|z l IH]; cbn; [done|].
    destruct (Z.eqb_spec z x) as [->|]; cbn; [set_solver|]. apply IH. set_solver.
  - apply IH. set_solver.
Qed.

(** ** Members that answer *)

(** [member] reads the bytes [mem] of the members that are present, up to
    [room]. *)
Definition reads_member (member : ReadMember) (here : Z → bool) (n room : Z)
    (mem : Z → Z → Z) : Prop :=
  ∀ slot off len, 0 ≤ slot < n → 0 ≤ off → 0 ≤ len → off + len ≤ room →
    member slot off len = Ok (if here slot then Some (bytes_of (mem slot) off len) else None).

(** How many of [n] members are missing. *)
Definition absent (here : Z → bool) (n : Z) : list Z :=
  List.filter (λ s, negb (here s)) (seqZ 0 n).

Lemma absent_perm here n l : l ≡ₚ seqZ 0 n →
  length (List.filter (λ s, negb (here s)) l) = length (absent here n).
Proof.
  unfold absent. induction 1 as [|x l k _ IH|x y l|l k m _ IH1 _ IH2]; cbn; [done| | |congruence].
  - destruct (negb (here x)); cbn; congruence.
  - by destruct (negb (here x)), (negb (here y)).
Qed.

(** ** What the members of a parity array hold *)

(** RAID4 places its rows parity-last whatever its layout says. *)
Definition row_layout (s : Striping) : Z :=
  if st_level s =? LEVEL_RAID4 then LAYOUT_PARITY_LAST else st_layout s.

Definition data_members (s : Striping) : Z := st_members s - parity_of (st_level s).

Section holds.
Context (s : Striping).
Local Abbreviation lvl := (st_level s).
Local Abbreviation lay := (row_layout s).
Local Abbreviation n := (st_members s).
Local Abbreviation nd := (data_members s).
Local Abbreviation chunk := (st_chunk s).

(** The array byte [w] bytes into data chunk [i] of row [stripe]. *)
Definition array_byte (stripe i w : Z) : Z := (stripe * nd + i) * chunk + w.

(** The weight of data chunk [i] in Q. *)
Definition weight (stripe i : Z) : Z := gf_pow2 (q_exponent lay n stripe i).

Record parity_holds (rows : Z) (mem : Z → Z → Z) (L : Z → Z) : Prop := {
  ph_bytes : ∀ pos, is_u8 (L pos);
  ph_data : ∀ stripe i w, 0 ≤ stripe < rows → 0 ≤ i < nd → 0 ≤ w < chunk →
    mem (data_at lvl lay n stripe i) (stripe * chunk + w) = L (array_byte stripe i w);
  ph_p : ∀ stripe w, 0 ≤ stripe < rows → 0 ≤ w < chunk →
    mem (p_at lvl lay n stripe) (stripe * chunk + w) =
    xsum (seqZ 0 nd) (λ i, L (array_byte stripe i w));
  ph_q : ∀ stripe w q, 0 ≤ stripe < rows → 0 ≤ w < chunk →
    q_at lvl lay n stripe = Some q →
    mem q (stripe * chunk + w) =
    xsum (seqZ 0 nd) (λ i, gf_mul (weight stripe i) (L (array_byte stripe i w)));
}.

(** A parity level with a layout it places, over enough members. The RAID6
    bound is the order of the field's group. *)
Record parity_ok (rows : Z) : Prop := {
  po_raid10 : st_raid10 s = None;
  po_placed : placed_layout lvl lay;
  po_chunk : 0 < chunk;
  po_members : parity_of lvl < n;
  po_exponents : lvl = LEVEL_RAID6 → n ≤ 255;
  po_u64 : rows * chunk < 2 ^ 64;
}.
End holds.

Lemma xor_slots member here n room mem dd off len l F :
  reads_member member here n room mem → 0 ≤ off → 0 ≤ len → off + len ≤ room →
  Forall (λ m, 0 ≤ m < n ∧ (m ≠ dd → here m = true)) l →
  foldM (xor_slot member dd off len None) (bytes_of F 0 len) l =
  Ok (bytes_of (λ j, Z.lxor (F j)
        (xsum (List.filter (λ y, negb (y =? dd)) l) (λ m, mem m (off + j)))) 0 len).
Proof.
  intros Hm Ho Hn Hr. revert F. induction l as [|m l IH]; intros F; cbn [foldM List.filter].
  { intros _. f_equal. apply bytes_of_eq. intros j _. cbn. by rewrite Z.lxor_0_r. }
  intros [[Hm1 Hm2] Hl]%Forall_cons. unfold xor_slot at 2.
  rewrite bool_decide_eq_false_2, orb_false_r by done.
  destruct (Z.eqb_spec m dd) as [->|Hne]; cbn [negb mbind Result_bind]; [by apply IH|].
  rewrite Hm, Hm2 by done. cbn [mbind Result_bind]. rewrite xor_into_bytes, IH by done.
  f_equal. apply bytes_of_eq. intros j _. cbn [xsum]. by rewrite !Z.add_0_l, Z.lxor_assoc.
Qed.

(** A second vacancy is one too many for a single parity. *)
Lemma absent_one here n x m : (length (absent here n) ≤ 1)%nat →
  0 ≤ x < n → here x = false → 0 ≤ m < n → m ≠ x → here m = true.
Proof.
  intros Hl Hx Hhx Hm Hne. destruct (here m) eqn:Hhm; [done|exfalso].
  assert (length [m; x] ≤ length (absent here n))%nat; [|cbn in *; lia].
  apply submseteq_length, NoDup_submseteq.
  { repeat constructor; set_solver. }
  intros y Hy. apply list_elem_of_In, filter_In. rewrite <- list_elem_of_In, elem_of_seqZ.
  rewrite !elem_of_cons, elem_of_nil in Hy. destruct Hy as [->|[->|[]]]; [by rewrite Hhm|by rewrite Hhx].
Qed.

(** ** A chunk read through P *)
Section parity.
Context (s : Striping) (rows : Z) (Hs : parity_ok s rows).
Context (member : ReadMember) (here : Z → bool) (mem : Z → Z → Z) (L : Z → Z).
Context (Hm : reads_member member here (st_members s) (rows * st_chunk s) mem).
Context (HL : parity_holds s rows mem L).
Context (stripe x off len within : Z).
Context (Hstripe : 0 ≤ stripe < rows) (Hx : 0 ≤ x < data_members s).
Context (Hwithin : 0 ≤ within) (Hlen : 0 ≤ len) (Hend : within + len ≤ st_chunk s).
Context (Hoff : off = stripe * st_chunk s + within).

Local Abbreviation lvl := (st_level s).
Local Abbreviation lay := (row_layout s).
Local Abbreviation n := (st_members s).
Local Abbreviation nd := (data_members s).
Local Abbreviation want := (bytes_of L (array_byte s stripe x within) len).
Local Abbreviation dat i j := (L (array_byte s stripe i (within + j))).

Lemma row_off : 0 ≤ off ∧ off + len ≤ rows * st_chunk s.
Proof. destruct Hs. nia. Qed.

Lemma row_perm : row_of n nd (data_at lvl lay n stripe)
  (p_at lvl lay n stripe :: option_list (q_at lvl lay n stripe)).
Proof. destruct Hs. by apply row_members. Qed.

Lemma in_row m : m ∈ map (data_at lvl lay n stripe) (seqZ 0 nd) ++
  p_at lvl lay n stripe :: option_list (q_at lvl lay n stripe) → 0 ≤ m < n.
Proof. pose proof row_perm as H. unfold row_of in H. rewrite H, elem_of_seqZ. lia. Qed.

Lemma data_in_row i : 0 ≤ i < nd → 0 ≤ data_at lvl lay n stripe i < n.
Proof.
  intros Hi. apply in_row, elem_of_app. left. apply list_elem_of_fmap.
  exists i. split; [done|]. apply elem_of_seqZ. lia.
Qed.

Lemma read_data i j : 0 ≤ i < nd → 0 ≤ j < len →
  mem (data_at lvl lay n stripe i) (off + j) = dat i j.
Proof.
  intros Hi Hj. rewrite Hoff, <- Z.add_assoc. apply (ph_data _ _ _ _ HL); lia.
Qed.

Lemma read_p j : 0 ≤ j < len →
  mem (p_at lvl lay n stripe) (off + j) = xsum (seqZ 0 nd) (λ i, dat i j).
Proof. intros Hj. rewrite Hoff, <- Z.add_assoc. apply (ph_p _ _ _ _ HL); lia. Qed.

Lemma dat_byte j : L (array_byte s stripe x within + j) = dat x j.
Proof. unfold array_byte. f_equal. lia. Qed.

(** The data member is there. *)
Lemma read_whole : here (data_at lvl lay n stripe x) = true →
  member (data_at lvl lay n stripe x) off len = Ok (Some want).
Proof.
  intros Hh. pose proof row_off. rewrite Hm, Hh; [|by apply data_in_row|lia..].
  do 2 f_equal. apply bytes_of_eq. intros j Hj. by rewrite read_data, dat_byte.
Qed.

(** RAID4 and RAID5: everything else in the row, XORed. *)
Lemma rebuild_p : lvl ≠ LEVEL_RAID6 → (length (absent here n) ≤ 1)%nat →
  here (data_at lvl lay n stripe x) = false →
  foldM (xor_slot member (data_at lvl lay n stripe x) off len None) (zeros len) (seqZ 0 n) = Ok want.
Proof.
  intros H6 Hab Hh. pose proof row_off as [Ho1 Ho2]. pose proof (data_in_row x Hx) as Hd.
  rewrite (bytes_of_zeros 0).
  rewrite (xor_slots _ here n _ mem _ _ _ _ _ Hm); [|done..|].
  2:{ apply list.Forall_forall. intros m [? ?]%elem_of_seqZ. split; [lia|]. intros.
      eapply absent_one; [done..|lia|done]. }
  f_equal. apply bytes_of_eq. intros j Hj. rewrite dat_byte, Z.lxor_0_l, Z.add_0_l.
  assert (xsum (seqZ 0 n) (λ m, mem m (off + j)) = 0) as H0.
  { assert (q_at lvl lay n stripe = None) as Hq.
    { unfold q_at, parity_map. rewrite (proj2 (Z.eqb_neq _ _)) by done.
      by repeat (destruct (lay =? _); [done|]). }
    pose proof row_perm as Hp. unfold row_of in Hp. rewrite Hq in Hp. rewrite <- Hp.
    rewrite xsum_app, xsum_map. cbn [xsum option_list]. rewrite Z.lxor_0_r, read_p by done.
    rewrite (xsum_ext _ _ (λ i, dat i j)); [apply Z.lxor_nilpotent|].
    intros i [? ?]%elem_of_seqZ. apply read_data; lia. }
  rewrite (xsum_without _ (data_at lvl lay n stripe x)) in H0;
    [|apply NoDup_seqZ|apply elem_of_seqZ; lia].
  apply Z.lxor_eq in H0. by rewrite H0, read_data.
Qed.

(** ** RAID6: what is left of P and Q *)
Local Abbreviation gone l := (List.filter (λ i, negb (here (data_at lvl lay n stripe i))) l).
Local Abbreviation kept l := (List.filter (λ i, here (data_at lvl lay n stripe i)) l).

Lemma take_out_step i F G ms : lvl = LEVEL_RAID6 → 0 ≤ i < nd →
  take_out s member stripe off len (bytes_of F 0 len, bytes_of G 0 len, ms) i =
  Ok (if here (data_at lvl lay n stripe i)
      then (bytes_of (λ j, Z.lxor (F j) (dat i j)) 0 len,
            bytes_of (λ j, Z.lxor (G j) (gf_mul (weight s stripe i) (dat i j))) 0 len, ms)
      else (bytes_of F 0 len, bytes_of G 0 len, ms ++ [i])).
Proof.
  intros H6 Hi. pose proof row_off. pose proof (data_in_row i Hi) as Hd.
  assert (st_layout s = lay) as Elay by (unfold row_layout; by rewrite H6).
  unfold take_out. rewrite Elay, <- H6.
  rewrite parity_map_eq by apply Hs. cbn [fst snd].
  rewrite Hm by lia. cbn [mbind Result_bind].
  destruct (here _); [|done]. rewrite map_bytes, !xor_into_bytes. do 3 f_equal.
  all: apply bytes_of_eq; intros j Hj; by rewrite !Z.add_0_l, read_data by done.
Qed.

Lemma take_out_all l F G ms : lvl = LEVEL_RAID6 → Forall (λ i, 0 ≤ i < nd) l →
  foldM (take_out s member stripe off len) (bytes_of F 0 len, bytes_of G 0 len, ms) l =
  Ok (bytes_of (λ j, Z.lxor (F j) (xsum (kept l) (λ i, dat i j))) 0 len,
      bytes_of (λ j, Z.lxor (G j)
        (xsum (kept l) (λ i, gf_mul (weight s stripe i) (dat i j)))) 0 len,
      ms ++ gone l).
Proof.
  intros H6. revert F G ms. induction l as [|i l IH]; intros F G ms; cbn [foldM List.filter].
  { intros _. rewrite app_nil_r. do 3 f_equal;
      apply bytes_of_eq; intros j _; cbn [xsum]; by rewrite Z.lxor_0_r. }
  intros [Hi Hl]%Forall_cons. rewrite take_out_step by done. cbn [mbind Result_bind].
  destruct (here _); cbn [negb]; rewrite IH by done.
  - do 3 f_equal; apply bytes_of_eq; intros j _; cbn [xsum];
      by rewrite !Z.add_0_l, Z.lxor_assoc.
  - by rewrite <- app_assoc.
Qed.

(** The missing chunks' share of a check that is present. *)
Lemma check_left f :
  Z.lxor (xsum (seqZ 0 nd) f) (xsum (kept (seqZ 0 nd)) f) = xsum (gone (seqZ 0 nd)) f.
Proof.
  rewrite (xsum_split (λ i, here (data_at lvl lay n stripe i)) (seqZ 0 nd)).
  by rewrite (Z.lxor_comm (xsum (kept _) f)), Z.lxor_assoc, Z.lxor_nilpotent, Z.lxor_0_r.
Qed.

Lemma gone_elem i : i ∈ gone (seqZ 0 nd) ↔ 0 ≤ i < nd ∧ here (data_at lvl lay n stripe i) = false.
Proof.
  rewrite list_elem_of_In, filter_In, <- list_elem_of_In, elem_of_seqZ, negb_true_iff.
  split; intros [??]; (split; [lia|done]).
Qed.

Lemma gone_NoDup : NoDup (gone (seqZ 0 nd)).
Proof. apply NoDup_ListNoDup, List.NoDup_filter, NoDup_ListNoDup, NoDup_seqZ. Qed.

(** The vacancies of the row: lost data chunks, then P and Q. *)
Lemma absent_row q : q_at lvl lay n stripe = Some q →
  length (absent here n) =
  (length (gone (seqZ 0 nd)) + (if here (p_at lvl lay n stripe) then 0 else 1)
   + (if here q then 0 else 1))%nat.
Proof.
  intros Hq. pose proof row_perm as Hp. unfold row_of in Hp. rewrite Hq in Hp.
  rewrite <- (absent_perm _ _ _ Hp), List.filter_app, length_app. cbn.
  assert (∀ l, length (List.filter (λ m, negb (here m)) (map (data_at lvl lay n stripe) l)) =
    length (gone l)) as ->.
  { induction l as [|i l IH]; cbn; [done|]. destruct (here _); cbn; congruence. }
  destruct (here (p_at _ _ _ _)), (here q); cbn; lia.
Qed.

Lemma weight_u8 i : is_u8 (weight s stripe i).
Proof. apply gf_pow2_u8. Qed.

Lemma dat_u8 i j : is_u8 (dat i j).
Proof. apply (ph_bytes _ _ _ _ HL). Qed.

Lemma exponents_apart a b : lvl = LEVEL_RAID6 → 0 ≤ a < nd → 0 ≤ b < nd → a ≠ b →
  (q_exponent lay n stripe b - q_exponent lay n stripe a) mod 255 ≠ 0.
Proof.
  intros H6 Ha Hb Hne E. destruct Hs as [_ Hpl _ Hmem Hexp _]. specialize (Hpl H6). specialize (Hexp H6).
  unfold data_members, parity_of in *. rewrite H6 in *. cbn in Ha, Hb, Hmem.
  pose proof (q_exponent_range lay n stripe Hpl ltac:(lia) a ltac:(lia)).
  pose proof (q_exponent_range lay n stripe Hpl ltac:(lia) b ltac:(lia)).
  apply Hne, (q_exponent_inj lay n stripe Hpl ltac:(lia)); [lia..|].
  symmetry. apply (mod_inj _ _ 255); [lia| |lia].
  replace (q_exponent lay n stripe b)
    with (q_exponent lay n stripe b - q_exponent lay n stripe a + q_exponent lay n stripe a) by lia.
  rewrite Z.add_mod, E, Z.add_0_l, Z.mod_mod by lia. done.
Qed.

(** One check read, or the zeros its buffer keeps. *)
Lemma check_read m f : 0 ≤ m < n → (∀ j, 0 ≤ j < len → mem m (off + j) = f j) →
  member m off len = Ok (if here m then Some (bytes_of f 0 len) else None) ∧
  default (zeros len) (if here m then Some (bytes_of f 0 len) else None) =
  bytes_of (λ j, if here m then f j else 0) 0 len.
Proof.
  intros Hr Hf. pose proof row_off. rewrite Hm by lia. destruct (here m); cbn.
  - split; [|done]. do 2 f_equal. apply bytes_of_eq. intros j Hj. by rewrite Z.add_0_l, Hf.
  - split; [done|]. apply bytes_of_zeros.
Qed.

Lemma solve_two_eq ex ey X Y : (∀ j, is_u8 (X j)) → (∀ j, is_u8 (Y j)) →
  (ey - ex) mod 255 ≠ 0 →
  solve_two ex ey (bytes_of (λ j, Z.lxor (X j) (Y j)) 0 len)
    (bytes_of (λ j, Z.lxor (gf_mul (gf_pow2 ex) (X j)) (gf_mul (gf_pow2 ey) (Y j))) 0 len) =
  Some (bytes_of X 0 len).
Proof.
  intros HX HY Hne. unfold solve_two.
  destruct (Z.eqb_spec (Z.lxor (gf_pow2 (ey - ex)) 1) 0) as [E|_].
  { apply Z.lxor_eq in E. exfalso. apply Hne. rewrite <- gf_pow2_0 in E.
    apply gf_pow2_inj in E. by rewrite E. }
  f_equal. unfold bytes_of. rewrite zip_with_map_same.
  apply map_ext. intros j. by apply gf_recover.
Qed.

Lemma want_eq : bytes_of (λ j, dat x j) 0 len = want.
Proof. apply bytes_of_eq. intros j _. by rewrite dat_byte, Z.add_0_l. Qed.

(** The pair [a; b] with [x] in it, [x] first. *)
Lemma pair_sum a b (f : Z → Z) : x ∈ [a; b] →
  xsum [a; b] f = Z.lxor (f x) (f (if a =? x then b else a)).
Proof.
  intros Hxab. cbn [xsum]. rewrite Z.lxor_0_r.
  destruct (Z.eqb_spec a x) as [->|Hne]; [done|].
  assert (x = b) as -> by set_solver. apply Z.lxor_comm.
Qed.

(** Two data chunks missing, [x] and another: P and Q give [x] back. *)
Lemma solve_pair a b : lvl = LEVEL_RAID6 → NoDup [a; b] → x ∈ [a; b] → (∀ i, i ∈ [a; b] → 0 ≤ i < nd) →
  let y := if a =? x then b else a in
  solve_two (q_exponent lay n stripe x) (q_exponent lay n stripe y)
    (bytes_of (λ j, xsum [a; b] (λ i, dat i j)) 0 len)
    (bytes_of (λ j, xsum [a; b] (λ i, gf_mul (weight s stripe i) (dat i j))) 0 len) = Some want.
Proof.
  intros H6 Hnodup Hxg Hin y. assert (0 ≤ y < nd ∧ x ≠ y) as [Hy Hxy].
  { apply NoDup_cons in Hnodup as [Hab' _]. subst y. split.
    - apply Hin. destruct (a =? x); set_solver.
    - destruct (Z.eqb_spec a x); set_solver. }
  rewrite <- want_eq, <- (solve_two_eq _ _ (λ j, dat x j) (λ j, dat y j) (λ j, dat_u8 x j) (λ j, dat_u8 y j)
    (exponents_apart x y H6 Hx Hy Hxy)).
  apply (f_equal2 (solve_two _ _)); apply bytes_of_eq; intros j _.
  - exact (pair_sum a b (λ i, dat i (0 + j)) Hxg).
  - exact (pair_sum a b (λ i, gf_mul (weight s stripe i) (dat i (0 + j))) Hxg).
Qed.

Lemma rebuild_pq : lvl = LEVEL_RAID6 → (length (absent here n) ≤ 2)%nat →
  here (data_at lvl lay n stripe x) = false →
  rebuild_raid6 s member stripe x off len = Ok want.
Proof.
  intros H6 Hab Hh.
  assert (st_layout s = lay) as Elay by (unfold row_layout; by rewrite H6).
  assert (n - 2 = nd) as Hnd by (unfold data_members, parity_of; by rewrite H6).
  assert (∃ q, q_at lvl lay n stripe = Some q) as [q Hq].
  { unfold q_at, parity_map. rewrite H6. cbn. by destruct (raid6_map _ _ _ _) as [[??] ?]; eexists. }
  unfold rebuild_raid6. rewrite Elay, <- H6, parity_map_eq by apply Hs. rewrite Hq, Hnd.
  cbn [ok_or mbind Result_bind].
  destruct (check_read (p_at lvl lay n stripe) (λ j, xsum (seqZ 0 nd) (λ i, dat i j)))
    as [-> Ep]; [apply in_row; set_solver|intros j Hj; by apply read_p|].
  destruct (check_read q (λ j, xsum (seqZ 0 nd) (λ i, gf_mul (weight s stripe i) (dat i j))))
    as [-> Eq]; [apply in_row; rewrite Hq; set_solver| |].
  { intros j Hj. rewrite Hoff, <- Z.add_assoc. apply (ph_q _ _ _ _ HL); [done|lia|done]. }
  cbn [mbind Result_bind]. rewrite Ep, Eq, take_out_all;
    [|done|apply list.Forall_forall; intros i [??]%elem_of_seqZ; lia].
  cbn [mbind Result_bind app]. clear Ep Eq.
  pose proof (absent_row q Hq) as Hrow.
  pose proof (proj2 (gone_elem x) (conj Hx Hh)) as Hxg.
  pose proof gone_NoDup as Hnodup.
  pose proof check_left as Hleft.
  pose proof (λ i (Hi : i ∈ gone (seqZ 0 nd)), proj1 (proj1 (gone_elem i) Hi)) as Hin.
  destruct (gone (seqZ 0 nd)) as [|a [|b [|c l]]] eqn:Eg; cbn [length] in Hrow;
    [by apply not_elem_of_nil in Hxg| | |lia].
  - assert (a = x) as -> by set_solver.
    destruct (here (p_at lvl lay n stripe)) eqn:Hp.
    + cbn [is_there]. f_equal. rewrite <- want_eq. apply bytes_of_eq. intros j _.
      rewrite Hleft. cbn [xsum]. by rewrite Z.lxor_0_r.
    + destruct (here q) eqn:Hq'; [|lia]. cbn [is_there]. f_equal. rewrite map_bytes, <- want_eq.
      apply bytes_of_eq. intros j _. rewrite Hleft. cbn [xsum]. rewrite Z.lxor_0_r.
      apply gf_cancel, dat_u8.
  - destruct (here (p_at lvl lay n stripe)); [|lia]. destruct (here q); [|lia]. cbn [is_there andb].
    change (Ok want) with (ok_or (Some want) (lost stripe [a; b] true true)).
    rewrite <- (solve_pair a b H6 Hnodup Hxg Hin). f_equal.
    apply (f_equal2 (solve_two _ _)); apply bytes_of_eq; intros j _; apply Hleft.
Qed.
End parity.

(** ** RAID4, RAID5 and RAID6 chunks *)
Lemma parity_read_chunk s rows member here mem L k within len :
  parity_ok s rows →
  reads_member member here (st_members s) (rows * st_chunk s) mem →
  parity_holds s rows mem L →
  (length (absent here (st_members s)) ≤ Z.to_nat (parity_of (st_level s)))%nat →
  0 ≤ k < rows * data_members s → 0 ≤ within → 0 ≤ len → within + len ≤ st_chunk s →
  read_chunk s member k within len = Ok (bytes_of L (k * st_chunk s + within) len).
Proof.
  intros Hs Hm HL Hab Hk Hw Hlen Hend.
  set (nd := data_members s) in *. set (stripe := k / nd). set (x := k mod nd).
  assert (0 < nd) as Hnd by (destruct Hs; unfold nd, data_members; lia).
  assert (0 ≤ stripe < rows) as Hstripe.
  { split; [apply Z.div_pos; lia|apply Z.div_lt_upper_bound; lia]. }
  assert (0 ≤ x < nd) as Hx by (apply Z.mod_pos_bound; lia).
  assert (array_byte s stripe x within = k * st_chunk s + within) as Ebyte.
  { unfold array_byte. fold nd. unfold stripe, x. rewrite (Z.div_mod k nd) at 3 by lia. lia. }
  set (off := stripe * st_chunk s + within).
  pose proof (row_off s rows Hs stripe off len within Hstripe Hw Hlen Hend eq_refl) as Hoff.
  unfold read_chunk. rewrite (po_raid10 _ _ Hs). fold (parity_of (st_level s)).
  fold (data_members s). fold nd. fold stripe. fold x. fold (row_layout s).
  rewrite parity_map_eq by apply Hs.
  replace (u64 (u64 (stripe * st_chunk s) + within)) with off.
  2:{ pose proof (po_u64 _ _ Hs). pose proof (po_chunk _ _ Hs). unfold off in *.
      assert (0 ≤ stripe * st_chunk s) by (apply Z.mul_nonneg_nonneg; lia).
      by rewrite !u64_small by (rewrite ?u64_small; lia). }
  destruct (here (data_at (st_level s) (row_layout s) (st_members s) stripe x)) eqn:Hh.
  - rewrite (read_whole s rows Hs member here mem L Hm HL stripe x off len within) by done.
    cbn [mbind Result_bind]. by rewrite Ebyte.
  - rewrite Hm; [|by apply (data_in_row s rows Hs stripe x)|lia..].
    rewrite Hh. cbn [mbind Result_bind].
    destruct (Z.eqb_spec (st_level s) LEVEL_RAID6) as [H6|H6]; rewrite <- Ebyte.
    + apply (rebuild_pq s rows Hs member here mem L Hm HL stripe x off len within); try done.
      unfold parity_of in Hab. rewrite H6 in Hab. done.
    + assert (q_at (st_level s) (row_layout s) (st_members s) stripe = None) as ->.
      { unfold q_at, parity_map. rewrite (proj2 (Z.eqb_neq _ _)) by done.
        by repeat (destruct (row_layout s =? _); [done|]). }
      apply (rebuild_p s rows Hs member here mem L Hm HL stripe x off len within); try done.
      unfold parity_of in Hab. by rewrite (proj2 (Z.eqb_neq _ _)) in Hab.
Qed.

(** ** RAID10 chunks *)

(** Every copy of a chunk holds the chunk. *)
Definition raid10_holds (g : Raid10) (d chunk : Z) (mem : Z → Z → Z) (L : Z → Z) : Prop :=
  ∀ c i k w, 0 ≤ c < raid10_chunks g d → 0 ≤ i < near g → 0 ≤ k < far g → 0 ≤ w < chunk →
    mem (copy_at g d c i k).1 ((copy_at g d c i k).2 * chunk + w) = L (c * chunk + w).

Section raid10.
Context (s : Striping) (g : Raid10) (Hg : raid10_ok g (st_members s)).
Context (Hr : st_raid10 s = Some g) (Hchunk : 0 < st_chunk s).
Context (Hu : stride g * far g * st_chunk s < 2 ^ 64).
Context (member : ReadMember) (here : Z → bool) (mem : Z → Z → Z) (L : Z → Z).
Context (Hm : reads_member member here (st_members s) (stride g * far g * st_chunk s) mem).
Context (HL : raid10_holds g (st_members s) (st_chunk s) mem L).
Context (c within len : Z) (Hc : 0 ≤ c < raid10_chunks g (st_members s)).
Context (Hw : 0 ≤ within) (Hlen : 0 ≤ len) (Hend : within + len ≤ st_chunk s).

Local Abbreviation want := (bytes_of L (c * st_chunk s + within) len).

(** Reading any one copy. *)
Lemma read_copy x : x ∈ copies g (st_members s) c →
  member x.1 (u64 (u64 (x.2 * st_chunk s) + within)) len =
  Ok (if here x.1 then Some want else None).
Proof.
  intros (i & k & Hi & Hk & ->)%copies_elem.
  destruct (copy_at_inside g _ Hg c i k) as [Hs1 Hs2]; [done..|].
  set (slot := (copy_at g (st_members s) c i k).1) in *.
  set (row := (copy_at g (st_members s) c i k).2) in *.
  assert (row * st_chunk s + st_chunk s ≤ stride g * far g * st_chunk s) by nia.
  assert (0 ≤ row * st_chunk s) by (apply Z.mul_nonneg_nonneg; lia).
  rewrite !u64_small by (rewrite ?u64_small; lia). rewrite Hm by lia. destruct (here slot); [|done].
  do 2 f_equal. apply bytes_of_eq. intros j Hj.
  rewrite <- !Z.add_assoc. apply (HL c i k (within + j)); lia.
Qed.

Lemma first_copy_ok last l : (∀ x, x ∈ l → x ∈ copies g (st_members s) c) →
  (∃ x, x ∈ l ∧ here x.1 = true) →
  first_copy member (st_chunk s) within len c last l = Ok want.
Proof.
  revert last. induction l as [|x l IH]; intros last Hl (y & Hy & Hhy).
  { by apply not_elem_of_nil in Hy. }
  cbn [first_copy]. pose proof (read_copy x ltac:(apply Hl; set_solver)) as Hx.
  destruct x as [slot row]. cbn [fst snd] in Hx. rewrite Hx.
  destruct (here slot) eqn:Hh; [done|]. apply IH; [set_solver|].
  exists y. apply elem_of_cons in Hy as [->|Hy]; [by cbn in Hhy; rewrite Hh in Hhy|done].
Qed.

Lemma raid10_read_chunk :
  (∃ x, x ∈ copies g (st_members s) c ∧ here x.1 = true) →
  read_chunk s member c within len = Ok want.
Proof.
  intros Hex. unfold read_chunk. rewrite Hr.
  pose proof (first_copy_ok None (copies g (st_members s) c) ltac:(done) Hex) as Hfirst.
  pose proof (read_copy (primary g (st_members s) c)) as Hp.
  rewrite (copies_head g _ Hg c Hc) in Hfirst, Hp. specialize (Hp ltac:(set_solver)).
  destruct (primary g (st_members s) c) as [slot row]. cbn [first_copy] in Hfirst.
  cbn [fst snd] in Hp. rewrite Hp in Hfirst |- *. by destruct (here slot).
Qed.
End raid10.
