(* ===== verification/MdZones.v ===== *)
(** * RAID0 zones tile the array and its members

    [raid0_zones] over members of sizes [sizes]: the zones follow each other
    from 0, one for each distinct size, and together they are as long as the
    members; a zone's rows end where its shortest member does; and no two
    array bytes are kept in one place. *)
From S2P Require Import Prelude Bytes MdLayout MdRows.

(** ** Sorting without repeats *)
Lemma dedup_elem l x : x ∈ dedup l ↔ x ∈ l.
Proof.
  induction l as [|a l IH]; [done|]. destruct l as [|b l]; [done|].
  change (dedup (a :: b :: l)) with (if a =? b then dedup (b :: l) else a :: dedup (b :: l)).
  destruct (Z.eqb_spec a b) as [->|]; rewrite ?elem_of_cons, IH; set_solver.
Qed.

Lemma dedup_sorted l : StronglySorted Z.le l → StronglySorted Z.lt (dedup l).
Proof.
  induction 1 as [|a l Hl IH Ha]; [constructor|]. destruct l as [|b l]; [by repeat constructor|].
  change (dedup (a :: b :: l)) with (if a =? b then dedup (b :: l) else a :: dedup (b :: l)).
  destruct (Z.eqb_spec a b) as [->|Hne]; [done|]. constructor; [done|].
  apply list.Forall_forall. intros x Hx. rewrite dedup_elem in Hx.
  apply Forall_cons in Ha as [Hab _]. apply StronglySorted_inv in Hl as [_ Hb].
  apply elem_of_cons in Hx as [->|Hx]; [lia|]. pose proof (Forall_in _ _ _ Hb Hx) as H. cbn in H. lia.
Qed.

(** ** What is left of the members above a height *)
Fixpoint above (sizes : list Z) (prev : Z) : Z :=
  match sizes with [] => 0 | s :: sizes => Z.max 0 (s - prev) + above sizes prev end.

Lemma above_nonneg sizes prev : 0 ≤ above sizes prev.
Proof. induction sizes; cbn [above]; lia. Qed.

Lemma above_none sizes prev : (∀ s, s ∈ sizes → s ≤ prev) → above sizes prev = 0.
Proof.
  induction sizes as [|s l IH]; intros H; cbn [above]; [done|].
  rewrite IH by set_solver. specialize (H s ltac:(set_solver)). lia.
Qed.

(** Reading a list by index. *)
Lemma map_byte_at l : map (byte_at l) (seqZ 0 (zlen l)) = l.
Proof.
  apply list_eq. intros i. change (map (byte_at l)) with (fmap (M:=list) (byte_at l)).
  rewrite list_lookup_fmap. unfold zlen. destruct (decide (i < length l)%nat) as [Hi|Hi].
  - rewrite lookup_seqZ_lt by lia. cbn. unfold byte_at.
    replace (Z.to_nat (0 + Z.of_nat i)) with i by lia.
    destruct (l !! i) eqn:E; [done|]. apply lookup_ge_None in E. lia.
  - rewrite lookup_seqZ_ge by lia. cbn. symmetry. apply lookup_ge_None. lia.
Qed.

Lemma slots_reaching_sizes sizes e :
  map (byte_at sizes) (slots_reaching sizes e) = List.filter (λ s, e <=? s) sizes.
Proof.
  transitivity (List.filter (λ s, e <=? s) (map (byte_at sizes) (seqZ 0 (zlen sizes))));
    [|by rewrite map_byte_at]. unfold slots_reaching.
  induction (seqZ 0 (zlen sizes)) as [|i l IH]; cbn; [done|].
  destruct (e <=? byte_at sizes i); cbn; congruence.
Qed.

Lemma slots_reaching_elem sizes e s :
  s ∈ slots_reaching sizes e ↔ 0 ≤ s < zlen sizes ∧ e ≤ byte_at sizes s.
Proof.
  unfold slots_reaching. rewrite list_elem_of_In, filter_In, <- list_elem_of_In, elem_of_seqZ, Z.leb_le.
  lia.
Qed.

Lemma slots_reaching_NoDup sizes e : NoDup (slots_reaching sizes e).
Proof. apply NoDup_ListNoDup, List.NoDup_filter, NoDup_ListNoDup, NoDup_seqZ. Qed.

Lemma slots_reaching_some sizes e : e ∈ sizes → 0 < zlen (slots_reaching sizes e).
Proof.
  intros He. rewrite <- (zlen_map (byte_at sizes)), slots_reaching_sizes.
  assert (e ∈ List.filter (λ s, e <=? s) sizes) as Hf.
  { apply list_elem_of_In, filter_In. rewrite <- list_elem_of_In. split; [done|lia]. }
  destruct (List.filter _ sizes); [by apply not_elem_of_nil in Hf|]. unfold zlen. cbn [length]. lia.
Qed.

(** One zone takes its height off every member that reaches it. *)
Lemma above_step sizes prev e : prev ≤ e → (∀ s, s ∈ sizes → s ≤ prev ∨ e ≤ s) →
  above sizes prev = (e - prev) * zlen (slots_reaching sizes e) + above sizes e.
Proof.
  intros Hpe. rewrite <- (zlen_map (byte_at sizes)), slots_reaching_sizes.
  induction sizes as [|s l IH]; intros H; cbn [above List.filter]; [unfold zlen; cbn; lia|].
  rewrite IH by set_solver. specialize (H s ltac:(set_solver)).
  destruct (Z.leb_spec e s); unfold zlen; cbn [length]; lia.
Qed.

(** ** The zones *)
Inductive tiled (sizes : list Z) : Z → Z → list Zone → Prop :=
| tiled_nil start prev : (∀ s, s ∈ sizes → s ≤ prev) → tiled sizes start prev []
| tiled_cons start prev e zs :
    prev < e → e ∈ sizes → (∀ s, s ∈ sizes → s ≤ prev ∨ e ≤ s) →
    tiled sizes (start + (e - prev) * zlen (slots_reaching sizes e)) e zs →
    tiled sizes start prev
      (mkZone start ((e - prev) * zlen (slots_reaching sizes e)) prev (slots_reaching sizes e) :: zs).

Lemma zone_loop_tiled sizes ends start prev :
  0 ≤ start → start + above sizes prev < 2 ^ 64 →
  StronglySorted Z.lt ends → (∀ e, e ∈ ends → prev < e ∧ e ∈ sizes) →
  (∀ s, s ∈ sizes → s ≤ prev ∨ s ∈ ends) →
  tiled sizes start prev (zone_loop sizes ends start prev).
Proof.
  revert start prev. induction ends as [|e ends IH]; intros start prev Hst Hu Hso He Hs; cbn [zone_loop].
  { constructor. intros s Hin. destruct (Hs s Hin) as [|Hn]; [done|by apply not_elem_of_nil in Hn]. }
  apply StronglySorted_inv in Hso as [Hso Hlt].
  destruct (He e ltac:(set_solver)) as [Hpe Hes].
  assert (∀ s, s ∈ sizes → s ≤ prev ∨ e ≤ s) as Hgap.
  { intros s Hin. destruct (Hs s Hin) as [|[->|Hn]%elem_of_cons]; [by left|right; lia|].
    right. pose proof (Forall_in _ _ _ Hlt Hn) as H. cbn in H. lia. }
  pose proof (above_step sizes prev e ltac:(lia) Hgap) as Hstep.
  pose proof (above_nonneg sizes e). pose proof (slots_reaching_some sizes e Hes).
  assert (0 ≤ (e - prev) * zlen (slots_reaching sizes e)) by (apply Z.mul_nonneg_nonneg; lia).
  rewrite !u64_small by (rewrite ?u64_small; lia). constructor; [done..|].
  apply IH; [lia|lia|done| |].
  - intros e' He'. pose proof (Forall_in _ _ _ Hlt He') as H'. cbn in H'.
    split; [done|]. apply He. set_solver.
  - intros s Hin. destruct (Hs s Hin) as [|[->|Hn]%elem_of_cons]; [left; lia|left; lia|by right].
Qed.

Lemma raid0_zones_tiled sizes : above sizes 0 < 2 ^ 64 → tiled sizes 0 0 (raid0_zones sizes).
Proof.
  intros Hu. unfold raid0_zones.
  assert (∀ x, x ∈ dedup (sort_by Z.leb (List.filter (Z.ltb 0) sizes)) ↔ 0 < x ∧ x ∈ sizes) as Hin.
  { intros x. rewrite dedup_elem, sort_by_perm, list_elem_of_In, filter_In, <- list_elem_of_In, Z.ltb_lt.
    tauto. }
  apply zone_loop_tiled; [lia|lia| | |].
  - apply dedup_sorted.
    assert (sorted_by Z.leb (sort_by Z.leb (List.filter (Z.ltb 0) sizes))) as H
      by (apply sort_by_sorted; lia).
    unfold sorted_by in H. clear Hin. induction H as [|x l _ IH Hx]; constructor; [done|].
    eapply Forall_impl; [exact Hx|]. intros y ?%Z.leb_le. done.
  - intros e He. by apply Hin.
  - intros s Hs. destruct (decide (s ≤ 0)); [by left|right; apply Hin; split; [lia|done]].
Qed.

(** ** Reading through tiled zones *)
Section tiled.
Context (sizes : list Z).

(** A zone's own facts: its rows end where its shortest member does. *)
Record zone_ok (z : Zone) : Prop := {
  zo_start : 0 ≤ z_start z;
  zo_dev : 0 ≤ z_dev_start z;
  zo_slots : 0 < zlen (z_slots z);
  zo_NoDup : NoDup (z_slots z);
  zo_len : ∃ h, 0 < h ∧ z_len z = h * zlen (z_slots z) ∧
    (z_dev_start z + h) ∈ sizes ∧
    ∀ s, s ∈ z_slots z → 0 ≤ s < zlen sizes ∧ z_dev_start z + h ≤ byte_at sizes s;
}.

Lemma tiled_zone start prev zs z : 0 ≤ start → 0 ≤ prev → tiled sizes start prev zs → z ∈ zs →
  zone_ok z ∧ start ≤ z_start z ∧ prev ≤ z_dev_start z ∧
  z_start z + z_len z ≤ start + above sizes prev.
Proof.
  intros Hst Hpr H. induction H as [|start prev e zs Hpe He Hgap _ IH].
  { by intros ?%not_elem_of_nil. }
  pose proof (slots_reaching_some sizes e He) as Hk.
  assert (0 ≤ (e - prev) * zlen (slots_reaching sizes e)) by (apply Z.mul_nonneg_nonneg; lia).
  pose proof (above_step sizes prev e ltac:(lia) Hgap) as Hstep.
  pose proof (above_nonneg sizes e).
  intros [->|Hz]%elem_of_cons.
  - cbn [z_start z_len z_dev_start]. split; [|lia]. constructor; cbn [z_start z_len z_dev_start z_slots];
      [done|done|done|apply slots_reaching_NoDup|].
    exists (e - prev). replace (prev + (e - prev)) with e by lia. split_and!; [lia|done|done|].
    intros s. apply slots_reaching_elem.
  - destruct (IH ltac:(lia) ltac:(lia) Hz) as (? & ? & ? & ?). split_and!; [done|lia..].
Qed.

(** Every byte is in a zone. *)
Lemma tiled_cover start prev zs pos : tiled sizes start prev zs →
  start ≤ pos < start + above sizes prev →
  ∃ z, z ∈ zs ∧ z_start z ≤ pos < z_start z + z_len z.
Proof.
  induction 1 as [start prev Hs|start prev e zs Hpe He Hgap _ IH]; intros Hpos.
  { rewrite above_none in Hpos by done. lia. }
  rewrite (above_step sizes prev e) in Hpos by (done || lia).
  destruct (Z.ltb_spec pos (start + (e - prev) * zlen (slots_reaching sizes e))).
  - eexists. split; [apply list_elem_of_here|]. cbn. lia.
  - destruct (IH ltac:(lia)) as (z & Hz & ?). exists z. split; [by right|done].
Qed.

(** The sum the source takes of the lengths. *)
Lemma tiled_total start prev zs : tiled sizes start prev zs → 0 ≤ start → 0 ≤ prev →
  start + above sizes prev < 2 ^ 64 →
  foldl (λ s z, u64 (s + z_len z)) start zs = start + above sizes prev.
Proof.
  induction 1 as [start prev Hs|start prev e zs Hpe He Hgap _ IH]; intros Hst Hpr Hu; cbn [foldl z_len].
  { rewrite above_none by done. lia. }
  pose proof (slots_reaching_some sizes e He) as Hk.
  assert (0 ≤ (e - prev) * zlen (slots_reaching sizes e)) by (apply Z.mul_nonneg_nonneg; lia).
  rewrite (above_step sizes prev e) in Hu |- * by (done || lia).
  pose proof (above_nonneg sizes e).
  rewrite u64_small by lia. rewrite IH by lia. lia.
Qed.

(** Zones do not share array bytes, nor heights of the members. *)
Lemma tiled_apart start prev zs x y : 0 ≤ start → 0 ≤ prev → tiled sizes start prev zs →
  x ∈ zs → y ∈ zs → x = y ∨
  (∀ hx hy, z_len x = hx * zlen (z_slots x) → z_len y = hy * zlen (z_slots y) →
    (z_start x + z_len x ≤ z_start y ∧ z_dev_start x + hx ≤ z_dev_start y) ∨
    (z_start y + z_len y ≤ z_start x ∧ z_dev_start y + hy ≤ z_dev_start x)).
Proof.
  intros Hst Hpr H. induction H as [|start prev e zs Hpe He Hgap Ht IH].
  { by intros ?%not_elem_of_nil. }
  pose proof (slots_reaching_some sizes e He) as Hk.
  assert (0 ≤ (e - prev) * zlen (slots_reaching sizes e)) by (apply Z.mul_nonneg_nonneg; lia).
  assert (∀ z, z ∈ zs → start + (e - prev) * zlen (slots_reaching sizes e) ≤ z_start z ∧
    e ≤ z_dev_start z) as Hrest.
  { intros z Hz. eapply tiled_zone in Ht as (_ & ? & ? & _); [done|lia|lia|done]. }
  intros [->|Hx]%elem_of_cons [->|Hy]%elem_of_cons; [by left| | |apply IH; [lia..|done|done]];
    right; intros hx hy; cbn [z_start z_len z_dev_start z_slots].
  - intros E _. apply Z.mul_cancel_r in E; [|lia]. subst hx. left. specialize (Hrest _ Hy). lia.
  - intros _ E. apply Z.mul_cancel_r in E; [|lia]. subst hy. right. specialize (Hrest _ Hx). lia.
Qed.
End tiled.

(** Zones of members cut to whole chunks start at a chunk, in the array and on
    the members. *)
Lemma tiled_mult sizes c start prev zs z : (∀ s, s ∈ sizes → (c | s)) →
  tiled sizes start prev zs → (c | start) → (c | prev) → z ∈ zs →
  (c | z_start z) ∧ (c | z_dev_start z).
Proof.
  intros Hs H. induction H as [|start prev e zs Hpe He Hgap _ IH]; intros Hst Hpr.
  { by intros ?%not_elem_of_nil. }
  intros [->|Hz]%elem_of_cons; [done|]. apply IH; [|by apply Hs|done].
  apply Z.divide_add_r; [done|]. apply Z.divide_mul_l, Z.divide_sub_r; [by apply Hs|done].
Qed.

(** Where the chunk of byte [w] of a zone of height [h] lies: it does not run
    past the zone, nor past its members. *)
Lemma zone_chunk c k h w : 0 < c → 0 < k → (c | h) → 0 ≤ w < h * k →
  w / c * c + c ≤ h * k ∧ 0 ≤ w / c / k ∧ w / c / k * c + c ≤ h.
Proof.
  intros Hc Hk [q ->] Hw.
  assert (0 ≤ w / c) as H0 by (apply Z.div_pos; lia).
  assert (w / c < q * k) as H1 by (apply Z.div_lt_upper_bound; nia).
  assert (0 ≤ w / c / k) as H2 by (apply Z.div_pos; lia).
  assert (w / c / k < q) as H3 by (apply Z.div_lt_upper_bound; lia).
  split_and!; [nia|done|nia].
Qed.

(** Bytes of one chunk have one chunk number. *)
Lemma same_chunk c w j : 0 < c → 0 ≤ j → w mod c + j < c →
  (w + j) / c = w / c ∧ (w + j) mod c = w mod c + j.
Proof.
  intros Hc Hj Hm. pose proof (Z.div_mod w c ltac:(lia)). pose proof (Z.mod_pos_bound w c Hc).
  split; [symmetry; apply (Z.div_unique_pos _ _ _ (w mod c + j)); lia|].
  symmetry. apply (Z.mod_unique_pos _ _ (w / c)); lia.
Qed.
