(* ===== verification/MdAssemble.v ===== *)
(** * What assembly establishes

    Superblocks are decoded into bounded fields, and an array that assembles
    has as many slots as members, members that hold their data inside their
    devices, and a geometry its level accepts. *)
From S2P Require Import Prelude Bytes Device MdLayout MdRows MdZones Md.

(** ** Decoded superblocks *)
Record sb_typed (sb : MdSuperblock) (dev_size : Z) : Prop := {
  sb_layout : is_u32 (layout sb);
  sb_chunk : 0 ≤ chunk_bytes sb < 2 ^ 41;
  sb_disks : is_u32 (raid_disks sb);
  sb_data_offset : 0 ≤ data_offset sb;
  sb_data_size : 0 ≤ data_size sb;
  sb_data : data_offset sb + data_size sb ≤ dev_size;
  sb_component : 0 ≤ component_size sb < 2 ^ 64;
  sb_role : ∀ s, role sb = Active s → 0 ≤ s;
  sb_events : is_u64 (events sb);
}.

Lemma parse_v1_typed buf at_ v dev_size member sb : bytes_ok buf → zlen buf = 4096 →
  parse_v1 buf at_ v dev_size member = Ok (Some sb) → sb_typed sb dev_size.
Proof.
  intros Hb Hl. unfold parse_v1. destruct (_ || _); [done|]. destruct (negb _); [done|].
  assert (∀ a, 0 ≤ a → a + 4 ≤ 4096 → is_u32 (le32 buf a)) as H32
    by (intros; apply le32_bound; [done|lia|lia]).
  assert (∀ a, 0 ≤ a → a + 8 ≤ 4096 → is_u64 (le64 buf a)) as H64
    by (intros; apply le64_bound; [done|lia|lia]).
  unfold to_bytes. intros H. inv_ok. subst sb. zbool.
  pose proof (H32 76 ltac:(lia) ltac:(lia)). pose proof (H32 88 ltac:(lia) ltac:(lia)) as H88.
  pose proof (H32 92 ltac:(lia) ltac:(lia)). pose proof (H64 128 ltac:(lia) ltac:(lia)) as H128.
  pose proof (H64 136 ltac:(lia) ltac:(lia)) as H136. pose proof (H64 80 ltac:(lia) ltac:(lia)) as H80.
  pose proof (H64 200 ltac:(lia) ltac:(lia)). pose proof (H32 160 ltac:(lia) ltac:(lia)) as H160.
  unfold is_u32, is_u64, SECTOR, V1_MAX_DEV, V1_FIXED in *.
  constructor; cbn; try done; unfold SECTOR, is_u32, is_u64; try lia.
  - destruct (checked_add _ _) as [e|] eqn:E; [|done]. apply checked_add_Some in E as [-> _].
    match goal with H : negb _ = false |- _ => apply negb_false_iff, Z.leb_le in H end. lia.
  - intros s. unfold v1_role, V1_FIXED. repeat case_match; try done; intros [= <-].
    apply le16_bound; [done|dlia..].
Qed.

Lemma parse_v0_typed buf at_ member sb dev_size : bytes_ok buf → zlen buf = 4096 →
  0 ≤ at_ → at_ ≤ dev_size →
  parse_v0 buf at_ member = Ok (Some sb) → sb_typed sb dev_size.
Proof.
  intros Hb Hl Ha Hd. unfold parse_v0. destruct (_ || _); [done|].
  assert (∀ a, 0 ≤ a → a + 4 ≤ 4096 → is_u32 (le32 buf a)) as H32
    by (intros; apply le32_bound; [done|lia|lia]).
  intros H. inv_ok. subst sb. zbool.
  pose proof (H32 (8 * 4) ltac:(lia) ltac:(lia)). pose proof (H32 (10 * 4) ltac:(lia) ltac:(lia)).
  pose proof (H32 (64 * 4) ltac:(lia) ltac:(lia)). pose proof (H32 (65 * 4) ltac:(lia) ltac:(lia)).
  pose proof (le64_bound buf (39 * 4) Hb ltac:(lia) ltac:(lia)).
  unfold is_u32, is_u64 in *.
  constructor; cbn [layout chunk_bytes raid_disks data_offset data_size component_size role events];
    unfold is_u32, is_u64; try lia.
  intros s. repeat case_match; intros [= <-]. apply le32_bound; [done|lia..].
Qed.

Section assemble.
Context {R : Type} `{!BlockRead R} `{!ReadLaws R}.

Lemma md_read_ok (dev : R) off n bs : 0 ≤ n → md_read dev off n = Ok bs → bytes_ok bs ∧ zlen bs = n.
Proof. unfold md_read. intros Hn H. inv_ok. apply read_fills in H as [??]; done. Qed.

Lemma try_v1_typed (dev : R) member cs sb :
  try_v1 dev member cs = Ok (Some sb) → sb_typed sb (size_bytes dev).
Proof.
  induction cs as [|[at_ v] cs IH]; cbn [try_v1]; [done|].
  destruct (_ <? _); [apply IH|]. intros H. inv_ok.
  apply md_read_ok in Hx as [??]; [|lia]. destruct x0 as [sb'|]; [|by apply IH].
  inv_ok. subst. by eapply parse_v1_typed.
Qed.

Lemma read_superblock_typed (dev : R) member sb :
  read_superblock_of dev member = Ok (Some sb) → sb_typed sb (size_bytes dev).
Proof.
  unfold read_superblock_of. intros H. inv_ok. destruct x as [sb'|].
  { inv_ok. subst. by eapply try_v1_typed. }
  pose proof (size_is_u64 dev) as Hs. unfold is_u64 in Hs.
  destruct (Z.leb_spec V0_RESERVED (size_bytes dev)) as [Hv|]; [|done].
  inv_ok. apply md_read_ok in Hx0 as [??]; [|unfold V0_SIZE; lia].
  unfold V0_RESERVED in *. eapply parse_v0_typed; [done|done| | |done]; dlia.
Qed.

(** ** The slots *)
Definition member_typed (m : Member R) : Prop :=
  0 ≤ m_data_offset m ∧ 0 ≤ m_data_size m ∧
  m_data_offset m + m_data_size m ≤ size_bytes (m_dev m).

(** The members of a list of slots. *)
Definition slots_typed (slots : list (option (Member R))) : Prop :=
  ∀ m, m ∈ omap id slots → member_typed m.

Lemma place_typed n newest found slots out :
  Forall (λ f : Z * R * MdSuperblock, sb_typed f.2 (size_bytes f.1.2)) found → slots_typed slots →
  foldM (place_member n newest) slots found = Ok out →
  slots_typed out ∧ length out = length slots.
Proof.
  revert slots. induction found as [|f found IH]; intros slots; cbn [foldM].
  { intros _ Hs [= <-]. done. }
  intros [Hf Hfound]%Forall_cons Hs H. inv_ok.
  assert (slots_typed x ∧ length x = length slots) as [Hx1 Hx2].
  { destruct f as [[i dev] sb]. unfold place_member in Hx. cbn in Hf.
    destruct (role sb) as [slot| | |]; [|by inv_ok; subst..].
    repeat case_match; inv_ok; subst; try done; rewrite length_insert; (split; [|done]).
    all: intros m (o & Ho & Hin)%list_elem_of_omap; cbn in Hin; subst o.
    all: apply list_elem_of_lookup in Ho as [j Hj]; apply list_lookup_insert_Some in Hj.
    all: destruct Hj as [(_ & [= <-] & _)|[_ Hj]];
      [destruct Hf; unfold member_typed; cbn; lia|].
    all: apply Hs, list_elem_of_omap; exists (Some m); split; [by eapply list_elem_of_lookup_2|done]. }
  destruct (IH x Hfound Hx1 H) as [??]. split; [done|congruence].
Qed.

(** ** The array *)
Record assembled (a : MdArray R) : Prop := {
  as_disks : 0 < raid_disks (a_superblock a) ≤ V1_MAX_DEV;
  as_slots : zlen (a_slots a) = raid_disks (a_superblock a);
  as_members : slots_typed (a_slots a);
  as_level : a_level a = level (a_superblock a);
  as_layout : a_layout a = layout (a_superblock a);
  as_chunk : a_chunk a = chunk_bytes (a_superblock a);
  as_lead : ∃ size, sb_typed (a_superblock a) size;
  as_arranged : arrange (a_superblock a) (a_slots a) = Ok (a_size a, a_zones a, a_raid10 a);
  as_reach : ∀ m, m ∈ omap id (a_slots a) →
    member_reaches (a_level a) (a_size a) (component_size (a_superblock a)) tt m = Ok tt;
}.

Lemma foldM_unit {A} (f : unit → A → Result MdError unit) l :
  foldM f tt l = Ok tt ↔ ∀ x, x ∈ l → f tt x = Ok tt.
Proof.
  induction l as [|x l IH]; cbn [foldM].
  { split; [by intros _ ? ?%not_elem_of_nil|done]. }
  rewrite bind_Ok. split.
  - intros ([] & Hx & Hl) y [->|Hy]%elem_of_cons; [done|]. by apply IH.
  - intros H. exists tt. split; [apply H; set_solver|]. apply IH. intros y Hy. apply H. set_solver.
Qed.

Lemma found_typed devices found : collectM read_found devices = Ok found →
  Forall (λ f : Z * R * MdSuperblock, sb_typed f.2 (size_bytes f.1.2)) found.
Proof.
  intros (os & Hos & ->)%collectM_Ok. apply list.Forall_forall.
  intros f (o & Ho & Hid)%list_elem_of_omap. cbn in Hid. subst o.
  apply list_elem_of_lookup in Ho as [i Hi].
  destruct (Forall2_lookup_r _ _ _ _ _ Hos Hi) as ([member dev] & _ & Hf).
  unfold read_found in Hf. inv_ok. subst. by eapply read_superblock_typed.
Qed.

Lemma assemble_ok devices a : assemble devices = Ok a → assembled a.
Proof.
  unfold assemble. intros H. inv_ok. destruct x7 as [[size zones] raid10]. inv_ok. subst a. zbool.
  apply found_typed in Hx0. unfold lead_of in Hx3. inv_ok.
  assert (∃ f, f ∈ x0 ∧ f.2 = x3) as (f & Hf & <-).
  { destruct (List.find _ x0) as [f|] eqn:E; [|done]. cbn in Hx3. injection Hx3 as <-.
    apply find_some in E as [E _]. exists f. by split; [apply list_elem_of_In|]. }
  pose proof (Forall_in _ _ _ Hx0 Hf) as Hlead. cbn in Hlead.
  pose proof (sb_disks _ _ Hlead) as Hdisks. unfold is_u32 in Hdisks.
  apply place_typed in Hx6 as [Hty Hlen]; [|done|].
  2:{ intros m (o & Ho & Hid)%list_elem_of_omap. cbn in Hid. subst o.
      by apply elem_of_replicate in Ho as [? _]. }
  rewrite length_replicate in Hlen. rewrite foldM_unit in Hx5.
  constructor; cbn; try done; [lia|unfold zlen; lia|by eexists].
Qed.

(** ** Which slots hold a member *)
Definition here (a : MdArray R) (slot : Z) : bool :=
  match a_slots a !! Z.to_nat slot with Some (Some _) => true | _ => false end.

Lemma absent_slots (slots : list (option (Member R))) :
  Z.of_nat (length (List.filter
    (λ s, negb (match slots !! Z.to_nat s with Some (Some _) => true | _ => false end))
    (seqZ 0 (zlen slots)))) = zlen slots - present_in slots.
Proof.
  induction slots as [|o slots IH] using rev_ind; [done|].
  unfold present_in, zlen in *. rewrite length_app, omap_app, !length_app. cbn [length].
  replace (Z.of_nat (length slots + 1)) with (Z.of_nat (length slots) + 1) by lia.
  rewrite seqZ_app by lia. rewrite List.filter_app, length_app.
  rewrite (List.filter_ext_in _
    (λ s, negb (match slots !! Z.to_nat s with Some (Some _) => true | _ => false end))).
  2:{ intros s [? ?]%list_elem_of_In%elem_of_seqZ. rewrite lookup_app_l; [done|lia]. }
  replace (seqZ (0 + Z.of_nat (length slots)) 1) with [Z.of_nat (length slots)] by (cbn; f_equal; lia).
  cbn [List.filter]. rewrite lookup_app_r by lia.
  replace (Z.to_nat (Z.of_nat (length slots)) - length slots)%nat with O by lia.
  destruct o as [m|]; cbn in *; lia.
Qed.

Lemma here_member a slot : here a slot = true →
  ∃ m, a_slots a !! Z.to_nat slot = Some (Some m) ∧ m ∈ omap id (a_slots a).
Proof.
  unfold here. destruct (_ !! _) as [[m|]|] eqn:E; [|done..]. intros _. exists m.
  split; [done|]. apply list_elem_of_omap. exists (Some m). split; [|done].
  by eapply list_elem_of_lookup_2.
Qed.

(** ** What each level's arm of [assemble] has checked *)
Lemma needs_chunk_Ok chunk : needs_chunk chunk = Ok tt ↔ chunk ≠ 0 ∧ chunk mod SECTOR = 0.
Proof. unfold needs_chunk. rewrite refuse_if_Ok. lia. Qed.
Lemma need_Ok lvl p needed : need lvl p needed = Ok tt ↔ needed ≤ p.
Proof. unfold need. rewrite refuse_if_Ok. lia. Qed.

Lemma member_reaches_Ok lvl size per m : member_reaches lvl size per tt m = Ok tt →
  m_data_offset m + (if lvl =? LEVEL_RAID1 then size
     else if (lvl =? LEVEL_RAID0) || (lvl =? LEVEL_LINEAR) then 0 else per)
  ≤ size_bytes (m_dev m).
Proof.
  unfold member_reaches. rewrite refuse_if_Ok. destruct (checked_add _ _) as [e|] eqn:E; [|done].
  apply checked_add_Some in E as [-> _]. lia.
Qed.

(** Take the arm of [arrange] that a level's code selects. *)
Ltac which_level E :=
  cbn [LEVEL_LINEAR LEVEL_RAID0 LEVEL_RAID1 LEVEL_RAID4 LEVEL_RAID5 LEVEL_RAID6 LEVEL_RAID10
       Z.eqb Pos.eqb orb andb] in E;
  inv_ok.

Section levels.
Context (a : MdArray R) (Ha : assembled a).
Local Abbreviation lead := (a_superblock a).
Local Abbreviation n := (raid_disks (a_superblock a)).

Lemma a_level_eq : level lead = a_level a.
Proof. symmetry. apply Ha. Qed.

Lemma arranged_raid1 : a_level a = LEVEL_RAID1 →
  a_size a = component_size lead ∧ 1 ≤ present_in (a_slots a).
Proof.
  intros H. pose proof (as_arranged _ Ha) as E. unfold arrange in E. rewrite a_level_eq, H in E.
  which_level E. rewrite need_Ok in Hx. naive_solver.
Qed.

Lemma arranged_parity : a_level a = LEVEL_RAID4 ∨ a_level a = LEVEL_RAID5 ∨ a_level a = LEVEL_RAID6 →
  0 < a_chunk a ∧ parity_of (a_level a) < n ∧
  (a_level a = LEVEL_RAID6 → raid6_layout_known (a_layout a) = true) ∧
  n - parity_of (a_level a) ≤ present_in (a_slots a) ∧
  a_size a = component_size lead / a_chunk a * a_chunk a * (n - parity_of (a_level a)) ∧
  a_raid10 a = None.
Proof.
  intros H. pose proof (as_arranged _ Ha) as E. destruct (as_lead _ Ha) as [sz Hl].
  pose proof (sb_chunk _ _ Hl) as Hc. rewrite (as_layout _ Ha), (as_chunk _ Ha).
  unfold arrange in E. rewrite a_level_eq in E.
  destruct H as [H|[H|H]]; rewrite H in E |- *; which_level E.
  all: rewrite ?needs_chunk_Ok, ?need_Ok in *; subst; zbool; cbn in *; split_and!; try done; lia.
Qed.

(** Each member's usable size, at RAID0 and linear. *)
Definition usable (chunk : Z) (m : Member R) : Z :=
  if chunk =? 0 then m_data_size m else m_data_size m / chunk * chunk.
Definition usable_sizes : list Z := map (usable (a_chunk a)) (omap id (a_slots a)).

Lemma arranged_raid0 : a_level a = LEVEL_RAID0 →
  0 < a_chunk a ∧ n ≤ present_in (a_slots a) ∧ a_zones a = raid0_zones usable_sizes ∧
  a_size a = foldl (λ s z, u64 (s + z_len z)) 0 (a_zones a).
Proof.
  intros H. pose proof (as_arranged _ Ha) as E. destruct (as_lead _ Ha) as [sz Hl].
  pose proof (sb_chunk _ _ Hl) as Hc. unfold usable_sizes, usable. rewrite (as_chunk _ Ha).
  unfold arrange in E. rewrite a_level_eq, H in E. which_level E.
  rewrite needs_chunk_Ok in *. rewrite need_Ok in *.
  assert ((chunk_bytes lead =? 0) = false) as -> by lia.
  split_and!; [lia|done|congruence|congruence].
Qed.

Lemma arranged_linear : a_level a = LEVEL_LINEAR →
  n ≤ present_in (a_slots a) ∧
  linear_zones (a_chunk a) (a_slots a) 0 0 = Ok (a_zones a, a_size a).
Proof.
  intros H. pose proof (as_arranged _ Ha) as E. rewrite (as_chunk _ Ha).
  unfold arrange in E. rewrite a_level_eq, H in E. which_level E.
  rewrite need_Ok in *. split; [done|]. destruct x0 as [zs size]. cbn in *. congruence.
Qed.

Lemma forallb_false {A} (f : A → bool) l : forallb f l = false → ∃ x, x ∈ l ∧ f x = false.
Proof.
  induction l as [|x l IH]; cbn; [done|]. intros [H|H]%andb_false_iff.
  - exists x. split; [set_solver|done].
  - destruct (IH H) as (y & Hy & ?). exists y. split; [set_solver|done].
Qed.

Lemma arranged_raid10 : a_level a = LEVEL_RAID10 →
  ∃ g, a_raid10 a = Some g ∧ 0 < a_chunk a ∧
    0 < near g ∧ 0 < far g ∧ near g * far g ≤ n ∧
    stride g = component_size lead / a_chunk a / far g ∧
    a_size a = u64 (stride g * n) / near g * a_chunk a ∧
    ∀ c, 0 ≤ c < n → ∃ x, x ∈ copies g n c ∧ vacant (a_slots a) x.1 = false.
Proof.
  intros H. pose proof (as_arranged _ Ha) as E. destruct (as_lead _ Ha) as [sz Hl].
  pose proof (sb_chunk _ _ Hl) as Hc. pose proof (sb_layout _ _ Hl) as Hy. unfold is_u32 in Hy.
  rewrite (as_chunk _ Ha).
  unfold arrange in E. rewrite a_level_eq, H in E. which_level E.
  rewrite needs_chunk_Ok in *. zbool.
  assert (0 ≤ Z.land (layout lead) 255) by (apply Z.land_nonneg; lia).
  assert (0 ≤ Z.land (Z.shiftr (layout lead) 8) 255) by (apply Z.land_nonneg; lia).
  eexists. split; [done|]. cbn [near far stride]. split_and!; try done; try lia.
  intros c Hcn. rewrite foldM_unit in Hx2. specialize (Hx2 c ltac:(apply elem_of_seqZ; lia)).
  unfold copy_left in Hx2. apply refuse_if_Ok in Hx2.
  by apply forallb_false.
Qed.

(** The array's size is a [u64] at every level. *)
Lemma linear_size chunk (slots : list (option (Member R))) s0 st zs size :
  st < 2 ^ 64 → linear_zones chunk slots s0 st = Ok (zs, size) → size < 2 ^ 64.
Proof.
  revert s0 st zs. induction slots as [|[m|] slots IH]; intros s0 st zs Hst H; cbn [linear_zones] in H;
    [by injection H as <- <-| |done].
  inv_ok. destruct x0 as [zs' size']. cbn in *. subst. eapply IH; [|done]. lia.
Qed.

Lemma zone_sum_u64 zs st : st < 2 ^ 64 → foldl (λ s z, u64 (s + z_len z)) st zs < 2 ^ 64.
Proof.
  revert st. induction zs as [|z zs IH]; intros st Hst; cbn [foldl]; [done|].
  apply IH. apply Z.mod_pos_bound. lia.
Qed.

Lemma arranged_size : a_size a < 2 ^ 64.
Proof.
  pose proof (as_arranged _ Ha) as E. destruct (as_lead _ Ha) as [sz Hl].
  pose proof (sb_component _ _ Hl) as Hcomp. unfold arrange in E.
  repeat match type of E with (if ?b then _ else _) = _ => destruct b end; [..|done]; inv_ok;
    repeat match goal with H : _ = a_size a |- _ => rewrite <- H end; try lia.
  - destruct x0 as [zs size]. by eapply linear_size in Hx0.
  - by apply zone_sum_u64.
Qed.
End levels.
End assemble.
