(* ===== verification/MdArray.v ===== *)
(** * An assembled array reads as the array

    What the members of an array must hold for its bytes to be [L]
    ([array_holds], level by level), and the proof that reading the assembled
    array, whole or degraded, returns [L] inside its size and refuses
    everything else. *)
From S2P Require Import Prelude Bytes Device Gf256 MdLayout MdRows MdZones Md MdRead MdStripe MdAssemble.

(** ** The abstract contract

    A reader of an array of [size] bytes whose contents are [L]. *)
Definition reads_exactly (read : Z → Z → Result FsError (list Z)) (size : Z) (L : Z → Z) : Prop :=
  ∀ offset len, 0 ≤ offset → 0 ≤ len →
    read offset len =
    if offset + len <=? size then Ok (bytes_of L offset len)
    else Err (OutOfBounds offset len size).

(** ** Linear arrays: members end to end *)

(** The member and the byte in it that array byte [pos] is. *)
Fixpoint linear_place (lens : list Z) (slot pos : Z) : Z * Z :=
  match lens with
  | [] => (slot, pos)
  | len :: lens => if pos <? len then (slot, pos) else linear_place lens (slot + 1) (pos - len)
  end.

Section array.
Context {R : Type} `{!BlockRead R} `{!ReadLaws R}.

(** Where [read_zoned] finds byte [within] of RAID0 zone [z]. *)
Definition zone_place (a : MdArray R) (z : Zone) (within : Z) : Z * Z :=
  let k := zlen (z_slots z) in
  let c := within / a_chunk a in
  let pick := if a_layout a =? RAID0_LAYOUT_ORIGINAL
              then (z_start z + within) / a_chunk a else c in
  (byte_at (z_slots z) (pick mod k), z_dev_start z + c / k * a_chunk a + within mod a_chunk a).

(** Byte [off] of the data of the member in slot [slot] is [mem slot off]. *)
Definition serves (a : MdArray R) (mem : Z → Z → Z) : Prop :=
  ∀ slot m, a_slots a !! Z.to_nat slot = Some (Some m) → 0 ≤ slot →
  ∀ off len, 0 ≤ off → 0 ≤ len → m_data_offset m + off + len ≤ size_bytes (m_dev m) →
    read_at (m_dev m) (m_data_offset m + off) len = Ok (bytes_of (mem slot) off len).

(** Chunk rows of each member that a striped array uses. *)
Definition chunk_rows (a : MdArray R) : Z := component_size (a_superblock a) / a_chunk a.

Record array_holds (a : MdArray R) (mem : Z → Z → Z) (L : Z → Z) : Prop := {
  ah_linear : a_level a = LEVEL_LINEAR → ∀ pos, 0 ≤ pos < a_size a →
    let '(slot, off) := linear_place (usable_sizes a) 0 pos in mem slot off = L pos;
  ah_raid0 : a_level a = LEVEL_RAID0 → above (usable_sizes a) 0 < 2 ^ 64 ∧
    ∀ z w, z ∈ a_zones a → 0 ≤ w < z_len z →
      mem (zone_place a z w).1 (zone_place a z w).2 = L (z_start z + w);
  ah_raid1 : a_level a = LEVEL_RAID1 → ∀ slot pos, 0 ≤ slot < zlen (a_slots a) →
    here a slot = true → 0 ≤ pos < a_size a → mem slot pos = L pos;
  ah_raid10 : a_level a = LEVEL_RAID10 → ∀ g, a_raid10 a = Some g →
    stride g * zlen (a_slots a) < 2 ^ 64 ∧
    raid10_holds g (zlen (a_slots a)) (a_chunk a) mem L;
  ah_parity : a_level a = LEVEL_RAID4 ∨ a_level a = LEVEL_RAID5 ∨ a_level a = LEVEL_RAID6 →
    (a_level a = LEVEL_RAID6 → zlen (a_slots a) ≤ 255) ∧
    parity_holds (striping_of a) (chunk_rows a) mem L;
}.

(** ** The loops *)
Lemma bytes_of_app L off x y : 0 ≤ x → 0 ≤ y →
  bytes_of L off x ++ bytes_of L (off + x) y = bytes_of L off (x + y).
Proof.
  intros Hx Hy. unfold bytes_of. rewrite seqZ_app, map_app by done. f_equal.
  rewrite (Z.add_comm 0 x), <- (fmap_add_seqZ x 0 y). change (fmap (M:=list)) with (@map Z Z).
  rewrite map_map. apply map_ext. intros j. f_equal. lia.
Qed.

Lemma striped_loop_ok a L offset len fuel d :
  0 < a_chunk a → 0 ≤ offset → 0 ≤ d → len - d ≤ Z.of_nat fuel → d ≤ len →
  offset + len ≤ a_size a →
  (∀ k within t, 0 ≤ k → 0 ≤ within → 0 < t → within + t ≤ a_chunk a →
     k * a_chunk a + within + t ≤ a_size a →
     array_read_chunk a k within t = Ok (bytes_of L (k * a_chunk a + within) t)) →
  striped_loop fuel a offset len (bytes_of L offset d) = Ok (bytes_of L offset len).
Proof.
  intros Hc Ho Hd Hf Hdl Hend Hchunk. revert d Hd Hf Hdl.
  induction fuel as [|fuel IH]; intros d Hd Hf Hdl; cbn [striped_loop].
  { by replace len with d by lia. }
  rewrite zlen_bytes_of by done.
  destruct (Z.ltb_spec d len) as [Hlt|]; [|by replace len with d by lia].
  pose proof (Z.div_mod (offset + d) (a_chunk a) ltac:(lia)) as Hdiv.
  pose proof (Z.mod_pos_bound (offset + d) (a_chunk a) Hc) as Hmod.
  pose proof (Z.div_pos (offset + d) (a_chunk a) ltac:(lia) Hc) as Hk.
  set (k := (offset + d) / a_chunk a) in *. set (w := (offset + d) mod a_chunk a) in *.
  set (t := Z.min (a_chunk a - w) (len - d)).
  assert (k * a_chunk a + w = offset + d) as Epos by lia.
  rewrite Hchunk by lia. cbn [mbind Result_bind]. rewrite Epos, bytes_of_app by lia.
  apply IH; lia.
Qed.

Lemma zoned_loop_ok a L offset len fuel d :
  0 ≤ offset → 0 ≤ d → len - d ≤ Z.of_nat fuel → d ≤ len → offset + len ≤ a_size a →
  (∀ pos t, 0 ≤ pos → 0 < t → pos + t ≤ a_size a →
     ∃ t', 0 < t' ≤ t ∧ read_zoned a pos t = Ok (bytes_of L pos t')) →
  zoned_loop fuel a offset len (bytes_of L offset d) = Ok (bytes_of L offset len).
Proof.
  intros Ho Hd Hf Hdl Hend Hz. revert d Hd Hf Hdl.
  induction fuel as [|fuel IH]; intros d Hd Hf Hdl; cbn [zoned_loop].
  { by replace len with d by lia. }
  rewrite zlen_bytes_of by done.
  destruct (Z.ltb_spec d len) as [Hlt|]; [|by replace len with d by lia].
  destruct (Hz (offset + d) (len - d)) as (t & Ht & ->); [lia..|].
  cbn [mbind Result_bind]. rewrite bytes_of_app by lia. apply IH; lia.
Qed.

(** ** Members *)
Lemma serves_reads a mem room : serves a mem → assembled a →
  (∀ m, m ∈ omap id (a_slots a) → m_data_offset m + room ≤ size_bytes (m_dev m)) →
  reads_member (read_member a) (here a) (zlen (a_slots a)) room mem.
Proof.
  intros Hs Ha Hroom slot off len Hslot Hoff Hlen Hend. unfold read_member, here.
  destruct (a_slots a !! Z.to_nat slot) as [[m|]|] eqn:E; [|done|].
  - assert (m ∈ omap id (a_slots a)) as Hin.
    { apply list_elem_of_omap. exists (Some m). split; [by eapply list_elem_of_lookup_2|done]. }
    pose proof (Hroom m Hin). destruct (as_members _ Ha m Hin) as (? & ? & ?).
    pose proof (size_is_u64 (m_dev m)) as Hu. unfold is_u64 in Hu.
    rewrite u64_small by lia. by rewrite (Hs slot m E ltac:(lia)) by lia.
  - apply lookup_ge_None in E. unfold zlen in Hslot. lia.
Qed.

Lemma here_full a : assembled a → zlen (a_slots a) ≤ present_in (a_slots a) →
  ∀ slot, 0 ≤ slot < zlen (a_slots a) → here a slot = true.
Proof.
  intros Ha Hp slot Hs. destruct (here a slot) eqn:E; [done|exfalso].
  pose proof (absent_slots (a_slots a)) as Hab. fold (here a) in Hab.
  assert (slot ∈ List.filter (λ s, negb (here a s)) (seqZ 0 (zlen (a_slots a)))) as Hin.
  { apply list_elem_of_In, filter_In. rewrite <- list_elem_of_In, elem_of_seqZ, E. split; [lia|done]. }
  unfold here in Hin. destruct (List.filter _ _); [by apply not_elem_of_nil in Hin|].
  cbn [length] in Hab. lia.
Qed.

(** ** RAID1 *)
Lemma read_raid1_ok a mem L offset len : assembled a → serves a mem → array_holds a mem L →
  a_level a = LEVEL_RAID1 → 0 ≤ offset → 0 ≤ len → offset + len ≤ a_size a →
  read_raid1 a offset len = Ok (bytes_of L offset len).
Proof.
  intros Ha Hs HL Hlvl Ho Hl Hend. destruct (arranged_raid1 a Ha Hlvl) as [Esize Hp].
  unfold read_raid1. unfold present_in in Hp.
  destruct (omap id (a_slots a)) as [|m ms] eqn:Eo; [unfold zlen in Hp; cbn in Hp; lia|].
  assert (m ∈ omap id (a_slots a)) as Hm by (rewrite Eo; set_solver). cbn [read_any].
  pose proof (as_reach _ Ha m Hm) as Hreach. apply member_reaches_Ok in Hreach.
  rewrite Hlvl in Hreach. cbn in Hreach. destruct (as_members _ Ha m Hm) as (? & ? & ?).
  pose proof (size_is_u64 (m_dev m)) as Hu. unfold is_u64 in Hu.
  apply list_elem_of_omap in Hm as (o & Hin & Hid). cbn in Hid. subst o.
  apply list_elem_of_lookup in Hin as [i Hi].
  rewrite u64_small by lia.
  rewrite (Hs (Z.of_nat i) m) by (rewrite ?Nat2Z.id; (done || lia)).
  f_equal. apply bytes_of_eq. intros j Hj. apply (ah_raid1 _ _ _ HL Hlvl); [| |lia].
  - apply lookup_lt_Some in Hi. unfold zlen. lia.
  - unfold here. by rewrite Nat2Z.id, Hi.
Qed.

(** ** RAID4, RAID5 and RAID6 *)
Lemma read_parity_ok a mem L k within t : assembled a → serves a mem → array_holds a mem L →
  a_level a = LEVEL_RAID4 ∨ a_level a = LEVEL_RAID5 ∨ a_level a = LEVEL_RAID6 →
  0 ≤ k → 0 ≤ within → 0 < t → within + t ≤ a_chunk a → k * a_chunk a + within + t ≤ a_size a →
  array_read_chunk a k within t = Ok (bytes_of L (k * a_chunk a + within) t).
Proof.
  intros Ha Hs HL Hlvl Hk Hw Ht Hwt Hend.
  destruct (arranged_parity a Ha Hlvl) as (Hc & Hn & Hknown & Hpres & Esize & E10).
  destruct (ah_parity _ _ _ HL Hlvl) as [H255 HP].
  destruct (as_lead _ Ha) as [sz Hlead]. pose proof (sb_component _ _ Hlead) as Hcomp.
  rewrite <- (as_slots _ Ha) in Hn, Hpres, Esize.
  assert (0 ≤ chunk_rows a) as Hrows by (apply Z.div_pos; lia).
  assert (chunk_rows a * a_chunk a ≤ component_size (a_superblock a)) as Hroom.
  { rewrite Z.mul_comm. apply Z.mul_div_le. lia. }
  apply (parity_read_chunk (striping_of a) (chunk_rows a) _ (here a) mem L); try lia.
  - constructor; cbn; [done| |done|done|done|lia].
    intros E6. unfold row_layout, striping_of. cbn. rewrite E6. cbn. by apply Hknown.
  - apply serves_reads; [done|done|]. intros m Hm. pose proof (as_reach _ Ha m Hm) as Hreach.
    apply member_reaches_Ok in Hreach. cbn.
    assert (a_level a ≠ LEVEL_RAID1 ∧ a_level a ≠ LEVEL_RAID0 ∧ a_level a ≠ LEVEL_LINEAR) as (E1 & E2 & E3)
      by (unfold LEVEL_RAID1, LEVEL_RAID0, LEVEL_LINEAR, LEVEL_RAID4, LEVEL_RAID5, LEVEL_RAID6 in *; lia).
    apply Z.eqb_neq in E1, E2, E3. rewrite E1, E2, E3 in Hreach. cbn in Hreach. lia.
  - done.
  - pose proof (absent_slots (a_slots a)) as Hab. unfold absent, here. cbn.
    apply Nat2Z.inj_le. rewrite Hab. unfold parity_of in *. destruct (_ =? _); lia.
  - unfold data_members. cbn [st_members st_level striping_of]. split; [lia|].
    apply (Z.mul_lt_mono_pos_r (a_chunk a)); [done|]. unfold chunk_rows in *. lia.
  - done.
Qed.

(** ** RAID10 *)
Lemma read_raid10_ok a mem L k within t : assembled a → serves a mem → array_holds a mem L →
  a_level a = LEVEL_RAID10 →
  0 ≤ k → 0 ≤ within → 0 < t → within + t ≤ a_chunk a → k * a_chunk a + within + t ≤ a_size a →
  array_read_chunk a k within t = Ok (bytes_of L (k * a_chunk a + within) t).
Proof.
  intros Ha Hs HL Hlvl Hk Hw Ht Hwt Hend.
  destruct (arranged_raid10 a Ha Hlvl) as (g & Eg & Hc & Hnear & Hfar & Hfit & Estr & Esize & Hcopy).
  destruct (ah_raid10 _ _ _ HL Hlvl g Eg) as [Hrow H10].
  destruct (as_lead _ Ha) as [sz Hlead]. pose proof (sb_component _ _ Hlead) as Hcomp.
  rewrite <- (as_slots _ Ha) in *. set (n := zlen (a_slots a)) in *.
  assert (0 ≤ component_size (a_superblock a) / a_chunk a) as Hdc by (apply Z.div_pos; lia).
  assert (0 ≤ stride g) as Hstr by (rewrite Estr; apply Z.div_pos; lia).
  assert (stride g * far g ≤ component_size (a_superblock a) / a_chunk a) as Hsf.
  { rewrite Estr, Z.mul_comm. apply Z.mul_div_le. lia. }
  assert (component_size (a_superblock a) / a_chunk a * a_chunk a ≤ component_size (a_superblock a)) as Hroom.
  { rewrite Z.mul_comm. apply Z.mul_div_le. lia. }
  assert (stride g * far g * a_chunk a ≤ component_size (a_superblock a)) as Hused by nia.
  assert (raid10_ok g n) as Hg by (constructor; try done; nia).
  rewrite u64_small in Esize by nia. fold (raid10_chunks g n) in Esize.
  assert (k < raid10_chunks g n) as Hkc.
  { apply (Z.mul_lt_mono_pos_r (a_chunk a)); [done|]. lia. }
  apply (raid10_read_chunk (striping_of a) g Hg Eg Hc) with (here := here a) (mem := mem); try done; try lia.
  - cbn. lia.
  - apply serves_reads; [done|done|]. intros m Hm. pose proof (as_reach _ Ha m Hm) as Hreach.
    apply member_reaches_Ok in Hreach. rewrite Hlvl in Hreach. cbn in Hreach |- *. lia.
  - cbn [st_members striping_of]. fold n.
    pose proof (raid10_pos g n Hg) as Hn. pose proof (Z.mod_pos_bound k n Hn) as Hkn.
    destruct (Hcopy (k mod n) Hkn) as (x & (i & l & Hi & Hl & ->)%copies_elem & Hv).
    pose proof (Z.mod_le k n Hk Hn).
    exists (copy_at g n k i l). split; [apply copies_elem; by exists i, l|].
    destruct (copy_at_eq g n Hg (k mod n) i l) as [E1 _]; [lia|done|done|].
    destruct (copy_at_eq g n Hg k i l) as [E2 _]; [lia|done|done|].
    destruct (copy_at_inside g n Hg k i l) as [Hin _]; [lia|done|done|].
    assert ((copy_at g n (k mod n) i l).1 = (copy_at g n k i l).1) as Esame.
    { rewrite E1, E2. cbn [fst]. rewrite <- (Z.mod_add _ (k / n * near g) n) by lia. f_equal.
      pose proof (Z.div_mod k n ltac:(lia)) as Hdm.
      replace (k * near g) with ((n * (k / n) + k mod n) * near g) by (f_equal; lia). lia. }
    rewrite Esame in Hv. unfold vacant in Hv. unfold here.
    destruct (a_slots a !! _) as [[m|]|] eqn:E; [done|done|].
    apply lookup_ge_None in E.
    assert (Z.of_nat (length (a_slots a)) = n) by done. lia.
Qed.

(** ** RAID0 and linear: every slot is filled *)
Lemma omap_full (slots : list (option (Member R))) i :
  zlen slots ≤ present_in slots → omap id slots !! i = m ← slots !! i; m.
Proof.
  unfold present_in, zlen. revert i. induction slots as [|o slots IH]; intros i Hp; [done|].
  assert (length (omap id slots) ≤ length slots)%nat as Hle.
  { clear. induction slots as [|[m|] slots IH]; cbn; lia. }
  destruct o as [m|]; cbn in Hp |- *; [|lia].
  destruct i as [|i]; cbn; [done|]. apply IH. lia.
Qed.

Lemma usable_at (a : MdArray R) slot : assembled a → zlen (a_slots a) ≤ present_in (a_slots a) →
  0 ≤ slot < zlen (a_slots a) →
  ∃ m, a_slots a !! Z.to_nat slot = Some (Some m) ∧ member_typed m ∧
       byte_at (usable_sizes a) slot = usable (a_chunk a) m.
Proof.
  intros Ha Hp Hs. pose proof (here_full a Ha Hp slot Hs) as Hh.
  destruct (here_member a slot Hh) as (m & Em & Hm). exists m. split; [done|].
  split; [by apply (as_members _ Ha)|]. unfold byte_at, usable_sizes.
  change (@map (Member R) Z) with (fmap (M:=list) (A:=Member R) (B:=Z)).
  by rewrite list_lookup_fmap, omap_full, Em.
Qed.

Lemma zlen_usable (a : MdArray R) : zlen (a_slots a) ≤ present_in (a_slots a) →
  zlen (usable_sizes a) = zlen (a_slots a).
Proof.
  intros Hp. unfold usable_sizes. rewrite zlen_map. unfold present_in in Hp.
  assert (zlen (omap id (a_slots a)) ≤ zlen (a_slots a)); [|lia].
  unfold zlen. clear. induction (a_slots a) as [|[m|] slots IH]; cbn; lia.
Qed.

Lemma usable_bounds chunk (m : Member R) : 0 ≤ chunk → member_typed m →
  0 ≤ usable chunk m ≤ m_data_size m.
Proof.
  intros Hc (Ho & Hd & He). unfold usable. destruct (Z.eqb_spec chunk 0); [lia|].
  pose proof (Z.mul_div_le (m_data_size m) chunk ltac:(lia)).
  pose proof (Z.div_pos (m_data_size m) chunk Hd ltac:(lia)). nia.
Qed.

(** Reading [take] bytes of a member within its usable size. *)
Lemma read_take_ok (a : MdArray R) mem slot off take : assembled a → serves a mem → 0 ≤ a_chunk a →
  zlen (a_slots a) ≤ present_in (a_slots a) → 0 ≤ slot < zlen (a_slots a) →
  0 ≤ off → 0 ≤ take → off + take ≤ byte_at (usable_sizes a) slot →
  read_take a slot off take = Ok (bytes_of (mem slot) off take).
Proof.
  intros Ha Hs Hc Hp Hslot Ho Ht Hend.
  destruct (usable_at a slot Ha Hp Hslot) as (m & Em & Hty & Eu).
  pose proof (usable_bounds (a_chunk a) m Hc Hty). destruct Hty as (? & ? & ?).
  pose proof (size_is_u64 (m_dev m)) as Hu. unfold is_u64 in Hu.
  unfold read_take, read_member. rewrite Em, u64_small by lia.
  by rewrite (Hs slot m Em) by lia.
Qed.

Lemma chunk_nonneg (a : MdArray R) : assembled a → 0 ≤ a_chunk a.
Proof.
  intros Ha. destruct (as_lead _ Ha) as [sz Hl]. rewrite (as_chunk _ Ha).
  pose proof (sb_chunk _ _ Hl). lia.
Qed.

(** The zone a byte is found in. *)
Lemma zone_of_ok zones pos : (∃ z, z ∈ zones ∧ z_start z ≤ pos < z_start z + z_len z) →
  (∀ z, z ∈ zones → 0 ≤ z_start z + z_len z < 2 ^ 64) →
  ∃ z, zone_of zones pos = Some z ∧ z ∈ zones ∧ z_start z ≤ pos < z_start z + z_len z.
Proof.
  intros (z & Hz & Hpos) Hu. unfold zone_of. destruct (List.find _ zones) as [z'|] eqn:E.
  - exists z'. apply find_some in E as [E Eb]. rewrite <- list_elem_of_In in E.
    specialize (Hu z' E). rewrite u64_small in Eb by done. split_and!; [done|done|lia|lia].
  - eapply find_none in E; [|by apply list_elem_of_In]. rewrite u64_small in E by auto. lia.
Qed.

(** ** RAID0: one byte, one place *)
Section raid0_places.
Context (a : MdArray R) (Ha : assembled a) (Hlvl : a_level a = LEVEL_RAID0).
Context (Hu : above (usable_sizes a) 0 < 2 ^ 64).

(** Where array byte [pos] is kept. *)
Definition raid0_place (pos : Z) : option (Z * Z) :=
  (λ z, zone_place a z (pos - z_start z)) <$> zone_of (a_zones a) pos.

Lemma raid0_zones_facts :
  0 < a_chunk a ∧ zlen (a_slots a) ≤ present_in (a_slots a) ∧
  tiled (usable_sizes a) 0 0 (a_zones a) ∧ a_size a = above (usable_sizes a) 0 ∧
  ∀ s, s ∈ usable_sizes a → (a_chunk a | s).
Proof.
  destruct (arranged_raid0 a Ha Hlvl) as (Hc & Hp & Ez & Es). rewrite <- (as_slots _ Ha) in Hp.
  pose proof (raid0_zones_tiled _ Hu) as Ht. rewrite <- Ez in Ht.
  split_and!; [done|done|done| |].
  - rewrite Es. rewrite (tiled_total _ _ _ _ Ht) by lia. lia.
  - intros s (m & -> & _)%list_elem_of_fmap. unfold usable.
    rewrite (proj2 (Z.eqb_neq _ _)) by lia. apply Z.divide_factor_r.
Qed.

Lemma zone_fits z : z ∈ a_zones a →
  zone_ok (usable_sizes a) z ∧ 0 ≤ z_start z + z_len z < 2 ^ 64 ∧
  (a_chunk a | z_start z) ∧ (a_chunk a | z_dev_start z) ∧
  ∃ h, 0 < h ∧ z_len z = h * zlen (z_slots z) ∧ (a_chunk a | h) ∧
    ∀ s, s ∈ z_slots z → 0 ≤ s < zlen (a_slots a) ∧ z_dev_start z + h ≤ byte_at (usable_sizes a) s.
Proof.
  intros Hz. destruct raid0_zones_facts as (Hc & Hp & Ht & _ & Hmul).
  destruct (tiled_zone (usable_sizes a) 0 0 (a_zones a) z ltac:(done) ltac:(done) Ht Hz)
    as (Hzok & _ & _ & Hend).
  destruct (tiled_mult _ (a_chunk a) _ _ _ z Hmul Ht) as [Hzs Hzd]; [by exists 0..|done|].
  destruct (zo_len _ _ Hzok) as (h & Hh & Elen & Hhs & Hreach).
  pose proof (zo_slots _ _ Hzok). pose proof (zo_start _ _ Hzok).
  split; [done|]. split.
  { assert (0 ≤ z_len z) by (rewrite Elen; apply Z.mul_nonneg_nonneg; lia). lia. }
  split; [done|]. split; [done|]. exists h. split_and!; [done|done| |].
  - replace h with (z_dev_start z + h - z_dev_start z) by lia.
    apply Z.divide_sub_r; [by apply Hmul|done].
  - intros s Hs. rewrite <- zlen_usable by done. by apply Hreach.
Qed.

Lemma raid0_zone pos : 0 ≤ pos < a_size a → ∃ z, zone_of (a_zones a) pos = Some z ∧
  z ∈ a_zones a ∧ z_start z ≤ pos < z_start z + z_len z.
Proof.
  intros Hpos. destruct raid0_zones_facts as (Hc & Hp & Ht & Es & _).
  apply zone_of_ok; [apply (tiled_cover _ _ _ _ _ Ht); lia|].
  intros z Hz. by destruct (zone_fits z Hz) as (_ & ? & _).
Qed.

(** The slot a zone picks for a chunk. *)
Lemma picked_slot z pick : z ∈ a_zones a →
  byte_at (z_slots z) (pick mod zlen (z_slots z)) ∈ z_slots z.
Proof.
  intros Hz. destruct (zone_fits z Hz) as (Hzok & _). pose proof (zo_slots _ _ Hzok) as Hk.
  pose proof (Z.mod_pos_bound pick _ Hk) as Hm. unfold byte_at.
  destruct (lookup_lt_is_Some_2 (z_slots z) (Z.to_nat (pick mod zlen (z_slots z)))) as [s Es].
  { unfold zlen in *. lia. }
  rewrite Es. by eapply list_elem_of_lookup_2.
Qed.

Lemma zone_place_inside z w : z ∈ a_zones a → 0 ≤ w < z_len z →
  0 ≤ (zone_place a z w).1 < zlen (a_slots a) ∧
  z_dev_start z ≤ (zone_place a z w).2 ∧
  (∀ h, z_len z = h * zlen (z_slots z) → (zone_place a z w).2 < z_dev_start z + h) ∧
  (zone_place a z w).2 < byte_at (usable_sizes a) (zone_place a z w).1.
Proof.
  intros Hz Hw. destruct raid0_zones_facts as (Hc & _).
  destruct (zone_fits z Hz) as (Hzok & _ & _ & _ & h & Hh & Elen & Hch & Hreach).
  pose proof (zo_slots _ _ Hzok) as Hk. rewrite Elen in Hw.
  destruct (zone_chunk (a_chunk a) _ h w Hc Hk Hch Hw) as (_ & H2 & H3).
  pose proof (Z.mod_pos_bound w (a_chunk a) Hc).
  unfold zone_place. cbn [fst snd]. set (pick := if _ =? _ then _ else _).
  destruct (Hreach _ (picked_slot z pick Hz)) as [Hs1 Hs2].
  assert (0 ≤ w / a_chunk a / zlen (z_slots z) * a_chunk a) by (apply Z.mul_nonneg_nonneg; lia).
  split_and!; [lia|lia|lia| |lia].
  intros h' E. rewrite E in Elen. apply Z.mul_cancel_r in Elen; lia.
Qed.

Lemma zone_place_inj z w w' : z ∈ a_zones a → 0 ≤ w < z_len z → 0 ≤ w' < z_len z →
  zone_place a z w = zone_place a z w' → w = w'.
Proof.
  intros Hz Hw Hw'. destruct raid0_zones_facts as (Hc & _).
  destruct (zone_fits z Hz) as (Hzok & _ & [q Hq] & _ & h & Hh & Elen & Hch & _).
  pose proof (zo_slots _ _ Hzok) as Hk. set (k := zlen (z_slots z)) in *.
  unfold zone_place. fold k. intros [= Es Eo].
  pose proof (Z.mod_pos_bound w (a_chunk a) Hc) as Hm.
  pose proof (Z.mod_pos_bound w' (a_chunk a) Hc) as Hm'.
  destruct (euclid_inj (a_chunk a) (w / a_chunk a / k) (w mod a_chunk a)
    (w' / a_chunk a / k) (w' mod a_chunk a)) as [Er Ei]; [done|done|lia|].
  assert (∀ x y, byte_at (z_slots z) (x mod k) = byte_at (z_slots z) (y mod k) → x mod k = y mod k)
    as Hinj.
  { intros x y E. pose proof (Z.mod_pos_bound x k Hk). pose proof (Z.mod_pos_bound y k Hk).
    unfold byte_at in E.
    destruct (lookup_lt_is_Some_2 (z_slots z) (Z.to_nat (x mod k))) as [s Esx]; [unfold k, zlen in *; lia|].
    destruct (lookup_lt_is_Some_2 (z_slots z) (Z.to_nat (y mod k))) as [s' Esy]; [unfold k, zlen in *; lia|].
    rewrite Esx, Esy in E. cbn in E. subst s'.
    pose proof (NoDup_lookup _ _ _ _ (zo_NoDup _ _ Hzok) Esx Esy). lia. }
  apply Hinj in Es.
  pose proof (Z.div_mod (w / a_chunk a) k ltac:(lia)) as Hd. rewrite Er in Hd.
  pose proof (Z.div_mod (w' / a_chunk a) k ltac:(lia)) as Hd'.
  pose proof (Z.mod_pos_bound (w / a_chunk a) k Hk). pose proof (Z.mod_pos_bound (w' / a_chunk a) k Hk).
  assert (w / a_chunk a = w' / a_chunk a) as Ec.
  { destruct (a_layout a =? RAID0_LAYOUT_ORIGINAL).
    - rewrite Hq in Es. rewrite !(Z.add_comm (q * a_chunk a)), !Z.div_add in Es by lia.
      apply mod_inj in Es; lia.
    - apply mod_inj in Es; lia. }
  rewrite (Z.div_mod w (a_chunk a)), (Z.div_mod w' (a_chunk a)) by lia. by rewrite Ec, Ei.
Qed.

Lemma raid0_place_inj pos pos' : 0 ≤ pos < a_size a → 0 ≤ pos' < a_size a →
  raid0_place pos = raid0_place pos' → pos = pos'.
Proof.
  intros Hp Hp'. destruct (raid0_zone pos Hp) as (z & Ez & Hz & Hin).
  destruct (raid0_zone pos' Hp') as (z' & Ez' & Hz' & Hin').
  unfold raid0_place. rewrite Ez, Ez'. intros E. apply (inj Some) in E.
  destruct raid0_zones_facts as (Hc & _ & Ht & _).
  destruct (tiled_apart (usable_sizes a) 0 0 (a_zones a) z z' ltac:(done) ltac:(done) Ht Hz Hz')
    as [<-|Hap].
  - apply zone_place_inj in E; [lia|done|lia|lia].
  - destruct (zone_fits z Hz) as (_ & _ & _ & _ & h & _ & Eh & _).
    destruct (zone_fits z' Hz') as (_ & _ & _ & _ & h' & _ & Eh' & _).
    destruct (zone_place_inside z (pos - z_start z) Hz ltac:(lia)) as (_ & H1 & H2 & _).
    destruct (zone_place_inside z' (pos' - z_start z') Hz' ltac:(lia)) as (_ & H3 & H4 & _).
    specialize (H2 h Eh). specialize (H4 h' Eh'). rewrite E in H1, H2.
    destruct (Hap h h' Eh Eh') as [[? ?]|[? ?]]; lia.
Qed.
End raid0_places.

(** ** RAID0: reading *)
Section raid0.
Context (a : MdArray R) (mem : Z → Z → Z) (L : Z → Z).
Context (Ha : assembled a) (Hs : serves a mem) (HL : array_holds a mem L).
Context (Hlvl : a_level a = LEVEL_RAID0).

Lemma read_raid0_ok pos t : 0 ≤ pos → 0 < t → pos + t ≤ a_size a →
  ∃ t', 0 < t' ≤ t ∧ read_zoned a pos t = Ok (bytes_of L pos t').
Proof.
  intros Hpos Ht Hend. destruct (ah_raid0 _ _ _ HL Hlvl) as [Hu HZ].
  destruct (raid0_zones_facts a Ha Hlvl Hu) as (Hc & Hp & _).
  destruct (raid0_zone a Ha Hlvl Hu pos ltac:(lia)) as (z & Ez & Hz & Hin).
  destruct (zone_fits a Ha Hlvl Hu z Hz) as (Hzok & _ & Hzs & Hzd & h & Hh & Elen & Hch & Hreach).
  set (k := zlen (z_slots z)) in *. set (w := pos - z_start z).
  destruct (zone_chunk (a_chunk a) k h w Hc (zo_slots _ _ Hzok) Hch ltac:(lia)) as (H1 & H2 & H3).
  pose proof (Z.div_mod w (a_chunk a) ltac:(lia)) as Hdm.
  pose proof (Z.mod_pos_bound w (a_chunk a) Hc) as Hm.
  set (take := Z.min (a_chunk a - w mod a_chunk a) t).
  exists take. split; [lia|]. unfold read_zoned. rewrite Ez. cbn [ok_or mbind Result_bind].
  fold w. rewrite Hlvl. cbn [Z.eqb LEVEL_RAID0 LEVEL_LINEAR]. fold k. fold take.
  set (pick := if a_layout a =? RAID0_LAYOUT_ORIGINAL then _ else _).
  pose proof (Z.mod_pos_bound pick k (zo_slots _ _ Hzok)) as Hpick.
  destruct (lookup_lt_is_Some_2 (z_slots z) (Z.to_nat (pick mod k))) as [slot Eslot].
  { unfold k, zlen in *. lia. }
  rewrite Eslot. cbn [ok_or mbind Result_bind].
  destruct (Hreach slot ltac:(by eapply list_elem_of_lookup_2)) as [Hslot Hsize].
  destruct (usable_at a slot Ha Hp Hslot) as (m & _ & Hty & Eus).
  pose proof (usable_bounds (a_chunk a) m ltac:(lia) Hty). destruct Hty as (? & ? & ?).
  pose proof (size_is_u64 (m_dev m)) as Hu64. unfold is_u64 in Hu64.
  pose proof (zo_dev _ _ Hzok) as Hdev.
  assert (0 ≤ w / a_chunk a / k * a_chunk a) by (apply Z.mul_nonneg_nonneg; lia).
  set (off := z_dev_start z + w / a_chunk a / k * a_chunk a + w mod a_chunk a).
  replace (u64 (u64 (z_dev_start z + u64 (w / a_chunk a / k * a_chunk a)) + w mod a_chunk a))
    with off by (rewrite (u64_small (w / a_chunk a / k * a_chunk a)) by lia;
                 rewrite (u64_small (z_dev_start z + _)) by lia; rewrite u64_small by lia; done).
  rewrite (read_take_ok a mem) by (done || lia). f_equal.
  apply bytes_of_eq. intros j Hj.
  replace (pos + j) with (z_start z + (w + j)) by lia.
  rewrite <- (HZ z (w + j) Hz) by lia. unfold zone_place. fold k.
  destruct (same_chunk (a_chunk a) w j Hc) as [-> ->]; [lia..|].
  assert ((z_start z + (w + j)) / a_chunk a = pos / a_chunk a) as ->.
  { destruct Hzs as [q Hq]. replace (z_start z + (w + j)) with (w + j + q * a_chunk a) by lia.
    replace pos with (w + q * a_chunk a) by lia. rewrite !Z.div_add by lia.
    f_equal. apply same_chunk; lia. }
  cbn [fst snd]. fold pick. unfold byte_at. rewrite Eslot. cbn [default].
  unfold off. f_equal. lia.
Qed.
End raid0.

(** ** Linear arrays *)

(** A zone of one member, from its start. *)
Record linear_zone (lens : list Z) (s0 st size : Z) (z : Zone) : Prop := {
  lz_start : st ≤ z_start z;
  lz_len : 0 ≤ z_len z;
  lz_end : z_start z + z_len z ≤ size;
  lz_u64 : z_start z + z_len z < 2 ^ 64;
  lz_dev : z_dev_start z = 0;
  lz_slot : ∃ slot, z_slots z = [slot] ∧ s0 ≤ slot < s0 + zlen lens ∧
    byte_at lens (slot - s0) = z_len z ∧
    ∀ w, 0 ≤ w < z_len z → linear_place lens s0 (z_start z + w - st) = (slot, w);
}.

Lemma linear_zones_ok chunk (slots : list (option (Member R))) s0 st zs size :
  0 ≤ chunk → 0 ≤ st → slots_typed slots → linear_zones chunk slots s0 st = Ok (zs, size) →
  st ≤ size ∧
  (∀ z, z ∈ zs → linear_zone (map (usable chunk) (omap id slots)) s0 st size z) ∧
  (∀ pos, st ≤ pos < size → ∃ z, z ∈ zs ∧ z_start z ≤ pos < z_start z + z_len z).
Proof.
  intros Hc. revert s0 st zs size. induction slots as [|o slots IH]; intros s0 st zs size Hst Hty H.
  { injection H as <- <-. split_and!; [lia|by intros ? ?%not_elem_of_nil|lia]. }
  destruct o as [m|]; cbn [linear_zones] in H; [|done].
  fold (usable chunk m) in H. inv_ok. destruct x0 as [zs' size']. cbn [fst snd] in *. subst zs size x.
  cbn [omap list_omap id map].
  assert (member_typed m) as Hm by (apply Hty; set_solver).
  pose proof (usable_bounds chunk m Hc Hm) as Hu.
  destruct (IH (s0 + 1) (st + usable chunk m) zs' size') as (Hle & Hzs & Hcov);
    [lia| |done|]. { intros m' Hm'. apply Hty. set_solver. }
  split_and!; [lia| |].
  - intros z [->|Hz]%elem_of_cons.
    + constructor; cbn [z_start z_len z_dev_start z_slots]; try lia.
      exists s0. split; [done|]. unfold zlen. cbn [length]. split; [lia|].
      rewrite Z.sub_diag. split; [done|]. intros w Hw. cbn [linear_place].
      replace (st + w - st) with w by lia. by rewrite (proj2 (Z.ltb_lt _ _)) by lia.
    + destruct (Hzs z Hz) as [? ? ? ? ? (slot & Esl & Hsl & Eby & Hpl)].
      constructor; try lia. exists slot. split; [done|].
      unfold zlen in *. cbn [length]. split; [lia|]. split.
      * rewrite <- Eby. unfold byte_at. replace (Z.to_nat (slot - s0)) with (S (Z.to_nat (slot - (s0 + 1)))) by lia.
        done.
      * intros w Hw. cbn [linear_place]. rewrite (proj2 (Z.ltb_ge _ _)) by lia.
        rewrite <- (Hpl w Hw). f_equal. lia.
  - intros pos Hpos. destruct (Z.ltb_spec pos (st + usable chunk m)).
    + eexists. split; [apply list_elem_of_here|]. cbn. lia.
    + destruct (Hcov pos ltac:(lia)) as (z & Hz & ?). exists z. split; [by right|done].
Qed.

Lemma read_linear_ok a mem L pos t : assembled a → serves a mem → array_holds a mem L →
  a_level a = LEVEL_LINEAR → 0 ≤ pos → 0 < t → pos + t ≤ a_size a →
  ∃ t', 0 < t' ≤ t ∧ read_zoned a pos t = Ok (bytes_of L pos t').
Proof.
  intros Ha Hs HL Hlvl Hpos Ht Hend.
  destruct (arranged_linear a Ha Hlvl) as [Hp Hlz]. rewrite <- (as_slots _ Ha) in Hp.
  pose proof (chunk_nonneg a Ha) as Hc.
  destruct (linear_zones_ok _ _ _ _ _ _ Hc (Z.le_refl 0) (as_members _ Ha) Hlz) as (_ & Hzs & Hcov).
  fold (usable_sizes a) in Hzs.
  destruct (zone_of_ok (a_zones a) pos) as (z & Ez & Hz & Hin); [apply Hcov; lia| |].
  { intros z Hz. destruct (Hzs z Hz). lia. }
  destruct (Hzs z Hz) as [? ? ? ? Hdev (slot & Esl & Hsl & Eby & Hpl)].
  rewrite zlen_usable in Hsl by done. rewrite Z.sub_0_r in Eby.
  set (w := pos - z_start z). set (take := Z.min (z_len z - w) t).
  exists take. split; [lia|]. unfold read_zoned. rewrite Ez. cbn [ok_or mbind Result_bind].
  rewrite Hlvl. cbn [Z.eqb LEVEL_LINEAR Pos.eqb]. fold w. fold take. rewrite Esl, Hdev.
  cbn [head ok_or mbind Result_bind]. rewrite Z.add_0_l, u64_small by lia.
  rewrite (read_take_ok a mem) by (done || lia). f_equal. apply bytes_of_eq. intros j Hj.
  pose proof (ah_linear _ _ _ HL Hlvl (pos + j) ltac:(lia)) as HLj.
  specialize (Hpl (w + j) ltac:(lia)). rewrite Z.sub_0_r in Hpl.
  replace (z_start z + (w + j)) with (pos + j) in Hpl by lia. by rewrite Hpl in HLj.
Qed.

(** ** Every level *)
Lemma level_known a : assembled a →
  a_level a = LEVEL_LINEAR ∨ a_level a = LEVEL_RAID1 ∨ a_level a = LEVEL_RAID0 ∨
  a_level a = LEVEL_RAID10 ∨
  (a_level a = LEVEL_RAID4 ∨ a_level a = LEVEL_RAID5 ∨ a_level a = LEVEL_RAID6).
Proof.
  intros Ha. pose proof (as_arranged _ Ha) as E. unfold arrange in E. rewrite a_level_eq in E by done.
  destruct (Z.eqb_spec (a_level a) LEVEL_LINEAR); [tauto|].
  destruct (Z.eqb_spec (a_level a) LEVEL_RAID1); [tauto|].
  destruct (Z.eqb_spec (a_level a) LEVEL_RAID0); [tauto|].
  destruct (Z.eqb_spec (a_level a) LEVEL_RAID10); [tauto|].
  destruct (_ || _) eqn:E4; [|done]. apply orb_true_iff in E4 as [E4|E4]; [apply orb_true_iff in E4|];
    lia.
Qed.

Lemma array_reads_exactly a mem L : assembled a → serves a mem → array_holds a mem L →
  reads_exactly (read_at a) (a_size a) L.
Proof.
  intros Ha Hs HL offset len Ho Hl. cbn [read_at MdArray_read]. unfold md_read_at.
  pose proof (arranged_size a Ha) as Hu.
  assert ((match checked_add offset len with
           | Some end_ => negb (end_ <=? a_size a) | None => true end) =
          negb (offset + len <=? a_size a)) as ->.
  { unfold checked_add. destruct (Z.ltb_spec (offset + len) (2 ^ 64)); [done|].
    symmetry. apply negb_true_iff, Z.leb_gt. lia. }
  destruct (Z.leb_spec (offset + len) (a_size a)) as [Hend|]; [|done]. cbn [negb refuse_if mbind Result_bind].
  pose proof (bytes_of_zeros offset 0) as E0. cbn in E0.
  destruct (level_known a Ha) as [H|[H|[H|[H|H]]]].
  - rewrite H. cbn [Z.eqb LEVEL_LINEAR LEVEL_RAID1 LEVEL_RAID0 Pos.eqb orb].
    apply (zoned_loop_ok a L offset len _ 0); [lia..|]. intros. by eapply read_linear_ok.
  - rewrite H. cbn [Z.eqb LEVEL_RAID1 Pos.eqb]. by eapply read_raid1_ok.
  - rewrite H. cbn [Z.eqb LEVEL_RAID1 LEVEL_RAID0 orb].
    apply (zoned_loop_ok a L offset len _ 0); [lia..|]. intros. by eapply read_raid0_ok.
  - rewrite H. cbn [Z.eqb LEVEL_RAID10 LEVEL_LINEAR LEVEL_RAID1 LEVEL_RAID0 Pos.eqb orb].
    destruct (arranged_raid10 a Ha H) as (_ & _ & Hc & _).
    apply (striped_loop_ok a L offset len _ 0); [lia..|]. intros. by eapply read_raid10_ok.
  - destruct (arranged_parity a Ha H) as (Hc & _).
    assert (a_level a ≠ LEVEL_RAID1 ∧ a_level a ≠ LEVEL_RAID0 ∧ a_level a ≠ LEVEL_LINEAR) as (E1 & E2 & E3)
      by (unfold LEVEL_RAID1, LEVEL_RAID0, LEVEL_LINEAR, LEVEL_RAID4, LEVEL_RAID5, LEVEL_RAID6 in *; lia).
    apply Z.eqb_neq in E1, E2, E3. rewrite E1, E2, E3. cbn [orb].
    apply (striped_loop_ok a L offset len _ 0); [lia..|]. intros. by eapply read_parity_ok.
Qed.
End array.
