(* ===== verification/MdScan.v ===== *)
(** * Sorting devices into arrays, and choosing the members

    [scan] puts every device in exactly one place and groups by array; an
    assembled array's members are current members of its newest superblock's
    array, each in the slot its own superblock names. *)
From S2P Require Import Prelude Bytes Device MdLayout Md MdAssemble.

Section scan.
Context {R : Type} `{!BlockRead R}.

(** [dev], given at some position, carries superblock [sb]. *)
Definition carries (dev : R) (sb : MdSuperblock) : Prop :=
  ∃ i, read_superblock_of dev i = Ok (Some sb).

(** A group's members carry its UUID, and its superblock is the newest. *)
Record group_ok (g : MdGroup R) : Prop := {
  go_lead : ∃ dev, dev ∈ g_members g ∧ carries dev (g_superblock g);
  go_uuid : array_uuid (g_superblock g) = g_array_uuid g;
  go_members : ∀ dev, dev ∈ g_members g → ∃ sb, carries dev sb ∧
    array_uuid sb = g_array_uuid g ∧ events sb ≤ events (g_superblock g);
}.

Definition members_of (gs : list (MdGroup R)) : list R := concat (map g_members gs).

(** Every device a scan has taken in. *)
Definition devices_of (s : MdScan R) : list R :=
  members_of (arrays s) ++ others s ++ map fst (refused s).

Record scan_ok (s : MdScan R) : Prop := {
  so_groups : ∀ g, g ∈ arrays s → group_ok g;
  so_apart : NoDup (map g_array_uuid (arrays s));
}.

Lemma join_group_members (gs : list (MdGroup R)) dev sb :
  members_of (join_group gs dev sb) ≡ₚ dev :: members_of gs.
Proof.
  unfold members_of. induction gs as [|g gs IH]; cbn; [done|].
  destruct (bytes_eqb _ _); cbn; [|by rewrite IH, Permutation_middle].
  rewrite <- app_assoc. cbn. by rewrite Permutation_middle.
Qed.

Lemma join_group_uuids (gs : list (MdGroup R)) dev sb u : u ∈ map g_array_uuid (join_group gs dev sb) →
  u ∈ map g_array_uuid gs ∨ (u = array_uuid sb ∧ array_uuid sb ∉ map g_array_uuid gs).
Proof.
  induction gs as [|g gs IH]; cbn.
  { intros ->%list_elem_of_singleton. right. split; [done|apply not_elem_of_nil]. }
  unfold bytes_eqb. case_bool_decide as E; cbn; [set_solver|].
  intros [->|Hu]%elem_of_cons; [set_solver|]. destruct (IH Hu) as [|[-> Hn]]; [set_solver|].
  right. split; [done|]. apply not_elem_of_cons. by split.
Qed.

Lemma join_group_apart (gs : list (MdGroup R)) dev sb :
  NoDup (map g_array_uuid gs) → NoDup (map g_array_uuid (join_group gs dev sb)).
Proof.
  induction gs as [|g gs IH]; cbn; [intros _; apply NoDup_singleton|].
  intros [Hg Hgs]%NoDup_cons. unfold bytes_eqb. case_bool_decide as E; cbn; [by apply NoDup_cons|].
  apply NoDup_cons. split; [|by apply IH].
  intros [Hin|[Hin _]]%join_group_uuids; [done|by rewrite Hin in E].
Qed.

Lemma join_group_ok (gs : list (MdGroup R)) dev sb : carries dev sb →
  (∀ g, g ∈ gs → group_ok g) → ∀ g, g ∈ join_group gs dev sb → group_ok g.
Proof.
  intros Hc Hgs. induction gs as [|h gs IH]; cbn.
  { intros g ->%list_elem_of_singleton. constructor; cbn; [|done|].
    - exists dev. split; [set_solver|done].
    - intros d ->%list_elem_of_singleton. exists sb. split_and!; [done|done|lia]. }
  destruct (Hgs h ltac:(set_solver)) as [(d0 & Hd0 & Hc0) Hu Hm].
  unfold bytes_eqb. case_bool_decide as E; intros g [->|Hg]%elem_of_cons;
    [|apply Hgs; set_solver|apply Hgs; set_solver|apply IH; [intros; apply Hgs|]; set_solver].
  destruct (Z.ltb_spec (events (g_superblock h)) (events sb)); constructor; cbn; try done.
  - exists dev. split; [set_solver|done].
  - intros d [Hd| ->%list_elem_of_singleton]%elem_of_app.
    + destruct (Hm d Hd) as (s & ? & ? & ?). exists s. split_and!; [done|done|lia].
    + exists sb. split_and!; [done|done|lia].
  - exists d0. split; [set_solver|done].
  - intros d [Hd| ->%list_elem_of_singleton]%elem_of_app; [by apply Hm|].
    exists sb. split_and!; [done|done|lia].
Qed.

Lemma scan_one_devices s i dev : devices_of (scan_one s (i, dev)) ≡ₚ devices_of s ++ [dev].
Proof.
  unfold scan_one, devices_of.
  destruct (read_superblock_of dev i) as [[sb|]|e]; cbn [arrays others refused].
  - rewrite join_group_members. cbn. rewrite Permutation_cons_append. by rewrite <- !app_assoc.
  - rewrite <- !app_assoc. do 2 apply Permutation_app_head. apply Permutation_app_comm.
  - rewrite map_app. cbn. by rewrite <- !app_assoc.
Qed.

Lemma scan_one_ok s i dev : scan_ok s → scan_ok (scan_one s (i, dev)).
Proof.
  intros [Hg Ha]. unfold scan_one.
  destruct (read_superblock_of dev i) as [[sb|]|e] eqn:E; constructor; cbn [arrays]; try done.
  - apply join_group_ok; [by exists i|done].
  - by apply join_group_apart.
Qed.

Lemma scan_loop xs s : scan_ok s →
  scan_ok (foldl scan_one s xs) ∧ devices_of (foldl scan_one s xs) ≡ₚ devices_of s ++ map snd xs.
Proof.
  revert s. induction xs as [|[i dev] xs IH]; intros s Hs; cbn [foldl map snd].
  { by rewrite app_nil_r. }
  destruct (IH _ (scan_one_ok s i dev Hs)) as [Hok Hd]. split; [done|].
  by rewrite Hd, scan_one_devices, <- app_assoc.
Qed.

Lemma enumerate_snd {A} (l : list A) : map snd (enumerate l) = l.
Proof.
  unfold enumerate. assert (length l ≤ length (seqZ 0 (zlen l)))%nat as H.
  { rewrite length_seqZ. unfold zlen. lia. }
  revert H. generalize (seqZ 0 (zlen l)). induction l as [|x l IH]; intros [|i ks] H; cbn in *;
    [done|done|lia|]. rewrite IH; [done|lia].
Qed.
End scan.

(** ** Members of an assembled array *)
Section members.
Context {R : Type} `{!BlockRead R} `{!ReadLaws R}.

(** Slot [slot] holds [m] for a reason: its device carries a superblock that
    names the slot, is as new as [newest], and is not being rebuilt. *)
Definition rightful (devices : list R) (newest : Z) (slot : Z) (m : Member R) : Prop :=
  ∃ sb, m_dev m ∈ devices ∧ carries (m_dev m) sb ∧ role sb = Active slot ∧
    events sb = newest ∧ Z.land (feature_map sb) FEATURE_RECOVERY_OFFSET = 0 ∧
    m_data_offset m = data_offset sb ∧ m_data_size m = data_size sb.

Definition found_ok (devices : list R) (f : Z * R * MdSuperblock) : Prop :=
  f.1.2 ∈ devices ∧ read_superblock_of f.1.2 f.1.1 = Ok (Some f.2).

Lemma found_devices devices found : collectM read_found (enumerate devices) = Ok found →
  Forall (found_ok devices) found.
Proof.
  intros (os & Hos & ->)%collectM_Ok. apply list.Forall_forall.
  intros f (o & Ho & Hid)%list_elem_of_omap. cbn in Hid. subst o.
  apply list_elem_of_lookup in Ho as [i Hi].
  destruct (Forall2_lookup_r _ _ _ _ _ Hos Hi) as ([member dev] & Hx & Hf).
  unfold read_found in Hf. inv_ok. subst. split; [|done]. cbn.
  rewrite <- (enumerate_snd devices). apply list_elem_of_fmap. exists (member, dev).
  split; [done|]. by eapply list_elem_of_lookup_2.
Qed.

Lemma newest_bound (found : list (Z * R * MdSuperblock)) f : f ∈ found → events f.2 ≤ newest_of found.
Proof.
  unfold newest_of. induction found as [|g found IH]; [by intros ?%not_elem_of_nil|].
  cbn [foldr]. intros [->|Hf]%elem_of_cons; [lia|]. specialize (IH Hf). lia.
Qed.

Lemma place_rightful devices newest n found slots out :
  Forall (found_ok devices) found → Forall (λ f, events f.2 ≤ newest) found →
  Forall (λ f : Z * R * MdSuperblock, sb_typed f.2 (size_bytes f.1.2)) found →
  (∀ slot m, 0 ≤ slot → slots !! Z.to_nat slot = Some (Some m) → rightful devices newest slot m) →
  foldM (place_member n newest) slots found = Ok out →
  ∀ slot m, 0 ≤ slot → out !! Z.to_nat slot = Some (Some m) → rightful devices newest slot m.
Proof.
  revert slots. induction found as [|[[i dev] sb] found IH]; intros slots; cbn [foldM].
  { intros _ _ _ Hs [= <-]. done. }
  intros [[Hd Hr] Hf]%Forall_cons [He Hev]%Forall_cons [Hty Htys]%Forall_cons Hs H. inv_ok.
  apply (IH x); [done|done|done| |done]. clear IH H. cbn [fst snd] in *.
  unfold place_member in Hx.
  destruct (role sb) as [slot0| | |] eqn:Er; [|inv_ok; subst; exact Hs..].
  pose proof (sb_role _ _ Hty slot0 Er) as H0.
  destruct (_ || _) eqn:Eo; [inv_ok; subst; exact Hs|]. apply orb_false_iff in Eo as [E1 E2].
  apply negb_false_iff, Z.eqb_eq in E2. apply Z.ltb_ge in E1.
  destruct (_ <=? _); [inv_ok; subst; exact Hs|].
  assert (x = <[Z.to_nat slot0:=Some (mkMember dev (data_offset sb) (data_size sb))]> slots) as ->
    by (repeat case_match; inv_ok; congruence).
  intros slot m Hsl [(Heq & [= <-] & _)|[_ Hlk]]%list_lookup_insert_Some; [|by apply Hs].
  assert (slot0 = slot) as -> by lia. exists sb. cbn. split_and!; try done; [by exists i|lia].
Qed.

Lemma assemble_rightful devices a : assemble devices = Ok a →
  (∀ slot m, 0 ≤ slot → a_slots a !! Z.to_nat slot = Some (Some m) →
     rightful devices (events (a_superblock a)) slot m) ∧
  (∀ dev sb, dev ∈ devices → (∃ i, devices !! Z.to_nat i = Some dev ∧ 0 ≤ i ∧
       read_superblock_of dev i = Ok (Some sb)) → events sb ≤ events (a_superblock a)) ∧
  ∃ dev, dev ∈ devices ∧ carries dev (a_superblock a).
Proof.
  unfold assemble. intros H. inv_ok. destruct x7 as [[size zones] raid10]. inv_ok. subst a. cbn [a_slots a_superblock].
  pose proof (found_typed _ _ Hx0) as Hty. pose proof (found_devices _ _ Hx0) as Hd.
  unfold lead_of in Hx3. inv_ok.
  destruct (List.find _ x0) as [f|] eqn:Ef; [|done]. cbn in Hx3. injection Hx3 as <-.
  apply find_some in Ef as [Hf Ee]. rewrite <- list_elem_of_In in Hf. apply Z.eqb_eq in Ee.
  rewrite <- Ee in *. split_and!.
  - eapply place_rightful; [done| |done| |done].
    + apply list.Forall_forall. intros g Hg. rewrite Ee. by apply newest_bound.
    + intros slot m _ [? _]%lookup_replicate_1. done.
  - intros dev sb Hdev (i & Hi & Hi0 & Hr).
    assert (∃ g, g ∈ x0 ∧ g.2 = sb) as (g & Hg & <-); [|rewrite Ee; by apply newest_bound].
    apply collectM_Ok in Hx0 as (os & Hos & ->).
    assert (enumerate devices !! Z.to_nat i = Some (i, dev)) as Hen.
    { unfold enumerate. rewrite lookup_zip_with, lookup_seqZ_lt, Hi; cbn; [do 2 f_equal; lia|].
      apply lookup_lt_Some in Hi. unfold zlen. lia. }
    destruct (Forall2_lookup_l _ _ _ _ _ Hos Hen) as (o & Ho & Hread).
    unfold read_found in Hread. rewrite Hr in Hread. cbn in Hread. injection Hread as <-.
    exists (i, dev, sb). split; [|done]. apply list_elem_of_omap. eexists.
    split; [by eapply list_elem_of_lookup_2|done].
  - pose proof (Forall_in _ _ _ Hd Hf) as [Hin Hr]. exists f.1.2. split; [done|by eexists].
Qed.
End members.
