(* ===== verification/MdEncode.v ===== *)
(** * A reference encoder for parity arrays

    [encode s L] is what a writer of a RAID4, 5 or 6 array keeps on each member
    when the array's bytes are [L].  It meets [parity_holds] because a row's
    members have one job each, so the contract [read_chunk] is proved under can
    be met for every layout and every content. *)
From S2P Require Import Prelude Bytes Device Gf256 MdLayout MdRows MdRead MdStripe.

(** A list without repeats made from numbers tells them apart. *)
Lemma NoDup_map_seqZ (f : Z → Z) k : NoDup (map f (seqZ 0 k)) →
  ∀ i j, 0 ≤ i < k → 0 ≤ j < k → f i = f j → i = j.
Proof.
  intros Hnd i j Hi Hj E.
  assert (∀ x, 0 ≤ x < k → map f (seqZ 0 k) !! Z.to_nat x = Some (f x)) as Hlk.
  { intros x Hx. change (map f) with (fmap (M:=list) f).
    rewrite list_lookup_fmap, lookup_seqZ_lt by lia. cbn. do 2 f_equal. lia. }
  pose proof (NoDup_lookup _ (Z.to_nat i) (Z.to_nat j) (f i) Hnd (Hlk i Hi)) as H.
  rewrite (Hlk j Hj), E in H. specialize (H eq_refl). lia.
Qed.

Section encode.
Context (s : Striping) (L : Z → Z).
Local Abbreviation lvl := (st_level s).
Local Abbreviation lay := (row_layout s).
Local Abbreviation n := (st_members s).
Local Abbreviation nd := (data_members s).
Local Abbreviation chunk := (st_chunk s).

(** The data chunk of row [stripe] that member [slot] holds. *)
Definition data_chunk_of (stripe slot : Z) : option Z :=
  List.find (λ i, data_at lvl lay n stripe i =? slot) (seqZ 0 nd).

Definition encode (slot off : Z) : Z :=
  let stripe := off / chunk in
  let w := off mod chunk in
  match data_chunk_of stripe slot with
  | Some i => L (array_byte s stripe i w)
  | None =>
      if slot =? p_at lvl lay n stripe
      then xsum (seqZ 0 nd) (λ i, L (array_byte s stripe i w))
      else xsum (seqZ 0 nd) (λ i, gf_mul (weight s stripe i) (L (array_byte s stripe i w)))
  end.

Context (Hp : placed_layout lvl lay) (Hc : 0 < chunk) (Hn : parity_of lvl < n).

Lemma encode_off stripe w slot : 0 ≤ w < chunk →
  encode slot (stripe * chunk + w) =
  match data_chunk_of stripe slot with
  | Some i => L (array_byte s stripe i w)
  | None =>
      if slot =? p_at lvl lay n stripe
      then xsum (seqZ 0 nd) (λ i, L (array_byte s stripe i w))
      else xsum (seqZ 0 nd) (λ i, gf_mul (weight s stripe i) (L (array_byte s stripe i w)))
  end.
Proof.
  intros Hw. unfold encode.
  assert ((stripe * chunk + w) / chunk = stripe) as -> by (symmetry; apply (Z.div_unique_pos _ _ _ w); lia).
  assert ((stripe * chunk + w) mod chunk = w) as -> by (symmetry; apply (Z.mod_unique_pos _ _ stripe); lia).
  done.
Qed.

(** A row's jobs, from [row_members]: data chunks apart, and off the checks. *)
Lemma row_jobs stripe :
  NoDup (map (data_at lvl lay n stripe) (seqZ 0 nd)) ∧
  (∀ i, 0 ≤ i < nd → data_at lvl lay n stripe i ∉
     p_at lvl lay n stripe :: option_list (q_at lvl lay n stripe)) ∧
  NoDup (p_at lvl lay n stripe :: option_list (q_at lvl lay n stripe)).
Proof.
  pose proof (row_members lvl lay n stripe Hp Hn) as Hr. unfold row_of in Hr.
  assert (NoDup (map (data_at lvl lay n stripe) (seqZ 0 nd) ++
    p_at lvl lay n stripe :: option_list (q_at lvl lay n stripe))) as Hnd
    by (unfold data_members; rewrite Hr; apply NoDup_seqZ).
  apply NoDup_app in Hnd as (H1 & H2 & H3). split_and!; [done| |done].
  intros i Hi. apply H2, list_elem_of_fmap. exists i. split; [done|]. apply elem_of_seqZ. lia.
Qed.

Lemma data_chunk_found stripe i : 0 ≤ i < nd →
  data_chunk_of stripe (data_at lvl lay n stripe i) = Some i.
Proof.
  intros Hi. unfold data_chunk_of. destruct (List.find _ _) as [j|] eqn:E.
  - apply find_some in E as [Hj Ej]. rewrite <- list_elem_of_In, elem_of_seqZ in Hj.
    apply Z.eqb_eq in Ej. f_equal. destruct (row_jobs stripe) as (Hnd & _).
    apply (NoDup_map_seqZ _ _ Hnd); [lia|lia|done].
  - eapply find_none in E; [|apply list_elem_of_In, elem_of_seqZ; split; [apply Hi|lia]]. lia.
Qed.

Lemma check_chunk_none stripe m :
  m ∈ p_at lvl lay n stripe :: option_list (q_at lvl lay n stripe) → data_chunk_of stripe m = None.
Proof.
  intros Hm. unfold data_chunk_of. destruct (List.find _ _) as [j|] eqn:E; [exfalso|done].
  apply find_some in E as [Hj Ej]. rewrite <- list_elem_of_In, elem_of_seqZ in Hj.
  apply Z.eqb_eq in Ej. subst m. destruct (row_jobs stripe) as (_ & Hd & _). apply (Hd j); [lia|done].
Qed.

Lemma encode_holds rows : (∀ pos, is_u8 (L pos)) → parity_holds s rows encode L.
Proof.
  intros HL. constructor; [done|intros stripe i w Hs Hi Hw|intros stripe w Hs Hw|intros stripe w q Hs Hw Hq];
    rewrite encode_off by done.
  - by rewrite data_chunk_found.
  - rewrite check_chunk_none by set_solver. by rewrite Z.eqb_refl.
  - rewrite check_chunk_none by (rewrite Hq; set_solver).
    destruct (row_jobs stripe) as (_ & _ & Hnd). rewrite Hq in Hnd. cbn in Hnd.
    apply NoDup_cons in Hnd as [Hnd _].
    destruct (Z.eqb_spec q (p_at lvl lay n stripe)) as [->|]; [|done].
    exfalso. apply Hnd. set_solver.
Qed.
End encode.
