(* ===== verification/MdProps.v ===== *)
(** * Linux md: the properties

    The theorems about the md reader, with witnesses on arrays built in memory:
    a RAID6 with two members missing, a RAID0 over members of three sizes. *)
From S2P Require Import Prelude Bytes Device Gf256 MdLayout MdRows MdZones Md MdRead MdStripe MdAssemble MdArray MdScan MdEncode.

(** ** Devices to build arrays from *)

(** The disks of one machine, by number, and what each holds. *)
Inductive Disk : Type := disk (k : Z).
Class Shelf := shelf : Disk → list Z.
Class ShelfLaws `{!Shelf} := {
  shelf_bytes : ∀ d, bytes_ok (shelf d);
  shelf_size : ∀ d, zlen (shelf d) < 2 ^ 64;
}.

#[export] Instance Disk_read `{!Shelf} : BlockRead Disk := {|
  read_at := λ d off n,
    let size := zlen (shelf d) in
    if (0 <=? off) && (off + n <=? size) then Ok (bslice (shelf d) off (off + n))
    else Err (OutOfBounds off n size);
  size_bytes := λ d, zlen (shelf d);
|}.

#[export] Instance Disk_laws `{!Shelf} `{!ShelfLaws} : ReadLaws Disk.
Proof.
  constructor.
  - intros d. cbn. pose proof (zlen_nonneg (shelf d)). pose proof (shelf_size d). by split.
  - intros d off n bs Hn. cbn. destruct (_ && _) eqn:E; [|done]. intros [= <-].
    split; [|apply bytes_ok_bslice, shelf_bytes]. rewrite zlen_bslice by lia. lia.
Qed.

(** The laws of a shelf of [n] disks, the rest empty, by evaluation. *)
Lemma shelf_by_compute `{!Shelf} n :
  forallb (λ k, forallb is_u8b (shelf (disk k)) && (zlen (shelf (disk k)) <? 2 ^ 64)) (seqZ 0 n) = true →
  (∀ k, k ∉ seqZ 0 n → shelf (disk k) = []) → ShelfLaws.
Proof.
  intros Hb Hr. rewrite forallb_forall in Hb.
  assert (∀ d, bytes_ok (shelf d) ∧ zlen (shelf d) < 2 ^ 64) as Hall.
  { intros [k]. destruct (decide (k ∈ seqZ 0 n)) as [Hk|Hk]; [|by rewrite (Hr k Hk); split; [constructor|]].
    specialize (Hb k (proj1 (list_elem_of_In _ _) Hk)). apply andb_true_iff in Hb as [H1 H2].
    split; [|lia]. rewrite forallb_forall in H1. apply list.Forall_forall. intros x Hx.
    by apply is_u8b_spec, H1, list_elem_of_In. }
  constructor; apply Hall.
Qed.

(** A member whose data area is [len] bytes of [f] behind [head_] serves [f]. *)
Lemma disk_serves `{!Shelf} d head_ f len : shelf d = head_ ++ bytes_of f 0 len → 0 ≤ len →
  ∀ off n, 0 ≤ off → 0 ≤ n → zlen head_ + off + n ≤ size_bytes d →
  read_at d (zlen head_ + off) n = Ok (bytes_of f off n).
Proof.
  intros E Hlen off n Ho Hn. cbn. rewrite E, zlen_app, zlen_bytes_of by done. intros He.
  pose proof (zlen_nonneg head_).
  rewrite (proj2 (Z.leb_le _ _)), (proj2 (Z.leb_le _ _)) by lia. cbn [andb]. f_equal.
  apply list_eq. intros i. rewrite lookup_bslice by lia.
  destruct (decide (Z.of_nat i < n)) as [Hi|Hi].
  - rewrite decide_True by lia. rewrite lookup_app_r by (unfold zlen in *; lia).
    unfold bytes_of. change (@map Z Z) with (fmap (M:=list) (A:=Z) (B:=Z)).
    rewrite !list_lookup_fmap, !lookup_seqZ_lt by (unfold zlen in *; lia). cbn. do 2 f_equal.
    unfold zlen. lia.
  - rewrite decide_False by lia. symmetry. apply lookup_ge_None.
    pose proof (zlen_bytes_of f off n Hn) as Hz. unfold zlen in Hz. lia.
Qed.

(** A 1.2 superblock of a member in slot [slot] of [n], with one chunk of one
    sector, and its data 8 KiB in. *)
Definition superblock_fields (level layout n slot sectors : Z) : list (Z * Z * list Z) :=
  [(0, 4, le_bytes 4 MD_MAGIC); (4, 4, le_bytes 4 1); (16, 16, replicate 16 7);
   (72, 4, le_bytes 4 level); (76, 4, le_bytes 4 layout); (80, 8, le_bytes 8 sectors);
   (88, 4, le_bytes 4 1); (92, 4, le_bytes 4 n); (128, 8, le_bytes 8 16);
   (136, 8, le_bytes 8 sectors); (144, 8, le_bytes 8 8); (160, 4, le_bytes 4 slot);
   (200, 8, le_bytes 8 5); (220, 4, le_bytes 4 8);
   (256, 16, [0; 0; 1; 0; 2; 0; 3; 0; 4; 0; 5; 0; 6; 0; 7; 0])].
Definition superblock_12 (level layout n slot sectors : Z) : list Z :=
  let b := puts (zeros 4096) (superblock_fields level layout n slot sectors) in
  bput b 216 (le_bytes 4 (v1_checksum (bslice b 0 (256 + 2 * 8)))).

Definition member_head (level layout n slot sectors : Z) : list Z :=
  zeros 4096 ++ superblock_12 level layout n slot sectors.

Lemma zlen_member_head level layout n slot sectors :
  zlen (member_head level layout n slot sectors) = 8192.
Proof.
  assert (fits (zlen (zeros 4096)) (superblock_fields level layout n slot sectors)) as Hf.
  { rewrite zlen_zeros by lia. unfold superblock_fields, fits. rewrite !Forall_cons.
    repeat (split; [unfold field_fits; rewrite ?zlen_le_bytes; split_and!; (lia || reflexivity)|]).
    constructor. }
  unfold member_head, superblock_12. rewrite zlen_app, zlen_bput; rewrite ?puts_zlen by done;
    rewrite ?zlen_le_bytes, ?zlen_zeros by lia; lia.
Qed.

(** Some contents. *)
Definition contents (pos : Z) : Z := (pos * 7 + pos / 256 + 3) mod 256.

Lemma contents_u8 pos : is_u8 (contents pos).
Proof. unfold is_u8, contents. apply Z.mod_pos_bound. lia. Qed.

(** ** A RAID6 of five members with two of them missing *)
Module Raid6Sample.
Definition striping : Striping := mkStriping LEVEL_RAID6 LAYOUT_LEFT_SYMMETRIC 512 5 None.
Definition image (d : Disk) : list Z :=
  let '(disk k) := d in
  if (0 <=? k) && (k <? 5)
  then member_head LEVEL_RAID6 LAYOUT_LEFT_SYMMETRIC 5 k 1 ++ bytes_of (encode striping contents k) 0 512
  else [].
#[local] Instance shelf6 : Shelf := image.
Definition devices : list Disk := [disk 4; disk 1; disk 0].

#[local] Instance shelf6_laws : ShelfLaws.
Proof.
  apply (shelf_by_compute 5); [vm_compute; reflexivity|].
  intros k Hk. rewrite elem_of_seqZ in Hk. unfold shelf, shelf6, image.
  by destruct (_ && _) eqn:E; [lia|].
Qed.

(** What assembly makes of three of the five. *)
Definition made (a : MdArray Disk) : Prop :=
  a_slots a = [Some (mkMember (disk 0) 8192 512); Some (mkMember (disk 1) 8192 512); None; None;
               Some (mkMember (disk 4) 8192 512)] ∧
  a_level a = LEVEL_RAID6 ∧ striping_of a = striping ∧ chunk_rows a = 1 ∧ a_size a = 1536.

Lemma assembles : ∃ a, assemble devices = Ok a ∧ made a.
Proof.
  assert (match assemble devices with
    | Ok a => (a_slots a, (a_level a, a_layout a, a_chunk a, a_raid10 a), (chunk_rows a, a_size a))
    | Err _ => ([], (0, 0, 0, None), (0, 0)) end =
    ([Some (mkMember (disk 0) 8192 512); Some (mkMember (disk 1) 8192 512); None; None;
      Some (mkMember (disk 4) 8192 512)], (LEVEL_RAID6, LAYOUT_LEFT_SYMMETRIC, 512, None), (1, 1536)))
    as H by (vm_compute; reflexivity).
  destruct (assemble devices) as [a|]; [|discriminate H]. exists a. split; [reflexivity|].
  injection H as H1 H2 H3 H4 H5 H6 H7. unfold made, striping_of. rewrite H1, H2, H3, H4, H5, H6, H7.
  by split_and!.
Qed.

Lemma made_serves a : made a → serves a (encode striping contents).
Proof.
  intros (Es & _) slot m Hm Hslot off len Ho Hl Hend.
  assert (∃ k, 0 ≤ k < 5 ∧ slot = k ∧ m = mkMember (disk k) 8192 512) as (k & Hk & -> & ->).
  { rewrite Es in Hm.
    destruct (Z.to_nat slot) as [|[|[|[|[|[|i]]]]]] eqn:Ei; cbn in Hm; simplify_eq;
      eexists; (split; [|split; [|reflexivity]]); lia. }
  cbn [m_data_offset m_dev] in *.
  rewrite <- (zlen_member_head LEVEL_RAID6 LAYOUT_LEFT_SYMMETRIC 5 k 1) in Hend |- *.
  apply (disk_serves (disk k) _ (encode striping contents k) 512); [|lia|done..].
  unfold shelf, shelf6, image. by rewrite (proj2 (Z.leb_le 0 k)), (proj2 (Z.ltb_lt k 5)) by lia.
Qed.

Lemma made_holds a : made a → array_holds a (encode striping contents) contents.
Proof.
  intros (Es & El & Est & Er & _).
  constructor; rewrite El; try (intros H; discriminate H).
  intros _. rewrite Es, Est, Er. split; [done|].
  apply encode_holds; [done|done|done|apply contents_u8].
Qed.
End Raid6Sample.

(** ** Properties *)

(** C4: an assembled array is the block device its members encode: whenever
    the devices assemble, each present member serves the bytes [mem] of its
    slot, and those bytes hold the array [L] in the sense of its level (mirrors
    equal, members end to end, stripes, RAID10 copies, or data with P and Q),
    every read inside the array returns exactly [L]'s bytes and every other
    read is refused with the array's size. Members may be missing as far as
    assembly accepts it. *)
Theorem md_array_reads {R} `{!BlockRead R} `{!ReadLaws R} devices (a : MdArray R) mem L :
  assemble devices = Ok a → serves a mem → array_holds a mem L →
  reads_exactly (read_at a) (a_size a) L.
Proof. intros H. apply array_reads_exactly. by eapply assemble_ok. Qed.

Module md_array_reads_example.
Import Raid6Sample.
#[local] Existing Instance shelf6.
#[local] Existing Instance shelf6_laws.
Theorem md_array_reads_witness : ∃ a : MdArray Disk,
  assemble devices = Ok a ∧ zlen (omap id (a_slots a)) = 3 ∧ reads_exactly (read_at a) 1536 contents.
Proof.
  destruct assembles as (a & Ha & Hm). exists a. split; [exact Ha|].
  pose proof Hm as (Es & _ & _ & _ & Esz). split; [by rewrite Es|]. rewrite <- Esz.
  exact (md_array_reads devices a _ contents Ha (made_serves a Hm) (made_holds a Hm)).
Defined.
End md_array_reads_example.

(** C13: what a RAID4, 5 or 6 writer stores can be read back with members
    missing: for every layout, row count, chunk size and contents, [read_chunk]
    over the members of [encode] returns the array's bytes while at most one
    member (two at RAID6) is absent, wherever they are. *)
Theorem degraded_round_trip s rows L here member k within len :
  parity_ok s rows → (∀ pos, is_u8 (L pos)) →
  reads_member member here (st_members s) (rows * st_chunk s) (encode s L) →
  (length (absent here (st_members s)) ≤ Z.to_nat (parity_of (st_level s)))%nat →
  0 ≤ k < rows * data_members s → 0 ≤ within → 0 ≤ len → within + len ≤ st_chunk s →
  read_chunk s member k within len = Ok (bytes_of L (k * st_chunk s + within) len).
Proof.
  intros Hs HL Hm. apply (parity_read_chunk s rows member here (encode s L) L); [done|done|].
  destruct Hs. by apply encode_holds.
Qed.

(** Reading [encode]'s members, two of seven missing. *)
Definition seven : Striping := mkStriping LEVEL_RAID6 LAYOUT_ROTATING_N_CONTINUE 16 7 None.
Definition but_two (slot : Z) : bool := negb (slot =? 1) && negb (slot =? 4).
Theorem degraded_round_trip_witness :
  let member slot off len :=
    Ok (if but_two slot then Some (bytes_of (encode seven contents slot) off len) else None) in
  read_chunk seven member 8 2 10 = Ok (bytes_of contents (8 * 16 + 2) 10) ∧
  read_chunk seven member 8 2 10 = Ok [145; 152; 159; 166; 173; 180; 187; 194; 201; 208].
Proof.
  intros member.
  assert (read_chunk seven member 8 2 10 = Ok (bytes_of contents (8 * 16 + 2) 10)) as H.
  { apply (degraded_round_trip seven 4 contents but_two member 8 2 10).
    - by constructor.
    - apply contents_u8.
    - intros slot off len _ _ _ _. reflexivity.
    - vm_compute. lia.
    - vm_compute. split; congruence.
    - lia.
    - lia.
    - vm_compute. congruence. }
  split; [exact H|]. rewrite H. vm_compute. reflexivity.
Defined.

(** C32: the log and antilog tables are GF(2^8) over [x^8 + x^4 + x^3 + x^2 + 1]:
    [gf_mul] is multiplication of polynomials modulo it (and so distributes
    over XOR), [gf_inv] inverts every non-zero byte, and [gf_pow2] is the
    homomorphism from the integers modulo 255 that meets every non-zero byte. *)
Theorem gf_field_exact a b c :
  is_u8 a → is_u8 b → is_u8 c →
  gf_mul a b = times a b ∧ is_u8 (gf_mul a b) ∧
  gf_mul a (Z.lxor b c) = Z.lxor (gf_mul a b) (gf_mul a c) ∧
  gf_mul a (gf_mul b c) = gf_mul (gf_mul a b) c ∧
  (a ≠ 0 → gf_mul a (gf_inv a) = 1 ∧ ∃ e, 0 ≤ e < 255 ∧ gf_pow2 e = a) ∧
  ∀ e f, gf_mul (gf_pow2 e) (gf_pow2 f) = gf_pow2 (e + f).
Proof.
  intros Ha Hb Hc. split_and!; [by apply gf_mul_times|apply gf_mul_u8|by apply gf_mul_lxor_r|
    by apply gf_mul_assoc| |apply gf_pow2_add].
  intros Hz. split; [by apply gf_inv_r|]. exists (byte_at GF_LOG a mod 255).
  split; [apply Z.mod_pos_bound; lia|]. rewrite gf_pow2_mod. by apply gf_exp_log.
Qed.

Theorem gf_field_exact_witness : gf_mul 0x53 0xCA = times 0x53 0xCA ∧ times 0x53 0xCA = 0x8F.
Proof.
  split; [|vm_compute; reflexivity].
  apply (gf_field_exact 0x53 0xCA 1); unfold is_u8; lia.
Defined.

(** C33: RAID10 keeps each chunk [near * far] times on that many different
    members, inside the rows the members have, the first copy being the one
    [primary] computes; and no two copies, of one chunk or of two, share a
    place. *)
Theorem raid10_places g d c :
  raid10_ok g d → 0 ≤ c < raid10_chunks g d →
  zlen (copies g d c) = near g * far g ∧ NoDup (map fst (copies g d c)) ∧
  head (copies g d c) = Some (primary g d c) ∧
  (∀ x, x ∈ copies g d c → 0 ≤ x.1 < d ∧ 0 ≤ x.2 < stride g * far g) ∧
  (∀ c' x, 0 ≤ c' < raid10_chunks g d → x ∈ copies g d c → x ∈ copies g d c' → c = c').
Proof.
  intros Hg Hc. split_and!.
  - apply copies_length; destruct Hg; lia.
  - by apply copies_slots_NoDup.
  - by rewrite copies_head.
  - intros x (i & k & Hi & Hk & ->)%copies_elem. by apply copy_at_inside.
  - intros c' x Hc' (i & k & Hi & Hk & ->)%copies_elem (i' & k' & Hi' & Hk' & E)%copies_elem.
    by apply copy_at_inj in E as (? & _).
Qed.

Theorem raid10_places_witness :
  let g := mkRaid10 2 2 true 6 in
  copies g 5 7 = [(4, 4); (1, 5); (0, 6); (2, 7)] ∧ NoDup (map fst (copies g 5 7)).
Proof.
  intros g. split; [vm_compute; reflexivity|].
  apply (raid10_places g 5 7); [constructor; vm_compute; congruence|vm_compute; split; congruence].
Defined.

(** ** RAID0 over members of three sizes *)
Module Raid0Sample.
Definition image (d : Disk) : list Z :=
  let '(disk k) := d in
  let sectors := if k =? 0 then 2 else if k =? 1 then 1 else 3 in
  if (0 <=? k) && (k <? 3)
  then member_head LEVEL_RAID0 RAID0_LAYOUT_ORIGINAL 3 k sectors ++ zeros (sectors * 512) else [].
#[local] Instance shelf0 : Shelf := image.
#[local] Instance shelf0_laws : ShelfLaws.
Proof.
  apply (shelf_by_compute 3); [vm_compute; reflexivity|].
  intros k Hk. rewrite elem_of_seqZ in Hk. unfold shelf, shelf0, image.
  by destruct (_ && _) eqn:E; [lia|].
Qed.
Definition devices : list Disk := [disk 0; disk 1; disk 2].
Lemma raid0_assembles : ∃ a : MdArray Disk, assemble devices = Ok a ∧
  a_level a = LEVEL_RAID0 ∧ usable_sizes a = [1024; 512; 1536] ∧
  map (raid0_place a) [0; 600; 1600; 2100; 3071] =
    [Some (0, 0); Some (1, 88); Some (2, 576); Some (0, 564); Some (2, 1535)].
Proof.
  assert (match assemble devices with
    | Ok a => (a_level a, usable_sizes a, map (raid0_place a) [0; 600; 1600; 2100; 3071])
    | Err _ => (0, [], []) end = (LEVEL_RAID0, [1024; 512; 1536],
      [Some (0, 0); Some (1, 88); Some (2, 576); Some (0, 564); Some (2, 1535)]))
    as H by (vm_compute; reflexivity).
  destruct (assemble devices) as [a|]; [|discriminate H]. exists a. injection H as H1 H2 H3 H4 H5 H6 H7.
  split_and!; try assumption; [reflexivity|]. cbn [map]. congruence.
Qed.
End Raid0Sample.

(** C34: RAID0 zones tile the members: the size [assemble] computes is the sum
    of the members' usable sizes, every array byte is kept at a byte inside
    its member's usable size, and no two array bytes are kept at the same
    byte, in either recorded multi-zone layout. So the array's bytes and the
    members' usable bytes correspond one to one. *)
Theorem raid0_tiles {R} `{!BlockRead R} `{!ReadLaws R} devices (a : MdArray R) :
  assemble devices = Ok a → a_level a = LEVEL_RAID0 → above (usable_sizes a) 0 < 2 ^ 64 →
  a_size a = above (usable_sizes a) 0 ∧
  (∀ pos, 0 ≤ pos < a_size a → ∃ slot off, raid0_place a pos = Some (slot, off) ∧
     0 ≤ slot < zlen (a_slots a) ∧ 0 ≤ off < byte_at (usable_sizes a) slot) ∧
  (∀ pos pos', 0 ≤ pos < a_size a → 0 ≤ pos' < a_size a →
     raid0_place a pos = raid0_place a pos' → pos = pos').
Proof.
  intros Ha%assemble_ok Hl Hu. destruct (raid0_zones_facts a Ha Hl Hu) as (_ & _ & _ & Es & _).
  split_and!; [done| |intros ??; by apply raid0_place_inj].
  intros pos Hpos. destruct (raid0_zone a Ha Hl Hu pos Hpos) as (z & Ez & Hz & Hin).
  destruct (zone_place_inside a Ha Hl Hu z (pos - z_start z) Hz ltac:(lia)) as (H1 & H2 & _ & H3).
  destruct (zone_fits a Ha Hl Hu z Hz) as (Hzok & _). pose proof (zo_dev _ _ Hzok).
  exists (zone_place a z (pos - z_start z)).1, (zone_place a z (pos - z_start z)).2.
  unfold raid0_place. rewrite Ez. split_and!; [exact (f_equal Some (surjective_pairing _))|lia..].
Qed.

Module raid0_tiles_example.
Import Raid0Sample.
#[local] Existing Instance shelf0.
#[local] Existing Instance shelf0_laws.
Theorem raid0_tiles_witness : ∃ a : MdArray Disk, assemble devices = Ok a ∧ a_size a = 3072 ∧
  ∀ pos pos', 0 ≤ pos < a_size a → 0 ≤ pos' < a_size a → raid0_place a pos = raid0_place a pos' → pos = pos'.
Proof.
  destruct raid0_assembles as (a & Ha & Hl & Hu & _). exists a. split; [exact Ha|].
  assert (above (usable_sizes a) 0 < 2 ^ 64) as H64 by (rewrite Hu; reflexivity).
  destruct (raid0_tiles devices a Ha Hl H64) as (Es & _ & Hinj).
  split; [rewrite Es, Hu; reflexivity|exact Hinj].
Defined.
End raid0_tiles_example.

(** C35: [scan] sorts: every device given ends in exactly one place, as a member
    of one array, among the others or among the refused; no two groups have
    the same UUID; every member of a group carries its UUID; and a group's
    superblock is one of its members', none of which has a newer one. *)
Theorem scan_sorts {R} `{!BlockRead R} devices :
  let s := scan (R:=R) devices in
  concat (map g_members (arrays s)) ++ others s ++ map fst (refused s) ≡ₚ devices ∧
  NoDup (map g_array_uuid (arrays s)) ∧
  ∀ g, g ∈ arrays s →
    (∃ dev, dev ∈ g_members g ∧ carries dev (g_superblock g)) ∧
    array_uuid (g_superblock g) = g_array_uuid g ∧
    ∀ dev, dev ∈ g_members g → ∃ sb, carries dev sb ∧ array_uuid sb = g_array_uuid g ∧
      events sb ≤ events (g_superblock g).
Proof.
  intros s. destruct (scan_loop (enumerate devices) (mkScan [] [] [])) as [[Hg Ha] Hd].
  { constructor; cbn; [by intros ? ?%not_elem_of_nil|constructor]. }
  rewrite enumerate_snd in Hd. split_and!; [exact Hd|exact Ha|].
  intros g Hin. by destruct (Hg g Hin).
Qed.

(** C36: assembly uses current members only: the superblock that speaks for the
    array is one of the devices', no device has a newer one, and the member in
    a slot is one of the devices given, carries a superblock that names that
    slot, is as new as the array's, is not being recovered, and holds its data
    where that superblock says, inside the device. *)
Theorem assemble_members {R} `{!BlockRead R} `{!ReadLaws R} devices (a : MdArray R) :
  assemble devices = Ok a →
  (∃ dev, dev ∈ devices ∧ carries dev (a_superblock a)) ∧
  (∀ i dev sb, 0 ≤ i → devices !! Z.to_nat i = Some dev →
     read_superblock_of dev i = Ok (Some sb) → events sb ≤ events (a_superblock a)) ∧
  ∀ slot m, 0 ≤ slot → a_slots a !! Z.to_nat slot = Some (Some m) →
    m_data_offset m + m_data_size m ≤ size_bytes (m_dev m) ∧
    ∃ sb, m_dev m ∈ devices ∧ carries (m_dev m) sb ∧ role sb = Active slot ∧
      events sb = events (a_superblock a) ∧
      Z.land (feature_map sb) FEATURE_RECOVERY_OFFSET = 0 ∧
      m_data_offset m = data_offset sb ∧ m_data_size m = data_size sb.
Proof.
  intros H. destruct (assemble_rightful devices a H) as (Hm & Hn & Hl).
  split_and!; [done| |].
  - intros i dev sb Hi Hd Hr. apply (Hn dev sb); [by eapply list_elem_of_lookup_2|].
    by exists i.
  - intros slot m Hs Hlk. split; [|by apply Hm].
    apply assemble_ok in H. apply (as_members _ H). apply list_elem_of_omap.
    exists (Some m). split; [by eapply list_elem_of_lookup_2|done].
Qed.

Module assemble_members_example.
Import Raid6Sample.
#[local] Existing Instance shelf6.
#[local] Existing Instance shelf6_laws.
Theorem assemble_members_witness : ∃ a : MdArray Disk, assemble devices = Ok a ∧
  ∃ sb, carries (disk 4) sb ∧ role sb = Active 4 ∧ events sb = events (a_superblock a).
Proof.
  destruct assembles as (a & Ha & Hm). exists a. split; [exact Ha|].
  destruct (assemble_members devices a Ha) as (_ & _ & Hmem).
  destruct (Hmem 4 (mkMember (disk 4) 8192 512)) as (_ & sb & _ & Hc & Hr & He & _).
  - lia.
  - pose proof Hm as (Es & _). rewrite Es. reflexivity.
  - exists sb. split; [exact Hc|split; [exact Hr|exact He]].
Defined.
End assemble_members_example.

(** ** The 1.x checksum *)
Definition zsum (l : list Z) : Z := foldr Z.add 0 l.

(** Word [j] of a superblock as its checksum counts it. *)
Definition counted_word (sb : list Z) (j : Z) : Z := if j =? 54 then 0 else le32 sb (4 * j).

Lemma counted_word_bound sb j : bytes_ok sb → 0 ≤ j < zlen sb / 4 → 0 ≤ counted_word sb j < 2 ^ 32.
Proof.
  intros Hb Hj. unfold counted_word. destruct (j =? 54); [lia|].
  apply le32_bound; [done|lia|dlia].
Qed.

Lemma words_bound sb k n : bytes_ok sb → 0 ≤ k → 0 ≤ n → k + n ≤ zlen sb / 4 →
  0 ≤ zsum (map (counted_word sb) (seqZ k n)) ≤ 2 ^ 32 * n.
Proof.
  intros Hb Hk Hn. revert k Hk. refine (natlike_ind (λ n, ∀ k, 0 ≤ k → k + n ≤ zlen sb / 4 → _) _ _ n Hn).
  - intros k _ _. rewrite seqZ_nil by lia. unfold zsum. cbn [map foldr]. lia.
  - intros m Hm IH k Hk He. rewrite seqZ_cons, Z.pred_succ by lia. unfold zsum. cbn [map foldr].
    pose proof (counted_word_bound sb k Hb ltac:(lia)). specialize (IH (Z.succ k) ltac:(lia) ltac:(lia)).
    unfold zsum in IH. lia.
Qed.

Lemma sum_words_exact fuel sb k sum : bytes_ok sb → 0 ≤ k ≤ zlen sb / 4 → 0 ≤ sum →
  zlen sb / 4 - k ≤ Z.of_nat fuel → sum + 2 ^ 32 * (zlen sb / 4 - k) < 2 ^ 64 →
  sum_words fuel sb (4 * k) sum =
  (4 * (zlen sb / 4), sum + zsum (map (counted_word sb) (seqZ k (zlen sb / 4 - k)))).
Proof.
  intros Hb. revert k sum. induction fuel as [|fuel IH]; intros k sum Hk Hs Hf Hu; cbn [sum_words].
  { replace k with (zlen sb / 4) by lia. rewrite Z.sub_diag, seqZ_nil by lia. unfold zsum. cbn [map foldr]. f_equal; lia. }
  destruct (Z.leb_spec (4 * k + 4) (zlen sb)) as [Hle|Hgt].
  - assert (k < zlen sb / 4) as Hk' by dlia.
    pose proof (counted_word_bound sb k Hb ltac:(lia)) as Hw.
    assert ((if negb (4 * k =? 216) then u64 (sum + le32 sb (4 * k)) else sum) =
      sum + counted_word sb k) as ->.
    { unfold counted_word in *. destruct (Z.eqb_spec k 54) as [->|]; [change (4 * 54 =? 216) with true; cbn [negb]; lia|].
      rewrite (proj2 (Z.eqb_neq _ _)) by lia. cbn [negb]. apply u64_small. lia. }
    replace (4 * k + 4) with (4 * (k + 1)) by lia. rewrite IH by lia. f_equal.
    rewrite (seqZ_cons k) by lia. unfold zsum. cbn [map foldr].
    replace (Z.pred (zlen sb / 4 - k)) with (zlen sb / 4 - (k + 1)) by lia.
    replace (Z.succ k) with (k + 1) by lia. lia.
  - assert (k = zlen sb / 4) as -> by dlia. rewrite Z.sub_diag, seqZ_nil by lia. unfold zsum. cbn [map foldr]. f_equal; lia.
Qed.

(** The total the checksum folds: the words but its own, then a trailing
    half word. *)
Definition checksum_total (sb : list Z) : Z :=
  zsum (map (counted_word sb) (seqZ 0 (zlen sb / 4))) +
  (if 2 <=? zlen sb mod 4 then le16 sb (4 * (zlen sb / 4)) else 0).

(** C37: [v1_checksum] is what its documentation says, for any buffer up to
    4 GiB: the loop ends, no sum wraps, and the result is the sum of the
    little-endian words except the checksum's own, plus a trailing half word,
    with its high half folded into its low half; so the stored checksum does
    not affect the computed one. *)
Theorem v1_checksum_exact sb stored :
  bytes_ok sb → 220 ≤ zlen sb ≤ 2 ^ 32 → bytes_ok stored → zlen stored = 4 →
  v1_checksum sb =
    (checksum_total sb mod 2 ^ 32 + checksum_total sb / 2 ^ 32) mod 2 ^ 32 ∧
  v1_checksum (bput sb 216 stored) = v1_checksum sb.
Proof.
  intros Hb Hl Hbs Hls.
  assert (∀ b, bytes_ok b → zlen b ≤ 2 ^ 32 → v1_checksum b =
    (checksum_total b mod 2 ^ 32 + checksum_total b / 2 ^ 32) mod 2 ^ 32) as Hex.
  { intros b Hbb Hlb. pose proof (zlen_nonneg b) as H0.
    assert (0 ≤ zlen b / 4 ≤ 2 ^ 30) as Hq by dlia.
    pose proof (words_bound b 0 (zlen b / 4) Hbb ltac:(lia) ltac:(lia) ltac:(lia)) as Hwb.
    unfold v1_checksum. 
    pose proof (sum_words_exact (length b) b 0 0 Hbb) as Hsum. rewrite Z.mul_0_r in Hsum.
    rewrite Hsum by (unfold zlen in *; dlia). clear Hsum.
    rewrite Z.sub_0_r, Z.add_0_l. unfold checksum_total.
    assert ((4 * (zlen b / 4) + 2 <=? zlen b) = (2 <=? zlen b mod 4)) as -> by dlia.
    destruct (Z.leb_spec 2 (zlen b mod 4)).
    - pose proof (le16_bound b (4 * (zlen b / 4)) Hbb ltac:(lia) ltac:(dlia)).
      rewrite (u64_small (_ + _)) by lia.
      by rewrite (Z.land_ones _ 32), Z.shiftr_div_pow2 by lia.
    - rewrite Z.add_0_r. by rewrite (Z.land_ones _ 32), Z.shiftr_div_pow2 by lia. }
  split; [apply Hex; [done|lia]|].
  assert (zlen (bput sb 216 stored) = zlen sb) as Hz by (rewrite zlen_bput; lia).
  rewrite !Hex; [|done|lia|by apply bytes_ok_bput|rewrite Hz; lia].
  assert (checksum_total (bput sb 216 stored) = checksum_total sb) as ->; [|done].
  unfold checksum_total. rewrite Hz. f_equal.
  - f_equal. apply map_ext_in. intros j Hj%list_elem_of_In%elem_of_seqZ. unfold counted_word, le32.
    destruct (Z.eqb_spec j 54); [done|]. rewrite bslice_bput_other; [done|lia..].
  - destruct (_ <=? _) eqn:E; [|done]. unfold le16. rewrite bslice_bput_other; [done|lia|lia|dlia|].
    right. dlia.
Qed.

Theorem v1_checksum_exact_witness :
  v1_checksum (replicate 222 255) = checksum_total (replicate 222 255) mod 2 ^ 32 + 54 ∧
  v1_checksum (bput (replicate 222 255) 216 [1; 2; 3; 4]) = v1_checksum (replicate 222 255).
Proof.
  split; [vm_compute; reflexivity|].
  apply (v1_checksum_exact (replicate 222 255) [1; 2; 3; 4]).
  - apply bytes_by_compute. vm_compute. reflexivity.
  - vm_compute. split; congruence.
  - apply bytes_by_compute. vm_compute. reflexivity.
  - reflexivity.
Defined.
