(* ===== verification/MutationPlan.v ===== *)
(** * The planner: first fit, and what every edit keeps

    [find_free] returns the lowest aligned free start, or refuses when there is
    none; [plan_ok] is the invariant of a [PartitionSet] whose entries are
    sound, and [add], [remove] and [resize] keep it. *)
From S2P Require Import Prelude Bytes Device Table Rules Slots MbrCodec MbrDisk GptDisk Mutation.
From S2P Require Gpt Mbr GptWrite.

(** ** Alignment *)
Lemma align_up_spec v a : 0 < a → 0 ≤ v → v + a ≤ 2 ^ 64 →
  v ≤ align_up v a < v + a ∧ (a | align_up v a) ∧
  ∀ c, v ≤ c → (a | c) → align_up v a ≤ c.
Proof.
  intros Ha Hv Hu. unfold align_up.
  pose proof (Z.mod_pos_bound v a Ha) as Hm. pose proof (Z.div_mod v a ltac:(lia)) as Hd.
  destruct (Z.eqb_spec (v mod a) 0) as [E|E].
  - split_and!; [lia|lia|by apply Z.mod_divide; [lia|]|lia].
  - rewrite u64_small by lia. split_and!; [lia|lia| |].
    + exists (v / a + 1). lia.
    + intros c Hc [q ->]. assert (v / a < q) by nia. nia.
Qed.

(** ** First fit *)

(** [cursor] is a place for [len] sectors: aligned, in range, and off every
    occupied span. *)
Definition fits_at (spans : list (Z * Z)) (len first last cursor : Z) : Prop :=
  first ≤ cursor ∧ (ALIGNMENT_SECTORS | cursor) ∧ cursor + len - 1 ≤ last ∧
  Forall (λ sp : Z * Z, ¬ overlap (cursor, cursor + len - 1) sp) spans.

(** Ranges of sectors of a device of at most 2^64 bytes. *)
Definition span_small (sp : Z * Z) : Prop := 0 ≤ sp.1 ≤ sp.2 ∧ sp.2 < 2 ^ 60.

Lemma sat_small cursor len : 0 ≤ cursor < 2 ^ 62 → 0 < len < 2 ^ 60 →
  saturating_sub (saturating_add cursor len) 1 = cursor + len - 1.
Proof. intros. unfold saturating_sub, saturating_add. lia. Qed.

Section find_gap.
Context (len last : Z) (Hlen : 0 < len < 2 ^ 60).

(** What the loop returns, when every place before [cursor] is taken: the
    first place clear of the spans left, or the cursor past them. *)
Lemma find_gap_spec sorted cursor : Forall span_small sorted →
  StronglySorted (λ a b, pair_leb a b = true) sorted →
  0 ≤ cursor < 2 ^ 61 → (ALIGNMENT_SECTORS | cursor) →
  match find_gap len last cursor sorted with
  | inl c => fits_at sorted len cursor last c ∧
             ∀ c', fits_at sorted len cursor last c' → c ≤ c'
  | inr c => cursor ≤ c < 2 ^ 61 ∧ (ALIGNMENT_SECTORS | c) ∧
             (c + len - 1 ≤ last → fits_at sorted len cursor last c) ∧
             ∀ c', fits_at sorted len cursor last c' → c ≤ c'
  end.
Proof.
  intros Hs. revert cursor. induction Hs as [|[s e] sorted [Hse He] Hs IH]; intros cursor Hso Hc Ha;
    cbn [find_gap].
  { split_and!; [lia|lia|done|intros; by split_and!; [lia| | |constructor]|by intros c' (? & _)]. }
  apply StronglySorted_inv in Hso as [Hso Hle]. cbn [fst snd] in *.
  rewrite sat_small by lia.
  destruct ((_ <? _) && _) eqn:E.
  { split; [|by intros c' (? & _)]. split_and!; [lia|done|lia|].
    apply Forall_cons. split; [unfold overlap; cbn; lia|].
    apply list.Forall_forall. intros [s' e'] Hin. pose proof (Forall_in _ _ _ Hle Hin) as Hp.
    apply pair_leb_fst in Hp. unfold overlap. cbn in *. lia. }
  rewrite u64_small by lia.
  destruct (align_up_spec (e + 1) ALIGNMENT_SECTORS) as (Hal & Hdv & Hmin);
    [done|lia|unfold ALIGNMENT_SECTORS; lia|].
  pose proof (eq_refl : ALIGNMENT_SECTORS = 2048) as HA.
  set (cursor' := Z.max cursor (align_up (e + 1) ALIGNMENT_SECTORS)) in *.
  assert (ALIGNMENT_SECTORS | cursor') as Ha' by (unfold cursor'; destruct (Z.max_spec cursor (align_up (e + 1) ALIGNMENT_SECTORS)) as [[_ ->]|[_ ->]]; done).
  assert (∀ c', fits_at ((s, e) :: sorted) len cursor last c' ↔
    fits_at sorted len cursor' last c') as Hiff.
  { intros c'. unfold fits_at. rewrite Forall_cons. split.
    - intros (H1 & H2 & H3 & H4 & H5). split_and!; [|done..].
      unfold overlap in H4. cbn in H4. specialize (Hmin c' ltac:(lia) H2). unfold cursor'. lia.
    - intros (H1 & H2 & H3 & H4). split_and!; [lia|done|done| |done].
      unfold overlap. cbn. unfold cursor' in H1. lia. }
  specialize (IH cursor' Hso ltac:(lia) Ha').
  destruct (find_gap len last cursor' sorted) as [c|c]; setoid_rewrite Hiff; [done|].
  destruct IH as (H1 & H2 & H3 & H4). split_and!; [lia|lia|done|done|done].
Qed.
End find_gap.

(** [fits_at] does not look at the order of the spans. *)
#[export] Instance fits_at_perm : Proper ((≡ₚ) ==> (=) ==> (=) ==> (=) ==> (=) ==> iff) fits_at.
Proof. intros l k H ? ? <- ? ? <- ? ? <- ? ? <-. unfold fits_at. by rewrite H. Qed.

Lemma find_free_spec s len first last spans : occupied_spans s None = Ok spans →
  Forall span_small spans → 0 < len < 2 ^ 60 → 0 ≤ first < 2 ^ 60 →
  match find_free s len first last with
  | Ok c => fits_at spans len first last c ∧ ∀ c', fits_at spans len first last c' → c ≤ c'
  | Err e => ∀ c', ¬ fits_at spans len first last c'
  end.
Proof.
  intros Hocc Hsm Hlen Hf. unfold find_free. rewrite Hocc. cbn [mbind Result_bind].
  destruct (align_up_spec first ALIGNMENT_SECTORS) as (Hal & Hdv & Hmin);
    [done|lia|unfold ALIGNMENT_SECTORS; lia|]. pose proof (eq_refl : ALIGNMENT_SECTORS = 2048) as HA.
  assert (Forall span_small (sort_by pair_leb spans)) as Hsm' by (by rewrite sort_by_perm).
  pose proof (sort_by_sorted pair_leb pair_leb_total pair_leb_trans spans) as Hso.
  pose proof (find_gap_spec len last Hlen _ (align_up first ALIGNMENT_SECTORS) Hsm' Hso
    ltac:(lia) Hdv) as Hg.
  assert (∀ c', fits_at spans len first last c' ↔
    fits_at (sort_by pair_leb spans) len (align_up first ALIGNMENT_SECTORS) last c') as Hiff.
  { intros c'. rewrite sort_by_perm. unfold fits_at. split; intros (H1 & H2 & H3 & H4);
      (split_and!; [|done..]); [by apply Hmin|lia]. }
  destruct (find_gap _ _ _ _) as [c|c].
  { destruct Hg as [H1 H2]. split; [by apply Hiff|]. intros c' Hc'. by apply H2, Hiff. }
  destruct Hg as (H1 & H2 & H3 & H4). rewrite sat_small by lia.
  destruct (Z.leb_spec (c + len - 1) last) as [Hle|Hgt].
  { split; [by apply Hiff, H3|]. intros c' Hc'. by apply H4, Hiff. }
  intros c' Hc'. pose proof (H4 c' (proj1 (Hiff c') Hc')) as H. destruct Hc' as (_ & _ & H5 & _). lia.
Qed.

(** ** The invariant of a set *)

(** Slots the table has, and those its preserved entries hold. *)
Definition slots_of (s : PartitionSet) : Z :=
  match table_kind s with TableGpt => GptWrite.num_entries (gpt_geometry s) | TableMbr => 4 end.
Definition taken_slots (s : PartitionSet) : list Z :=
  match table_kind s with TableGpt => [] | TableMbr => map Mbr.r_slot (reserved s) end.
Definition taken_spans (s : PartitionSet) : list (Z * Z) :=
  match table_kind s with TableGpt => [] | TableMbr => omap Mbr.reserved_span (reserved s) end.

Definition kind_matches (k : TableKind) (p : Partition) : Prop :=
  match k with
  | TableGpt => (∃ t a, p_kind p = KindGpt t a) ∧ is_Some (p_uuid p)
  | TableMbr => ∃ t a, p_kind p = KindMbr t a
  end.

(** A partition of whole sectors inside the table's usable range. *)
Definition sound_in (range : Z * Z) (p : Partition) : Prop :=
  0 < p_length p ∧ (SECTOR_SIZE | p_start p) ∧ (SECTOR_SIZE | p_length p) ∧
  p_start p + p_length p < 2 ^ 64 ∧ in_range range.1 range.2 p.

Record plan_ok (s : PartitionSet) : Prop := {
  po_disk : is_u64 (disk_size s);
  po_geometry : geometry_typed (gpt_geometry s);
  po_reserved : Forall reserved_typed4 (reserved s);
  po_typed : Forall partition_typed (partitions s);
  po_sound : Forall (sound_in (usable_range s)) (partitions s);
  po_kinds : Forall (kind_matches (table_kind s)) (partitions s);
  po_disjoint : disjoint_spans (map span_of (partitions s) ++ taken_spans s);
  po_count : zlen (taken_slots s) + zlen (partitions s) ≤ slots_of s;
  po_slots : NoDup (taken_slots s ++ recorded (partitions s)) ∧
             Forall (slot_in (slots_of s)) (taken_slots s ++ recorded (partitions s));
}.

(** ** Issue flags do not matter to it *)
Definition strip (p : Partition) : Partition := with_issues p 0.

Lemma strip_typed p : partition_typed (strip p) ↔ partition_typed p.
Proof. split; intros []; by constructor. Qed.

Lemma Forall_strip (P : Partition → Prop) ps qs : (∀ p, P (strip p) ↔ P p) →
  map strip ps = map strip qs → Forall P ps → Forall P qs.
Proof.
  intros HP E H. assert (Forall P (map strip qs)) as Hq.
  { rewrite <- E, Forall_map. eapply Forall_impl; [exact H|]. intros p. apply HP. }
  rewrite Forall_map in Hq. eapply Forall_impl; [exact Hq|]. intros p. apply HP.
Qed.

Lemma zlen_strip (f : Partition → Partition) ps : zlen (map f ps) = zlen ps.
Proof. unfold zlen. by rewrite length_map. Qed.

(** Two sets that differ in issue flags only. *)
Definition same_plan (s s' : PartitionSet) : Prop :=
  table_kind s = table_kind s' ∧ disk_size s = disk_size s' ∧ gpt_geometry s = gpt_geometry s' ∧
  reserved s = reserved s' ∧ map strip (partitions s) = map strip (partitions s').

Lemma map_strip {A} (f : Partition → A) ps qs : (∀ p, f (strip p) = f p) →
  map strip ps = map strip qs → map f ps = map f qs.
Proof.
  intros Hf E. rewrite <- (map_ext _ _ Hf ps), <- (map_ext _ _ Hf qs).
  rewrite <- !(map_map strip f). by rewrite E.
Qed.

Lemma recorded_map ps : recorded ps = omap id (map p_slot ps).
Proof. unfold recorded. induction ps as [|p ps IH]; cbn; [done|]. rewrite IH. by destruct (p_slot p). Qed.

Lemma plan_ok_strip s s' : same_plan s s' → plan_ok s → plan_ok s'.
Proof.
  intros (Ek & Ed & Eg & Er & Ep) [Hd Hg Hr Ht Hs Hk Hdis Hc Hsl].
  assert (usable_range s = usable_range s') as Eu by (unfold usable_range; by rewrite Ek, Ed, Eg).
  assert (taken_spans s = taken_spans s') as Ets by (unfold taken_spans; by rewrite Ek, Er).
  assert (taken_slots s = taken_slots s') as Etl by (unfold taken_slots; by rewrite Ek, Er).
  assert (slots_of s = slots_of s') as Eso by (unfold slots_of; by rewrite Ek, Eg).
  assert (recorded (partitions s) = recorded (partitions s')) as Erec.
  { rewrite !recorded_map. f_equal. by apply map_strip. }
  assert (zlen (partitions s) = zlen (partitions s')) as Ez.
  { rewrite <- (zlen_strip strip), Ep. apply zlen_strip. }
  constructor; rewrite <- ?Ek, <- ?Ed, <- ?Eg, <- ?Er, <- ?Eu, <- ?Ets, <- ?Etl, <- ?Eso, <- ?Erec, <- ?Ez;
    try done.
  - eapply Forall_strip; [apply strip_typed|done|done].
  - eapply Forall_strip; [|done|done]. done.
  - eapply Forall_strip; [|done|done]. intros p. by destruct (table_kind s).
  - by rewrite <- (map_strip span_of _ _ (λ p, eq_refl) Ep).
Qed.

Lemma same_plan_refl s : same_plan s s.
Proof. by split_and!. Qed.

Lemma strip_overlap_bit b p : strip (set_overlap_bit b p) = strip p.
Proof. by destruct b. Qed.

Lemma map_alter (f : Partition → Partition) ps i : (∀ p, strip (f p) = strip p) →
  map strip (alter f i ps) = map strip ps.
Proof.
  intros Hf. apply list_eq. intros j. change (map strip) with (fmap (M:=list) strip).
  rewrite !list_lookup_fmap. destruct (decide (i = j)) as [->|Hne].
  - rewrite list_lookup_alter_eq. destruct (ps !! j); cbn; [|done]. by rewrite Hf.
  - by rewrite list_lookup_alter_ne.
Qed.

Lemma refresh_same s : same_plan s (refresh_overlap_issues s).
Proof.
  unfold refresh_overlap_issues. destruct (table_kind s) eqn:Ek; [|apply same_plan_refl].
  split_and!; try done. cbn [with_partitions partitions].
  generalize (zip (enum_spans 0 (partitions s)) (mark_overlaps (map snd (enum_spans 0 (partitions s))))).
  intros l. generalize (partitions s). induction l as [|[[i sp] b] l IH]; intros ps; cbn [foldl]; [done|].
  rewrite <- IH. symmetry. apply map_alter. intros p. apply strip_overlap_bit.
Qed.

(** ** Occupied spans *)
Lemma sound_span range p : partition_typed p → sound_in range p → sector_span p = Ok (span_of p).
Proof. intros Ht (Hl & _ & _ & He & _). by apply span_of_spec. Qed.

Lemma other_spans_all range ps j skip : Forall partition_typed ps → Forall (sound_in range) ps →
  (∀ k, skip = Some k → (k < j)%nat) → other_spans j skip ps = Ok (map span_of ps).
Proof.
  intros Ht. revert j. induction Ht as [|p ps Hp Ht IH]; intros j Hs Hk; cbn [other_spans map]; [done|].
  apply Forall_cons in Hs as [Hsp Hs]. rewrite bool_decide_eq_false_2.
  2:{ intros <-. specialize (Hk j eq_refl). lia. }
  rewrite (sound_span range) by done. cbn [mbind Result_bind].
  rewrite IH by (try done; intros k Hk'; specialize (Hk k Hk'); lia). done.
Qed.

Lemma other_spans_skip range ps j k : Forall partition_typed ps → Forall (sound_in range) ps →
  other_spans j (Some (j + k)%nat) ps = Ok (map span_of (delete k ps)).
Proof.
  intros Ht. revert j k. induction Ht as [|p ps Hp Ht IH]; intros j k Hs; cbn [other_spans]; [done|].
  apply Forall_cons in Hs as [Hsp Hs]. destruct k as [|k].
  - rewrite bool_decide_eq_true_2 by (f_equal; lia). cbn.
    apply (other_spans_all range); [done..|]. intros k [= <-]. lia.
  - rewrite bool_decide_eq_false_2 by (intros [= ?]; lia).
    rewrite (sound_span range) by done. cbn [mbind Result_bind].
    replace (j + S k)%nat with (S j + k)%nat by lia. by rewrite IH.
Qed.

Lemma occupied_all s : plan_ok s →
  occupied_spans s None = Ok (map span_of (partitions s) ++ taken_spans s).
Proof.
  intros H. unfold occupied_spans. rewrite (other_spans_all (usable_range s)) by (apply H || done).
  cbn [mbind Result_bind]. unfold taken_spans. destruct (table_kind s); [|done]. by rewrite app_nil_r.
Qed.

Lemma occupied_skip s i : plan_ok s →
  occupied_spans s (Some i) = Ok (map span_of (delete i (partitions s)) ++ taken_spans s).
Proof.
  intros H. unfold occupied_spans.
  pose proof (other_spans_skip (usable_range s) (partitions s) 0 i) as E. cbn [Nat.add] in E.
  rewrite E by apply H.
  cbn [mbind Result_bind]. unfold taken_spans. destruct (table_kind s); [|done]. by rewrite app_nil_r.
Qed.

Lemma hits_none a b spans : hits a b spans = false ↔ Forall (λ sp, ¬ overlap (a, b) sp) spans.
Proof.
  unfold hits. induction spans as [|[s e] spans IH]; cbn [existsb]; [done|].
  rewrite Forall_cons, orb_false_iff, IH. unfold overlap. cbn.
  split; intros [H ?]; (split; [|done]); lia.
Qed.

(** ** Removing *)

(** A [usize] index. *)
Definition ref_typed (t : PartitionRef) : Prop := match t with Index i => 0 ≤ i | Uuid _ => True end.

Lemma resolve_lookup s t i : ref_typed t → resolve s t = Ok i → ∃ p, partitions s !! i = Some p.
Proof.
  destruct t as [j|u]; cbn [resolve ref_typed]; intros Hj H; inv_ok.
  - subst i. apply lookup_lt_is_Some_2. unfold zlen in *. lia.
  - revert i H. induction (partitions s) as [|p ps IH]; intros i H; cbn [position_uuid] in H; [done|].
    case_bool_decide; [injection H as <-; by exists p|].
    destruct (position_uuid u ps) as [k|]; [|done]. injection H as <-. by apply IH.
Qed.

Lemma delete_ok s i p : partitions s !! i = Some p → plan_ok s →
  plan_ok (with_partitions s (delete i (partitions s))).
Proof.
  intros Hi [Hd Hg Hr Ht Hs Hk Hdis Hc [Hn1 Hn2]].
  pose proof (delete_Permutation _ _ _ Hi) as Hp.
  constructor; cbn [with_partitions partitions disk_size gpt_geometry reserved table_kind]; try done.
  - by apply Forall_delete.
  - by apply Forall_delete.
  - by apply Forall_delete.
  - rewrite Hp in Hdis. cbn in Hdis. by apply disjoint_spans_cons in Hdis as [_ ?].
  - change (slots_of _) with (slots_of s). change (taken_slots _) with (taken_slots s).
    unfold zlen in *. rewrite Hp in Hc. cbn [length] in Hc. lia.
  - change (slots_of _) with (slots_of s). change (taken_slots _) with (taken_slots s).
    unfold recorded in *. rewrite Hp in Hn1, Hn2. cbn in Hn1, Hn2. destruct (p_slot p) as [k|]; [|done].
    rewrite <- Permutation_middle in Hn1, Hn2. apply NoDup_cons in Hn1 as [_ ?].
    by apply Forall_cons in Hn2 as [_ ?].
Qed.

Lemma remove_ok s t s' : plan_ok s → ref_typed t → remove s t = Ok s' → plan_ok s'.
Proof.
  intros H Ht Hr. unfold remove in Hr. inv_ok. subst s'. apply resolve_lookup in Hx as [p Hp]; [|done].
  eapply plan_ok_strip; [apply refresh_same|]. by eapply delete_ok.
Qed.

(** ** Placing a partition *)
Lemma plan_ok_perm s qs : (partitions s ≡ₚ qs) → plan_ok s → plan_ok (with_partitions s qs).
Proof.
  intros Hp [Hd Hg Hr Ht Hs Hk Hdis Hc [Hn1 Hn2]].
  constructor; cbn [with_partitions partitions disk_size gpt_geometry reserved table_kind];
    change (slots_of (with_partitions s qs)) with (slots_of s);
    change (taken_slots (with_partitions s qs)) with (taken_slots s);
    change (taken_spans (with_partitions s qs)) with (taken_spans s);
    change (usable_range (with_partitions s qs)) with (usable_range s);
    unfold zlen, recorded in *; rewrite <- ?Hp; try done.
Qed.

Lemma plan_ok_cons s p : plan_ok s → partition_typed p → sound_in (usable_range s) p →
  kind_matches (table_kind s) p →
  Forall (λ sp, ¬ overlap (span_of p) sp) (map span_of (partitions s) ++ taken_spans s) →
  zlen (taken_slots s) + zlen (partitions s) < slots_of s →
  (∀ k, p_slot p = Some k →
     (k ∉ taken_slots s ++ recorded (partitions s)) ∧ slot_in (slots_of s) k) →
  plan_ok (with_partitions s (p :: partitions s)).
Proof.
  intros [Hd Hg Hr Ht Hs Hk Hdis Hc [Hn1 Hn2]] Hpt Hps Hpk Hov Hcount Hslot.
  constructor; cbn [with_partitions partitions disk_size gpt_geometry reserved table_kind];
    change (slots_of (with_partitions s _)) with (slots_of s);
    change (taken_slots (with_partitions s _)) with (taken_slots s);
    change (taken_spans (with_partitions s _)) with (taken_spans s);
    change (usable_range (with_partitions s _)) with (usable_range s); try done.
  - by constructor.
  - by constructor.
  - by constructor.
  - cbn. by apply disjoint_spans_cons.
  - unfold zlen in *. cbn [length]. lia.
  - unfold recorded. cbn. destruct (p_slot p) as [k|]; [|done].
    destruct (Hslot k eq_refl) as [Hk1 Hk2]. rewrite <- Permutation_middle.
    split; [by apply NoDup_cons|by constructor].
Qed.

(** ** The usable range *)
Lemma usable_small s f l : is_u64 (disk_size s) → geometry_typed (gpt_geometry s) →
  usable_range s = (f, l) →
  1 ≤ f < 2 ^ 60 ∧ l < 2 ^ 55 ∧ (f ≤ l → l < disk_size s / SECTOR_SIZE) ∧
  (table_kind s = TableMbr → l ≤ MBR_LBA_MAX).
Proof.
  intros Hd Hg. unfold usable_range, is_u64, SECTOR_SIZE in *.
  assert (0 ≤ disk_size s / 512 < 2 ^ 55) as Ht by dlia.
  destruct (table_kind s) eqn:Ek.
  - destruct (GptWrite.geometry.usable_range _ _) as [[f' l']|] eqn:E.
    + intros [= <- <-]. pose proof (layout_bounds _ _ _ _ (usable_range_facts _ _ _ _ Hg Ht E)).
      split_and!; [lia..|done].
    + intros [= <- <-]. unfold GPT_FIRST_USABLE_LBA, gpt_layout.FIRST_USABLE_LBA,
        gpt_layout.ENTRY_ARRAY_SECTORS, gpt_layout.NUM_ENTRIES, gpt_layout.ENTRY_SIZE, SECTOR_SIZE. cbn.
      change ((128 * 128) `div` 512) with 32. split_and!; [lia..|done].
  - unfold MBR_LBA_MAX in *. destruct (Z.ltb_spec (disk_size s / 512) 2); intros [= <- <-]; lia.
Qed.

Lemma spans_small s : plan_ok s → Forall span_small (map span_of (partitions s) ++ taken_spans s).
Proof.
  intros [Hd Hg Hr Ht Hs _ _ _ _]. apply Forall_app. split.
  - apply Forall_map, list.Forall_forall. intros p Hp.
    pose proof (Forall_in _ _ _ Ht Hp) as Hty. pose proof (Forall_in _ _ _ Hs Hp) as (Hl & _ & _ & He & _).
    pose proof (span_forward p Hty Hl). destruct Hty as [[? ?] [? ?] _ _ _ _].
    unfold span_small, span_of, SECTOR_SIZE in *. cbn [fst snd] in *. dlia.
  - unfold taken_spans. destruct (table_kind s); [constructor|]. apply list.Forall_forall.
    intros sp (r & Hin & Hsp)%list_elem_of_omap. pose proof (Forall_in _ _ _ Hr Hin) as (_ & Hl & Hb).
    unfold Mbr.reserved_span in Hsp. destruct (_ =? _); [done|].
    unfold Mbr.layout.START_LBA, Mbr.layout.SECTOR_COUNT in Hsp.
    pose proof (le32_bound (Mbr.r_bytes r) 8 Hb ltac:(lia) ltac:(lia)) as H8.
    pose proof (le32_bound (Mbr.r_bytes r) 12 Hb ltac:(lia) ltac:(lia)) as H12.
    unfold is_u32 in *. destruct (Z.eqb_spec (le32 (Mbr.r_bytes r) 12) 0); [done|].
    injection Hsp as <-. unfold span_small. cbn. lia.
Qed.

(** A partition of [n] sectors from [first] on, both in the table's terms. *)
Lemma sectors_span p first n : p_start p = first * SECTOR_SIZE → p_length p = n * SECTOR_SIZE →
  0 < n → span_of p = (first, first + n - 1).
Proof.
  intros Hs Hl Hn. unfold span_of, SECTOR_SIZE in *. rewrite Hs, Hl. f_equal; dlia.
Qed.

Lemma sectors_sound s p first n f l : is_u64 (disk_size s) → geometry_typed (gpt_geometry s) →
  usable_range s = (f, l) → p_start p = first * SECTOR_SIZE → p_length p = n * SECTOR_SIZE →
  0 < n → f ≤ first → first + n - 1 ≤ l → sound_in (usable_range s) p.
Proof.
  intros Hd Hg Hu Hs Hl Hn Hf He. destruct (usable_small s f l Hd Hg Hu) as (H1 & H2 & H3 & _).
  rewrite Hu. unfold sound_in, in_range. rewrite (sectors_span p first n) by done.
  cbn [fst snd]. rewrite Hs, Hl. unfold SECTOR_SIZE, is_u64 in *. specialize (H3 ltac:(lia)).
  assert (disk_size s / 512 < 2 ^ 55) by dlia. split_and!; [lia|by exists first|by exists n|lia..].
Qed.

(** ** Adding *)

(** The types of [add]'s arguments and of what it reads of its environment. *)
Record request_typed (env : Entropy) (hint : option Z) (len : Z) (t : PartitionTypeId)
    (label : option (list Z)) : Prop := {
  rq_random : opt_all guid16 (urandom env);
  rq_pid : 0 ≤ process_id env;
  rq_hint : opt_all is_u64 hint;
  rq_len : is_u64 len;
  rq_type : match t with GptCustom g => guid16 g | MbrCustom b => is_u8 b | _ => True end;
  rq_label : opt_all (Forall (λ c, 0 ≤ c < 0xD800 ∨ 0xE000 ≤ c < 0x110000)) label;
}.

(** [v] rounded up to whole alignment units: the least such number of sectors
    holding [bytes]. *)
Definition least_units (bytes n : Z) : Prop :=
  (ALIGNMENT_SECTORS | n) ∧ bytes ≤ n * SECTOR_SIZE ∧
  ∀ m, (ALIGNMENT_SECTORS | m) → bytes ≤ m * SECTOR_SIZE → n ≤ m.

Definition sectors_for (len : Z) : Z := align_up (div_ceil len SECTOR_SIZE) ALIGNMENT_SECTORS.

Lemma div_ceil_least a m : 0 ≤ a → div_ceil a SECTOR_SIZE ≤ m ↔ a ≤ m * SECTOR_SIZE.
Proof.
  intros Ha. pose proof (div_ceil_spec a SECTOR_SIZE). unfold SECTOR_SIZE in *. nia.
Qed.

Lemma div_ceil_range a : is_u64 a → 0 ≤ div_ceil a SECTOR_SIZE ≤ 2 ^ 55.
Proof.
  unfold is_u64. intros Ha. pose proof (div_ceil_spec a SECTOR_SIZE). unfold SECTOR_SIZE in *. nia.
Qed.

Lemma sectors_for_spec len : is_u64 len → 0 < len →
  least_units len (sectors_for len) ∧ 0 < sectors_for len < 2 ^ 56.
Proof.
  intros Hl H0. pose proof (div_ceil_range len Hl) as Hr. pose proof (eq_refl : ALIGNMENT_SECTORS = 2048) as HA.
  destruct (align_up_spec (div_ceil len SECTOR_SIZE) ALIGNMENT_SECTORS) as (H1 & H2 & H3); [lia..|].
  fold (sectors_for len) in *. pose proof (div_ceil_least len (sectors_for len)) as Hd. destruct Hl.
  assert (len ≤ sectors_for len * SECTOR_SIZE) by (apply Hd; lia).
  split; [|unfold SECTOR_SIZE in *; lia]. split_and!; [done|done|].
  intros m Hm Hlm. apply H3; [|done]. by apply div_ceil_least.
Qed.

(** What the new partition is. *)
Definition wanted_kind (k : TableKind) (t : PartitionTypeId) : Result Error PartitionKind :=
  match k with
  | TableGpt => g ← to_gpt_guid t; Ok (KindGpt g 0)
  | TableMbr => b ← to_mbr_byte t; Ok (KindMbr b false)
  end.

(** The spans a new partition has to stay clear of. *)
Definition all_spans (s : PartitionSet) : list (Z * Z) :=
  map span_of (partitions s) ++ taken_spans s.

Definition place (s : PartitionSet) (n c : Z) : Prop :=
  fits_at (all_spans s) n (usable_range s).1 (usable_range s).2 c.

(** The place the request names: the lowest free one, or the first aligned
    sector at or after the hint. *)
Definition chosen (s : PartitionSet) (hint : option Z) (n c : Z) : Prop :=
  match hint with
  | None => ∀ c', place s n c' → c ≤ c'
  | Some b => b ≤ c * SECTOR_SIZE ∧ (usable_range s).1 ≤ c ∧ (ALIGNMENT_SECTORS | c) ∧
      ∀ c', b ≤ c' * SECTOR_SIZE → (usable_range s).1 ≤ c' → (ALIGNMENT_SECTORS | c') → c ≤ c'
  end.

Record placed (env : Entropy) (s : PartitionSet) (hint : option Z) (len : Z)
    (t : PartitionTypeId) (label : option (list Z)) (p : Partition) (c : Z) : Prop := {
  pl_start : p_start p = c * SECTOR_SIZE;
  pl_length : p_length p = sectors_for len * SECTOR_SIZE;
  pl_units : least_units len (sectors_for len);
  pl_fits : place s (sectors_for len) c;
  pl_chosen : chosen s hint (sectors_for len) c;
  pl_kind : wanted_kind (table_kind s) t = Ok (p_kind p);
  pl_label : p_label p = label;
  pl_uuid : p_uuid p = match table_kind s with TableGpt => Some (random_uuid env) | TableMbr => None end;
  pl_slot : p_slot p = None;
  pl_issues : p_issues p = 0;
}.

(** Slots left for one more entry. *)
Definition has_room (s : PartitionSet) : Prop :=
  zlen (taken_slots s) + zlen (partitions s) < slots_of s.

(** The reasons [add] may refuse for. *)
Definition refusal (s : PartitionSet) (hint : option Z) (len : Z) (t : PartitionTypeId) : Prop :=
  len = 0 ∨ ¬ has_room s ∨ (∃ e, wanted_kind (table_kind s) t = Err e) ∨
  (∀ c, chosen s hint (sectors_for len) c → ¬ place s (sectors_for len) c).

(** ** UUIDs *)
Lemma random_source_typed env : opt_all guid16 (urandom env) →
  guid16 (match fill_from_urandom env with Some b => b | None => fill_from_prng env end).
Proof.
  intros H. unfold fill_from_urandom. destruct (urandom env) as [b|]; [done|].
  unfold fill_from_prng. split; [by rewrite zlen_app, !zlen_le_bytes|].
  apply bytes_ok_app; apply le_bytes_ok.
Qed.

(** The two bit patches, on every byte value. *)
Lemma uuid_bits b : is_u8 b →
  let v := Z.lor (Z.land b 0x0F) 0x40 in let r := Z.lor (Z.land b 0x3F) 0x80 in
  is_u8 v ∧ is_u8 r ∧ v / 16 = 4 ∧ v mod 16 = b mod 16 ∧ r / 64 = 2 ∧ r mod 64 = b mod 64.
Proof.
  intros Hb. set (ok b := let v := Z.lor (Z.land b 0x0F) 0x40 in let r := Z.lor (Z.land b 0x3F) 0x80 in
    (0 <=? v) && (v <? 256) && (0 <=? r) && (r <? 256) && (v / 16 =? 4) && (v mod 16 =? b mod 16) &&
    (r / 64 =? 2) && (r mod 64 =? b mod 64)).
  assert (ok b = true) as H.
  { assert (forallb ok (seqZ 0 256) = true) as Hall by (by vm_compute).
    rewrite forallb_forall in Hall. apply Hall, list_elem_of_In, elem_of_seqZ. unfold is_u8 in Hb. lia. }
  unfold ok in H. rewrite !andb_true_iff in H.
  destruct H as [[[[[[[H1 H2] H3] H4] H5] H6] H7] H8]. cbv zeta. unfold is_u8. zbool. lia.
Qed.

Lemma random_uuid_typed env : opt_all guid16 (urandom env) → guid16 (random_uuid env).
Proof.
  intros [Hz Hb]%random_source_typed. unfold random_uuid.
  generalize dependent (match fill_from_urandom env with Some b => b | None => fill_from_prng env end).
  intros bs Hz Hb. cbv zeta. set (bs' := bput bs 7 _). assert (bytes_ok bs') as Hb'.
  { apply bytes_ok_bput; [done|]. repeat constructor; apply uuid_bits; by apply byte_at_is_u8. }
  assert (zlen bs' = 16) as Hz' by (rewrite <- Hz; unfold bs'; apply zlen_bput; [lia|rewrite Hz; by vm_compute]).
  split; [rewrite <- Hz'; apply zlen_bput; [lia|rewrite Hz'; by vm_compute]|].
  apply bytes_ok_bput; [done|]. repeat constructor; apply uuid_bits; by apply byte_at_is_u8.
Qed.

(** ** [add] places a partition, or there is no place *)
Lemma wanted_kind_typed env hint len t label k kd : request_typed env hint len t label →
  wanted_kind k t = Ok kd → kind_typed kd ∧
  match k with TableGpt => ∃ g a, kd = KindGpt g a | TableMbr => ∃ b a, kd = KindMbr b a end.
Proof.
  intros [_ _ _ _ Ht _] H. unfold wanted_kind, to_gpt_guid, to_mbr_byte in H.
  destruct k, t; cbn [mbind Result_bind] in H; inv_ok; subst; cbn [kind_typed];
    (split; [|by eexists _, _]); try done.
  all: split; [split; [done|by apply bytes_by_compute]|done].
Qed.

Lemma chosen_unique s hint n c c' : place s n c → place s n c' →
  chosen s hint n c → chosen s hint n c' → c = c'.
Proof.
  intros Hc Hc'. destruct hint as [b|]; cbn [chosen].
  - intros (? & ? & ? & Hm1) (? & ? & ? & Hm2). assert (c ≤ c') by by apply Hm1.
    assert (c' ≤ c) by by apply Hm2. lia.
  - intros H1 H2. specialize (H1 c' Hc'). specialize (H2 c Hc). lia.
Qed.

(** The start [add] settles on. *)
Definition start_for (s : PartitionSet) (hint : option Z) (n : Z) : Result Error Z :=
  match hint with
  | Some byte => Ok (align_up (Z.max (div_ceil byte SECTOR_SIZE) (usable_range s).1) ALIGNMENT_SECTORS)
  | None => find_free s n (usable_range s).1 (usable_range s).2
  end.

Lemma plan_bounds s : plan_ok s →
  1 ≤ (usable_range s).1 < 2 ^ 60 ∧ (usable_range s).2 < 2 ^ 55 ∧
  (table_kind s = TableMbr → (usable_range s).2 ≤ MBR_LBA_MAX).
Proof.
  intros [Hd Hg _ _ _ _ _ _ _].
  destruct (usable_small s _ _ Hd Hg (surjective_pairing _)) as (? & ? & _ & ?). done.
Qed.

Lemma start_for_spec s hint n : plan_ok s → opt_all is_u64 hint → 0 < n < 2 ^ 60 →
  match start_for s hint n with
  | Ok c => chosen s hint n c ∧ 0 ≤ c < 2 ^ 61 ∧ (hint = None → place s n c) ∧
            (usable_range s).1 ≤ c ∧ (ALIGNMENT_SECTORS | c)
  | Err _ => hint = None ∧ ∀ c, ¬ place s n c
  end.
Proof.
  intros Hok Hh Hn. destruct (plan_bounds s Hok) as (Hf & Hl & _). destruct hint as [b|]; cbn [start_for chosen].
  - cbn in Hh. pose proof (div_ceil_range b Hh). destruct Hh.
    destruct (align_up_spec (Z.max (div_ceil b SECTOR_SIZE) (usable_range s).1) ALIGNMENT_SECTORS)
      as (Ha1 & Ha2 & Ha3); [done|lia|unfold ALIGNMENT_SECTORS; lia|].
    pose proof (eq_refl : ALIGNMENT_SECTORS = 2048) as HA.
    set (c := align_up _ _) in *. split_and!; try done; try lia.
    + apply div_ceil_least; lia.
    + intros c' Hb Hfc Ha. apply Ha3; [|done]. apply div_ceil_least in Hb; [|done]. lia.
  - pose proof (find_free_spec s n _ (usable_range s).2 _ (occupied_all s Hok) (spans_small s Hok) Hn
      (conj (Z.le_trans _ 1 _ Z.le_0_1 (proj1 Hf)) (proj2 Hf))) as H.
    destruct (find_free _ _ _ _) as [c|e]; [|by split].
    destruct H as [Hp Hmin]. pose proof Hp as (Hp1 & Hp2 & Hp3 & _). split_and!; try done; lia.
Qed.

(** The two table-full guards. *)
Lemma room_guard s :
  (bool_decide (table_kind s = TableMbr)
     && (Mbr.layout.ENTRY_COUNT <=? zlen (partitions s) + zlen (reserved s))) ||
  (bool_decide (table_kind s = TableGpt)
     && (GptWrite.num_entries (gpt_geometry s) <=? zlen (partitions s))) = false ↔ has_room s.
Proof.
  unfold has_room, taken_slots, slots_of, Mbr.layout.ENTRY_COUNT.
  destruct (table_kind s); repeat case_bool_decide; try done;
    unfold zlen; rewrite ?length_map; cbn; lia.
Qed.

(** Where the chosen start does not do, none does. *)
Lemma chosen_or_none s hint n c : chosen s hint n c → (hint = None → place s n c) →
  (usable_range s).1 ≤ c → (ALIGNMENT_SECTORS | c) → ¬ place s n c →
  ∀ c', chosen s hint n c' → ¬ place s n c'.
Proof.
  intros Hch Hpl Hfc Hac Hnp c' Hch' Hp'. apply Hnp. destruct hint as [b|]; [|by apply Hpl].
  destruct Hch as (? & ? & ? & Hm1), Hch' as (? & ? & ? & Hm2).
  assert (c' = c) as -> by (apply Z.le_antisymm; [by apply Hm2|by apply Hm1]). done.
Qed.

Lemma add_cases env s hint len t label : plan_ok s → request_typed env hint len t label →
  match add env s hint len t label with
  | Ok (s', idx) => ∃ p c, s' = with_partitions s (partitions s ++ [p]) ∧
      idx = zlen (partitions s) ∧ placed env s hint len t label p c ∧ has_room s ∧ len ≠ 0
  | Err _ => refusal s hint len t
  end.
Proof.
  intros Hok Hrq. pose proof Hrq as [_ _ Hh Hl Ht Hlab]. unfold add, refusal.
  destruct (Z.eqb_spec len 0) as [->|H0]; [by left|]. rewrite refuse_no by done.
  pose proof (room_guard s) as Hroom.
  destruct (bool_decide _ && (Mbr.layout.ENTRY_COUNT <=? _)) eqn:E1.
  { right; left. intros Hr%Hroom. done. }
  destruct (bool_decide _ && (GptWrite.num_entries _ <=? _)) eqn:E2.
  { right; left. intros Hr%Hroom. done. }
  apply proj1 in Hroom. specialize (Hroom eq_refl). rewrite !refuse_no by done.
  destruct (sectors_for_spec len Hl ltac:(destruct Hl; lia)) as [Hu Hn]. fold (sectors_for len).
  set (n := sectors_for len) in *. rewrite (surjective_pairing (usable_range s)).
  destruct (plan_bounds s Hok) as (Hf & Hla & Hm).
  assert (∀ c, place s n c → (usable_range s).1 ≤ (usable_range s).2) as Hne.
  { intros c (? & _ & ? & _). lia. }
  destruct (Z.ltb_spec (usable_range s).2 (usable_range s).1) as [Hlt|Hle].
  { rewrite refuse_yes by done. do 3 right. intros c _ Hc. specialize (Hne c Hc). lia. }
  rewrite refuse_no by done. fold (start_for s hint n).
  pose proof (start_for_spec s hint n Hok Hh ltac:(lia)) as Hst.
  destruct (start_for s hint n) as [c|e]; cbn [mbind Result_bind].
  2:{ do 3 right. intros c _. by apply Hst. }
  destruct Hst as (Hch & Hc & Hpl & Hfc & Hac).
  rewrite (u64_small (n - 1)) by lia. rewrite checked_add_ok by lia. cbn [ok_or mbind Result_bind].
  pose proof (chosen_or_none s hint n c Hch Hpl Hfc Hac) as Hno.
  replace (c + (n - 1)) with (c + n - 1) by lia.
  destruct (Z.ltb_spec (usable_range s).2 (c + n - 1)) as [Hlt|Hend].
  { rewrite refuse_yes by done. do 3 right. apply Hno. intros (_ & _ & ? & _). lia. }
  rewrite refuse_no by done. rewrite refuse_no by (clear E1 E2; case_bool_decide as Ekd; [specialize (Hm Ekd); lia|done]).
  rewrite (occupied_all s Hok). cbn [mbind Result_bind]. fold (all_spans s).
  destruct (hits c (c + n - 1) (all_spans s)) eqn:Eh.
  { rewrite refuse_yes by done. do 3 right. apply Hno. intros (_ & _ & _ & Hov).
    apply hits_none in Hov. congruence. }
  rewrite refuse_no by done. fold (wanted_kind (table_kind s) t).
  destruct (wanted_kind (table_kind s) t) as [kd|e] eqn:Ek; cbn [mbind Result_bind].
  2:{ right; right; left. by exists e. }
  exists (mkPartition (u64 (c * SECTOR_SIZE)) (u64 (n * SECTOR_SIZE)) kd label
    (match table_kind s with TableGpt => Some (random_uuid env) | TableMbr => None end) None 0
    (u64 (n * SECTOR_SIZE))), c.
  split_and!; try done. constructor; cbn; try done.
  - apply u64_small. unfold SECTOR_SIZE. lia.
  - apply u64_small. unfold SECTOR_SIZE. lia.
  - split_and!; try done. by apply hits_none.
Qed.

Lemma placed_span env s hint len t label p c : is_u64 len → len ≠ 0 → placed env s hint len t label p c →
  span_of p = (c, c + sectors_for len - 1).
Proof.
  intros Hl H0 Hp. pose proof (sectors_for_spec len Hl ltac:(destruct Hl; lia)) as [_ Hn].
  apply sectors_span; [apply Hp|apply Hp|lia].
Qed.

Lemma placed_typed env s hint len t label p c : plan_ok s → request_typed env hint len t label →
  len ≠ 0 → placed env s hint len t label p c → partition_typed p.
Proof.
  intros Hok Hrq H0 [Hs Hle Hu Hf _ Hk Hlab Huu Hsl _]. pose proof Hrq as [Hr _ _ Hl _ Hlb].
  pose proof (sectors_for_spec len Hl ltac:(destruct Hl; lia)) as [_ Hn].
  destruct (plan_bounds s Hok) as (Hb1 & Hb2 & _). destruct Hf as (Hf1 & _ & Hf2 & _).
  constructor; rewrite ?Hs, ?Hle, ?Hlab, ?Huu, ?Hsl; try done.
  - unfold is_u64, SECTOR_SIZE. lia.
  - unfold is_u64, SECTOR_SIZE. lia.
  - by eapply wanted_kind_typed.
  - destruct (table_kind s); [|done]. by apply random_uuid_typed.
Qed.

Lemma add_ok env s hint len t label s' idx : plan_ok s → request_typed env hint len t label →
  add env s hint len t label = Ok (s', idx) → plan_ok s'.
Proof.
  intros Hok Hrq Ha. pose proof (add_cases env s hint len t label Hok Hrq) as H. rewrite Ha in H.
  destruct H as (p & c & -> & _ & Hp & Hroom & H0). pose proof (rq_len _ _ _ _ _ Hrq) as Hl.
  pose proof (placed_typed _ _ _ _ _ _ _ _ Hok Hrq H0 Hp) as Hty.
  pose proof (placed_span _ _ _ _ _ _ _ _ Hl H0 Hp) as Hspan.
  pose proof (sectors_for_spec len Hl ltac:(destruct Hl; lia)) as [_ Hn].
  pose proof Hp as [Hs Hle _ (Hf1 & _ & Hf2 & Hov) _ Hk _ Huu Hsl _].
  assert (plan_ok (with_partitions s (p :: partitions s))) as Hcons.
  { apply plan_ok_cons; try done.
    - eapply (sectors_sound s p c (sectors_for len)); try done; try apply Hok; try lia.
      apply surjective_pairing.
    - destruct (wanted_kind_typed _ _ _ _ _ _ _ Hrq Hk) as [_ Hkd]. unfold kind_matches.
      destruct (table_kind s); [|done]. split; [done|]. by rewrite Huu.
    - by rewrite Hspan.
    - intros k. by rewrite Hsl. }
  exact (plan_ok_perm (with_partitions s (p :: partitions s)) (partitions s ++ [p]) (Permutation_cons_append (partitions s) p) Hcons).
Qed.

(** ** Resizing *)

(** The partition as [resize] leaves it. *)
Definition grown (p : Partition) (n : Z) : Partition :=
  with_issues (with_length p (n * SECTOR_SIZE)) (Z.ldiff (p_issues p) entry_issue.PAST_LAST_USABLE).

(** The spans other than the [i]th partition's. *)
Definition other_all (s : PartitionSet) (i : nat) : list (Z * Z) :=
  map span_of (delete i (partitions s)) ++ taken_spans s.

(** [n] sectors from where [p] starts are free, apart from [p]. *)
Definition grows (s : PartitionSet) (i : nat) (p : Partition) (n : Z) : Prop :=
  (span_of p).1 + n - 1 ≤ (usable_range s).2 ∧
  Forall (λ sp, ¬ overlap ((span_of p).1, (span_of p).1 + n - 1) sp) (other_all s i).

Lemma resize_cases s t len : plan_ok s → ref_typed t → is_u64 len →
  match resize s t len with
  | Ok s' => ∃ i p, resolve s t = Ok i ∧ partitions s !! i = Some p ∧ len ≠ 0 ∧
      grows s i p (sectors_for len) ∧
      s' = refresh_overlap_issues
             (with_partitions s (<[i := grown p (sectors_for len)]> (partitions s)))
  | Err _ => len = 0 ∨ (∃ e, resolve s t = Err e) ∨
      ∃ i p, resolve s t = Ok i ∧ partitions s !! i = Some p ∧ ¬ grows s i p (sectors_for len)
  end.
Proof.
  intros Hok Ht Hl. unfold resize. fold (sectors_for len).
  destruct (Z.eqb_spec len 0) as [->|H0]; [by left|]. rewrite refuse_no by done.
  destruct (resolve s t) as [i|e] eqn:Er; cbn [mbind Result_bind]; [|right; left; by eexists].
  destruct (resolve_lookup s t i Ht Er) as [p Hp].
  destruct (sectors_for_spec len Hl ltac:(destruct Hl; lia)) as [Hu Hn].
  set (n := sectors_for len) in *. rewrite Hp. cbn [from_option].
  destruct (plan_bounds s Hok) as (_ & Hla & Hm).
  pose proof (proj1 (Forall_lookup _ _) (po_sound s Hok) i p Hp) as (Hpl & _ & _ & _ & Hr1 & Hr2).
  pose proof (span_forward p (proj1 (Forall_lookup _ _) (po_typed s Hok) i p Hp) Hpl) as Hfw.
  destruct (plan_bounds s Hok) as ([Hf _] & _). change (p_start p / SECTOR_SIZE) with (span_of p).1.
  set (c := (span_of p).1) in *. rewrite (surjective_pairing (usable_range s)).
  rewrite (u64_small (n - 1)) by lia. rewrite checked_add_ok by lia. cbn [ok_or mbind Result_bind].
  replace (c + (n - 1)) with (c + n - 1) by lia.
  destruct (Z.ltb_spec (usable_range s).2 (c + n - 1)) as [Hlt|Hend].
  { rewrite refuse_yes by done. right; right. exists i, p. split_and!; try done. intros [? _]. lia. }
  rewrite refuse_no by done. rewrite refuse_no by (case_bool_decide as Ekd; [specialize (Hm Ekd); lia|done]).
  rewrite (occupied_skip s i Hok). cbn [mbind Result_bind]. fold (other_all s i).
  destruct (hits c (c + n - 1) (other_all s i)) eqn:Eh.
  { rewrite refuse_yes by done. right; right. exists i, p. split_and!; try done. intros [_ Hov].
    assert (hits c (c + n - 1) (other_all s i) = false) by by apply hits_none. congruence. }
  rewrite refuse_no by done. exists i, p. split_and!; try done; [by split; [|apply hits_none]|].
  do 2 f_equal. apply list_eq. intros j. destruct (decide (i = j)) as [->|Hne].
  - rewrite list_lookup_alter_eq, Hp, list_lookup_insert_eq by (by eapply lookup_lt_Some). cbn. unfold grown.
    by rewrite u64_small by (unfold SECTOR_SIZE; lia).
  - by rewrite list_lookup_alter_ne, list_lookup_insert_ne.
Qed.

Lemma delete_insert {A} (l : list A) i y : delete i (<[i := y]> l) = delete i l.
Proof. revert i. induction l as [|x l IH]; intros [|i]; cbn; [done..|]. f_equal. apply (IH i). Qed.

Lemma insert_Permutation {A} (l : list A) i x y : l !! i = Some x → <[i := y]> l ≡ₚ y :: delete i l.
Proof.
  intros Hi. rewrite (delete_Permutation (<[i := y]> l) i y).
  - by rewrite delete_insert.
  - apply list_lookup_insert_eq. by eapply lookup_lt_Some.
Qed.

Lemma resize_ok s t len s' : plan_ok s → ref_typed t → is_u64 len → resize s t len = Ok s' → plan_ok s'.
Proof.
  intros Hok Ht Hl Hr. pose proof (resize_cases s t len Hok Ht Hl) as H. rewrite Hr in H.
  destruct H as (i & p & Hi & Hp & H0 & [He Hov] & ->). eapply plan_ok_strip; [apply refresh_same|].
  pose proof (sectors_for_spec len Hl ltac:(destruct Hl; lia)) as [_ Hn]. set (n := sectors_for len) in *.
  pose proof (proj1 (Forall_lookup _ _) (po_sound s Hok) i p Hp) as (Hpl & [c Hc] & _ & _ & Hr1 & _).
  pose proof (proj1 (Forall_lookup _ _) (po_typed s Hok) i p Hp) as [Ht1 Ht2 Ht3 Ht4 Ht5 Ht6].
  pose proof (proj1 (Forall_lookup _ _) (po_kinds s Hok) i p Hp) as Hkd.
  assert ((span_of p).1 = c) as Hc1 by (unfold span_of, SECTOR_SIZE in *; cbn; rewrite Hc; dlia).
  destruct (plan_bounds s Hok) as ([Hf1 _] & Hla & _).
  pose proof (delete_ok s i p Hp Hok) as Hdel. rewrite Hc1 in *.
  assert (span_of (grown p n) = (c, c + n - 1)) as Hspan by (by apply sectors_span; [|done|lia]).
  pose proof (delete_Permutation _ _ _ Hp) as Hperm.
  assert (plan_ok (with_partitions s (grown p n :: delete i (partitions s)))) as Hcons.
  { apply (plan_ok_cons (with_partitions s (delete i (partitions s)))); try done.
    - constructor; try done. cbn. unfold is_u64, SECTOR_SIZE. lia.
    - eapply (sectors_sound _ (grown p n) c n); try done; try apply Hok; try lia. apply surjective_pairing.
    - by rewrite Hspan.
    - pose proof (po_count s Hok) as Hcnt. pose proof (Permutation_length Hperm) as Hlen. unfold zlen in *.
      change (Z.of_nat (length (taken_slots s)) + Z.of_nat (length (delete i (partitions s))) < slots_of s).
      cbn [length] in Hlen. lia.
    - intros k Hk. change (p_slot p = Some k) in Hk. destruct (po_slots s Hok) as [Hn1 Hn2].
      unfold recorded in Hn1, Hn2. rewrite Hperm in Hn1, Hn2. cbn [omap list_omap] in Hn1, Hn2. rewrite Hk in Hn1, Hn2.
      rewrite <- Permutation_middle in Hn1, Hn2. apply NoDup_cons in Hn1 as [? _].
      apply Forall_cons in Hn2 as [? _]. done. }
  refine (plan_ok_perm (with_partitions s (grown p n :: delete i (partitions s)))
    (<[i := grown p n]> (partitions s)) _ Hcons).
  symmetry. by eapply insert_Permutation.
Qed.

(** ** The overlap flag after an edit *)
Lemma refresh_foldl pre ps bs : length bs = length ps → Forall (λ p, ∃ sp, sector_span p = Ok sp) ps →
  foldl (λ ps '((i, _), overlaps), alter (set_overlap_bit overlaps) i ps) (pre ++ ps)
    (zip (enum_spans (length pre) ps) bs) = pre ++ zip_with (λ p b, set_overlap_bit b p) ps bs.
Proof.
  revert pre bs. induction ps as [|p ps IH]; intros pre [|b bs] Hl Hs; try done.
  apply Forall_cons in Hs as [[sp Hp] Hs]. cbn [enum_spans]. rewrite Hp. cbn [zip zip_with foldl].
  rewrite alter_app_r_alt, Nat.sub_diag by lia. cbn [alter list_alter].
  specialize (IH (pre ++ [set_overlap_bit b p]) bs ltac:(cbn in Hl; lia) Hs).
  rewrite length_app, Nat.add_1_r in IH. rewrite <- !app_assoc in IH. exact IH.
Qed.

Lemma enum_spans_all i ps : Forall (λ p, sector_span p = Ok (span_of p)) ps →
  map snd (enum_spans i ps) = map span_of ps.
Proof.
  intros Hs. revert i. induction Hs as [|p ps Hp Hs IH]; intros i; cbn [enum_spans map]; [done|].
  rewrite Hp. cbn. by rewrite IH.
Qed.

Lemma refresh_zip s : table_kind s = TableGpt →
  Forall (λ p, sector_span p = Ok (span_of p)) (partitions s) →
  partitions (refresh_overlap_issues s) =
    zip_with (λ p b, set_overlap_bit b p) (partitions s) (mark_overlaps (map span_of (partitions s))).
Proof.
  intros Ek Hs. unfold refresh_overlap_issues. rewrite Ek. cbn [with_partitions partitions].
  rewrite enum_spans_all by done.
  apply (refresh_foldl [] (partitions s)); [by rewrite mark_overlaps_length, length_map|].
  eapply Forall_impl; [exact Hs|]. intros p Hp. exists (span_of p). exact Hp.
Qed.

(** Where every span can be computed, an entry carries the flag exactly when
    another shares a sector with it, and keeps its other flags. *)
Lemma refresh_flag s i p : table_kind s = TableGpt → Forall partition_typed (partitions s) →
  Forall (λ p, 0 < p_length p ∧ p_start p + p_length p < 2 ^ 64) (partitions s) →
  partitions s !! i = Some p → ∃ b : bool,
    partitions (refresh_overlap_issues s) !! i = Some (set_overlap_bit b p) ∧
    (b = true ↔ clashes (map span_of (partitions s)) i).
Proof.
  intros Ek Ht Hs Hp.
  assert (Forall (λ p, sector_span p = Ok (span_of p)) (partitions s)) as Hsp.
  { apply list.Forall_forall. intros q Hq. destruct (Forall_in _ _ _ Hs Hq).
    apply span_of_spec; [|done..]. exact (Forall_in _ _ _ Ht Hq). }
  assert (spans_forward (map span_of (partitions s))) as Hfw.
  { apply Forall_map, list.Forall_forall. intros q Hq. destruct (Forall_in _ _ _ Hs Hq).
    apply span_forward; [|done]. exact (Forall_in _ _ _ Ht Hq). }
  rewrite refresh_zip by done. set (spans := map span_of (partitions s)) in *.
  assert (length (mark_overlaps spans) = length (partitions s)) as Hl
    by (unfold spans; by rewrite mark_overlaps_length, length_map).
  destruct (mark_overlaps spans !! i) as [b|] eqn:Eb.
  2:{ apply lookup_ge_None in Eb. apply lookup_lt_Some in Hp. lia. }
  exists b. rewrite lookup_zip_with, Hp. cbn. rewrite Eb. split; [done|].
  rewrite <- mark_overlaps_flag by done. rewrite Eb. naive_solver.
Qed.

(** ** Removing, on any set *)

(** Which partition a reference names: by index, or the first with the UUID. *)
Definition named (s : PartitionSet) (t : PartitionRef) (i : nat) : Prop :=
  match t with
  | Index k => Z.of_nat i = k
  | Uuid u => ∃ p, partitions s !! i = Some p ∧ p_uuid p = Some u ∧
      ∀ j q, (j < i)%nat → partitions s !! j = Some q → p_uuid q ≠ Some u
  end.

Lemma position_uuid_first u ps i : position_uuid u ps = Some i →
  ∃ p, ps !! i = Some p ∧ p_uuid p = Some u ∧
    ∀ j q, (j < i)%nat → ps !! j = Some q → p_uuid q ≠ Some u.
Proof.
  revert i. induction ps as [|p ps IH]; intros i; cbn [position_uuid]; [done|].
  case_bool_decide as Hu.
  - intros [= <-]. exists p. split_and!; [done..|lia].
  - destruct (position_uuid u ps) as [k|]; [|done]. intros [= <-].
    destruct (IH k eq_refl) as (q & Hq & Hqu & Hmin). exists q. split_and!; [done..|].
    intros [|j] r Hj Hr; [by injection Hr as <-|]. by apply (Hmin j r); [lia|].
Qed.

Lemma resolve_named s t i : ref_typed t → resolve s t = Ok i → named s t i.
Proof.
  destruct t as [k|u]; cbn [resolve ref_typed named]; intros Hk H; inv_ok.
  - subst i. lia.
  - by apply position_uuid_first.
Qed.

Lemma remove_entry s t s' : ref_typed t → Forall partition_typed (partitions s) →
  Forall (λ p, 0 < p_length p ∧ p_start p + p_length p < 2 ^ 64) (partitions s) →
  remove s t = Ok s' → ∃ i, named s t i ∧ (i < length (partitions s))%nat ∧
    map strip (partitions s') = map strip (delete i (partitions s)) ∧
    ∀ j q, delete i (partitions s) !! j = Some q →
      match table_kind s with
      | TableMbr => partitions s' !! j = Some q
      | TableGpt => ∃ b : bool, partitions s' !! j = Some (set_overlap_bit b q) ∧
          (b = true ↔ clashes (map span_of (delete i (partitions s))) j)
      end.
Proof.
  intros Ht Hty Hs Hr. unfold remove in Hr. inv_ok. subst s'. exists x.
  split; [by apply resolve_named|]. destruct (resolve_lookup s t x Ht Hx) as [p Hp].
  split; [by eapply lookup_lt_Some|].
  pose proof (refresh_same (with_partitions s (delete x (partitions s)))) as (_ & _ & _ & _ & Hm).
  split; [by rewrite <- Hm|]. intros j q Hq. destruct (table_kind s) eqn:Ek.
  - apply (refresh_flag (with_partitions s (delete x (partitions s)))); try done; by apply Forall_delete.
  - unfold refresh_overlap_issues. cbn [with_partitions table_kind]. by rewrite Ek.
Qed.

(** ** What a removal frees *)

(** [p] starts and ends on the alignment [add] and [resize] keep. *)
Definition aligned (p : Partition) : Prop :=
  (ALIGNMENT_SECTORS * SECTOR_SIZE | p_start p) ∧ (ALIGNMENT_SECTORS * SECTOR_SIZE | p_length p).

Lemma aligned_units p : partition_typed p → 0 < p_length p → aligned p →
  ∃ c, (ALIGNMENT_SECTORS | c) ∧ p_start p = c * SECTOR_SIZE ∧
    p_length p = sectors_for (p_length p) * SECTOR_SIZE ∧ span_of p = (c, c + sectors_for (p_length p) - 1).
Proof.
  intros Hty Hl [[a Ha] [b Hb]]. destruct Hty as [_ Hlt _ _ _ _].
  destruct (sectors_for_spec (p_length p) Hlt Hl) as [(_ & H1 & H2) Hn].
  assert (sectors_for (p_length p) = b * ALIGNMENT_SECTORS) as E.
  { specialize (H2 (b * ALIGNMENT_SECTORS) (Z.divide_factor_r _ _)). unfold SECTOR_SIZE in *. lia. }
  exists (a * ALIGNMENT_SECTORS). assert (p_start p = a * ALIGNMENT_SECTORS * SECTOR_SIZE) as Es by lia.
  assert (p_length p = sectors_for (p_length p) * SECTOR_SIZE) as El by (rewrite E; lia).
  split_and!; [apply Z.divide_factor_r|done|done|]. apply sectors_span; [done|done|lia].
Qed.

(** [s1] is [s] less the [i]th partition, up to issue flags. *)
Lemma freed_plan s i p : plan_ok s → partitions s !! i = Some p →
  ∃ s1, remove s (Index (Z.of_nat i)) = Ok s1 ∧ plan_ok s1 ∧ has_room s1 ∧
    table_kind s1 = table_kind s ∧ usable_range s1 = usable_range s ∧
    map strip (partitions s1) = map strip (delete i (partitions s)) ∧ all_spans s1 = other_all s i.
Proof.
  intros Hok Hp. pose proof (lookup_lt_Some _ _ _ Hp) as Hi.
  assert (remove s (Index (Z.of_nat i)) = Ok (refresh_overlap_issues (with_partitions s (delete i (partitions s))))) as Hr.
  { unfold remove, resolve. rewrite refuse_no by (unfold zlen; apply Z.leb_gt; lia). cbn [mbind Result_bind]. by rewrite Nat2Z.id. }
  eexists. split; [exact Hr|]. pose proof (remove_ok s (Index (Z.of_nat i)) _ Hok (Nat2Z.is_nonneg i) Hr) as Hok1. split; [done|].
  pose proof (refresh_same (with_partitions s (delete i (partitions s)))) as (Ek & Ed & Eg & Er & Em).
  set (s1 := refresh_overlap_issues _) in *. cbn [with_partitions table_kind disk_size gpt_geometry reserved partitions] in *.
  pose proof (f_equal length Em) as El. rewrite !length_map, length_delete in El by done.
  pose proof (po_count s Hok) as Hc. unfold has_room, all_spans, other_all, taken_slots, taken_spans, slots_of, usable_range, zlen in *.
  rewrite <- Ek, <- Ed, <- Eg, <- Er, <- El in *. split_and!; try done; [lia|].
  by rewrite (map_strip span_of _ _ (λ p, eq_refl) Em).
Qed.

(** The place it had is one for as many sectors. *)
Lemma freed_place s s1 i p c n : plan_ok s → partitions s !! i = Some p → usable_range s1 = usable_range s →
  all_spans s1 = other_all s i → (ALIGNMENT_SECTORS | c) → span_of p = (c, c + n - 1) → place s1 n c.
Proof.
  intros Hok Hp Eu Es Ha Esp. pose proof (Forall_lookup_1 _ _ _ _ (po_sound s Hok) Hp) as (_ & _ & _ & _ & Hir).
  pose proof (po_disjoint s Hok) as Hd. rewrite (delete_Permutation _ _ _ Hp) in Hd. cbn in Hd.
  apply disjoint_spans_cons in Hd as [Hd _]. unfold place. rewrite Es, Eu. unfold in_range in Hir. rewrite Esp in *. cbn in Hir.
  split_and!; [lia|done|lia|done].
Qed.

(** [add] there, or wherever the planner finds first. *)
Lemma add_placed env s hint len t label c : plan_ok s → request_typed env hint len t label → 0 < len → has_room s →
  (∃ kd, wanted_kind (table_kind s) t = Ok kd) → chosen s hint (sectors_for len) c → place s (sectors_for len) c →
  ∃ s2 q, add env s hint len t label = Ok (s2, zlen (partitions s)) ∧ partitions s2 = partitions s ++ [q] ∧
    p_start q = c * SECTOR_SIZE ∧ p_length q = sectors_for len * SECTOR_SIZE.
Proof.
  intros Hok Hrq Hl Hroom [kd Hkd] Hch Hpl. pose proof (add_cases env s hint len t label Hok Hrq) as H.
  destruct (add env s hint len t label) as [[s2 idx]|e].
  - destruct H as (q & c' & -> & -> & Hq & _). exists (with_partitions s (partitions s ++ [q])), q.
    rewrite <- (chosen_unique s hint _ c' c) by (done || apply Hq). split_and!; [done..|apply Hq|apply Hq].
  - destruct H as [?|[?|[[e' He]|H]]]; [lia|done|congruence|by destruct (H c Hch)].
Qed.

(** There is a lowest place when there is a place. *)
Lemma lowest_place s n c : plan_ok s → 0 < n < 2 ^ 60 → place s n c →
  ∃ c', chosen s None n c' ∧ place s n c' ∧ c' ≤ c.
Proof.
  intros Hok Hn Hc. pose proof (start_for_spec s None n Hok I Hn) as H. destruct (start_for s None n) as [c'|e].
  - destruct H as (Hch & _ & Hpl & _). exists c'. split_and!; [done|by apply Hpl|by apply Hch].
  - destruct H as [_ H]. by destruct (H c Hc).
Qed.
