(* ===== verification/MutationProbe.v ===== *)
(** * A set read off a device

    What [from_probe] makes is well typed: [from_probe_probed]
    says of its partitions, table shape, entry tails and preserved entries what
    the writers ask of them, whatever the device holds; [probed_plan_ok] makes
    a plan of it. *)
From S2P Require Import Prelude Bytes Device Table Utf16 Rules Slots Mbr MbrCodec MbrDisk Gpt GptWrite.
From S2P Require Import GptCodec GptDisk Mutation MutationPlan.
From S2P Require Probe.

(** ** Labels *)
Lemma from_utf16_chars us : Forall (λ u, 0 ≤ u < 2 ^ 16) us → Forall is_char (from_utf16_lossy us).
Proof.
  assert (∀ n us, (length us ≤ n)%nat → Forall (λ u, 0 ≤ u < 2 ^ 16) us → Forall is_char (from_utf16_lossy us)) as H.
  { induction n as [|n IH]; intros [|u rest] Hn Hu; [constructor|cbn in Hn; lia|constructor|].
    apply Forall_cons in Hu as [Hu Hr]. cbn [length] in Hn. cbn [from_utf16_lossy].
    unfold is_low_surrogate at 1. destruct (Z.leb_spec 0xDC00 u), (Z.ltb_spec u 0xE000); cbn [andb].
    1: { constructor; [unfold is_char; lia|apply IH; [lia|done]]. }
    all: unfold is_high_surrogate; destruct (Z.leb_spec 0xD800 u), (Z.ltb_spec u 0xDC00); cbn [andb]; try lia;
      try (constructor; [unfold is_char; lia|apply IH; [lia|done]]).
    destruct rest as [|u2 rest2]; [repeat constructor; unfold is_char; lia|].
    apply Forall_cons in Hr as [Hu2 Hr2]. cbn [length] in Hn. unfold is_low_surrogate.
    destruct (Z.leb_spec 0xDC00 u2), (Z.ltb_spec u2 0xE000); cbn [andb];
      constructor; try (unfold is_char; lia); apply IH; cbn [length]; try lia; try done; by constructor. }
  intros Hu. by apply (H (length us)).
Qed.

Lemma utf16_units_range bytes : bytes_ok bytes → Forall (λ u, 0 ≤ u < 2 ^ 16) (utf16_units bytes).
Proof.
  assert (∀ n l, (length l ≤ n)%nat → bytes_ok l → Forall (λ u, 0 ≤ u < 2 ^ 16) (utf16_units l)) as H.
  { induction n as [|n IH]; intros [|a [|b l]] Hn Hb; try constructor; cbn [length] in Hn; try lia.
    apply Forall_cons in Hb as [Ha Hb]. apply Forall_cons in Hb as [Hb Hl]. cbn [utf16_units].
    destruct (_ =? 0); [constructor|]. constructor; [|apply IH; [lia|done]].
    unfold is_u8 in *. cbn [le_val]. lia. }
  intros Hb. by apply (H (length bytes)).
Qed.

Lemma label_typed bytes : bytes_ok bytes →
  opt_all (Forall (λ c, 0 ≤ c < 0xD800 ∨ 0xE000 ≤ c < 0x110000)) (parse_utf16_label bytes).
Proof.
  intros Hb. unfold parse_utf16_label. pose proof (utf16_units_range bytes Hb) as Hu.
  destruct (utf16_units bytes) as [|u us]; [done|]. exact (from_utf16_chars _ Hu).
Qed.

(** ** A GPT *)
Lemma header_typed `{!Crc32} sector h : bytes_ok sector → parse_header_block sector = Ok h →
  geometry_typed (geometry.from_header h) ∧ guid16 (Gpt.disk_guid h) ∧ 0 ≤ num_partition_entries h ≤ 4096 ∧
  128 ≤ partition_entry_size h ≤ 4096.
Proof.
  intros Hb Hp. unfold parse_header_block in Hp. inv_ok. subst h. zbool. cbn.
  unfold SECTOR_SIZE in Hx. unfold header_offsets.NUM_PARTITION_ENTRIES, header_offsets.PARTITION_ENTRY_SIZE,
    header_offsets.PARTITION_ENTRY_LBA, header_offsets.FIRST_USABLE_LBA, header_offsets.LAST_USABLE_LBA,
    header_offsets.DISK_GUID in *.
  split_and!.
  - constructor; cbn; try split; apply le32_bound || apply le64_bound; done || lia.
  - unfold guid16. rewrite zlen_bslice by lia. split; [lia|auto with bytes].
  - apply le32_bound; done || lia.
  - lia.
  - lia.
  - lia.
Qed.

Section device.
Context {D : Type} `{!BlockDevice D} `{!DeviceLaws D} `{!Crc32}.

Lemma device_read_ok (d : D) off n bs : dev_ok d → 0 ≤ off → 0 < n → read_at d off n = Ok bs →
  zlen bs = n ∧ bytes_ok bs.
Proof.
  intros Hd Ho Hn Hr. destruct (Z.le_gt_cases (off + n) (size_bytes d)) as [Hin|Hout].
  - rewrite read_inside in Hr by (done || lia). injection Hr as <-. pose proof (image_size d Hd).
    split; [rewrite zlen_bslice by lia; lia|]. by apply bytes_ok_bslice, image_bytes.
  - by rewrite read_outside in Hr by (done || lia).
Qed.

(** The entries' bytes, when there is an entry. *)
Lemma entries_read (d : D) h parts array : dev_ok d → 0 ≤ num_partition_entries h ≤ 4096 →
  128 ≤ partition_entry_size h ≤ 4096 → is_u64 (partition_entry_lba h) → parse_entry_array d h = Ok (parts, array) →
  0 < num_partition_entries h →
  zlen array = num_partition_entries h * partition_entry_size h ∧ bytes_ok array.
Proof.
  intros Hd Hn He Hl Hp H0. apply entry_array_facts in Hp as (_ & Hr & _).
  assert (0 < num_partition_entries h * partition_entry_size h < 2 ^ 64) as Hb by nia.
  rewrite u64_small in Hr by lia. destruct Hl. by apply device_read_ok in Hr; [|done|lia|lia].
Qed.

Lemma gpt_entry_typed array es size i p s e : 0 ≤ i → 128 ≤ es →
  i * es + es ≤ zlen array → i < 2 ^ 32 → bytes_ok array →
  entry_read array es size i (with_issues p entry_issue.NONE) s e →
  partition_typed p ∧ kind_matches TableGpt p ∧ span_of p = (s, e) ∧ 0 < p_length p ∧ p_slot p = Some i ∧
  (SECTOR_SIZE | p_start p) ∧ (SECTOR_SIZE | p_length p) ∧ p_start p + p_length p = (e + 1) * SECTOR_SIZE.
Proof.
  intros Hi He Hr Hi32 Hb [Hs Hl Ho [Est Hst] [Eln Hln] Ek Hu Ela Euu Esl _ _]. cbn in *.
  assert (is_u64 s) as [Hs0 _] by (rewrite Hs; apply le64_bound; done || nia). unfold SECTOR_SIZE in *.
  split_and!.
  - constructor; unfold is_u64; try lia.
    + rewrite Ek. cbn. split; [|apply le64_bound; done || nia].
      split; [rewrite zlen_bslice by nia; lia|auto with bytes].
    + rewrite Ela. apply label_typed. auto with bytes.
    + rewrite Euu. cbn. split; [rewrite zlen_bslice by nia; lia|auto with bytes].
    + rewrite Esl. cbn. by split.
  - by eexists _, _.
  - by rewrite Euu.
  - unfold span_of, SECTOR_SIZE. rewrite Est, Eln. f_equal; [by rewrite Z.div_mul|].
    replace (s * 512 + (e - s + 1) * 512 - 1) with (511 + e * 512) by lia. by rewrite Z.div_add.
  - lia.
  - done.
  - exists s. lia.
  - exists (e - s + 1). lia.
  - lia.
Qed.

(** The partitions of a GPT that parses. *)
Record gpt_found (h : Gpt.Header) (ps : list Partition) : Prop := {
  gf_typed : Forall partition_typed ps;
  gf_kinds : Forall (kind_matches TableGpt) ps;
  gf_slots : NoDup (recorded ps) ∧ Forall (slot_in (num_partition_entries h)) (recorded ps);
  gf_count : zlen ps ≤ num_partition_entries h;
  gf_clean : Forall (λ p, p_issues p = entry_issue.NONE) ps → last_usable_lba h < 2 ^ 55 - 1 →
    Forall (sound_in (first_usable_lba h, last_usable_lba h)) ps ∧ disjoint_spans (map span_of ps);
}.

Lemma recorded_slots ps : Forall (λ p, is_Some (p_slot p)) ps → recorded ps = map (λ p, default 0 (p_slot p)) ps.
Proof.
  unfold recorded. induction 1 as [|p ps [k Hk] _ IH]; [done|]. cbn. by rewrite Hk, IH.
Qed.

(** What entry [k] says. *)
Definition entry_at (h : Gpt.Header) (spans : list (Z * Z)) (k : nat) (p : Partition) : Prop :=
  ∃ i s e, 0 ≤ i < num_partition_entries h ∧ spans !! k = Some (s, e) ∧
    partition_typed p ∧ kind_matches TableGpt p ∧ span_of p = (s, e) ∧ 0 < p_length p ∧ p_slot p = Some i ∧
    (SECTOR_SIZE | p_start p) ∧ (SECTOR_SIZE | p_length p) ∧ p_start p + p_length p = (e + 1) * SECTOR_SIZE ∧ s ≤ e ∧
    (p_issues p = entry_issue.NONE → first_usable_lba h ≤ s ∧ e ≤ last_usable_lba h ∧ ¬ clashes spans k).

Lemma gpt_entries (d : D) h parts array : dev_ok d → geometry_typed (geometry.from_header h) →
  0 ≤ num_partition_entries h ≤ 4096 → 128 ≤ partition_entry_size h ≤ 4096 →
  parse_entry_array d h = Ok (parts, array) → ∃ spans, length spans = length parts ∧
    (∀ k p, parts !! k = Some p → entry_at h spans k p) ∧
    StronglySorted (λ p q, default 0 (p_slot p) < default 0 (p_slot q)) parts.
Proof.
  intros Hd Hg Hn He Hp. pose proof (entry_array_facts d h parts array Hp) as (_ & _ & spans & Hlen & _ & Hall & Hsort & _).
  exists spans. split_and!; [done| |done]. intros k p Hk.
  destruct (Hall k p Hk) as (i & s & e & Hi & Hs & Hr & B1 & B2 & B3).
  destruct (entries_read d h parts array Hd Hn He (typed_entry_lba _ Hg) Hp ltac:(lia)) as [Hz Hb].
  destruct (gpt_entry_typed array (partition_entry_size h) (size_bytes d) i p s e) as (G1 & G2 & G3 & G4 & G5 & G6 & G7 & G8);
    [lia|lia|rewrite Hz; nia|lia|done|done|].
  exists i, s, e. split_and!; try done; try apply Hi; try apply G2; [by destruct Hr|].
  intros Hi0. rewrite Hi0, !Z.land_0_l in *. split_and!; [lia|lia|]. intros Hc. by apply B3 in Hc.
Qed.

Lemma gpt_partitions (d : D) h parts array : dev_ok d → geometry_typed (geometry.from_header h) →
  0 ≤ num_partition_entries h ≤ 4096 → 128 ≤ partition_entry_size h ≤ 4096 →
  parse_entry_array d h = Ok (parts, array) → gpt_found h parts.
Proof.
  intros Hd Hg Hn He Hp. destruct (gpt_entries d h parts array Hd Hg Hn He Hp) as (spans & Hlen & Hent & Hsort).
  assert (Forall (λ p, is_Some (p_slot p)) parts) as Hsome.
  { apply Forall_lookup. intros k p Hk. destruct (Hent k p Hk) as (i & s & e & _ & _ & _ & _ & _ & _ & -> & _). by eexists. }
  pose proof (recorded_slots parts Hsome) as Erec. apply sorted_keys in Hsort. rewrite <- Erec in Hsort.
  assert (Forall (slot_in (num_partition_entries h)) (recorded parts)) as Hin.
  { rewrite Erec. apply Forall_map, Forall_lookup. intros k p Hk.
    destruct (Hent k p Hk) as (i & s & e & Hi & _ & _ & _ & _ & _ & -> & _). done. }
  apply sorted_lt_NoDup in Hsort.
  assert (map span_of parts = spans) as Esp.
  { apply list_eq. intros k. change (map ?f ?l) with (f <$> l). rewrite list_lookup_fmap.
    destruct (parts !! k) as [p|] eqn:Hk; cbn.
    - destruct (Hent k p Hk) as (i & s & e & _ & -> & _ & _ & -> & _). done.
    - symmetry. apply lookup_ge_None. apply lookup_ge_None in Hk. lia. }
  constructor.
  - apply Forall_lookup. intros k p Hk. destruct (Hent k p Hk) as (i & s & e & _ & _ & Ht & _). exact Ht.
  - apply Forall_lookup. intros k p Hk. destruct (Hent k p Hk) as (i & s & e & _ & _ & _ & Ht & _). exact Ht.
  - done.
  - assert (length (recorded parts) ≤ length (seqZ 0 (num_partition_entries h)))%nat as Hle.
    { apply submseteq_length, NoDup_submseteq; [done|]. intros x Hx. apply elem_of_seqZ.
      pose proof (Forall_in _ _ _ Hin Hx) as Hs. unfold slot_in in Hs. lia. }
    rewrite Erec, length_map, length_seqZ in Hle. unfold zlen. lia.
  - intros Hc Hl. split.
    + apply Forall_lookup. intros k p Hk.
      destruct (Hent k p Hk) as (i & s & e & _ & _ & Ht & _ & Esn & Hpos & _ & Hd1 & Hd2 & Hend & Hse & Hcl).
      destruct (Hcl (Forall_lookup_1 _ _ _ _ Hc Hk)) as (H1' & H2' & _). unfold SECTOR_SIZE in *.
      split_and!; try done; [lia|]. unfold in_range. rewrite Esn. cbn. lia.
    + rewrite Esp. intros i j a b Hne Ha Hb Ho.
      destruct (lookup_lt_is_Some_2 parts i) as [p Hk]; [rewrite <- Hlen; by eapply lookup_lt_Some|].
      destruct (Hent i p Hk) as (n & s & e & _ & Es & _ & _ & _ & _ & _ & _ & _ & _ & _ & Hcl).
      destruct (Hcl (Forall_lookup_1 _ _ _ _ Hc Hk)) as (_ & _ & Hno). apply Hno. exists j, a, b. by split_and!.
Qed.

(** The tails of the entries. *)
Lemma tails_found (d : D) h tails : dev_ok d → geometry_typed (geometry.from_header h) →
  0 ≤ num_partition_entries h ≤ 4096 → 128 ≤ partition_entry_size h ≤ 4096 →
  entry_tails d h = Ok tails → tails_typed tails.
Proof.
  intros Hd Hg Hn He. unfold entry_tails. destruct (_ <=? _); [intros [= <-]; apply map_Forall_empty|].
  intros ((parts & array) & Hp & Hf)%bind_Ok.
  destruct (gpt_entries d h parts array Hd Hg Hn He Hp) as (spans & _ & Hent & _).
  destruct parts as [|p0 parts]; [injection Hf as <-; apply map_Forall_empty|].
  destruct (Hent 0%nat p0 eq_refl) as (i & _ & _ & Hi & _).
  destruct (entries_read d h _ array Hd Hn He (typed_entry_lba _ Hg) Hp ltac:(lia)) as [_ Hb].
  apply (foldM_keeps (keep_tail array (partition_entry_size h)) tails_typed (p0 :: parts) ∅ tails);
    [|apply map_Forall_empty|done].
  intros m p m' _ Hm. unfold keep_tail. destruct (p_uuid p) as [u|], (p_slot p) as [k|]; try (intros [= <-]; exact Hm).
  destruct (m !! u); [destruct (bytes_eqb _ _); [intros [= <-]; exact Hm|done]|].
  intros [= <-]. apply map_Forall_insert_2; [auto with bytes|exact Hm].
Qed.
End device.

(** ** LBA 0 *)
Lemma lba0_entries_typed sector : sector_ok sector → Forall reserved_typed (lba0_entries sector) ∧
  Forall (λ r, reserved_typed4 r ∧ slot_in 4 (r_slot r)) (lba0_entries sector).
Proof.
  intros [Hl Hb]. rewrite <- Forall_and. apply list.Forall_forall. intros r. unfold lba0_entries.
  destruct (negb _); [by intros ?%not_elem_of_nil|].
  intros (i & Hi%elem_of_seqZ & Hr)%list_elem_of_omap. destruct (_ =? types.EMPTY); [done|]. injection Hr as <-.
  unfold layout.entry_at, layout.TABLE_START, layout.ENTRY_SIZE, layout.ENTRY_COUNT in *.
  assert (zlen (bslice sector (446 + i * 16) (446 + i * 16 + 16)) = 16) as Hz by (rewrite zlen_bslice by lia; lia).
  assert (bytes_ok (bslice sector (446 + i * 16) (446 + i * 16 + 16))) as Hbs by auto with bytes.
  split; [constructor; cbn; [unfold is_u32; lia|by split]|]. unfold reserved_typed4, slot_in. cbn. split_and!; lia || done.
Qed.

(** What a table's slots hold, by slot. *)
Lemma omap_slots {B} (f : Z → option B) (key : B → option Z) (l : list Z) : (∀ i y, f i = Some y → key y = Some i) →
  omap key (omap f l) = filter (λ i, is_Some (f i)) l.
Proof.
  intros Hk. induction l as [|i l IH]; [done|]. rewrite filter_cons. cbn. destruct (f i) as [y|] eqn:E.
  - rewrite decide_True by by eexists. cbn. by rewrite (Hk i y E), <- IH.
  - rewrite decide_False by (by intros [? ?]). exact IH.
Qed.

Lemma filters_apart (P Q : Z → Prop) `{!∀ i, Decision (P i)} `{!∀ i, Decision (Q i)} (l : list Z) : NoDup l →
  (∀ i, i ∈ l → P i → ¬ Q i) →
  NoDup (filter P l ++ filter Q l) ∧ zlen (filter P l) + zlen (filter Q l) ≤ zlen l.
Proof.
  intros Hnd Hno. assert (NoDup (filter P l ++ filter Q l)) as Hall.
  { apply NoDup_app. split_and!; [by apply NoDup_filter| |by apply NoDup_filter].
    intros i [HP Hi]%list_elem_of_filter [HQ _]%list_elem_of_filter. by apply (Hno i). }
  split; [done|]. rewrite <- zlen_app. unfold zlen. apply inj_le, submseteq_length, NoDup_submseteq; [done|].
  intros i [[_ Hi]%list_elem_of_filter|[_ Hi]%list_elem_of_filter]%elem_of_app; done.
Qed.

Lemma volume_typed sector size i p : sector_ok sector → slot_in 4 i → volume_in size sector i = Some p →
  partition_typed p ∧ kind_matches TableMbr p.
Proof.
  intros [Hl Hb] Hi. unfold volume_in, read_bytes, mbr_win, layout.ENTRY_SIZE. unfold slot_in in Hi.
  assert (0 ≤ layout.entry_at i ∧ layout.entry_at i + 16 ≤ 512) as Ha
    by (unfold layout.entry_at, layout.TABLE_START, layout.ENTRY_SIZE; lia).
  set (w := bslice sector (layout.entry_at i) (layout.entry_at i + 16)).
  assert (bytes_ok w) as Hw by (unfold w; auto with bytes). assert (zlen w = 16) as Hz by (unfold w; rewrite zlen_bslice; lia).
  destruct (_ || _); [done|]. destruct (is_volume _); [|done]. intros [= <-].
  pose proof (le32_bound w 8 Hw ltac:(lia) ltac:(lia)). pose proof (le32_bound w 12 Hw ltac:(lia) ltac:(lia)).
  unfold is_u32 in *. split; [|by eexists _, _].
  constructor; cbn; unfold is_u64, is_u32, SECTOR_SIZE; try lia; try done. by apply byte_at_is_u8.
Qed.

(** The partitions of an MBR and its preserved entries: each in a slot of its own. *)
Lemma mbr_partitions sector size ps : sector_ok sector → Mbr.parse sector size = Ok ps →
  Forall partition_typed ps ∧ Forall (kind_matches TableMbr) ps ∧
  NoDup (map r_slot (reserved_entries sector) ++ recorded ps) ∧
  Forall (slot_in 4) (map r_slot (reserved_entries sector) ++ recorded ps) ∧
  zlen (map r_slot (reserved_entries sector)) + zlen ps ≤ 4.
Proof.
  intros Hs. rewrite parse_volumes. intros E.
  assert (omap (volume_in size sector) entry_indices = ps) as <- by congruence. clear E.
  assert (∀ i, i ∈ entry_indices → slot_in 4 i) as Hidx.
  { intros i Hi%elem_of_seqZ. unfold layout.ENTRY_COUNT in Hi. unfold slot_in. lia. }
  assert (∀ p, p ∈ omap (volume_in size sector) entry_indices → partition_typed p ∧ kind_matches TableMbr p) as Hp.
  { intros p (i & Hi & Hv)%list_elem_of_omap. eapply volume_typed; [done|by apply Hidx|done]. }
  assert (map r_slot (reserved_entries sector) = filter (λ i, is_Some (reserved_entry sector i)) entry_indices) as Er.
  { rewrite <- (omap_slots _ (Some ∘ r_slot)) by (intros i r Hr; cbn; f_equal; by eapply reserved_entry_slot).
    unfold reserved_entries. induction (omap (reserved_entry sector) entry_indices); [done|]. cbn. by f_equal. }
  assert (recorded (omap (volume_in size sector) entry_indices)
    = filter (λ i, is_Some (volume_in size sector i)) entry_indices) as Ev.
  { apply omap_slots. intros i p. apply volume_in_slot. }
  assert (zlen (omap (volume_in size sector) entry_indices) = zlen (recorded (omap (volume_in size sector) entry_indices))) as Ez.
  { rewrite recorded_slots; [unfold zlen; by rewrite length_map|].
    apply list.Forall_forall. intros p (i & Hi & Hv)%list_elem_of_omap. rewrite (volume_in_slot _ _ _ _ Hv). by eexists. }
  destruct (filters_apart (λ i, is_Some (reserved_entry sector i)) (λ i, is_Some (volume_in size sector i)) entry_indices)
    as [Hnd Hcount]; [apply NoDup_seqZ| |].
  { intros i Hi [r Hr] [p Hv]. assert (r ∈ reserved_entries sector) as Hin by (apply list_elem_of_omap; eauto).
    destruct (reserved_entries_hidden sector r Hs Hin) as (_ & _ & Ew & Hh).
    rewrite (reserved_entry_slot _ _ _ Hr) in Ew. rewrite Ew in Hh. apply (hidden_volume size) in Hh. congruence. }
  rewrite Ez, Er, Ev. split_and!; [..|exact Hnd| |exact Hcount].
  - apply list.Forall_forall. intros p Hin. by apply Hp.
  - apply list.Forall_forall. intros p Hin. by apply Hp.
  - apply Forall_app; split; apply list.Forall_forall; intros i [_ Hi]%list_elem_of_filter; by apply Hidx.
Qed.

(** ** [from_probe] *)
Section probed.
Context {D : Type} `{!BlockDevice D} `{!DeviceLaws D} `{!Crc32}.

Lemma probe_cases (d : D) kind parts : Probe.probe d = Ok (kind, parts) →
  (kind = TableGpt ∧ ∃ lba1, read_at d SECTOR_SIZE SECTOR_SIZE = Ok lba1 ∧ Gpt.parse d lba1 = Ok parts) ∨
  (kind = TableMbr ∧ ∃ lba0, read_at d 0 SECTOR_SIZE = Ok lba0 ∧ Mbr.parse lba0 (size_bytes d) = Ok parts).
Proof.
  unfold Probe.probe. destruct (Probe.probe_inner d false) as [[[k ps] source]|e] eqn:E; [|done].
  cbn. intros [= -> ->]. unfold Probe.probe_inner in E.
  apply bind_Ok in E as (lba0 & H0%map_err_Ok & (lba1 & H1 & E)%bind_Ok).
  destruct (bytes_eqb (bslice lba1 0 8) SIGNATURE) eqn:Es.
  - left. destruct (Gpt.parse d lba1) as [ps|] eqn:Ep; [|done]. injection E as <- <- <-. split; [done|].
    exists lba1. split; [|done]. unfold Probe.read_lba1 in H1. change SECTOR_SIZE with 512 in *.
    destruct (read_at d 512 512) as [l|e]; [by injection H1 as ->|].
    destruct (negb _); [done|]. injection H1 as <-. vm_compute in Es. done.
  - apply bind_Ok in E as ([] & _ & E). destruct (_ && _); [|done]. destruct (Mbr.is_protective lba0); [done|].
    apply bind_Ok in E as (ps & Hp & [= <- <- <-]). right. split; [done|]. by exists lba0.
Qed.

(** What [from_probe] says of the set it returns. *)
Record probed (d : D) (s : PartitionSet) : Prop := {
  pr_size : disk_size s = size_bytes d;
  pr_guid : guid16 (Mutation.disk_guid s);
  pr_geometry : geometry_typed (gpt_geometry s);
  pr_tails : tails_typed (gpt_entry_tails s);
  pr_reserved : Forall (λ r, reserved_typed4 r ∧ slot_in 4 (r_slot r)) (reserved s);
  pr_lba0 : table_kind s = TableGpt → Forall reserved_typed (reserved s);
  pr_hidden : table_kind s = TableMbr → Forall (λ r, hidden (r_bytes r)) (reserved s);
  pr_typed : Forall partition_typed (partitions s);
  pr_kinds : Forall (kind_matches (table_kind s)) (partitions s);
  pr_count : zlen (taken_slots s) + zlen (partitions s) ≤ slots_of s;
  pr_slots : NoDup (taken_slots s ++ recorded (partitions s)) ∧
    Forall (slot_in (slots_of s)) (taken_slots s ++ recorded (partitions s));
  pr_clean : table_kind s = TableGpt → (usable_range s).1 ≤ (usable_range s).2 →
    Forall (λ p, p_issues p = entry_issue.NONE) (partitions s) →
    Forall (sound_in (usable_range s)) (partitions s) ∧ disjoint_spans (map span_of (partitions s));
}.

Lemma gpt_range s h f l : gpt_geometry s = geometry.from_header h → table_kind s = TableGpt →
  usable_range s = (f, l) → f ≤ l → f = first_usable_lba h ∧ l = last_usable_lba h.
Proof.
  intros Eg Ek. unfold usable_range. rewrite Ek, Eg.
  destruct (geometry.usable_range _ _) as [[f' l']|] eqn:E.
  - intros [= -> ->] _. unfold geometry.usable_range in E. inv_ok. cbn in E. inv_ok. by subst.
  - intros [= <- <-]. vm_compute. by intros [].
Qed.

Lemma from_probe_probed (d : D) s : dev_ok d → from_probe d = Ok s → probed d s.
Proof.
  intros Hd. unfold from_probe.
  intros ((kind & parts) & Hp & (sector & Hs%map_err_Ok & (((guid & geo) & tails) & Hg & [= <-])%bind_Ok)%bind_Ok)%bind_Ok.
  apply device_read_ok in Hs as Hsec; [|done|lia|unfold SECTOR_SIZE; lia].
  pose proof (lba0_entries_typed sector Hsec) as [Hl1 Hl2].
  destruct (probe_cases d kind parts Hp) as [(-> & lba1 & Hr & Hpa)|(-> & lba0 & Hr & Hpa)]; cbn [bool_decide decide_rel] in Hg |- *.
  - rewrite bool_decide_eq_true_2 in Hg by done. rewrite bool_decide_eq_false_2 by done. rewrite Hr in Hg.
    cbn [map_err mbind Result_bind] in Hg. unfold Gpt.parse in Hpa.
    apply bind_Ok in Hpa as (h & Hh & ([] & _ & ((ps & array) & Ha & [= <-])%bind_Ok)%bind_Ok).
    rewrite Hh in Hg. cbn [mbind Result_bind] in Hg. apply bind_Ok in Hg as (t & Ht & [= <- <- <-]).
    apply device_read_ok in Hr as [_ Hb]; [|done|unfold SECTOR_SIZE; lia..].
    destruct (header_typed lba1 h Hb Hh) as (Hge & Hgu & Hn & He).
    destruct (gpt_partitions d h ps array Hd Hge Hn He Ha) as [G1 G2 G3 G4 G5].
    pose proof (tails_found d h t Hd Hge Hn He Ht) as Htl.
    set (s := mkSet TableGpt ps (size_bytes d) (Gpt.disk_guid h) t (geometry.from_header h) (lba0_entries sector)).
    constructor; try done.
    intros _ Hle Hc. destruct (usable_range s) as [f l] eqn:Er; cbn in Hle.
    pose proof (usable_small s f l (image_u64 d Hd) Hge Er) as (_ & _ & Hlt & _). specialize (Hlt Hle). cbn in Hlt.
    destruct (gpt_range s h f l eq_refl eq_refl Er Hle) as [-> ->]. apply G5; [done|].
    pose proof (image_u64 d Hd) as [_ Hu]. unfold SECTOR_SIZE in Hlt. dlia.
  - rewrite bool_decide_eq_false_2 in Hg by done. rewrite bool_decide_eq_true_2 by done. injection Hg as <- <- <-.
    rewrite Hs in Hr. injection Hr as <-.
    destruct (mbr_partitions sector (size_bytes d) parts Hsec Hpa) as (M1 & M2 & M3 & M4 & M5).
    assert (∀ r, r ∈ reserved_entries sector → (reserved_typed4 r ∧ slot_in 4 (r_slot r)) ∧ hidden (r_bytes r)) as Hres.
    { intros r Hin. by destruct (reserved_entries_hidden sector r Hsec Hin) as (? & ? & _ & ?). }
    constructor; try done; cbn.
    + split; [done|apply bytes_ok_zeros].
    + apply list.Forall_forall. intros r Hin. by apply Hres.
    + intros _. apply list.Forall_forall. intros r Hin. by apply Hres.
Qed.

(** A probed set whose entries are sound and apart is a sound plan. *)
Lemma probed_plan_ok (d : D) s : dev_ok d → probed d s → Forall (sound_in (usable_range s)) (partitions s) →
  disjoint_spans (map span_of (partitions s) ++ taken_spans s) → plan_ok s.
Proof.
  intros Hd [Hs Hg Hge Ht Hr _ _ Hp Hk Hc Hsl _] Hso Hdi. constructor; try done.
  - rewrite Hs. by apply image_u64.
  - eapply Forall_impl; [exact Hr|]. by intros r [? _].
Qed.
End probed.
