(* ===== verification/MutationCommit.v ===== *)
(** * The planner and the writers agree

    [session]: the sets edits and commits reach, from an empty set or a probed
    one.  A set that satisfies [plan_ok] and names no empty type is one the writers
    accept on a device of the size it was planned for, and the prober reads it
    back; [commit_mut] records slots the next commit keeps. *)
From S2P Require Import Prelude Bytes Device Table Rules Slots Mbr MbrCodec MbrDisk GptWrite GptCodec GptDisk.
From S2P Require Import GptRoundTrip Hybrid Mutation MutationPlan MutationProbe.
From S2P Require Gpt Probe.

(** ** What the writers ask of a plan *)
Definition names_types (s : PartitionSet) : Prop :=
  Forall (λ p, match p_kind p with KindGpt t _ => t ≠ type_guids.UNUSED | _ => True end) (partitions s).

Lemma multiple_of_divide a b : 0 < b → (b | a) → is_multiple_of a b = true.
Proof. intros Hb Hd. unfold is_multiple_of. apply Z.eqb_eq. by apply Z.mod_divide; [lia|]. Qed.

Lemma plan_gpt_accepts s first last : plan_ok s → table_kind s = TableGpt → names_types s →
  GptWrite.geometry.usable_range (gpt_geometry s) (disk_size s / SECTOR_SIZE) = Ok (first, last) →
  gpt_accepts (partitions s) (gpt_geometry s) (disk_size s / SECTOR_SIZE) first last.
Proof.
  intros [Hd Hg _ Ht Hs Hk Hdis Hc [Hn1 Hn2]] Ek Hty Hu.
  assert (usable_range s = (first, last)) as Er by (unfold usable_range; by rewrite Ek, Hu).
  unfold taken_spans, taken_slots, slots_of in *. rewrite Ek in *. rewrite Er in Hs.
  rewrite app_nil_r in Hdis. constructor; try done.
  - apply list.Forall_forall. intros p Hp. pose proof (Forall_in _ _ _ Hs Hp) as (Hl & Hd1 & Hd2 & He & Hr).
    destruct (Forall_in _ _ _ Hk Hp) as [(t & a & Ekd) _]. pose proof (Forall_in _ _ _ Hty Hp) as Hne.
    cbn beta in Hne. rewrite Ekd in Hne. split_and!; try done; try (by apply multiple_of_divide).
    by exists t, a.
  - eapply Forall_impl; [exact Hk|]. by intros p [_ ?].
Qed.

Lemma plan_mbr_accepts s : plan_ok s → table_kind s = TableMbr → SECTOR_SIZE ≤ disk_size s →
  mbr_accepts (partitions s) (reserved s) (disk_size s).
Proof.
  intros Hok Ek Hsz. destruct (plan_bounds s Hok) as (Hf & _ & Hm). specialize (Hm Ek).
  destruct Hok as [Hd Hg Hr Ht Hs Hk Hdis Hc Hn].
  assert ((usable_range s).1 ≤ (usable_range s).2 → (usable_range s).2 < disk_size s / SECTOR_SIZE) as Hlt.
  { apply (usable_small s _ _ Hd Hg (surjective_pairing _)). }
  unfold taken_spans, taken_slots, slots_of in *. rewrite Ek in *.
  constructor; try done.
  - unfold zlen in *. rewrite length_map in Hc. lia.
  - apply list.Forall_forall. intros p Hp.
    pose proof (Forall_in _ _ _ Hs Hp) as (Hl & Hd1 & Hd2 & He & Hr1 & Hr2).
    pose proof (span_forward p (Forall_in _ _ _ Ht Hp) Hl) as Hfw. unfold span_of in *. cbn [fst snd] in *.
    specialize (Hlt ltac:(lia)). destruct (typed_start p (Forall_in _ _ _ Ht Hp)) as [Hst _].
    split_and!; try (by apply multiple_of_divide); try done; try lia.
    + exact (Forall_in _ _ _ Hk Hp).
    + destruct Hd1 as [q Hq], Hd2 as [n Hn2]. unfold SECTOR_SIZE in *. rewrite Hq, Hn2 in *. dlia.
    + unfold SECTOR_SIZE in *. dlia.
Qed.

(** ** Writing and flushing *)
Section device.
Context {D : Type} `{!BlockDevice D} `{!DeviceLaws D} `{!Crc32} `{!Crc32Laws}.

(** What a set has to hold for its writer's promises to apply. *)
Record set_typed (s : PartitionSet) : Prop := {
  st_partitions : Forall partition_typed (partitions s);
  st_guid : guid16 (disk_guid s);
  st_geometry : geometry_typed (gpt_geometry s);
  st_tails : tails_typed (gpt_entry_tails s);
  st_reserved : Forall reserved_typed4 (reserved s);
  st_lba0 : table_kind s = TableGpt → Forall reserved_typed (reserved s);
}.

(** What [write_and_flush] leaves when it succeeds. *)
Definition flushed (s : PartitionSet) (d d' : D) (slots : list Z) : Prop :=
  match table_kind s with
  | TableGpt => ∃ first last mbr array, gpt_written (partitions s) (disk_guid s) (gpt_geometry s)
      (gpt_entry_tails s) (reserved s) d d' slots first last mbr array
  | TableMbr => ∃ sector, mbr_written (partitions s) (reserved s) d d' slots sector
  end.

(** When it does. *)
Definition accepts (s : PartitionSet) (d : D) : Prop :=
  match table_kind s with
  | TableGpt => ∃ first last mbr, gpt_accepts (partitions s) (gpt_geometry s) (size_bytes d / SECTOR_SIZE) first last ∧
      written_lba0 (size_bytes d / SECTOR_SIZE) (bslice (image d) 0 512) (reserved s) (partitions s) = Ok mbr
  | TableMbr => mbr_accepts (partitions s) (reserved s) (size_bytes d)
  end.

Lemma flush_image d d1 img : dev_with_image d d1 img → ∃ d2,
  dev_flush d1 = (d2, Ok tt) ∧ dev_with_image d d2 img.
Proof.
  intros [Ho Hw Hi Hs]. destruct (flush_keeps d1 Ho Hw) as (d2 & Hf & ? & ? & Hi2 & Hs2).
  exists d2. unfold dev_flush. rewrite Hf. split; [done|]. constructor; congruence.
Qed.

Lemma write_and_flush_cases s d : set_typed s → dev_ok d → is_writable d = true →
  match write_and_flush s d with
  | (d', Ok slots) => flushed s d d' slots
  | (d', Err _) => d' = d ∧ ¬ accepts s d
  end.
Proof.
  intros [Hps Hgu Hg Ht Hr Hl] Hd Hw. unfold write_and_flush, flushed, accepts, mbind, DevM_bind.
  destruct (table_kind s).
  - pose proof (write_gpt_cases _ _ _ _ _ Hps Hgu Hg Ht (Hl eq_refl) d Hd Hw) as Hc.
    destruct (GptWrite.write_gpt_assigning_slots _ _ _ _ _ d) as [d1 [slots|e]]; [|done].
    destruct Hc as (f & l & m & a & [? ? ? ? Hi]). destruct (flush_image _ _ _ Hi) as (d2 & -> & Hi2).
    by exists f, l, m, a.
  - pose proof (write_mbr_cases _ _ Hps Hr d Hd Hw) as Hc.
    destruct (Mbr.write_mbr_assigning_slots _ _ d) as [d1 [slots|e]]; [|done].
    destruct Hc as (sec & [? ? ? Hi]). destruct (flush_image _ _ _ Hi) as (d2 & -> & Hi2).
    by exists sec.
Qed.

(** Whatever the device does, a commit that fails for any reason other than the
    device's own error has left it alone. *)
Lemma write_and_flush_clean (s : PartitionSet) : clean (write_and_flush (D:=D) s).
Proof.
  unfold write_and_flush. apply clean_then.
  - destruct (table_kind s); [apply write_gpt_clean|apply write_mbr_clean].
  - intros slots. auto with device.
Qed.

(** ** Recording the slots *)
Lemma in_slotted ps slots q : q ∈ zip_with (λ p slot, with_slot p (Some slot)) ps slots →
  ∃ p k, p ∈ ps ∧ k ∈ slots ∧ q = with_slot p (Some k).
Proof. intros (i & p & k & -> & Hp & Hk)%elem_of_lookup_zip_with_1. exists p, k.
  split_and!; [by eapply list_elem_of_lookup_2..|done]. Qed.

Lemma slotted_map {A} (f : Partition → A) ps slots : (∀ p k, f (with_slot p (Some k)) = f p) →
  length slots = length ps →
  map f (zip_with (λ p slot, with_slot p (Some slot)) ps slots) = map f ps.
Proof.
  intros Hf. revert slots. induction ps as [|p ps IH]; intros [|k slots] Hl; cbn; [done..|].
  rewrite Hf. f_equal. apply IH. cbn in Hl. lia.
Qed.

Lemma slotted_recorded ps slots : length slots = length ps →
  recorded (zip_with (λ p slot, with_slot p (Some slot)) ps slots) = slots.
Proof.
  unfold recorded. revert slots. induction ps as [|p ps IH]; intros [|k slots] Hl; cbn; [done..|].
  f_equal. apply IH. cbn in Hl. lia.
Qed.

Lemma slotted_all (P Q : Partition → Prop) ps slots :
  (∀ p k, k ∈ slots → P p → Q (with_slot p (Some k))) → Forall P ps →
  Forall Q (zip_with (λ p slot, with_slot p (Some slot)) ps slots).
Proof.
  intros HPQ HP. apply list.Forall_forall. intros q (p & k & Hp & Hk & ->)%in_slotted.
  apply HPQ; [done|]. by eapply Forall_in in HP.
Qed.

Lemma slots_are_u32 s : plan_ok s → slots_of s < 2 ^ 32.
Proof. intros Hok. destruct (po_geometry s Hok) as [[_ ?] _ _ _]. unfold slots_of. destruct (table_kind s); lia. Qed.

Lemma record_slots_ok s slots : plan_ok s →
  assignment (partitions s) (slots_of s) (taken_slots s) slots → plan_ok (record_slots s slots).
Proof.
  intros Hok [Hl Hnd Hr _ _]. pose proof (slots_are_u32 s Hok) as Hu.
  destruct Hok as [Hd Hg Hre Ht Hs Hk Hdis Hc _].
  assert (length (zip_with (λ p slot, with_slot p (Some slot)) (partitions s) slots)
    = length (partitions s)) as Hlen by (rewrite length_zip_with; lia).
  constructor; unfold record_slots; cbn [with_partitions partitions disk_size gpt_geometry reserved table_kind];
    change (slots_of (with_partitions s _)) with (slots_of s);
    change (taken_slots (with_partitions s _)) with (taken_slots s);
    change (taken_spans (with_partitions s _)) with (taken_spans s);
    change (usable_range (with_partitions s _)) with (usable_range s); try done.
  - eapply slotted_all; [|exact Ht]. intros p k Hk' [? ? ? ? ? _]. constructor; try done. cbn.
    apply Forall_app in Hr as [_ Hr]. destruct (Forall_in _ _ _ Hr Hk'). unfold is_u32. lia.
  - eapply slotted_all; [|exact Hs]. by intros p k _.
  - eapply slotted_all; [|exact Hk]. intros p k _. by destruct (table_kind s).
  - rewrite slotted_map by done. done.
  - unfold zlen in *. by rewrite Hlen.
  - by rewrite slotted_recorded by done.
Qed.

Lemma flushed_assignment s d d' slots : flushed s d d' slots →
  assignment (partitions s) (slots_of s) (taken_slots s) slots.
Proof.
  unfold flushed, slots_of, taken_slots. destruct (table_kind s).
  - by intros (f & l & m & a & []).
  - by intros (sec & []).
Qed.

(** ** A session of edits and commits *)

(** What a program can do with a set it started empty, or read off a device
    whose partitions are sound and share no sector. *)
Inductive session : PartitionSet → Prop :=
| ses_gpt env size : is_u64 size → opt_all guid16 (urandom env) → session (empty_gpt env size)
| ses_mbr size : is_u64 size → session (empty_mbr size)
| ses_probe (d : D) s : dev_ok d → from_probe d = Ok s → Forall (sound_in (usable_range s)) (partitions s) →
    disjoint_spans (map span_of (partitions s) ++ taken_spans s) → session s
| ses_add s env hint len t label s' idx : session s → request_typed env hint len t label →
    add env s hint len t label = Ok (s', idx) → session s'
| ses_remove s t s' : session s → ref_typed t → remove s t = Ok s' → session s'
| ses_resize s t len s' : session s → ref_typed t → is_u64 len → resize s t len = Ok s' → session s'
| ses_commit s (d d' : D) s' : session s → dev_ok d → commit_mut s d = (d', Ok s') → session s'.

(** The parts of a set no edit touches. *)
Record shape_kept (s : PartitionSet) : Prop := {
  sk_guid : guid16 (disk_guid s);
  sk_tails : tails_typed (gpt_entry_tails s);
  sk_slots : Forall (λ r, slot_in 4 (r_slot r)) (reserved s);
  sk_lba0 : table_kind s = TableGpt → Forall reserved_typed (reserved s);
  sk_hidden : table_kind s = TableMbr → Forall (λ r, hidden (r_bytes r)) (reserved s);
}.

Lemma shape_kept_with s ps : shape_kept s → shape_kept (with_partitions s ps).
Proof. by intros []. Qed.

Lemma shape_kept_refresh s : shape_kept s → shape_kept (refresh_overlap_issues s).
Proof. intros Hsk. unfold refresh_overlap_issues. destruct (table_kind s); [|done]. by apply shape_kept_with. Qed.

Lemma add_frame env s hint len t label s' idx : add env s hint len t label = Ok (s', idx) →
  ∃ p, s' = with_partitions s (partitions s ++ [p]).
Proof.
  unfold add. destruct (usable_range s) as [f l]. intros Hadd. inv_ok. rewrite <- Hadd. by eexists.
Qed.

Lemma remove_frame s t s' : remove s t = Ok s' →
  ∃ ps, s' = refresh_overlap_issues (with_partitions s ps).
Proof. unfold remove. intros Hrun. inv_ok. subst. by eexists. Qed.

Lemma resize_frame s t len s' : resize s t len = Ok s' →
  ∃ ps, s' = refresh_overlap_issues (with_partitions s ps).
Proof. unfold resize. destruct (usable_range s) as [f l]. intros Hrun. inv_ok. subst. by eexists. Qed.

Lemma commit_mut_frame s (d d' : D) s' : commit_mut s d = (d', Ok s') →
  ∃ slots, write_and_flush s d = (d', Ok slots) ∧ s' = record_slots s slots.
Proof.
  unfold commit_mut, mbind, DevM_bind. destruct (write_and_flush s d) as [d1 [slots|e]]; [|done].
  intros [= <- <-]. by exists slots.
Qed.

Lemma empty_plan_ok k size guid : is_u64 size →
  plan_ok (mkSet k [] size guid ∅ GptWrite.geometry.canonical []).
Proof.
  intros Hs. constructor; cbn; try done; try constructor; destruct k; try done; try constructor.
Qed.

Lemma empty_shape k size guid : guid16 guid → shape_kept (mkSet k [] size guid ∅ GptWrite.geometry.canonical []).
Proof. intros Hg. constructor; cbn; [done|apply map_Forall_empty|constructor..]. Qed.

Lemma session_shape s : session s → shape_kept s.
Proof.
  induction 1 as [env size Hs He|size Hs|d s Hd Hp _ _|s env hint len t label s' idx _ IH Hrq Ha|s t s' _ IH Ht Hr
    |s t len s' _ IH Ht Hl Hr|s d d' s' _ IH Hd Hc].
  - apply empty_shape. by apply random_uuid_typed.
  - apply empty_shape. split; [done|apply bytes_ok_zeros].
  - destruct (from_probe_probed d s Hd Hp) as [_ Hg _ Ht Hr Hl Hh _ _ _ _ _]. constructor; try done.
    eapply Forall_impl; [exact Hr|]. by intros r [_ ?].
  - apply add_frame in Ha as [p ->]. by apply shape_kept_with.
  - apply remove_frame in Hr as [ps ->]. by apply shape_kept_refresh, shape_kept_with.
  - apply resize_frame in Hr as [ps ->]. by apply shape_kept_refresh, shape_kept_with.
  - apply commit_mut_frame in Hc as (slots & _ & ->). by apply shape_kept_with.
Qed.

Lemma plan_typed s : plan_ok s → shape_kept s → set_typed s.
Proof. intros Hok [Hg Ht _ Hl _]. constructor; try apply Hok; done. Qed.

Lemma commit_mut_ok s (d d' : D) s' : plan_ok s → set_typed s → dev_ok d →
  commit_mut s d = (d', Ok s') → plan_ok s' ∧ ∃ slots, s' = record_slots s slots ∧ flushed s d d' slots.
Proof.
  intros Hok Hty Hd (slots & Hw & ->)%commit_mut_frame. destruct (is_writable d) eqn:Ew.
  - pose proof (write_and_flush_cases s d Hty Hd Ew) as Hcs. rewrite Hw in Hcs.
    split; [|by exists slots]. apply record_slots_ok; [done|]. by eapply flushed_assignment.
  - exfalso. revert Hw. unfold write_and_flush, GptWrite.write_gpt_assigning_slots,
      Mbr.write_mbr_assigning_slots. destruct (table_kind s); rewrite DevM_bind_eq, DevM_bind_writable, Ew; done.
Qed.

Lemma session_ok s : session s → plan_ok s.
Proof.
  intros Hs. induction Hs as [env size Hs He|size Hs|d s Hd Hp Hso Hdi|s env hint len t label s' idx _ IH Hrq Ha
    |s t s' _ IH Ht Hr|s t len s' _ IH Ht Hl Hr|s d d' s' Hses IH Hd Hc].
  - by apply empty_plan_ok.
  - by apply empty_plan_ok.
  - exact (probed_plan_ok d s Hd (from_probe_probed d s Hd Hp) Hso Hdi).
  - by eapply add_ok.
  - by eapply remove_ok.
  - by eapply resize_ok.
  - eapply commit_mut_ok; [done| |done|done]. by apply plan_typed, session_shape.
Qed.

(** ** What the prober finds after a commit *)

(** Partition [p] in slot [k], as a probe reports it. *)
Definition shown (s : PartitionSet) (p : Partition) (k : Z) : Partition :=
  match table_kind s with
  | TableGpt => as_written (disk_size s) p k
  | TableMbr => as_read (disk_size s) p k
  end.

(** MBR types the prober lists as partitions. *)
Definition names_volumes (s : PartitionSet) : Prop :=
  table_kind s = TableMbr →
  Forall (λ p, type_of p ≠ Mbr.types.EMPTY ∧ Mbr.entry_role (type_of p) = Mbr.Volume) (partitions s).

(** The preserved entries of LBA 0 as a commit needs them: a GPT's include a
    marker, if there are any, and an MBR's include none. *)
Definition lba0_ready (s : PartitionSet) : Prop :=
  match table_kind s with
  | TableGpt => reserved s = [] ∨ Exists is_marker (reserved s)
  | TableMbr => Forall (λ r, ¬ is_marker r) (reserved s)
  end.

Lemma lba0_written s total current ps : Forall (λ r, slot_in 4 (r_slot r)) (reserved s) →
  reserved s = [] ∨ Exists is_marker (reserved s) →
  ∃ mbr, written_lba0 total current (reserved s) ps = Ok mbr.
Proof.
  intros Hs Hm. unfold written_lba0. destruct (reserved s) as [|r rs]; [by eexists|].
  destruct Hm as [?|Hm]; [done|]. by apply hybrid_lba0_marked.
Qed.

Lemma session_accepts s d : session s → names_types s → lba0_ready s → size_bytes d = disk_size s →
  (usable_range s).1 ≤ (usable_range s).2 → accepts s d.
Proof.
  intros Hs Hn Hl Hsz Hr. pose proof (session_ok s Hs) as Hok. pose proof (session_shape s Hs) as [_ _ Hre _ _].
  unfold accepts, lba0_ready in *. rewrite Hsz. destruct (table_kind s) eqn:Ek.
  - unfold usable_range in Hr. rewrite Ek in Hr.
    destruct (GptWrite.geometry.usable_range _ _) as [[f l]|] eqn:Eu; [|by vm_compute in Hr].
    destruct (lba0_written s (disk_size s / SECTOR_SIZE) (bslice (image d) 0 512) (partitions s) Hre Hl) as [mbr Hm].
    exists f, l, mbr. split; [by apply plan_gpt_accepts|done].
  - apply plan_mbr_accepts; [done..|]. unfold usable_range in Hr. rewrite Ek in Hr.
    unfold SECTOR_SIZE in *. destruct (Z.ltb_spec (disk_size s / 512) 2); [by cbn in Hr|].
    destruct (po_disk s Hok). dlia.
Qed.

Lemma flushed_probe s d d' slots : session s → names_volumes s → lba0_ready s → size_bytes d = disk_size s →
  dev_ok d → (table_kind s = TableMbr → bslice (image d) 512 520 ≠ Gpt.SIGNATURE) →
  flushed s d d' slots → ∃ parts, Probe.probe d' = Ok (table_kind s, parts) ∧
    parts ≡ₚ zip_with (shown s) (partitions s) slots ∧
    StronglySorted (λ p q, default 0 (p_slot p) < default 0 (p_slot q)) parts.
Proof.
  intros Hs Hv Hm Hsz Hd Hsig Hf. pose proof (session_ok s Hs) as Hok.
  pose proof (session_shape s Hs) as Hsh. destruct (plan_typed s Hok Hsh) as [Hps Hgu Hg Ht Hr Hl].
  pose proof (sk_hidden s Hsh) as Hhid. unfold flushed, shown, names_volumes, lba0_ready in *. destruct (table_kind s).
  - destruct Hf as (f & l & m & a & Hf).
    destruct (probe_written _ _ _ _ _ Hps Hgu Hg (Hl eq_refl) d d' slots f l m a Hd Hf) as (parts & [] & _ & Hp).
    exists parts. rewrite <- Hsz. by split_and!.
  - destruct Hf as (sec & Hf). rewrite <- Hsz.
    eapply (probe_mbr_written (partitions s) (reserved s)); eauto. apply Forall_and. by split; [apply Hhid|].
Qed.

(** A planned table is committed, and read back. *)
Lemma committed_reads (s : PartitionSet) (d : D) :
  session s → names_types s → names_volumes s → lba0_ready s → (usable_range s).1 ≤ (usable_range s).2 →
  dev_ok d → is_writable d = true → size_bytes d = disk_size s →
  (table_kind s = TableMbr → bslice (image d) 512 520 ≠ Gpt.SIGNATURE) →
  ∃ d' slots parts, commit_mut s d = (d', Ok (record_slots s slots)) ∧
    assignment (partitions s) (slots_of s) (taken_slots s) slots ∧
    Probe.probe d' = Ok (table_kind s, parts) ∧
    parts ≡ₚ zip_with (shown s) (partitions s) slots ∧
    StronglySorted (λ p q, default 0 (p_slot p) < default 0 (p_slot q)) parts.
Proof.
  intros Hs Hty Hv Hl Hr Hd Hw Hsz Hsig. pose proof (session_ok s Hs) as Hok.
  pose proof (write_and_flush_cases s d (plan_typed s Hok (session_shape s Hs)) Hd Hw) as Hc.
  unfold commit_mut, mbind, DevM_bind. destruct (write_and_flush s d) as [d' [slots|e]].
  2:{ destruct Hc as [_ []]. by apply session_accepts. }
  destruct (flushed_probe s d d' slots Hs Hv Hl Hsz Hd Hsig Hc) as (parts & Hp & Hperm & Hsort).
  exists d', slots, parts. split_and!; try done. by eapply flushed_assignment.
Qed.
End device.
