(* ===== verification/MutationProps.v ===== *)
(** * The partition set: the properties

    What a session of [add], [remove], [resize] and [commit_mut] keeps, from
    an empty set or from what [from_probe] found, what each edit does exactly,
    and that a planned table is committed and read back. *)
From S2P Require Import Prelude Bytes Device Table Rules Slots Mutation MutationPlan MutationProbe MutationCommit.
From S2P Require Gpt Mbr GptWrite GptDisk MbrCodec Hybrid Probe.

(** ** A session on a disk of 64 MiB *)
Module Session.
Definition env : Entropy := mkEntropy None (Some 1700000000000000000) 4711.
Definition size : Z := 67108864.
Definition g0 : PartitionSet := empty_gpt env size.
Definition then_set (r : Result Error (PartitionSet * Z)) : PartitionSet :=
  match r with Ok (s, _) => s | Err _ => g0 end.
Definition or_same (s : PartitionSet) (r : Result Error PartitionSet) : PartitionSet :=
  match r with Ok s' => s' | Err _ => s end.
(** One partition of a single byte, one of 3 MiB with a label, then a third
    hinted into the gap the first leaves when it is removed. *)
Definition g1 : PartitionSet := then_set (add env g0 None 1 LinuxFilesystem None).
Definition g2 : PartitionSet := then_set (add env g1 None 3145728 EfiSystem (Some [66; 111])).
Definition g3 : PartitionSet := or_same g2 (remove g2 (Index 0)).
Definition g4 : PartitionSet := then_set (add env g3 (Some 512) 1048576 LinuxSwap None).
Definition g5 : PartitionSet := or_same g4 (resize g4 (Index 0) 4000000).

Lemma plain_request hint len t : opt_all is_u64 hint → is_u64 len →
  match t with GptCustom _ | MbrCustom _ => False | _ => True end →
  request_typed env hint len t None.
Proof. intros Hh Hl Ht. by constructor; [..|destruct t|]. Qed.

Lemma label_request : request_typed env None 3145728 EfiSystem (Some [66; 111]).
Proof.
  constructor; try done. cbn. rewrite !Forall_cons. split_and!; [lia..|by apply Forall_nil].
Qed.

Lemma swap_request len : is_u64 len → request_typed env None len LinuxSwap None.
Proof. intros Hl. by apply plain_request. Qed.

Section device.
Context {D : Type} `{!BlockDevice D} `{!DeviceLaws D} `{!Crc32} `{!Crc32Laws}.

Lemma session_g2 : session (D:=D) g2.
Proof.
  assert (session (D:=D) g0) as Hs0 by (by apply ses_gpt).
  assert (session (D:=D) g1) as Hs1.
  { apply (ses_add g0 env None 1 LinuxFilesystem None g1 0 Hs0); [by apply plain_request|].
    vm_compute. reflexivity. }
  apply (ses_add g1 env None 3145728 EfiSystem (Some [66; 111]) g2 1 Hs1); [by apply label_request|].
  vm_compute. reflexivity.
Qed.
Lemma session_g3 : session (D:=D) g3.
Proof. apply (ses_remove g2 (Index 0) g3 session_g2); [done|]. vm_compute. reflexivity. Qed.
Lemma session_g5 : session (D:=D) g5.
Proof.
  assert (session (D:=D) g4) as Hs4.
  { apply (ses_add g3 env (Some 512) 1048576 LinuxSwap None g4 1 session_g3); [by apply plain_request|].
    vm_compute. reflexivity. }
  apply (ses_resize g4 (Index 0) 4000000 g5 Hs4); [done..|]. vm_compute. reflexivity.
Qed.
End device.
End Session.

(** C9: Whatever the device holds, a set [from_probe] makes of it is well
    typed: it has the device's size, its partitions are of the table's own
    kind with fields of their widths, each in a slot of its own, none in a slot
    a preserved MBR entry has; and in a GPT with a usable range and no entry
    flagged, the partitions lie inside the range, in whole sectors, and no two
    share one. *)
Theorem from_probe_typed {D} `{!BlockDevice D} `{!DeviceLaws D} `{!Crc32} (d : D) (s : PartitionSet) :
  dev_ok d → from_probe d = Ok s →
  disk_size s = size_bytes d ∧
  Forall partition_typed (partitions s) ∧
  Forall (kind_matches (table_kind s)) (partitions s) ∧
  zlen (taken_slots s) + zlen (partitions s) ≤ slots_of s ∧
  NoDup (taken_slots s ++ recorded (partitions s)) ∧
  Forall (slot_in (slots_of s)) (taken_slots s ++ recorded (partitions s)) ∧
  (table_kind s = TableGpt → (usable_range s).1 ≤ (usable_range s).2 →
    Forall (λ p, p_issues p = entry_issue.NONE) (partitions s) →
    Forall (sound_in (usable_range s)) (partitions s) ∧ disjoint_spans (map span_of (partitions s))).
Proof. intros Hd [? ? ? ? ? ? ? ? ? ? [? ?] Hc]%from_probe_probed; [|done]. by split_and!. Qed.

(** A 16 KiB MBR disk: a bootable partition, an extended container and a third
    partition between them. *)
Module Probed.
Import Crc32Ieee.
Definition entry (status type start n : Z) : list Z :=
  [status; 0; 0; 0; type; 0; 0; 0; start; 0; 0; 0; n; 0; 0; 0].
Definition disk : MemDevice :=
  Mem (bput (bput (zeros 16384) 446 (entry 0x80 0x83 4 8 ++ zeros 16 ++ entry 0 0x05 20 10 ++ entry 0 0x07 14 6))
    510 [0x55; 0xAA]) true.
Definition found : PartitionSet := Eval vm_compute in default Session.g0 (ok (from_probe disk)).
Lemma probed_disk_ok : dev_ok disk.
Proof. split; [apply bytes_by_compute; vm_compute; reflexivity|vm_compute; reflexivity]. Qed.
Lemma disk_probe : from_probe disk = Ok found.
Proof. vm_compute. reflexivity. Qed.

(** The boot partition is removed. *)
Definition edited : PartitionSet := Eval vm_compute in Session.or_same found (remove found (Index 0)).
Lemma session_found : session (D:=MemDevice) found.
Proof.
  apply (ses_probe disk found probed_disk_ok disk_probe).
  - cbn [found partitions]. rewrite !Forall_cons. split_and!; [..|by apply Forall_nil];
      (split_and!; [done|by apply Z.mod_divide|by apply Z.mod_divide|done|done]).
  - change (map span_of (partitions found) ++ taken_spans found) with [(4, 11); (14, 19); (20, 29)].
    apply mark_overlaps_any; [|reflexivity]. by repeat (apply Forall_cons; split; [done|]).
Qed.
Lemma session_edited : session (D:=MemDevice) edited.
Proof. apply (ses_remove found (Index 0) edited session_found); [done|]. vm_compute. reflexivity. Qed.
End Probed.

Module from_probe_typed_example.
Lemma from_probe_typed_witness :
  map span_of (partitions Probed.found) = [(4, 11); (14, 19)] ∧ taken_slots Probed.found = [2] ∧
  recorded (partitions Probed.found) = [0; 3] ∧ NoDup (taken_slots Probed.found ++ recorded (partitions Probed.found)).
Proof.
  pose proof (from_probe_typed Probed.disk Probed.found Probed.probed_disk_ok Probed.disk_probe) as Hx.
  split_and!; [vm_compute; reflexivity..|apply Hx].
Defined.
End from_probe_typed_example.

(** C6: Every set a program can reach, from an empty one or from a disk it
    probed whose partitions are sound and apart, by adding, removing, resizing
    and committing in any order, is a table: its partitions are whole
    sectors inside the usable range of its disk, no two share a sector (with
    each other or with a preserved MBR entry), they are of the table's own
    kind, a GPT's all have UUIDs, there is a slot for each, and the slots
    already recorded are distinct and in range. *)
Theorem session_sound {D} `{!BlockDevice D} `{!DeviceLaws D} `{!Crc32} `{!Crc32Laws} (s : PartitionSet) :
  session (D:=D) s →
  Forall (sound_in (usable_range s)) (partitions s) ∧
  Forall (kind_matches (table_kind s)) (partitions s) ∧
  disjoint_spans (map span_of (partitions s) ++ taken_spans s) ∧
  zlen (taken_slots s) + zlen (partitions s) ≤ slots_of s ∧
  NoDup (taken_slots s ++ recorded (partitions s)) ∧
  Forall (slot_in (slots_of s)) (taken_slots s ++ recorded (partitions s)).
Proof. intros [_ _ _ _ ? ? ? ? [? ?]]%session_ok. by split_and!. Qed.

Module session_sound_example.
Import Crc32Ieee.
Lemma session_sound_witness :
  (let s := Session.g5 in map span_of (partitions s) = [(4096, 12287); (2048, 4095)] ∧
    Forall (sound_in (usable_range s)) (partitions s) ∧
    disjoint_spans (map span_of (partitions s) ++ taken_spans s)) ∧
  (let s := Probed.edited in map span_of (partitions s) = [(14, 19)] ∧ taken_spans s = [(20, 29)] ∧
    disjoint_spans (map span_of (partitions s) ++ taken_spans s)).
Proof.
  pose proof (session_sound (D:=MemDevice) Session.g5 Session.session_g5) as Hx.
  pose proof (session_sound (D:=MemDevice) Probed.edited Probed.session_edited) as Hy.
  split; split; [vm_compute; reflexivity|split; apply Hx|vm_compute; reflexivity|].
  split; [vm_compute; reflexivity|apply Hy].
Defined.
End session_sound_example.

(** C12: Adding a partition places it, or there is no place for it.  On a success
    the partition starts on a MiB boundary, its length is the least whole
    number of MiB holding the bytes asked for, it lies in the usable range off
    every occupied sector, and its start is the lowest such place (with no
    hint) or the first boundary at or after the hint; nothing else changes.
    [add] refuses only for a zero length, a full table, a type the table
    cannot name, or where no place exists. *)
Theorem add_exact (env : Entropy) (s : PartitionSet) (hint : option Z) (len : Z)
    (t : PartitionTypeId) (label : option (list Z)) :
  plan_ok s → request_typed env hint len t label →
  match add env s hint len t label with
  | Ok (s', idx) => ∃ p c, s' = with_partitions s (partitions s ++ [p]) ∧
      idx = zlen (partitions s) ∧ placed env s hint len t label p c ∧ has_room s ∧ len ≠ 0
  | Err _ => refusal s hint len t
  end.
Proof. apply add_cases. Qed.

Module add_exact_example.
Import Session Crc32Ieee.
Lemma add_exact_witness :
  (∀ c, place g3 2048 c → 2048 ≤ c) ∧
  add env g3 None 134217728 LinuxSwap None = Err (Invalid "no free space large enough") ∧
  refusal g3 None 134217728 LinuxSwap.
Proof.
  assert (plan_ok g3) as Hok by exact (session_ok (D:=MemDevice) g3 session_g3).
  assert (is_u64 1048576 ∧ is_u64 134217728) as [Hl1 Hl2] by done.
  pose proof (add_exact env g3 None 1048576 LinuxSwap None Hok (swap_request _ Hl1)) as Hx.
  pose proof (add_exact env g3 None 134217728 LinuxSwap None Hok (swap_request _ Hl2)) as Hy.
  assert (add env g3 None 134217728 LinuxSwap None = Err (Invalid "no free space large enough"))
    as Her by (vm_compute; reflexivity).
  rewrite Her in Hy. split_and!; [|exact Her|exact Hy].
  assert (∃ s', add env g3 None 1048576 LinuxSwap None = Ok (s', 1) ∧
    map p_start (partitions s') = [4096 * 512; 2048 * 512]) as (s' & Ha & Hst)
    by (eexists; split; vm_compute; reflexivity).
  rewrite Ha in Hx. destruct Hx as (p & c & -> & _ & [Hs _ _ _ Hch _ _ _ _ _] & _).
  change (sectors_for 1048576) with 2048 in Hch.
  assert (p_start p = 2048 * 512) as Hp.
  { change (partitions (with_partitions g3 (partitions g3 ++ [p]))) with (partitions g3 ++ [p]) in Hst.
    rewrite map_app in Hst. change (map p_start (partitions g3)) with [4096 * 512] in Hst.
    by injection Hst. }
  unfold SECTOR_SIZE in Hs. assert (c = 2048) as -> by lia. exact Hch.
Defined.
End add_exact_example.

(** C38: Resizing keeps the start of the partition it names and gives it the least
    whole number of MiB holding the bytes asked for, when those sectors end
    inside the usable range and meet no other partition or preserved entry;
    it refuses exactly otherwise (or for a zero length, or a reference that
    names nothing), and no other partition moves. *)
Theorem resize_exact (s : PartitionSet) (t : PartitionRef) (len : Z) :
  plan_ok s → ref_typed t → is_u64 len →
  match resize s t len with
  | Ok s' => ∃ i p, resolve s t = Ok i ∧ partitions s !! i = Some p ∧ len ≠ 0 ∧
      grows s i p (sectors_for len) ∧ least_units len (sectors_for len) ∧
      map strip (partitions s') = map strip (<[i := grown p (sectors_for len)]> (partitions s))
  | Err _ => len = 0 ∨ (∃ e, resolve s t = Err e) ∨
      ∃ i p, resolve s t = Ok i ∧ partitions s !! i = Some p ∧ ¬ grows s i p (sectors_for len)
  end.
Proof.
  intros Hok Ht Hl. pose proof (resize_cases s t len Hok Ht Hl) as H.
  destruct (resize s t len) as [s'|e]; [|exact H].
  destruct H as (i & p & Hr & Hp & H0 & Hg & ->). exists i, p. split_and!; try done; try apply Hg.
  - apply sectors_for_spec; [done|]. destruct Hl. lia.
  - pose proof (refresh_same (with_partitions s (<[i := grown p (sectors_for len)]> (partitions s))))
      as (_ & _ & _ & _ & Hm). by rewrite <- Hm.
Qed.

Module resize_exact_example.
Import Session Crc32Ieee.
(** The first partition may grow to the end of the disk's usable range, less
    the partition behind it; a sector more is refused. *)
Lemma resize_exact_witness :
  resize g2 (Index 0) 1048577 = Err (Invalid "resize would overlap another partition") ∧
  (∃ i p, resolve g2 (Index 0) = Ok i ∧ partitions g2 !! i = Some p ∧ ¬ grows g2 i p 4096) ∧
  ∃ s' p, resize g2 (Index 1) 8000000 = Ok s' ∧ partitions g2 !! 1%nat = Some p ∧
    map strip (partitions s') = map strip (<[1%nat := grown p 16384]> (partitions g2)).
Proof.
  assert (plan_ok g2) as Hok by exact (session_ok (D:=MemDevice) g2 session_g2).
  assert (is_u64 1048577 ∧ is_u64 8000000) as [Hl1 Hl2] by done.
  assert (ref_typed (Index 0) ∧ ref_typed (Index 1)) as [Ht1 Ht2] by done.
  pose proof (resize_exact g2 (Index 0) 1048577 Hok Ht1 Hl1) as Hx.
  pose proof (resize_exact g2 (Index 1) 8000000 Hok Ht2 Hl2) as Hy.
  assert (resize g2 (Index 0) 1048577 = Err (Invalid "resize would overlap another partition"))
    as Her by (vm_compute; reflexivity).
  assert (∃ s', resize g2 (Index 1) 8000000 = Ok s') as [s' Hs'] by (eexists; vm_compute; reflexivity).
  rewrite Her in Hx. rewrite Hs' in Hy. split; [exact Her|]. split.
  - destruct Hx as [Hx|[(e & Hx)|Hx]]; [discriminate Hx|exfalso; revert Hx; vm_compute; discriminate|].
    exact Hx.
  - destruct Hy as (i & p & Hr & Hp & _ & _ & _ & Hm). exists s', p. split; [exact Hs'|].
    assert (resolve g2 (Index 1) = Ok 1%nat) as Hr1 by (vm_compute; reflexivity).
    rewrite Hr1 in Hr. injection Hr as <-. exact (conj Hp Hm).
Defined.
End resize_exact_example.

(** C39: Removing drops the partition the reference names, the one at the index or
    the first with the UUID, and leaves the others in order, as they were but
    for the overlap flag, which in a GPT is re-derived: an entry of the new set
    carries it exactly when another one left shares a sector with it. *)
Theorem remove_exact (s : PartitionSet) (t : PartitionRef) (s' : PartitionSet) :
  ref_typed t → Forall partition_typed (partitions s) →
  Forall (λ p, 0 < p_length p ∧ p_start p + p_length p < 2 ^ 64) (partitions s) →
  remove s t = Ok s' → ∃ i, named s t i ∧ (i < length (partitions s))%nat ∧
    map strip (partitions s') = map strip (delete i (partitions s)) ∧
    ∀ j q, delete i (partitions s) !! j = Some q →
      match table_kind s with
      | TableMbr => partitions s' !! j = Some q
      | TableGpt => ∃ b : bool, partitions s' !! j = Some (set_overlap_bit b q) ∧
          (b = true ↔ clashes (map span_of (delete i (partitions s))) j)
      end.
Proof. apply remove_entry. Qed.

Module remove_exact_example.
(** Three entries read off a damaged disk, the first overlapping the second:
    removing the first clears the second's flag and nothing else. *)
Definition entry (start n issues : Z) : Partition :=
  mkPartition (start * 512) (n * 512) (KindGpt type_guids.LINUX_FILESYSTEM 0) None
    (Some (pad 16 [start])) (Some start) issues (n * 512).
Definition damaged : PartitionSet :=
  mkSet TableGpt [entry 40 20 4; entry 50 20 5; entry 80 8 0] 1048576 (zeros 16) ∅
    GptWrite.geometry.canonical [].
Lemma remove_exact_witness : ∃ s', remove damaged (Uuid (pad 16 [40])) = Ok s' ∧
  partitions s' = [entry 50 20 1; entry 80 8 0] ∧
  ∃ b : bool, Some (entry 50 20 1) = Some (set_overlap_bit b (entry 50 20 5)) ∧
    (b = true ↔ clashes [(50, 69); (80, 87)] 0).
Proof.
  assert (Forall partition_typed (partitions damaged)) as Ht.
  { assert (∀ n, bytes_ok (pad 16 [n]) ↔ is_u8 n) as Hp.
    { intros n. unfold pad. split; [by intros [? _]%Forall_cons|intros; apply bytes_ok_app].
      - by apply Forall_singleton.
      - apply bytes_ok_zeros. }
    cbn [damaged partitions]. rewrite !Forall_cons. split_and!; [..|by apply Forall_nil];
      (constructor; try done; [split; [split; [done|by apply bytes_by_compute]|done]|
        split; [done|by apply Hp]]). }
  assert (Forall (λ p, 0 < p_length p ∧ p_start p + p_length p < 2 ^ 64) (partitions damaged)) as Hs.
  { cbn [damaged partitions]. rewrite !Forall_cons. split_and!; [done..|by apply Forall_nil]. }
  assert (ref_typed (Uuid (pad 16 [40]))) as Hr by exact I.
  assert (∃ s', remove damaged (Uuid (pad 16 [40])) = Ok s' ∧
    partitions s' = [entry 50 20 1; entry 80 8 0]) as (s' & Hrm & Hps)
    by (eexists; split; vm_compute; reflexivity).
  destruct (remove_exact damaged _ s' Hr Ht Hs Hrm) as (i & Hn & _ & _ & Hj).
  exists s'. split; [exact Hrm|]. split; [exact Hps|].
  assert (i = 0%nat) as ->.
  { destruct Hn as (p & Hp & _ & Hmin). destruct i as [|i]; [done|exfalso].
    exact (Hmin 0%nat (entry 40 20 4) (Nat.lt_0_succ i) eq_refl eq_refl). }
  specialize (Hj 0%nat (entry 50 20 5) eq_refl). rewrite Hps in Hj. exact Hj.
Defined.
End remove_exact_example.

(** C1: The planner, the writers and the prober agree.  A set reached by edits
    and commits from an empty one or from a probed disk, whose disk has a usable
    range, whose entries name real types (and, in an MBR, volumes) and whose
    preserved entries hold a GPT marker exactly when the table is a GPT (or are
    none), is committed on any writable device of the size it was planned for,
    for an MBR one with no GPT signature at LBA 1 (which the MBR writer leaves
    and the prober prefers); the commit gives every partition a slot, keeps those
    already recorded and takes the lowest free one for the others; and probing
    the device finds just those partitions in those slots. *)
Theorem session_round_trip {D} `{!BlockDevice D} `{!DeviceLaws D} `{!Crc32} `{!Crc32Laws}
    (s : PartitionSet) (d : D) :
  session (D:=D) s → names_types s → names_volumes s → lba0_ready s → (usable_range s).1 ≤ (usable_range s).2 →
  dev_ok d → is_writable d = true → size_bytes d = disk_size s →
  (table_kind s = TableMbr → bslice (image d) 512 520 ≠ Gpt.SIGNATURE) →
  ∃ d' slots parts, commit_mut s d = (d', Ok (record_slots s slots)) ∧
    assignment (partitions s) (slots_of s) (taken_slots s) slots ∧
    Probe.probe d' = Ok (table_kind s, parts) ∧
    parts ≡ₚ zip_with (shown s) (partitions s) slots ∧
    StronglySorted (λ p q, default 0 (p_slot p) < default 0 (p_slot q)) parts.
Proof. apply committed_reads. Qed.

Module session_round_trip_example.
Import Session Crc32Ieee.
Lemma blank_disk n : is_u64 n → ∃ d : MemDevice, dev_ok d ∧ is_writable d = true ∧ size_bytes d = n.
Proof.
  intros Hn. exists (Mem (zeros n) true).
  assert (zlen (zeros n) = n) as Hz by (apply zlen_zeros, Hn).
  split; [split; [apply bytes_ok_zeros|]|by split]. cbn. rewrite Hz. apply Hn.
Qed.
(** The probed MBR disk, less its boot partition, back onto itself. *)
Lemma edited_volumes : names_types Probed.edited ∧ names_volumes Probed.edited ∧ lba0_ready Probed.edited.
Proof.
  unfold names_types, names_volumes, lba0_ready, Probed.edited. cbn [partitions table_kind reserved].
  rewrite !Forall_singleton. split; [exact I|]. split; [intros _; by split|]. intros Hm. discriminate Hm.
Qed.
Lemma session_round_trip_witness :
  (∃ (d d' : MemDevice) slots parts,
    commit_mut g5 d = (d', Ok (record_slots g5 slots)) ∧ Probe.probe d' = Ok (TableGpt, parts) ∧
    parts ≡ₚ zip_with (shown g5) (partitions g5) slots) ∧
  ∃ d' slots parts,
    commit_mut Probed.edited Probed.disk = (d', Ok (record_slots Probed.edited slots)) ∧
    Probe.probe d' = Ok (TableMbr, parts) ∧
    parts ≡ₚ zip_with (shown Probed.edited) (partitions Probed.edited) slots.
Proof.
  split.
  2:{ destruct edited_volumes as (Hty & Hv & Hl).
      assert ((usable_range Probed.edited).1 ≤ (usable_range Probed.edited).2) as Hr by (vm_compute; discriminate).
      assert (bslice (image Probed.disk) 512 520 ≠ Gpt.SIGNATURE) as Hsig by (vm_compute; discriminate).
      destruct (session_round_trip Probed.edited Probed.disk Probed.session_edited Hty Hv Hl Hr
        Probed.probed_disk_ok eq_refl eq_refl (λ _, Hsig)) as (d' & slots & parts & Hc & _ & Hp & Hperm & _).
      exists d', slots, parts. exact (conj Hc (conj Hp Hperm)). }
  assert (is_u64 size) as Hu by (split; [discriminate|reflexivity]).
  assert (names_types g5) as Hty.
  { assert (map p_kind (partitions g5) = [KindGpt type_guids.EFI_SYSTEM 0; KindGpt type_guids.LINUX_SWAP 0])
      as Hk by (vm_compute; reflexivity).
    apply list.Forall_forall. intros p Hp. apply (list_elem_of_fmap_2 p_kind) in Hp.
    change (p_kind <$> partitions g5) with (map p_kind (partitions g5)) in Hp. rewrite Hk in Hp.
    apply elem_of_cons in Hp as [-> | ->%list_elem_of_singleton]; vm_compute; discriminate. }
  assert (table_kind g5 = TableGpt) as Hk by (vm_compute; reflexivity).
  assert (names_volumes g5) as Hv by (unfold names_volumes; rewrite Hk; discriminate).
  assert (lba0_ready g5) as Hl by (unfold lba0_ready; rewrite Hk; left; vm_compute; reflexivity).
  assert ((usable_range g5).1 ≤ (usable_range g5).2) as Hr by (vm_compute; discriminate).
  assert (disk_size g5 = size) as Hsz by (vm_compute; reflexivity).
  destruct (blank_disk size Hu) as (d & Hd & Hw & Hs). rewrite <- Hsz in Hs.
  assert (table_kind g5 = TableMbr → bslice (image d) 512 520 ≠ Gpt.SIGNATURE) as Hsig
    by (rewrite Hk; discriminate).
  destruct (session_round_trip g5 d session_g5 Hty Hv Hl Hr Hd Hw Hs Hsig)
    as (d' & slots & parts & Hc & _ & Hp & Hperm & _).
  exists d, d', slots, parts. rewrite Hk in Hp. split_and!; [exact Hc|exact Hp|exact Hperm].
Defined.
End session_round_trip_example.

(** C40: A refused commit costs nothing, on any device at all: whatever the set
    and however reads, writes and the flush behave, a commit that fails with
    anything but the device's own error has left the device as it was. *)
Theorem commit_refusal_clean {D} `{!BlockDevice D} `{!Crc32} (s : PartitionSet) (d d' : D) (e : Error) :
  commit_mut s d = (d', Err e) → d' = d ∨ ∃ fe, e = Block fe.
Proof.
  unfold commit_mut, mbind, DevM_bind. pose proof (write_and_flush_clean s d) as Hc.
  destruct (write_and_flush s d) as [d1 [slots|e1]]; [done|]. intros [= <- <-]. by apply Hc.
Qed.

Module commit_refusal_clean_example.
Import Crc32Ieee.
(** Two partitions that overlap: [from_probe] can read such a set, and the
    writer refuses it. *)
Definition clash : PartitionSet :=
  mkSet TableMbr [mkPartition 512 2048 (KindMbr 0x83 false) None None None 0 2048;
                  mkPartition 1024 2048 (KindMbr 0x83 false) None None None 0 2048]
    8192 (zeros 16) ∅ GptWrite.geometry.canonical [].
Lemma commit_refusal_clean_witness :
  (commit_mut clash (Mem (zeros 8192) true)).2 = Err (Invalid "partitions overlap") ∧
  (commit_mut clash (Mem (zeros 8192) true)).1 = Mem (zeros 8192) true.
Proof.
  destruct (commit_mut clash (Mem (zeros 8192) true)) as [d' r] eqn:E.
  assert (r = Err (Invalid "partitions overlap")) as ->.
  { change r with (d', r).2. rewrite <- E. vm_compute. reflexivity. }
  split; [reflexivity|].
  destruct (commit_refusal_clean clash _ d' _ E) as [Hd|[fe Hfe]]; [exact Hd|discriminate Hfe].
Defined.
End commit_refusal_clean_example.

(** C10: Space that is freed can be used again.  Remove any partition that
    [add] or [resize] could have placed (it starts and ends on a MiB): a
    partition of the same length then fits just where it was, when its start is
    the hint, and without a hint the planner finds it a place, there or further
    down the disk; in both cases whatever type the table can express, and
    however full the table was. *)
Theorem freed_space_returns (env : Entropy) (s : PartitionSet) (i : nat) (p : Partition)
    (t : PartitionTypeId) (label : option (list Z)) :
  plan_ok s → partitions s !! i = Some p → aligned p →
  request_typed env (Some (p_start p)) (p_length p) t label →
  (∃ kd, wanted_kind (table_kind s) t = Ok kd) →
  ∃ s1, remove s (Index (Z.of_nat i)) = Ok s1 ∧
    map strip (partitions s1) = map strip (delete i (partitions s)) ∧
    (∃ s2 q, add env s1 (Some (p_start p)) (p_length p) t label = Ok (s2, zlen (partitions s1)) ∧
       partitions s2 = partitions s1 ++ [q] ∧ p_start q = p_start p ∧ p_length q = p_length p) ∧
    ∃ s2 q, add env s1 None (p_length p) t label = Ok (s2, zlen (partitions s1)) ∧
       partitions s2 = partitions s1 ++ [q] ∧ p_start q ≤ p_start p ∧ p_length q = p_length p.
Proof.
  intros Hok Hp Hal Hrq Hkd. pose proof (Forall_lookup_1 _ _ _ _ (po_typed s Hok) Hp) as Hty.
  pose proof (Forall_lookup_1 _ _ _ _ (po_sound s Hok) Hp) as (Hl & _ & _ & _ & [Hf _]).
  destruct (aligned_units p Hty Hl Hal) as (c & Ha & Es & El & Esp).
  destruct (freed_plan s i p Hok Hp) as (s1 & Hr & Hok1 & Hroom & Ek & Eu & Em & Ea).
  pose proof (freed_place s s1 i p c _ Hok Hp Eu Ea Ha Esp) as Hpl. rewrite <- Ek in Hkd.
  destruct (sectors_for_spec _ (rq_len _ _ _ _ _ Hrq) Hl) as [_ Hn].
  exists s1. split_and!; [done|done| |].
  - assert (chosen s1 (Some (p_start p)) (sectors_for (p_length p)) c) as Hch.
    { cbn [chosen]. rewrite Es, Eu. rewrite Esp in Hf. split_and!; [done|done|done|].
      intros c' Hc' _ _. unfold SECTOR_SIZE in *. lia. }
    destruct (add_placed env s1 _ _ t label c Hok1 Hrq Hl Hroom Hkd Hch Hpl) as (s2 & q & ? & ? & E1 & E2).
    exists s2, q. split_and!; [done|done|by rewrite E1|by rewrite El].
  - destruct (lowest_place s1 (sectors_for (p_length p)) c Hok1 ltac:(lia) Hpl) as (c' & Hch & Hpl' & Hle).
    assert (request_typed env None (p_length p) t label) as Hrq' by (destruct Hrq; by constructor).
    destruct (add_placed env s1 None _ t label c' Hok1 Hrq' Hl Hroom Hkd Hch Hpl') as (s2 & q & ? & ? & E1 & E2).
    exists s2, q. split_and!; [done|done| |by rewrite El]. rewrite E1, Es. unfold SECTOR_SIZE. lia.
Qed.

Module freed_space_example.
Import Session Crc32Ieee.
(** The second partition of the session, 3 MiB from LBA 4096 on. *)
Definition second : Partition := Eval vm_compute in default inhabitant (partitions g2 !! 1%nat).
Lemma freed_space_returns_witness : span_of second = (4096, 10239) ∧
  ∃ s1, remove g2 (Index 1) = Ok s1 ∧
    (∃ s2 q, add env s1 (Some (p_start second)) (p_length second) LinuxSwap None = Ok (s2, zlen (partitions s1)) ∧
       partitions s2 = partitions s1 ++ [q] ∧ p_start q = p_start second ∧ p_length q = p_length second).
Proof.
  split; [vm_compute; reflexivity|].
  assert (plan_ok g2) as Hok by exact (session_ok (D:=MemDevice) g2 session_g2).
  assert (partitions g2 !! 1%nat = Some second) as Hp by (vm_compute; reflexivity).
  assert (aligned second) as Hal by (split; apply Z.mod_divide; [discriminate|reflexivity|discriminate|reflexivity]).
  assert (request_typed env (Some (p_start second)) (p_length second) LinuxSwap None) as Hrq
    by (apply plain_request; [by split|by split|exact I]).
  assert (∃ kd, wanted_kind (table_kind g2) LinuxSwap = Ok kd) as Hkd by (eexists; vm_compute; reflexivity).
  destruct (freed_space_returns env g2 1 second LinuxSwap None Hok Hp Hal Hrq Hkd) as (s1 & Hr & _ & Ha & _).
  exists s1. exact (conj Hr Ha).
Defined.
End freed_space_example.
