(* ===== verification/LvmText.v ===== *)
(** * LVM2's metadata text: the grammar

    src/lvm.rs, [Value], [Section], [Parser] and [parse_metadata].  A Rust
    string is the list of its code points, its [as_bytes] their UTF-8.  The
    parser's index is kept as the bytes it has not read; the two recursive
    methods take fuel, and [out_of_fuel] is an error the parser never returns
    when it starts with the fuel [parse_metadata] gives it.

    [value] calls itself for every list inside a list, with no limit of its
    own, so its calls are charged to the call stack: [frames] is how many of
    them the stack still has room for, and the call after the last one is
    [overflow].  [parse_metadata_on] runs on a stack of a given room,
    [parse_metadata] on one that always has room; LvmParse.v says when the two
    agree.  ([section_body] also calls itself, at most 32 deep: the stack is
    taken to hold those frames, and the room counts [value]'s only.) *)
From S2P Require Import Prelude Bytes Device Utf8 Fmt.

Definition SECTOR : Z := 512.

Inductive LvmError :=
| LvmBlock (e : FsError)
| NoLabel (device : Z)
| BadChecksum (device : Z) (what : string)
| Corrupt (s : string)
| Syntax (line : Z) (reason : string)
| NoSuchVolume (s : list Z)
| MissingPv (s : list Z)
| Unsupported (s : string).

#[export] Instance LvmError_eq_dec : EqDecision LvmError.
Proof. solve_decision. Defined.

(** A literal. *)
Definition lit (s : string) : list Z := ascii_bytes s.

(** [LvmError]'s [Display]; [of_block] is the device error's own. *)
Definition lvm_message `{!CharTables} (of_block : FsError → string) (e : LvmError) : string :=
  match e with
  | LvmBlock e => of_block e
  | NoLabel device => "device " +:+ pretty device +:+ ": no LVM2 label"
  | BadChecksum device what => "device " +:+ pretty device +:+ ": " +:+ what +:+ " checksum mismatch"
  | Corrupt s => "corrupt: " +:+ s
  | Syntax line reason => "metadata line " +:+ pretty line +:+ ": " +:+ reason
  | NoSuchVolume s => "no logical volume " +:+ debug_str s
  | MissingPv s => "physical volume " +:+ show s +:+ " not given"
  | Unsupported s => "unsupported: " +:+ s
  end.

(** ** Values *)
Inductive Value :=
| Int (i : Z)
| Str (s : list Z)
| List (items : list Value)
| Sect (entries : list (list Z * Value)).

(** [struct Section]: its keys in file order. *)
Definition Entries : Type := list (list Z * Value).

Definition get (s : Entries) (key : list Z) : option Value :=
  snd <$> find (λ '(k, _), bytes_eqb k key) s.

Definition int (s : Entries) (key : string) : Result LvmError Z :=
  match get s (lit key) with
  | Some (Int i) => Ok i
  | _ => Err (Corrupt (key +:+ ": expected an integer"))
  end.
Definition uint (s : Entries) (key : string) : Result LvmError Z :=
  i ← int s key;
  if i <? 0 then Err (Corrupt (key +:+ ": negative")) else Ok i.
Definition str (s : Entries) (key : string) : Result LvmError (list Z) :=
  match get s (lit key) with
  | Some (Str t) => Ok t
  | _ => Err (Corrupt (key +:+ ": expected a string"))
  end.
Definition section (s : Entries) (key : string) : Result LvmError Entries :=
  match get s (lit key) with
  | Some (Sect e) => Ok e
  | _ => Err (Corrupt (key +:+ ": expected a section"))
  end.
Definition sections (s : Entries) : list (list Z * Entries) :=
  omap (λ '(k, v), match v with Sect e => Some (k, e) | _ => None end) s.

(** ** The parser *)

(** Where the parser is: the bytes from [i] on, and the line. *)
Record Pos := mkPos { rest : list Z; line : Z }.

Definition err {A} (p : Pos) (reason : string) : Result LvmError A := Err (Syntax (line p) reason).
Definition out_of_fuel {A} : Result LvmError A := Err (Syntax (-1) "out of fuel").

(** The end of the process, not an answer: like a panic it passes every caller
    by.  The line is none a text has. *)
Definition overflow {A} : Result LvmError A := Err (Syntax (-2) "stack overflow").

(** A call of [value]: the room left for the calls inside it, where there is
    room for this one. *)
Definition enter (frames : option nat) : option (option nat) :=
  match frames with
  | None => Some None
  | Some (S frames) => Some (Some frames)
  | Some O => None
  end.

(** [self.i += n]. *)
Definition advance (p : Pos) (n : nat) : Pos := mkPos (drop n (rest p)) (line p).

(** The loop of [skip]; [comment] is set inside the inner one. *)
Fixpoint skip_from (comment : bool) (b : list Z) (l : Z) : Pos :=
  match b with
  | [] => mkPos [] l
  | c :: b' =>
      if c =? 10 then skip_from false b' (l + 1)
      else if comment then skip_from true b' l
      else if (c =? 32) || (c =? 9) || (c =? 13) then skip_from false b' l
      else if c =? 35 then skip_from true b' l
      else mkPos b l
  end.
Definition skip (p : Pos) : Pos := skip_from false (rest p) (line p).

Definition peek (p : Pos) : option Z * Pos := let p := skip p in (head (rest p), p).

Definition is_digit (c : Z) : bool := (48 <=? c) && (c <=? 57).
Definition is_alphanumeric (c : Z) : bool :=
  is_digit c || ((65 <=? c) && (c <=? 90)) || ((97 <=? c) && (c <=? 122)).
Definition ident_char (c : Z) : bool :=
  is_alphanumeric c || bool_decide (c ∈ lit "_.-+").

(** The bytes a [while] loop over [b.get(i)] passes, and those left. *)
Fixpoint span_while (f : Z → bool) (b : list Z) : list Z * list Z :=
  match b with
  | c :: b' => if f c then let '(taken, left_) := span_while f b' in (c :: taken, left_) else ([], b)
  | [] => ([], [])
  end.

Definition ident (p : Pos) : Result LvmError (list Z * Pos) :=
  let p := skip p in
  match span_while ident_char (rest p) with
  | ([], _) => err p "expected a name"
  | (name, left_) => Ok (from_utf8_lossy name, mkPos left_ (line p))
  end.

(** [str::parse::<i64>] of an optional minus sign and digits. *)
Definition parse_i64 (t : list Z) : option Z :=
  let '(neg, ds) := match t with c :: ds => if c =? 45 then (true, ds) else (false, t) | [] => (false, []) end in
  match ds with
  | [] => None
  | _ =>
      let n := foldl (λ a c, 10 * a + (c - 48)) 0 ds in
      let i := if neg : bool then - n else n in
      if (- 2 ^ 63 <=? i) && (i <? 2 ^ 63) then Some i else None
  end.

(** The loop of [string], after the opening quote; [out] is in order. *)
Fixpoint string_from (b : list Z) (l : Z) (out : list Z) : Result LvmError (list Z * Pos) :=
  match b with
  | [] => Err (Syntax l "unterminated string")
  | c :: b' =>
      if c =? 34 then Ok (from_utf8_lossy out, mkPos b' l)
      else if c =? 92 then
        match b' with
        | c' :: b'' => string_from b'' l (out ++ [c'])
        | [] => Err (Syntax l "unterminated string")
        end
      else string_from b' (if c =? 10 then l + 1 else l) (out ++ [c])
  end.
Definition string_ (p : Pos) : Result LvmError (list Z * Pos) :=
  let p := advance p 1 in string_from (rest p) (line p) [].

(** [value], and its loop over a list's items. *)
Fixpoint value (fuel : nat) (frames : option nat) (p : Pos) : Result LvmError (Value * Pos) :=
  match fuel, enter frames with
  | O, _ => out_of_fuel
  | S _, None => overflow
  | S fuel, Some frames =>
      let '(c, p) := peek p in
      match c with
      | Some c =>
          if c =? 34 then '(s, p) ← string_ p; Ok (Str s, p)
          else if c =? 91 then '(items, p) ← list_items fuel frames (advance p 1) []; Ok (List items, p)
          else if (c =? 45) || is_digit c then
            let '(ds, left_) := span_while is_digit (drop 1 (rest p)) in
            let p := mkPos left_ (line p) in
            match parse_i64 (c :: ds) with
            | Some i => Ok (Int i, p)
            | None => err p ("bad integer " +:+ show (c :: ds))
            end
          else err p "expected a value"
      | None => err p "expected a value"
      end
  end
with list_items (fuel : nat) (frames : option nat) (p : Pos) (items : list Value)
    : Result LvmError (list Value * Pos) :=
  match fuel with
  | O => out_of_fuel
  | S fuel =>
      let '(c, p) := peek p in
      match c with
      | None => err p "unterminated list"
      | Some c =>
          if c =? 93 then Ok (items, advance p 1)
          else if c =? 44 then list_items fuel frames (advance p 1) items
          else '(v, p) ← value fuel frames p; list_items fuel frames p (items ++ [v])
      end
  end.

(** The loop of [section_body], at a depth the caller has counted. *)
Fixpoint section_loop (fuel : nat) (frames : option nat) (top : bool) (depth : Z) (p : Pos) (out : Entries)
    : Result LvmError (Entries * Pos) :=
  match fuel with
  | O => out_of_fuel
  | S fuel =>
      let '(c, p) := peek p in
      match c, top with
      | None, true => Ok (out, p)
      | None, false => err p "unterminated section"
      | Some c, _ =>
          if (c =? 125) && negb top then Ok (out, advance p 1)
          else
            '(key, p) ← ident p;
            let '(c, p) := peek p in
            if bool_decide (c = Some 123) then
              let p := advance p 1 in
              _ ← refuse_if (32 <? depth + 1) (Syntax (line p) "sections nested too deep");
              '(s, p) ← section_loop fuel frames false (depth + 1) p [];
              section_loop fuel frames top depth p (out ++ [(key, Sect s)])
            else if bool_decide (c = Some 61) then
              '(v, p) ← value fuel frames (advance p 1);
              section_loop fuel frames top depth p (out ++ [(key, v)])
            else err p ("expected '=' or '{' after " +:+ show key)
      end
  end.

(** Fuel for a text of [n] bytes: every list item and every list level costs
    at most two steps for each byte. *)
Definition parse_fuel (b : list Z) : nat := 2 * length b + 3.

(** [section_body(true)] at depth 0: it counts itself first. *)
Definition parse_metadata_on (frames : option nat) (text : list Z) : Result LvmError Entries :=
  let b := as_bytes text in
  '(top, _) ← section_loop (parse_fuel b) frames true 1 (mkPos b 1) [];
  Ok top.
Definition parse_metadata (text : list Z) : Result LvmError Entries := parse_metadata_on None text.

(** A text with its double quotes written as single ones. *)
Definition quoted (s : string) : list Z := map (λ c, if c =? 39 then 34 else c) (lit s).

Example metadata_sample :
  parse_metadata (quoted "# x
vg0 { seqno = 4 # y
 status = ['RESIZE', -1] pv { } } v = 'a\'b'") =
  Ok [(lit "vg0", Sect [(lit "seqno", Int 4);
        (lit "status", List [Str (lit "RESIZE"); Int (-1)]); (lit "pv", Sect [])]);
      (lit "v", Str (quoted "a'b"))] ∧
  parse_metadata (lit "vg {
 a = }") = Err (Syntax 2 "expected a value").
Proof. split; vm_compute; reflexivity. Qed.

(** Two lists and the value in them are three calls. *)
Example metadata_frames :
  parse_metadata_on (Some 3%nat) (lit "a = [[1], 2]") = parse_metadata (lit "a = [[1], 2]") ∧
  parse_metadata_on (Some 2%nat) (lit "a = [[1], 2]") = overflow.
Proof. split; vm_compute; reflexivity. Qed.
