(* ===== verification/LvmParse.v ===== *)
(** * The metadata parser: it ends, and where it reports an error

    [later p q] relates two positions of one run; every method moves forward,
    so the fuel of [parse_metadata] is enough ([parse_ends]) and an error names
    a line of the text.  On a stack with room for [n] calls of [value] the
    parser gives the same answer unless it overflows, which takes [n] opening
    brackets ([parse_on_stack]) and no more ([brackets_overflow]): the nesting
    limit sections have does not count lists. *)
From S2P Require Import Prelude Bytes Device Utf8 Fmt LvmText.

(** ** Moving forward *)
Definition newlines (b : list Z) : Z := zlen (filter (λ c, c = 10) b).

Lemma newlines_cons c b : newlines (c :: b) = (if c =? 10 then 1 else 0) + newlines b.
Proof.
  unfold newlines. rewrite filter_cons. case_decide as H; destruct (Z.eqb_spec c 10); try done.
  unfold zlen. cbn [length]. lia.
Qed.
Lemma newlines_nonneg b : 0 ≤ newlines b.
Proof. apply zlen_nonneg. Qed.
Lemma newlines_app a b : newlines (a ++ b) = newlines a + newlines b.
Proof. unfold newlines. by rewrite filter_app, zlen_app. Qed.

Record later (p q : Pos) : Prop := {
  lt_suffix : rest q `suffix_of` rest p;
  lt_line : line p ≤ line q;
  lt_count : line q + newlines (rest q) ≤ line p + newlines (rest p);
}.

Lemma lt_rest p q : later p q → (length (rest q) ≤ length (rest p))%nat.
Proof. intros []. by apply suffix_length. Qed.

#[export] Instance later_preorder : PreOrder later.
Proof. split; [intros p; by constructor|]. intros p q r [] []. constructor; [by etrans|lia..]. Qed.

(** Some byte was read. *)
Definition past (p q : Pos) : Prop := later p q ∧ (length (rest q) < length (rest p))%nat.

Lemma past_later p q : past p q → later p q.
Proof. by intros []. Qed.
Lemma later_past p q r : later p q → past q r → past p r.
Proof. intros H [H' ?]. split; [by etrans|]. apply lt_rest in H. lia. Qed.
Lemma past_trans p q r : past p q → later q r → past p r.
Proof. intros [H ?] H'. split; [by etrans|]. apply lt_rest in H'. lia. Qed.

(** An error of a run from [p] is a syntax error on a line [p] has ahead. *)
Definition error_from (p : Pos) (e : LvmError) : Prop :=
  ∃ l r, e = Syntax l r ∧ line p ≤ l ≤ line p + newlines (rest p).

Lemma error_later p q e : later p q → error_from q e → error_from p e.
Proof. intros [_ H1 H2] (l & r & -> & ?). exists l, r. split; [done|lia]. Qed.
Lemma error_here p q r : later p q → error_from p (Syntax (line q) r).
Proof.
  intros [_ H1 H2]. exists (line q), r. split; [done|]. pose proof (newlines_nonneg (rest q)). lia.
Qed.

(** A method that reads something from [p], or fails there. *)
Definition moves {A} (p : Pos) (r : Result LvmError (A * Pos)) : Prop :=
  match r with Ok (_, q) => past p q | Err e => error_from p e end.

Lemma moves_later {A} p q (r : Result LvmError (A * Pos)) : later p q → moves q r → moves p r.
Proof. intros H. destruct r as [[a q']|e]; cbn; [by apply later_past|by apply error_later]. Qed.

(** One that may read nothing. *)
Definition stays {A} (p : Pos) (r : Result LvmError (A * Pos)) : Prop :=
  match r with Ok (_, q) => later p q | Err e => error_from p e end.

Lemma stays_ret {A} p (a : A) : stays p (Ok (a, p)).
Proof. cbn. done. Qed.
Lemma moves_stays {A} p (r : Result LvmError (A * Pos)) : moves p r → stays p r.
Proof. destruct r as [[a q]|e]; cbn; [apply past_later|done]. Qed.
Lemma stays_later {A} p q (r : Result LvmError (A * Pos)) : later p q → stays q r → stays p r.
Proof. intros Hl. destruct r as [[a q']|e]; cbn; [by intros ?; etrans|by apply error_later]. Qed.
Lemma moves_past {A} p q (r : Result LvmError (A * Pos)) : past p q → stays q r → moves p r.
Proof.
  intros Hp. destruct r as [[a q']|e]; cbn; [by apply past_trans|].
  apply error_later. by apply past_later.
Qed.

Lemma moves_bind {A B} p (r : Result LvmError (A * Pos)) (f : A * Pos → Result LvmError (B * Pos)) :
  moves p r → (∀ a q, past p q → stays q (f (a, q))) → moves p (r ≫= f).
Proof.
  destruct r as [[a q]|e]; cbn; [|done]. intros H Hf. eapply moves_past; [exact H|by apply Hf].
Qed.

(** ** The scanners *)
Lemma skip_from_later c b l : later (mkPos b l) (skip_from c b l).
Proof.
  revert c l. induction b as [|x b IH]; intros c l; cbn [skip_from]; [done|].
  assert (∀ c l', l' = (if x =? 10 then l + 1 else l) → later (mkPos (x :: b) l) (skip_from c b l')) as Hstep.
  { intros c' l' ->. etrans; [|apply IH]. constructor; cbn [rest line length]; [by exists [x]| |];
      rewrite ?newlines_cons; destruct (x =? 10); lia. }
  destruct (x =? 10) eqn:E; [by apply Hstep|]. destruct c; [by apply Hstep|].
  destruct (_ || _); [by apply Hstep|]. destruct (x =? 35); [by apply Hstep|done].
Qed.

Lemma skip_later p : later p (skip p).
Proof. destruct p. apply skip_from_later. Qed.

Lemma peek_later p c q : peek p = (c, q) → later p q.
Proof. intros [= _ <-]. apply skip_later. Qed.

(** The byte peeked at is there to be read. *)
Lemma peek_some p c q : peek p = (Some c, q) → ∃ b, rest q = c :: b.
Proof. unfold peek. intros [= H <-]. destruct (rest (skip p)); [done|]. injection H as ->. by eexists. Qed.

Lemma advance_past q c b : rest q = c :: b → past q (advance q 1).
Proof.
  intros H. unfold advance. rewrite H, skipn_cons, drop_0.
  split; [constructor|]; rewrite ?H; cbn [rest line length]; try lia; [by exists [c]|].
  rewrite newlines_cons. destruct (c =? 10); lia.
Qed.

Lemma span_while_app f b x y : span_while f b = (x, y) → b = x ++ y.
Proof.
  revert x y. induction b as [|c b IH]; intros x y; cbn; [by intros [= <- <-]|].
  destruct (f c); [|by intros [= <- <-]]. destruct (span_while f b) as [x' y'].
  intros [= <- <-]. cbn. f_equal. by apply IH.
Qed.

Lemma span_past q a b : a ≠ [] → rest q = a ++ b → past q (mkPos b (line q)).
Proof.
  intros Ha H. pose proof (newlines_nonneg a).
  split; [constructor|]; rewrite ?H; cbn [rest line]; rewrite ?length_app, ?newlines_app; [by exists a|lia..|].
  destruct a; cbn [length]; [done|lia].
Qed.

Lemma ident_moves p : moves p (ident p).
Proof.
  unfold ident. pose proof (skip_later p) as Hs. destruct (span_while _ _) as [name left_] eqn:E.
  apply span_while_app in E. eapply moves_later; [exact Hs|].
  destruct name as [|c name]; [by apply error_here|]. by eapply (span_past _ (c :: name)).
Qed.

Lemma string_from_moves b l out :
  match string_from b l out with
  | Ok (_, q) => later (mkPos b l) q
  | Err e => error_from (mkPos b l) e
  end.
Proof.
  assert (∀ n b l out, (length b ≤ n)%nat → match string_from b l out with
    | Ok (_, q) => later (mkPos b l) q | Err e => error_from (mkPos b l) e end) as Hind; [|by apply (Hind (length b))].
  clear b l out. induction n as [|n IH]; intros b l out Hn.
  { destruct b; [|cbn in Hn; lia]. cbn. by apply (error_here _ (mkPos [] l)). }
  destruct b as [|c b]; cbn [string_from]; [by apply (error_here _ (mkPos [] l))|].
  assert (∀ b' l', b' `suffix_of` b → l ≤ l' →
    l' + newlines b' ≤ l + newlines (c :: b) → ∀ out, match string_from b' l' out with
    | Ok (_, q) => later (mkPos (c :: b) l) q | Err e => error_from (mkPos (c :: b) l) e end) as Hstep.
  { intros b' l' H1 H2 H3 out'. cbn in Hn. pose proof (suffix_length _ _ H1). specialize (IH b' l' out' ltac:(lia)).
    assert (later (mkPos (c :: b) l) (mkPos b' l')) as Hl by (constructor; [by apply suffix_cons_r|done..]).
    destruct (string_from b' l' out') as [[s q]|e]; [by etrans|by eapply error_later]. }
  destruct (c =? 34) eqn:Eq.
  { constructor; cbn [rest line]; [by exists [c]|lia|]. rewrite newlines_cons. destruct (c =? 10); lia. }
  pose proof (newlines_cons c b) as Hn1. destruct (c =? 92).
  - destruct b as [|c' b]; [by apply (error_here _ (mkPos [c] l))|].
    pose proof (newlines_cons c' b) as Hn2. apply Hstep; [by exists [c']|lia|].
    rewrite Hn1, Hn2. destruct (c =? 10), (c' =? 10); lia.
  - apply Hstep; [done|destruct (c =? 10); lia|rewrite Hn1; destruct (c =? 10); lia].
Qed.

Lemma string_moves p c b : rest p = c :: b → moves p (string_ p).
Proof.
  intros H. pose proof (advance_past p c b H) as Ha. unfold string_.
  pose proof (string_from_moves (rest (advance p 1)) (line (advance p 1)) []) as Hs.
  replace (mkPos (rest (advance p 1)) (line (advance p 1))) with (advance p 1) in Hs by done.
  destruct (string_from _ _ _) as [[s q]|e]; cbn [moves].
  - by eapply past_trans.
  - eapply error_later; [by apply past_later|done].
Qed.

(** ** The recursive methods *)
Lemma moves_err {A} p q reason : later p q → moves (A:=A) p (err q reason).
Proof. intros H. by apply error_here. Qed.

Lemma past_length p q : past p q → (length (rest q) < length (rest p))%nat.
Proof. by intros []. Qed.

Lemma value_list_moves f :
  (∀ p, (2 * length (rest p) + 1 ≤ f)%nat → moves p (value f None p)) ∧
  (∀ p items, (2 * length (rest p) + 2 ≤ f)%nat → moves p (list_items f None p items)).
Proof.
  induction f as [|f [IHv IHl]]; [split; intros; lia|]. split.
  - intros p Hf. cbn [value enter]. destruct (peek p) as [c q] eqn:Ep. pose proof (peek_later _ _ _ Ep) as Hq.
    destruct c as [c|]; [|by apply moves_err]. destruct (peek_some _ _ _ Ep) as [b Hb].
    pose proof (advance_past q c b Hb) as Ha. pose proof (past_length _ _ Ha). pose proof (lt_rest _ _ Hq). eapply moves_later; [exact Hq|].
    destruct (c =? 34); [|destruct (c =? 91); [|destruct (_ || _)]].
    + eapply moves_bind; [by eapply string_moves|]. intros s r _. apply stays_ret.
    + eapply moves_bind; [eapply moves_past; [exact Ha|apply moves_stays, IHl; lia]|].
      intros s r _. apply stays_ret.
    + rewrite Hb, skipn_cons, drop_0. destruct (span_while is_digit b) as [ds left_] eqn:Es.
      apply span_while_app in Es.
      assert (past q (mkPos left_ (line q))) as Hp by (apply (span_past q (c :: ds)); [done|by rewrite Hb, Es]).
      destruct (parse_i64 (c :: ds)); [done|]. eapply moves_past; [exact Hp|]. by apply (error_here _ (mkPos left_ (line q))).
    + by apply moves_err.
  - intros p items Hf. cbn [list_items]. destruct (peek p) as [c q] eqn:Ep. pose proof (peek_later _ _ _ Ep) as Hq.
    destruct c as [c|]; [|by apply moves_err]. destruct (peek_some _ _ _ Ep) as [b Hb].
    pose proof (advance_past q c b Hb) as Ha. pose proof (past_length _ _ Ha). pose proof (lt_rest _ _ Hq).
    eapply moves_later; [exact Hq|]. destruct (c =? 93); [done|]. destruct (c =? 44).
    + eapply moves_past; [exact Ha|]. apply moves_stays, IHl. lia.
    + eapply moves_bind; [apply IHv; lia|]. intros v r Hr. pose proof (past_length _ _ Hr).
      apply moves_stays, IHl. lia.
Qed.

Lemma value_moves f p : (2 * length (rest p) + 1 ≤ f)%nat → moves p (value f None p).
Proof. apply value_list_moves. Qed.

Lemma section_loop_stays f top depth p out : (2 * length (rest p) + 1 ≤ f)%nat →
  stays p (section_loop f None top depth p out) ∧ (top = false → moves p (section_loop f None top depth p out)).
Proof.
  revert top depth p out. induction f as [|f IH]; intros top depth p out Hf; [lia|]. cbn [section_loop].
  destruct (peek p) as [c q] eqn:Ep. pose proof (peek_later _ _ _ Ep) as Hq. destruct c as [c|].
  2:{ destruct top; [by split|]. split; [|intros _]; by apply error_here. }
  destruct (peek_some _ _ _ Ep) as [b Hb]. pose proof (advance_past q c b Hb) as Ha.
  pose proof (past_length _ _ Ha). pose proof (lt_rest _ _ Hq).
  assert (∀ r : Result LvmError (Entries * Pos), moves q r → stays p r ∧ (top = false → moves p r)) as Hm.
  { intros r Hr. pose proof (moves_later p q r Hq Hr) as Hpr. split; [by apply moves_stays|done]. }
  destruct (_ && _); apply Hm; [done|]. clear Hm.
  eapply moves_bind; [apply ident_moves|]. intros key r Hr. pose proof (past_length _ _ Hr).
  destruct (peek r) as [c' r'] eqn:Ep'. pose proof (peek_later _ _ _ Ep') as Hr'. pose proof (lt_rest _ _ Hr').
  eapply stays_later; [exact Hr'|].
  assert (∀ c0, c' = Some c0 → past r' (advance r' 1)) as Hadv.
  { intros c0 ->. destruct (peek_some _ _ _ Ep') as [b' Hb']. by eapply advance_past. }
  case_bool_decide as Hc.
  { specialize (Hadv _ Hc). pose proof (past_length _ _ Hadv).
    destruct (32 <? depth + 1); cbn [refuse_if mbind Result_bind].
    - apply error_here. by apply past_later.
    - eapply moves_stays, moves_bind.
      + eapply moves_past; [exact Hadv|]. apply IH. lia.
      + intros s t Ht. pose proof (past_length _ _ Ht). apply IH. lia. }
  case_bool_decide as Hc'.
  { specialize (Hadv _ Hc'). pose proof (past_length _ _ Hadv).
    eapply moves_stays, moves_bind.
    + eapply moves_past; [exact Hadv|]. apply moves_stays, value_moves. lia.
    + intros s t Ht. pose proof (past_length _ _ Ht). apply IH. lia. }
  by apply error_here.
Qed.

(** The fuel [parse_metadata] starts with is enough, whatever the text. *)
Lemma parse_ends text :
  match parse_metadata text with
  | Ok _ => True
  | Err e => ∃ l reason, e = Syntax l reason ∧ 1 ≤ l ≤ 1 + newlines (as_bytes text)
  end.
Proof.
  unfold parse_metadata, parse_metadata_on. set (b := as_bytes text).
  destruct (section_loop_stays (parse_fuel b) true 1 (mkPos b 1) []) as [H _];
    [unfold parse_fuel; cbn [rest]; lia|].
  destruct (section_loop _ _ _ _ _ _) as [[top q]|e]; [done|]. exact H.
Qed.

(** ** A canonical text *)

(** Decimal digits, least significant last. *)
Fixpoint digits (fuel : nat) (n : Z) : list Z :=
  match fuel with
  | O => []
  | S fuel => if n <? 10 then [48 + n] else digits fuel (n / 10) ++ [48 + n mod 10]
  end.
Definition print_int (i : Z) : list Z := if i <? 0 then 45 :: digits 20 (- i) else digits 20 i.

(** A quote or a backslash is written after a backslash. *)
Definition escape (c : Z) : list Z := if (c =? 34) || (c =? 92) then [92; c] else [c].

Fixpoint print_value (v : Value) : list Z :=
  match v with
  | Int i => print_int i
  | Str s => 34 :: (s ≫= escape) ++ [34]
  | List items => 91 :: concat (map (λ v, print_value v ++ [44; 32]) items) ++ [93]
  | Sect entries => 123 :: 10 :: concat (map (λ '(k, v), k ++ [32] ++
      match v with Sect _ => [] | _ => [61; 32] end ++ print_value v ++ [10]) entries) ++ [125]
  end.
Definition print_entry (kv : list Z * Value) : list Z :=
  let '(k, v) := kv in
  k ++ [32] ++ match v with Sect _ => [] | _ => [61; 32] end ++ print_value v ++ [10].
Definition print_metadata (entries : Entries) : list Z := concat (map print_entry entries).

(** What a text can hold: list items are not sections, keys are names, strings
    are texts, integers are 64 bits, and sections nest [d] deep at most. *)
Definition is_text (s : list Z) : Prop := Forall (λ c, 0 ≤ c < 0xD800 ∨ 0xE000 ≤ c < 0x110000) s.
Definition is_key (k : list Z) : Prop := k ≠ [] ∧ Forall (λ c, ident_char c = true) k.

Inductive item_ok : Value → Prop :=
| ok_int i : - 2 ^ 63 ≤ i < 2 ^ 63 → item_ok (Int i)
| ok_str s : is_text s → item_ok (Str s)
| ok_list items : Forall item_ok items → item_ok (List items).

Inductive entries_ok : nat → Entries → Prop :=
| es_nil d : entries_ok d []
| es_item d k v es : is_key k → item_ok v → entries_ok d es → entries_ok d ((k, v) :: es)
| es_sect d k sub es : is_key k → entries_ok d sub → entries_ok (S d) es →
    entries_ok (S d) ((k, Sect sub) :: es).

(** Induction on items, with the hypothesis for every item of a list. *)
Fixpoint item_ok_rect (P : Value → Prop)
  (Hi : ∀ i, - 2 ^ 63 ≤ i < 2 ^ 63 → P (Int i)) (Hs : ∀ s, is_text s → P (Str s))
  (Hl : ∀ items, Forall P items → P (List items)) v (H : item_ok v) {struct H} : P v :=
  match H with
  | ok_int i Hr => Hi i Hr
  | ok_str s Ht => Hs s Ht
  | ok_list items Hf => Hl items
      ((fix go l (Hl' : Forall item_ok l) : Forall P l :=
          match Hl' with
          | @List.Forall_nil _ _ => Forall_nil_2 _
          | @List.Forall_cons _ _ x l Hx Hr => Forall_cons_2 _ _ _ (item_ok_rect P Hi Hs Hl x Hx) (go l Hr)
          end) items Hf)
  end.

(** ** Bytes of the canonical text *)
Lemma as_bytes_app a b : as_bytes (a ++ b) = as_bytes a ++ as_bytes b.
Proof. unfold as_bytes. apply bind_app. Qed.

Lemma as_bytes_ascii t : Forall (λ c, 0 ≤ c < 0x80) t → as_bytes t = t.
Proof.
  unfold as_bytes. induction 1 as [|c t Hc _ IH]; [done|]. cbn [mbind list_bind].
  unfold encode_utf8 at 1. rewrite (proj2 (Z.ltb_lt c 0x80)) by lia. cbn. by rewrite IH.
Qed.

Lemma ident_char_spec c : ident_char c = true →
  0 ≤ c < 0x80 ∧ c ≠ 10 ∧ c ≠ 32 ∧ c ≠ 9 ∧ c ≠ 13 ∧ c ≠ 35 ∧ c ≠ 125 ∧ c ≠ 123 ∧ c ≠ 61.
Proof.
  unfold ident_char, is_alphanumeric, is_digit. rewrite orb_true_iff, bool_decide_eq_true.
  change (lit "_.-+") with [95; 46; 45; 43]. rewrite !elem_of_cons.
  intros [H|[->|[->|[->|[->|[]%not_elem_of_nil]]]]]; lia.
Qed.

Lemma key_ascii k : is_key k → as_bytes k = k.
Proof.
  intros [_ H]. apply as_bytes_ascii. eapply Forall_impl; [exact H|]. intros c Hc. by apply ident_char_spec.
Qed.

(** ** Scanning printed pieces *)
Lemma peek_blank b l : peek (mkPos (32 :: b) l) = peek (mkPos b l).
Proof. done. Qed.
Lemma peek_newline b l : peek (mkPos (10 :: b) l) = peek (mkPos b (l + 1)).
Proof. done. Qed.

(** A byte that is neither blank nor the start of a comment stops [skip]. *)
Definition solid (c : Z) : Prop := c ≠ 10 ∧ c ≠ 32 ∧ c ≠ 9 ∧ c ≠ 13 ∧ c ≠ 35.

Lemma skip_solid c b l : solid c → skip (mkPos (c :: b) l) = mkPos (c :: b) l.
Proof.
  intros (H1 & H2 & H3 & H4 & H5). unfold skip. cbn [rest line skip_from].
  rewrite !(proj2 (Z.eqb_neq _ _)) by done. done.
Qed.
Lemma peek_solid c b l : solid c → peek (mkPos (c :: b) l) = (Some c, mkPos (c :: b) l).
Proof. intros H. unfold peek. by rewrite skip_solid. Qed.

Lemma span_while_stop f a c b : Forall (λ x, f x = true) a → f c = false →
  span_while f (a ++ c :: b) = (a, c :: b).
Proof.
  intros Ha Hc. induction Ha as [|x a Hx _ IH]; cbn [app span_while]; [by rewrite Hc|]. by rewrite Hx, IH.
Qed.

Lemma ident_key k c b l : is_key k → ident_char c = false →
  ident (mkPos (k ++ c :: b) l) = Ok (k, mkPos (c :: b) l).
Proof.
  intros [Hne Hk] Hc. destruct k as [|x k]; [done|]. pose proof (proj1 (proj1 (Forall_cons _ _ _) Hk)) as Hx.
  destruct (ident_char_spec x Hx) as (? & ? & ? & ? & ? & ? & _).
  unfold ident. cbn [app]. rewrite skip_solid by by split_and!. cbn [rest line].
  change (x :: k ++ c :: b) with ((x :: k) ++ c :: b). rewrite (span_while_stop _ (x :: k)) by done.
  rewrite from_utf8_lossy_ascii; [done|]. eapply Forall_impl; [exact Hk|]. intros y Hy.
  by apply ident_char_spec.
Qed.

(** ** Integers *)
Definition decimal (t : list Z) : Z := foldl (λ a c, 10 * a + (c - 48)) 0 t.

Lemma digits_spec fuel n : (0 < fuel)%nat → 0 ≤ n < 10 ^ Z.of_nat fuel →
  decimal (digits fuel n) = n ∧ digits fuel n ≠ [] ∧ Forall (λ c, is_digit c = true) (digits fuel n).
Proof.
  revert n. induction fuel as [|fuel IH]; [lia|]. intros n _ Hn. cbn [digits].
  destruct (Z.ltb_spec n 10) as [H|H].
  { unfold decimal. cbn [foldl]. split_and!; [lia|done|]. apply Forall_singleton. unfold is_digit. lia. }
  assert (0 < fuel)%nat as Hf.
  { destruct fuel; [|lia]. change (10 ^ Z.of_nat 1) with 10 in Hn. lia. }
  rewrite Nat2Z.inj_succ, Z.pow_succ_r in Hn by lia.
  destruct (IH (n / 10) Hf) as (Hd & Hne & Hfo); [dlia|].
  split_and!.
  - unfold decimal in *. rewrite foldl_app, Hd. cbn [foldl]. dlia.
  - by destruct (digits fuel (n / 10)).
  - apply Forall_app. split; [done|]. apply Forall_singleton. unfold is_digit. dlia.
Qed.

Lemma print_int_spec i : - 2 ^ 63 ≤ i < 2 ^ 63 → ∃ c ds, print_int i = c :: ds ∧
  (c = 45 ∨ is_digit c = true) ∧ Forall (λ x, is_digit x = true) ds ∧ parse_i64 (c :: ds) = Some i.
Proof.
  intros Hi. unfold print_int.
  assert (∀ x, is_digit x = true → (x =? 45) = false) as Hminus by (unfold is_digit; lia).
  destruct (Z.ltb_spec i 0) as [Hn|Hn].
  - destruct (digits_spec 20 (- i)) as (Hd & Hne & Hfo); [lia|cbn; lia|].
    exists 45, (digits 20 (- i)). split_and!; [done|by left|done|]. unfold parse_i64. cbn [Z.eqb Pos.eqb].
    destruct (digits 20 (- i)) as [|x ds] eqn:E; [done|]. unfold decimal in Hd. rewrite Hd.
    rewrite (proj2 (andb_true_iff _ _)); [f_equal; lia|split; lia].
  - destruct (digits_spec 20 i) as (Hd & Hne & Hfo); [lia|cbn; lia|].
    destruct (digits 20 i) as [|x ds] eqn:E; [done|]. exists x, ds. apply Forall_cons in Hfo as [Hx Hds].
    split_and!; [done|by right|done|]. unfold parse_i64. rewrite (Hminus x Hx). unfold decimal in Hd. rewrite Hd.
    rewrite (proj2 (andb_true_iff _ _)); [done|split; lia].
Qed.

(** ** Strings *)
Lemma string_plain bs b l out : Forall (λ c, c ≠ 34 ∧ c ≠ 92) bs →
  ∃ l', string_from (bs ++ b) l out = string_from b l' (out ++ bs).
Proof.
  intros H. revert l out. induction H as [|c bs [H1 H2] _ IH]; intros l out; cbn [app string_from].
  { exists l. by rewrite app_nil_r. }
  rewrite !(proj2 (Z.eqb_neq _ _)) by done.
  destruct (IH (if c =? 10 then l + 1 else l) (out ++ [c])) as [l' E]. exists l'. by rewrite E, <- app_assoc.
Qed.

Lemma encode_utf8_plain c : 0 ≤ c < 0xD800 ∨ 0xE000 ≤ c < 0x110000 → c ≠ 34 → c ≠ 92 →
  Forall (λ b, b ≠ 34 ∧ b ≠ 92) (encode_utf8 c).
Proof.
  intros Hc H1 H2. unfold encode_utf8. repeat case_match; rewrite ?Forall_cons, ?Forall_nil;
    zbool; split_and!; try done; dlia.
Qed.

Lemma string_printed s b l out : is_text s → ∃ l',
  string_from (as_bytes (s ≫= escape) ++ 34 :: b) l out
    = Ok (from_utf8_lossy (out ++ as_bytes s), mkPos b l').
Proof.
  intros Hs. revert l out. induction Hs as [|c s Hc _ IH]; intros l out.
  { cbn. exists l. by rewrite app_nil_r. }
  cbn [mbind list_bind]. rewrite as_bytes_app, <- app_assoc.
  change (as_bytes (c :: s)) with (encode_utf8 c ++ as_bytes s). unfold escape at 1.
  destruct ((c =? 34) || (c =? 92)) eqn:E.
  - rewrite as_bytes_ascii by (rewrite !Forall_cons, Forall_nil; lia). cbn [app string_from Z.eqb Pos.eqb].
    destruct (IH l (out ++ [c])) as [l' ->]. exists l'. rewrite <- app_assoc. do 3 f_equal.
    unfold encode_utf8. by rewrite (proj2 (Z.ltb_lt c 0x80)) by lia.
  - change (as_bytes [c]) with (encode_utf8 c ++ []). rewrite app_nil_r.
    destruct (string_plain (encode_utf8 c) (as_bytes (s ≫= escape) ++ 34 :: b) l out) as [l1 ->];
      [apply encode_utf8_plain; [done|lia..]|].
    destruct (IH l1 (out ++ encode_utf8 c)) as [l' ->]. exists l'. by rewrite <- app_assoc.
Qed.

(** ** Items *)
Lemma as_bytes_int i : - 2 ^ 63 ≤ i < 2 ^ 63 → as_bytes (print_int i) = print_int i.
Proof.
  intros Hi. destruct (print_int_spec i Hi) as (c & ds & -> & Hc & Hds & _). apply as_bytes_ascii.
  apply Forall_cons. split; [destruct Hc as [-> |Hc]; [lia|unfold is_digit in Hc; lia]|].
  eapply Forall_impl; [exact Hds|]. intros x. unfold is_digit. lia.
Qed.

(** The first byte of an item: not blank, and neither a comma nor a bracket
    that closes. *)
Lemma item_first v : item_ok v → ∃ c t, as_bytes (print_value v) = c :: t ∧ solid c ∧ c ≠ 93 ∧ c ≠ 44.
Proof.
  assert (solid 45 ∧ solid 34 ∧ solid 91) as (S1 & S2 & S3) by (by split_and!).
  intros [i Hi|s Hs|items _]; cbn [print_value].
  - rewrite as_bytes_int by done. destruct (print_int_spec i Hi) as (c & ds & -> & Hc & _). exists c, ds.
    split; [done|]. destruct Hc as [-> |Hc]; [by split_and!|]. unfold solid, is_digit in *. lia.
  - exists 34, (as_bytes ((s ≫= escape) ++ [34])). by split_and!.
  - eexists 91, _. split; [by cbn|by split_and!].
Qed.

Definition reads_item (v : Value) : Prop := ∀ f l x suf, is_digit x = false →
  (2 * length (as_bytes (print_value v) ++ x :: suf) + 1 ≤ f)%nat →
  ∃ l', value f None (mkPos (as_bytes (print_value v) ++ x :: suf) l) = Ok (v, mkPos (x :: suf) l').

Definition print_items (items : list Value) : list Z := concat (map (λ v, print_value v ++ [44; 32]) items).

Lemma items_printed items : Forall item_ok items → Forall reads_item items →
  ∀ f l (suf : list Z) (acc : list Value),
  (2 * length (as_bytes (print_items items) ++ 93%Z :: suf) + 2 ≤ f)%nat →
  ∃ l', list_items f None (mkPos (as_bytes (print_items items) ++ 93 :: suf) l) acc = Ok (acc ++ items, mkPos suf l').
Proof.
  assert (∀ f l b acc, list_items f None (mkPos (32 :: b) l) acc = list_items f None (mkPos b l) acc) as Hblank
    by (intros [|f] l b acc; [done|cbn [list_items]; by rewrite peek_blank]).
  intros Hok Hr. induction Hr as [|v items Hv _ IH]; intros f l suf acc Hf.
  { destruct f as [|f]; [lia|]. cbn. exists l. by rewrite app_nil_r. }
  apply Forall_cons in Hok as [Hokv Hok].
  assert (as_bytes (print_items (v :: items)) ++ 93 :: suf
    = as_bytes (print_value v) ++ 44 :: 32 :: as_bytes (print_items items) ++ 93 :: suf) as E.
  { unfold print_items at 1. cbn [map concat]. fold (print_items items).
    rewrite !as_bytes_app, <- !app_assoc. done. }
  rewrite E in *. destruct (item_first v Hokv) as (c & t & Ec & Hs & H93 & H44).
  destruct f as [|f]; [lia|]. cbn [list_items]. 
  assert (∀ b, peek (mkPos (as_bytes (print_value v) ++ b) l)
    = (Some c, mkPos (as_bytes (print_value v) ++ b) l)) as -> by (intros b; rewrite Ec; by apply peek_solid).
  rewrite !(proj2 (Z.eqb_neq _ _)) by done.
  destruct (Hv f l 44 (32 :: as_bytes (print_items items) ++ 93 :: suf)) as [l1 ->]; [done|lia|].
  cbn [mbind Result_bind]. rewrite length_app in Hf. cbn [length] in Hf. destruct f as [|f]; [lia|]. cbn [list_items].
  rewrite peek_solid by by split_and!. cbn [Z.eqb Pos.eqb]. unfold advance. cbn [rest line drop].
  rewrite Hblank. destruct (IH Hok f l1 suf (acc ++ [v])) as [l' ->]; [lia|]. exists l'. by rewrite <- app_assoc.
Qed.

Lemma item_printed v : item_ok v → reads_item v.
Proof.
  intros Hv. assert (item_ok v ∧ reads_item v) as [_ H]; [|done].
  induction Hv as [i Hi|s Hs|items IH] using item_ok_rect;
    (split; [first [by apply ok_int|by apply ok_str|apply ok_list; eapply Forall_impl; [exact IH|by intros ? []]]|]);
    intros f l x suf Hx Hf; (destruct f as [|f]; [lia|]); cbn [value enter print_value] in *.
  - rewrite as_bytes_int in * by done. destruct (print_int_spec i Hi) as (c & ds & -> & Hc & Hds & Hp).
    cbn [app]. assert (solid c ∧ (c =? 34) = false ∧ (c =? 91) = false ∧ (c =? 45) || is_digit c = true)
      as (Hs & H1 & H2 & H3) by (unfold solid, is_digit in *; lia).
    rewrite peek_solid by done. rewrite H1, H2, H3. cbn [rest line drop].
    rewrite drop_0, span_while_stop by done. rewrite Hp. by exists l.
  - change (as_bytes (34 :: (s ≫= escape) ++ [34])) with (34 :: as_bytes ((s ≫= escape) ++ [34])).
    rewrite as_bytes_app, <- app_comm_cons, <- app_assoc. rewrite peek_solid by by split_and!.
    cbn [Z.eqb Pos.eqb]. unfold string_, advance. cbn [rest line drop].
    destruct (string_printed s (x :: suf) l [] Hs) as [l' E]. rewrite drop_0. change ([34] ++ x :: suf) with (34 :: x :: suf).
    change (as_bytes [34]) with [34]. change ([34] ++ x :: suf) with (34 :: x :: suf). rewrite E.
    cbn [mbind Result_bind app]. exists l'. unfold as_bytes. by rewrite from_utf8_encode.
  - fold (print_items items) in *. change (as_bytes (91 :: print_items items ++ [93])) with (91 :: as_bytes (print_items items ++ [93])) in *.
    rewrite as_bytes_app in *. change (as_bytes [93]) with [93] in *. rewrite <- app_comm_cons, <- app_assoc in *.
    change ([93] ++ x :: suf) with (93 :: x :: suf) in *. rewrite peek_solid by by split_and!.
    cbn [Z.eqb Pos.eqb]. unfold advance. cbn [rest line drop]. rewrite drop_0. cbn [length] in Hf.
    destruct (items_printed items) with (f := f) (l := l) (suf := x :: suf) (acc := @nil Value) as [l' ->];
      [by eapply Forall_impl; [exact IH|intros ? []]|by eapply Forall_impl; [exact IH|intros ? []]|lia|].
    by exists l'.
Qed.

(** ** Sections *)
Lemma section_loop_newline f top depth b l out :
  section_loop f None top depth (mkPos (10 :: b) l) out = section_loop f None top depth (mkPos b (l + 1)) out.
Proof. destruct f; [done|]. cbn [section_loop]. by rewrite peek_newline. Qed.
Lemma value_blank f fr b l : value f fr (mkPos (32 :: b) l) = value f fr (mkPos b l).
Proof. destruct f; [done|]. cbn [value]. by rewrite peek_blank. Qed.

Lemma print_sect entries : print_value (Sect entries) = 123 :: 10 :: print_metadata entries ++ [125].
Proof. done. Qed.

Lemma print_entry_sect k sub :
  print_entry (k, Sect sub) = k ++ 32 :: 123 :: 10 :: print_metadata sub ++ [125; 10].
Proof.
  unfold print_entry. rewrite print_sect. cbn [app]. by rewrite <- app_assoc.
Qed.

(** The loop at a key: the key and what follows it are read. *)
Lemma section_key f fr top depth k c b l out : is_key k → solid c → ident_char c = false →
  section_loop (S f) fr top depth (mkPos (k ++ 32 :: c :: b) l) out =
    (if bool_decide (Some c = Some 123) then
       _ ← refuse_if (32 <? depth + 1) (Syntax l "sections nested too deep");
       '(s, p) ← section_loop f fr false (depth + 1) (mkPos b l) [];
       section_loop f fr top depth p (out ++ [(k, Sect s)])
     else if bool_decide (Some c = Some 61) then
       '(v, p) ← value f fr (mkPos b l); section_loop f fr top depth p (out ++ [(k, v)])
     else err (mkPos (c :: b) l) ("expected '=' or '{' after " +:+ show k)).
Proof.
  intros Hk Hs Hc. cbn [section_loop]. pose proof Hk as [Hne Hf]. destruct k as [|x k]; [done|].
  pose proof (proj1 (proj1 (Forall_cons _ _ _) Hf)) as Hx.
  destruct (ident_char_spec x Hx) as (? & ? & ? & ? & ? & ? & H125 & _).
  assert (∀ b, peek (mkPos ((x :: k) ++ b) l) = (Some x, mkPos ((x :: k) ++ b) l)) as ->
    by (intros b'; apply peek_solid; by split_and!).
  rewrite (proj2 (Z.eqb_neq x 125)) by done. cbn [andb].
  rewrite ident_key by done. cbn [mbind Result_bind]. rewrite peek_blank, peek_solid by done.
  unfold advance. cbn [rest line drop]. rewrite drop_0. done.
Qed.

Lemma entries_printed d es : entries_ok d es → ∀ f (top : bool) depth l suf out,
  depth + Z.of_nat d ≤ 32 →
  let tail := if top then [] else 125 :: suf in
  (2 * length (as_bytes (print_metadata es) ++ tail) + 1 ≤ f)%nat →
  ∃ l', section_loop f None top depth (mkPos (as_bytes (print_metadata es) ++ tail) l) out
    = Ok (out ++ es, mkPos (if top then [] else suf) l').
Proof.
  induction 1 as [d|d k v es Hk Hv _ IH|d k sub es Hk Hsub IHs _ IH]; intros f top depth l suf out Hd tail Hf.
  - destruct f as [|f]; [lia|]. unfold tail. exists l. rewrite app_nil_r. by destruct top.
  - assert (∀ b, as_bytes (print_metadata ((k, v) :: es)) ++ b
      = k ++ 32 :: 61 :: 32 :: as_bytes (print_value v) ++ 10 :: as_bytes (print_metadata es) ++ b) as E.
    { intros b. unfold print_metadata at 1. cbn [map concat print_entry]. fold (print_metadata es).
      assert (match v with Sect _ => [] | _ => [61; 32] end = [61; 32]) as -> by by destruct Hv.
      rewrite !as_bytes_app, key_ascii, <- !app_assoc by done. done. }
    rewrite E in *. destruct f as [|f]; [lia|]. rewrite section_key by (done || by split_and!).
    rewrite bool_decide_eq_false_2, bool_decide_eq_true_2 by done. rewrite value_blank.
    rewrite length_app in Hf. cbn [length] in Hf.
    destruct (item_printed v Hv f l 10 (as_bytes (print_metadata es) ++ tail)) as [l1 ->]; [done|lia|].
    cbn [mbind Result_bind]. rewrite section_loop_newline. rewrite length_app in Hf. cbn [length] in Hf.
    destruct (IH f top depth (l1 + 1) suf (out ++ [(k, v)]) Hd) as [l' E']; [fold tail; lia|].
    fold tail in E'. rewrite E'. exists l'. by rewrite <- app_assoc.
  - assert (∀ b, as_bytes (print_metadata ((k, Sect sub) :: es)) ++ b
      = k ++ 32 :: 123 :: 10 :: as_bytes (print_metadata sub) ++ 125 :: 10 :: as_bytes (print_metadata es) ++ b) as E.
    { intros b. change (print_metadata ((k, Sect sub) :: es)) with (print_entry (k, Sect sub) ++ print_metadata es).
      rewrite print_entry_sect, !as_bytes_app, key_ascii by done. rewrite <- !app_assoc. f_equal.
      change (as_bytes (32 :: 123 :: 10 :: ?t)) with (32 :: 123 :: 10 :: as_bytes t). cbn [app].
      rewrite as_bytes_app, <- app_assoc. done. }
    rewrite E in *. destruct f as [|f]; [lia|]. rewrite section_key by (done || by split_and!).
    rewrite bool_decide_eq_true_2 by done. rewrite refuse_no by lia. rewrite section_loop_newline.
    rewrite length_app in Hf. cbn [length] in Hf. rewrite length_app in Hf. cbn [length] in Hf.
    destruct (IHs f false (depth + 1) (l + 1) (10 :: as_bytes (print_metadata es) ++ tail) []) as [l1 E1];
      [lia|rewrite length_app; cbn [length]; lia|]. cbn [app] in E1. rewrite E1.
    cbn [mbind Result_bind]. rewrite section_loop_newline.
    destruct (IH f top depth (l1 + 1) suf (out ++ [(k, Sect sub)]) Hd) as [l' E']; [fold tail; lia|].
    fold tail in E'. rewrite E'. exists l'. by rewrite <- app_assoc.
Qed.

Lemma parse_printed es : entries_ok 31 es → parse_metadata (print_metadata es) = Ok es.
Proof.
  intros H. unfold parse_metadata, parse_metadata_on.
  destruct (entries_printed 31 es H (parse_fuel (as_bytes (print_metadata es))) true 1 1 [] []) as [l' E];
    [lia|rewrite app_nil_r; unfold parse_fuel; lia|]. cbn iota in E. rewrite app_nil_r in E. by rewrite E.
Qed.

(** ** The call stack

    [opens b] counts the bytes of [b] that open a list. *)
Definition opens (b : list Z) : nat := length (filter (λ c, c = 91) b).

Lemma opens_app a b : opens (a ++ b) = (opens a + opens b)%nat.
Proof. unfold opens. by rewrite filter_app, length_app. Qed.
Lemma opens_suffix a b : a `suffix_of` b → (opens a ≤ opens b)%nat.
Proof. intros [k ->]. rewrite opens_app. lia. Qed.
Lemma opens_cons b : opens (91 :: b) = S (opens b).
Proof. done. Qed.

(** [r] is the answer [r'] of the run that always has room, or the stack is
    used up, for which [p] has [n] lists to open. *)
Definition on_stack {A} (p : Pos) (n : nat) (r r' : Result LvmError A) : Prop :=
  r = r' ∨ r = overflow ∧ (n ≤ opens (rest p))%nat.

Lemma on_stack_refl {A} p n (r : Result LvmError A) : on_stack p n r r.
Proof. by left. Qed.
Lemma on_stack_later {A} p q n (r r' : Result LvmError A) : later p q → on_stack q n r r' → on_stack p n r r'.
Proof. intros H [->|[-> Hn]]; [by left|right; split; [done|]]. apply lt_suffix, opens_suffix in H. lia. Qed.

Lemma on_stack_bind {A B} p n (r r' : Result LvmError (A * Pos)) (f g : A * Pos → Result LvmError B) :
  on_stack p n r r' → stays p r' → (∀ a q, later p q → r' = Ok (a, q) → on_stack q n (f (a, q)) (g (a, q))) →
  on_stack p n (r ≫= f) (r' ≫= g).
Proof.
  intros [->|[-> Hn]] Hs Hf; [|by right]. destruct r' as [[a q]|e]; [|by left]. cbn in *.
  eapply on_stack_later; [exact Hs|by apply Hf].
Qed.

Lemma value_list_on_stack f :
  (∀ n p, (2 * length (rest p) + 1 ≤ f)%nat → on_stack p n (value f (Some n) p) (value f None p)) ∧
  (∀ n p items, (2 * length (rest p) + 2 ≤ f)%nat →
     on_stack p n (list_items f (Some n) p items) (list_items f None p items)).
Proof.
  induction f as [|f [IHv IHl]]; [split; intros; lia|]. split.
  - intros [|n] p Hf; [right; split; [done|lia]|]. cbn [value enter].
    destruct (peek p) as [[c|] q] eqn:Ep; [|by left]. pose proof (peek_later _ _ _ Ep) as Hq.
    destruct (peek_some _ _ _ Ep) as [b Hb]. pose proof (advance_past q c b Hb) as Ha.
    pose proof (past_length _ _ Ha). pose proof (lt_rest _ _ Hq). eapply on_stack_later; [exact Hq|].
    destruct (c =? 34); [by left|]. destruct (Z.eqb_spec c 91) as [->|]; [|by left].
    destruct (IHl n (advance q 1) []) as [->|[-> Hn]]; [lia|by left|right; split; [done|]].
    unfold advance in Hn. rewrite Hb in *. rewrite opens_cons. cbn [rest drop] in Hn. rewrite drop_0 in Hn. lia.
  - intros n p items Hf. cbn [list_items]. destruct (peek p) as [[c|] q] eqn:Ep; [|by left].
    pose proof (peek_later _ _ _ Ep) as Hq. destruct (peek_some _ _ _ Ep) as [b Hb].
    pose proof (advance_past q c b Hb) as Ha. pose proof (past_length _ _ Ha). pose proof (lt_rest _ _ Hq).
    eapply on_stack_later; [exact Hq|]. destruct (c =? 93); [by left|]. destruct (c =? 44).
    + eapply on_stack_later; [by apply past_later|]. apply IHl. lia.
    + pose proof (value_moves f q ltac:(lia)) as Hv. apply on_stack_bind; [apply IHv; lia|by apply moves_stays|].
      intros v r _ Er. rewrite Er in Hv. pose proof (past_length _ _ Hv). apply IHl. lia.
Qed.

Lemma section_loop_on_stack f n top depth p out : (2 * length (rest p) + 1 ≤ f)%nat →
  on_stack p n (section_loop f (Some n) top depth p out) (section_loop f None top depth p out).
Proof.
  revert top depth p out. induction f as [|f IH]; intros top depth p out Hf; [lia|]. cbn [section_loop].
  destruct (peek p) as [[c|] q] eqn:Ep; [|by left]. pose proof (peek_later _ _ _ Ep) as Hq.
  pose proof (lt_rest _ _ Hq). eapply on_stack_later; [exact Hq|]. destruct (_ && _); [by left|].
  pose proof (ident_moves q) as Hi. apply on_stack_bind; [by left|by apply moves_stays|].
  intros key r _ Er. rewrite Er in Hi. pose proof (past_length _ _ Hi).
  destruct (peek r) as [c' r'] eqn:Ep'. pose proof (peek_later _ _ _ Ep') as Hr'. pose proof (lt_rest _ _ Hr').
  eapply on_stack_later; [exact Hr'|].
  assert (∀ c0, c' = Some c0 → past r' (advance r' 1)) as Hadv.
  { intros c0 ->. destruct (peek_some _ _ _ Ep') as [b' Hb']. by eapply advance_past. }
  case_bool_decide as Hc; [|case_bool_decide as Hc'; [|by left]].
  - specialize (Hadv _ Hc). pose proof (past_length _ _ Hadv). destruct (32 <? depth + 1); [by left|]. cbn [refuse_if mbind Result_bind].
    eapply on_stack_later; [by apply past_later|].
    destruct (section_loop_stays f false (depth + 1) (advance r' 1) []) as [Hs _]; [lia|].
    apply on_stack_bind; [apply IH; lia|done|]. intros s t Ht _. pose proof (lt_rest _ _ Ht). apply IH. lia.
  - specialize (Hadv _ Hc'). pose proof (past_length _ _ Hadv). eapply on_stack_later; [by apply past_later|].
    apply on_stack_bind; [apply value_list_on_stack; lia|apply moves_stays, value_moves; lia|].
    intros s t Ht _. pose proof (lt_rest _ _ Ht). apply IH. lia.
Qed.

(** With room for [n] calls the parser answers as it would with any, or the
    text opens [n] lists. *)
Lemma parse_on_stack n text :
  parse_metadata_on (Some n) text = parse_metadata text ∨
  parse_metadata_on (Some n) text = overflow ∧ (n ≤ opens (as_bytes text))%nat.
Proof.
  unfold parse_metadata, parse_metadata_on. set (b := as_bytes text).
  destruct (section_loop_on_stack (parse_fuel b) n true 1 (mkPos b 1) []) as [->|[-> Hn]];
    [unfold parse_fuel; cbn [rest]; lia|by left|by right].
Qed.

(** And [n] lists are enough to use it up: one in the other, around an integer. *)
Fixpoint nest (n : nat) : Value := match n with O => Int 1 | S n => List [nest n] end.

Lemma nest_ok n : item_ok (nest n).
Proof. induction n; cbn; constructor; [lia|by apply Forall_singleton]. Qed.

Lemma nest_bytes n :
  ∃ t, as_bytes (print_value (nest n)) = replicate n 91 ++ 49 :: t ∧ opens t = 0%nat.
Proof.
  induction n as [|n (t & IH & Ht)]; [by exists []|]. exists (t ++ [44; 32; 93]).
  cbn [nest print_value map concat replicate]. rewrite app_nil_r, <- app_assoc.
  change (as_bytes (91 :: ?t)) with (91 :: as_bytes t).
  rewrite as_bytes_app, IH, opens_app, Ht. split; [|done]. cbn [app]. by rewrite <- app_assoc.
Qed.

Lemma nest_entry n :
  ∃ t, as_bytes (print_metadata [(lit "a", nest n)]) = [97; 32; 61; 32] ++ replicate n 91 ++ 49 :: t ∧ opens t = 0%nat.
Proof.
  destruct (nest_bytes n) as (t & E & Ht). exists (t ++ [10]). rewrite opens_app, Ht. split; [|done].
  unfold print_metadata. cbn [map concat print_entry].
  assert (match nest n with Sect _ => [] | _ => [61; 32] end = [61; 32]) as -> by by destruct n.
  rewrite app_nil_r, !as_bytes_app, E, <- !app_assoc. done.
Qed.

(** The text opens as many lists as there are calls the stack has room for. *)
Lemma nest_opens n : opens (as_bytes (print_metadata [(lit "a", nest n)])) = n.
Proof.
  destruct (nest_entry n) as (t & -> & Ht). rewrite !opens_app. change (49 :: t) with ([49] ++ t).
  rewrite opens_app, Ht. cbn [opens]. induction n as [|n IH]; [done|]. cbn [replicate]. rewrite opens_cons. cbn in *. lia.
Qed.

Lemma brackets_overflow n f l b : (2 * n + 1 ≤ f)%nat →
  value f (Some n) (mkPos (replicate n 91 ++ 49 :: b) l) = overflow.
Proof.
  revert f l. induction n as [|n IH]; intros f l Hf; (destruct f as [|f]; [lia|]); [done|].
  cbn [value enter replicate app]. rewrite peek_solid by by split_and!. cbn [Z.eqb Pos.eqb]. unfold advance.
  cbn [rest line drop]. rewrite drop_0. destruct f as [|f]; [lia|]. cbn [list_items].
  assert (∃ c t, replicate n 91 ++ 49 :: b = c :: t ∧ solid c ∧ c ≠ 93 ∧ c ≠ 44) as (c & t & E & Hs & H93 & H44)
    by (destruct n; do 2 eexists; (split; [cbn; reflexivity|by split_and!])).
  specialize (IH f l ltac:(lia)). rewrite E in *. rewrite peek_solid by done.
  rewrite !(proj2 (Z.eqb_neq _ _)) by done. by rewrite IH.
Qed.

Lemma key_a : is_key (lit "a").
Proof. split; [done|]. by apply Forall_singleton. Qed.

Lemma nest_overflows n : parse_metadata_on (Some n) (print_metadata [(lit "a", nest n)]) = overflow.
Proof.
  unfold parse_metadata_on. destruct (nest_entry n) as (t & -> & _). cbn zeta. set (b := _ ++ _).
  assert (2 * n + 2 ≤ parse_fuel b)%nat as Hf.
  { unfold parse_fuel, b. rewrite !length_app, length_replicate. cbn [length]. lia. }
  destruct (parse_fuel b) as [|f]; [lia|]. unfold b. change (_ ++ ?x) with (lit "a" ++ 32 :: 61 :: 32 :: x).
  rewrite section_key by (apply key_a || done || by split_and!).
  rewrite bool_decide_eq_false_2, bool_decide_eq_true_2, value_blank by done.
  rewrite brackets_overflow by lia. done.
Qed.

(** Such a text is one the format allows: with room the parser reads it. *)
Lemma nest_metadata n : entries_ok 31 [(lit "a", nest n)].
Proof. apply es_item; [apply key_a|apply nest_ok|constructor]. Qed.
