(* ===== verification/Thin.v ===== *)
(** * dm-thin metadata

    src/lvm/thin.rs: the superblock and the two-level btree from (thin device,
    block) to a block of the pool's data.  Every block read is checked against
    its CRC32C; [read] is the closure over the metadata sub-volume. *)
From S2P Require Import Prelude Bytes Device Utf8 Fmt LvmText.

Module thin.
Definition BLOCK : Z := 4096.
Definition MAGIC : Z := 27022010.
Definition SUPERBLOCK_CSUM_XOR : Z := 160774.
Definition BTREE_CSUM_XOR : Z := 121107.
Definition SB_MAGIC : Z := 32.
Definition SB_VERSION : Z := 40.
Definition SB_DATA_MAPPING_ROOT : Z := 320.
Definition SB_DATA_BLOCK_SIZE : Z := 336.
Definition SB_METADATA_BLOCK_SIZE : Z := 340.
Definition SB_INCOMPAT_FLAGS : Z := 360.
Definition NODE_FLAGS : Z := 4.
Definition NODE_BLOCKNR : Z := 8.
Definition NODE_NR_ENTRIES : Z := 16.
Definition NODE_MAX_ENTRIES : Z := 20.
Definition NODE_VALUE_SIZE : Z := 24.
Definition NODE_HEADER : Z := 32.
Definition INTERNAL_NODE : Z := 1.
Definition LEAF_NODE : Z := 2.
Definition MAX_DEPTH : nat := 16.
Definition TIME_BITS : Z := 24.

Record Superblock := mkSuper { data_mapping_root : Z; data_block_size : Z }.

(** [ReadBlock]: the bytes at an offset of the metadata sub-volume. *)
Definition ReadBlock : Type := Z → Z → Result FsError (list Z).

(** ** CRC32C *)
Fixpoint crc32c_bits (k : nat) (c : Z) : Z :=
  match k with
  | O => c
  | S k => crc32c_bits k (if Z.odd c then Z.lxor (Z.shiftr c 1) 0x82f63b78 else Z.shiftr c 1)
  end.
Definition CRC32C : list Z := Eval vm_compute in map (crc32c_bits 8) (seqZ 0 256).

Definition crc32c_register (data : list Z) : Z :=
  foldl (λ crc byte, Z.lxor (byte_at CRC32C (Z.land (Z.lxor crc byte) 0xff)) (Z.shiftr crc 8))
    0xffffffff data.

(** The check value the source's own test names. *)
Example crc32c_check_value :
  Z.lxor (crc32c_register (ascii_bytes "123456789")) 0xffffffff = 0xe3069283.
Proof. vm_compute. reflexivity. Qed.

(** ** Blocks *)
Definition block (read : ReadBlock) (n xor : Z) (what : string) : Result LvmError (list Z) :=
  at_ ← ok_or (checked_mul n BLOCK) (Corrupt (what +:+ ": block " +:+ pretty n +:+ " is out of range"));
  b ← map_err LvmBlock (read at_ BLOCK);
  let want := Z.lxor (crc32c_register (drop 4 b)) xor in
  _ ← refuse_if (negb (le32 b 0 =? want))
        (Corrupt (what +:+ " at metadata block " +:+ pretty n +:+ ": checksum mismatch"));
  Ok b.

Definition superblock (read : ReadBlock) : Result LvmError Superblock :=
  b ← block read 0 SUPERBLOCK_CSUM_XOR "thin pool superblock";
  _ ← refuse_if (negb (le64 b SB_MAGIC =? MAGIC)) (Corrupt "thin pool superblock: bad magic");
  let version := le32 b SB_VERSION in
  _ ← refuse_if (negb ((1 <=? version) && (version <=? 2)))
        (Unsupported ("thin pool metadata version " +:+ pretty version));
  let incompat := le32 b SB_INCOMPAT_FLAGS in
  _ ← refuse_if (negb (incompat =? 0)) 
        (Unsupported ("thin pool metadata incompatible features " +:+ hex incompat));
  let meta := le32 b SB_METADATA_BLOCK_SIZE * SECTOR in
  _ ← refuse_if (negb (meta =? BLOCK)) (Corrupt ("thin pool metadata block size " +:+ pretty meta));
  let data_block_size := le32 b SB_DATA_BLOCK_SIZE * SECTOR in
  _ ← refuse_if (data_block_size =? 0) (Corrupt "thin pool data block size 0");
  Ok (mkSuper (le64 b SB_DATA_MAPPING_ROOT) data_block_size).

(** ** The btree *)

(** [slice::partition_point]: how many elements, from the first, satisfy the
    predicate.  The standard library says so of a partitioned slice, which
    the sorted keys of a node are, and leaves other slices unspecified. *)
Fixpoint partition_point (f : Z → bool) (l : list Z) : nat :=
  match l with
  | x :: l => if f x then S (partition_point f l) else O
  | [] => O
  end.

Definition key_at (b : list Z) (i : Z) : Z := le64 b (NODE_HEADER + 8 * i).
Definition value_at (b : list Z) (max i : Z) : Z := le64 b (NODE_HEADER + 8 * max + 8 * i).

(** The [for _ in 0..MAX_DEPTH] of [lookup]; [depth] is the rounds left. *)
Fixpoint walk (read : ReadBlock) (root key : Z) (depth : nat) (at_ : Z) : Result LvmError (option Z) :=
  match depth with
  | O => Err (Corrupt ("thin pool btree from block " +:+ pretty root +:+ " is deeper than 16"))
  | S depth =>
      b ← block read at_ BTREE_CSUM_XOR "thin pool btree node";
      _ ← refuse_if (negb (le64 b NODE_BLOCKNR =? at_))
            (Corrupt ("thin pool btree node at block " +:+ pretty at_ +:+ " says it is block "
               +:+ pretty (le64 b NODE_BLOCKNR)));
      let flags := le32 b NODE_FLAGS in
      let nr := le32 b NODE_NR_ENTRIES in
      let max := le32 b NODE_MAX_ENTRIES in
      let value_size := le32 b NODE_VALUE_SIZE in
      _ ← refuse_if (negb (value_size =? 8) || (max <? nr)
                     || (BLOCK <? NODE_HEADER + max * (8 + value_size)))
            (Corrupt ("thin pool btree node at block " +:+ pretty at_ +:+ ": " +:+ pretty nr
               +:+ " of " +:+ pretty max +:+ " entries of " +:+ pretty value_size +:+ " bytes"));
      let keys := map (key_at b) (seqZ 0 nr) in
      match partition_point (λ k, k <=? key) keys with
      | O => Ok None
      | S i =>
          let i := Z.of_nat i in
          if flags =? INTERNAL_NODE then walk read root key depth (value_at b max i)
          else if flags =? LEAF_NODE then
            Ok (if bool_decide (keys !! Z.to_nat i = Some key) then Some (value_at b max i) else None)
          else Err (Corrupt ("thin pool btree node at block " +:+ pretty at_ +:+ ": flags " +:+ hex flags))
      end
  end.

Definition lookup (read : ReadBlock) (root key : Z) : Result LvmError (option Z) :=
  walk read root key MAX_DEPTH root.

Definition device_root (read : ReadBlock) (sb : Superblock) (dev : Z) : Result LvmError (option Z) :=
  lookup read (data_mapping_root sb) dev.

Definition data_block (read : ReadBlock) (root vb : Z) : Result LvmError (option Z) :=
  o ← lookup read root vb;
  Ok (option_map (λ v, Z.shiftr v TIME_BITS) o).
End thin.
