(* ===== verification/Lvm.v ===== *)
(** * LVM2: labels, metadata areas and the volume group

    src/lvm.rs up to [scan]: the PV label, the metadata ring, the interpreted
    metadata ([VolumeGroup]) and the sorting of devices into groups.  Names and
    UUIDs are texts (lists of code points). *)
From S2P Require Import Prelude Bytes Device Utf8 Fmt LvmText.
From S2P Require Md.

Definition LABEL_SCAN_SECTORS : Z := 4.
Definition LABEL_ID : list Z := ascii_bytes "LABELONE".
Definition LABEL_TYPE : list Z := ascii_bytes "LVM2 001".
Definition MDA_MAGIC : list Z := ascii_bytes " LVM2 x[5A%r0N*>".
Definition MDA_HEADER_SIZE : Z := 512.
Definition LVM_CRC_SEED : Z := 0xf597a6cf.
Definition MAX_METADATA : Z := Z.shiftl 16 20.
Definition RAW_LOCN_IGNORED : Z := 1.

Definition lvm_crc (data : list Z) : Z :=
  foldl (λ crc b, crc32_bits 8 (Z.lxor crc b)) LVM_CRC_SEED data.

(** ** The label *)
Record PvLabel := mkLabel {
  label_sector : Z;
  pv_uuid : list Z;
  device_size : Z;
  data_areas : list (Z * Z);
  metadata_areas : list (Z * Z);
}.

(** One list of areas, from [at_]: the pairs up to a zero offset, and where it
    ends.  The sector has room for 32 pairs. *)
Fixpoint area_list (fuel : nat) (s : list Z) (at_ : Z) (acc : list (Z * Z))
    : Result LvmError (list (Z * Z) * Z) :=
  match fuel with
  | O => Err (Corrupt "unterminated area list")
  | S fuel =>
      _ ← refuse_if (zlen s <? at_ + 16) (Corrupt "unterminated area list");
      let '(off, size) := (le64 s at_, le64 s (at_ + 8)) in
      let at_ := at_ + 16 in
      if off =? 0 then Ok (acc, at_) else area_list fuel s at_ (acc ++ [(off, size)])
  end.

(** A sector that holds this sector's label. *)
Definition parse_label `{!CharTables} (s : list Z) (sector device : Z) : Result LvmError PvLabel :=
  _ ← refuse_if (negb (lvm_crc (drop 20 s) =? le32 s 16)) (BadChecksum device "label");
  _ ← refuse_if (negb (bytes_eqb (bslice s 24 32) LABEL_TYPE)) 
        (Unsupported ("label type " +:+ debug_str (from_utf8_lossy (bslice s 24 32))));
  let at_ := le32 s 20 in
  _ ← refuse_if ((at_ <? 32) || (zlen s <? at_ + 40)) (Corrupt ("pv_header offset " +:+ pretty at_));
  let uuid := from_utf8_lossy (bslice s at_ (at_ + 32)) in
  let device_size := le64 s (at_ + 32) in
  '(data_areas, at_) ← area_list 33 s (at_ + 40) [];
  '(metadata_areas, _) ← area_list 33 s at_ [];
  Ok (mkLabel sector uuid device_size data_areas metadata_areas).

Section device.
Context {R : Type} `{!BlockRead R} {tables : CharTables}.

Fixpoint scan_label (dev : R) (device : Z) (sectors : list Z) : Result LvmError (option PvLabel) :=
  match sectors with
  | [] => Ok None
  | sector :: sectors =>
      if size_bytes dev <? (sector + 1) * SECTOR then Ok None
      else
        s ← map_err LvmBlock (read_at dev (sector * SECTOR) SECTOR);
        if negb (bytes_eqb (bslice s 0 8) LABEL_ID) then scan_label dev device sectors
        else if negb (le64 s 8 =? sector) then scan_label dev device sectors
        else label ← parse_label s sector device; Ok (Some label)
  end.
Definition read_pv_label_of (dev : R) (device : Z) : Result LvmError (option PvLabel) :=
  scan_label dev device (seqZ 0 LABEL_SCAN_SECTORS).
Definition read_pv_label (dev : R) : Result LvmError (option PvLabel) := read_pv_label_of dev 0.

(** ** The metadata area *)
Definition read_area (dev : R) (start size device : Z) : Result LvmError (option (list Z)) :=
  _ ← refuse_if ((size <=? MDA_HEADER_SIZE)
        || match checked_add start size with Some e => size_bytes dev <? e | None => true end)
        (Corrupt ("metadata area " +:+ pretty start +:+ "+" +:+ pretty size +:+ " on a "
           +:+ pretty (size_bytes dev) +:+ "-byte device"));
  h ← map_err LvmBlock (read_at dev start MDA_HEADER_SIZE);
  _ ← refuse_if (negb (lvm_crc (drop 4 h) =? le32 h 0)) (BadChecksum device "metadata area header");
  _ ← refuse_if (negb (bytes_eqb (bslice h 4 20) MDA_MAGIC)) (Corrupt "metadata area magic");
  let off := le64 h 40 in
  let len := le64 h 48 in
  if (off =? 0) || (len =? 0) || negb (Z.land (le32 h 60) RAW_LOCN_IGNORED =? 0) then Ok None
  else
    _ ← refuse_if ((MAX_METADATA <? len) || (off <? MDA_HEADER_SIZE) || (size <=? off))
          (Corrupt ("metadata at " +:+ pretty off +:+ "+" +:+ pretty len));
    let first := Z.min (size - off) len in
    head_ ← map_err LvmBlock (read_at dev (start + off) first);
    tail_ ← (if first <? len then
               let rest := len - first in
               _ ← refuse_if (size <? MDA_HEADER_SIZE + rest) (Corrupt "metadata wraps past its area");
               map_err LvmBlock (read_at dev (start + MDA_HEADER_SIZE) rest)
             else Ok []);
    let text := head_ ++ tail_ in
    _ ← refuse_if (negb (lvm_crc text =? le32 h 56)) (BadChecksum device "metadata text");
    Ok (Some (from_utf8_lossy (Md.until_nul text))).
End device.

(** ** The volume group, as its metadata describes it *)
Record PhysicalVolume := mkPv { pv_name : list Z; pv_id : list Z; pe_start : Z; pe_count : Z }.
Record Stripe := mkStripe { s_pv : list Z; s_start_extent : Z }.
Record Segment := mkSegment {
  start_extent : Z;
  extent_count : Z;
  kind : list Z;
  stripe_size : Z;
  stripes : list Stripe;
  images : list (list Z);
  metadata : list (list Z);
  thin_pool : option (list Z);
  device_id : option Z;
  external_origin : option (list Z);
}.
Record LogicalVolumeInfo := mkLv { lv_name : list Z; lv_id : list Z; segments : list Segment }.
Record VolumeGroup := mkVg {
  vg_name : list Z;
  vg_id : list Z;
  seqno : Z;
  extent_size : Z;
  physical_volumes : list PhysicalVolume;
  logical_volumes : list LogicalVolumeInfo;
}.

(** [slice::chunks(2)]. *)
Fixpoint chunks2 (l : list Value) : list (list Value) :=
  match l with
  | a :: b :: l => [a; b] :: chunks2 l
  | [a] => [[a]]
  | [] => []
  end.

Definition starts_with (t p : list Z) : bool := bytes_eqb (take (length p) t) p.
Definition is_kind (t : list Z) (k : string) : bool := bytes_eqb t (lit k).

(** [{lv_name}/{key}: what]. *)
Definition at_segment (lv_name key : list Z) (what : string) : string :=
  show lv_name +:+ "/" +:+ show key +:+ ": " +:+ what.

Definition stripe_of (lv_name key : list Z) (pair : list Value) : Result LvmError (option Stripe) :=
  match pair with
  | [Str pv; Int e] =>
      if 0 <=? e then Ok (Some (mkStripe pv e))
      else Err (Corrupt (at_segment lv_name key "stripes list"))
  | _ => Err (Corrupt (at_segment lv_name key "stripes list"))
  end.

(** The [kind == "striped"] branch: stripe size and stripes. *)
Definition striped_of (lv_name key : list Z) (seg : Entries) : Result LvmError (Z * list Stripe) :=
  match get seg (lit "stripes") with
  | Some (List items) =>
      stripes ← collectM (stripe_of lv_name key) (chunks2 items);
      count ← uint seg "stripe_count";
      _ ← refuse_if (negb (count =? zlen stripes) || (count =? 0))
            (Corrupt (at_segment lv_name key ("stripe_count " +:+ pretty count +:+ ", "
               +:+ pretty (zlen stripes) +:+ " stripes")));
      if 1 <? count then
        s ← uint seg "stripe_size";
        s ← ok_or (checked_mul s SECTOR) (Corrupt "stripe_size");
        _ ← refuse_if (s =? 0) (Corrupt "stripe_size");
        Ok (s, stripes)
      else Ok (0, stripes)
  | _ => Err (Corrupt (at_segment lv_name key "no stripes"))
  end.

Definition raid_pair (lv_name key : list Z) (pair : list Value)
    : Result LvmError (option (list Z * list Z)) :=
  match pair with
  | [Str meta; Str image] => Ok (Some (meta, image))
  | _ => Err (Unsupported (at_segment lv_name key
           "a raids list without a metadata sub-volume per image"))
  end.
Definition mirror_pair (lv_name key : list Z) (pair : list Value) : Result LvmError (option (list Z)) :=
  match pair with
  | [Str image; Int e] =>
      if e =? 0 then Ok (Some image)
      else Err (Unsupported (at_segment lv_name key
             "a mirror image that does not start at its sub-volume's first extent"))
  | _ => Err (Unsupported (at_segment lv_name key
           "a mirror image that does not start at its sub-volume's first extent"))
  end.

(** Images and metadata sub-volumes, by the segment's type. *)
Definition images_of (lv_name key kind : list Z) (seg : Entries)
    : Result LvmError (list (list Z) * list (list Z)) :=
  if starts_with kind (lit "raid") then
    match get seg (lit "raids") with
    | Some (List items) =>
        ps ← collectM (raid_pair lv_name key) (chunks2 items);
        Ok (map snd ps, map fst ps)
    | _ => Err (Corrupt (at_segment lv_name key "no raids"))
    end
  else if is_kind kind "thin-pool" then
    meta ← str seg "metadata";
    pool ← str seg "pool";
    Ok ([pool], [meta])
  else if is_kind kind "mirror" then
    match get seg (lit "mirrors") with
    | Some (List items) =>
        images ← collectM (mirror_pair lv_name key) (chunks2 items);
        Ok (images, [])
    | _ => Err (Corrupt (at_segment lv_name key "no mirrors"))
    end
  else Ok ([], []).

(** [Result::ok]. *)
Definition ok {A} (r : Result LvmError A) : option A := match r with Ok a => Some a | Err _ => None end.

Definition segment_of (lv_name : list Z) (ks : list Z * Entries) : Result LvmError (option Segment) :=
  let '(key, seg) := ks in
  if negb (starts_with key (lit "segment")) then Ok None
  else
    kind ← str seg "type";
    '(stripe_size, stripes) ←
      (if is_kind kind "striped" then striped_of lv_name key seg else Ok (0, []));
    '(images, metadata) ← images_of lv_name key kind seg;
    start_extent ← uint seg "start_extent";
    extent_count ← uint seg "extent_count";
    Ok (Some (mkSegment start_extent extent_count kind stripe_size stripes images metadata
      (ok (str seg "thin_pool")) (ok (uint seg "device_id")) (ok (str seg "external_origin")))).

Definition lv_of (kl : list Z * Entries) : Result LvmError (option LogicalVolumeInfo) :=
  let '(lv_name, lv) := kl in
  segments ← collectM (segment_of lv_name) (sections lv);
  Ok (Some (mkLv lv_name (default [] (ok (str lv "id")))
    (sort_by (λ a b, start_extent a <=? start_extent b) segments))).

Definition pv_of (kp : list Z * Entries) : Result LvmError (option PhysicalVolume) :=
  let '(pv_name, pv) := kp in
  id ← str pv "id";
  start ← uint pv "pe_start";
  start ← ok_or (checked_mul start SECTOR) (Corrupt "pe_start");
  count ← uint pv "pe_count";
  Ok (Some (mkPv pv_name (filter (λ c, c ≠ 45) id) start count)).

Definition from_metadata (top : Entries) : Result LvmError VolumeGroup :=
  '(name, vg) ← ok_or (head (sections top)) (Corrupt "no volume group section");
  ext ← uint vg "extent_size";
  ext ← ok_or (checked_mul ext SECTOR) (Corrupt "extent_size");
  _ ← refuse_if (ext =? 0) (Corrupt "extent_size");
  pvs ← section vg "physical_volumes";
  physical_volumes ← collectM pv_of (sections pvs);
  logical_volumes ←
    match get vg (lit "logical_volumes") with
    | Some (Sect lvs) => collectM lv_of (sections lvs)
    | _ => Ok []
    end;
  id ← str vg "id";
  seq ← uint vg "seqno";
  Ok (mkVg name id seq ext physical_volumes logical_volumes).
