(* ===== verification/ThinTree.v ===== *)
(** * dm-thin's btree: looking a key up

    [tree M d n kvs] says that the metadata [M] holds, at block [n], a btree of
    depth at most [d] with the entries [kvs]; [lookup_tree] proves that
    [thin.lookup] finds in it what the list of entries holds. *)
From S2P Require Import Prelude Bytes Device Fmt LvmText Thin MdStripe.
Import thin.

(** The block at [n], as the metadata sub-volume holds it. *)
Definition block_bytes (M : Z → Z) (n : Z) : list Z := bytes_of M (n * BLOCK) BLOCK.

(** A checked node of [size] bytes of metadata: its kind, keys and values. *)
Record node (M : Z → Z) (size n kind : Z) (keys vals : list Z) : Prop := {
  nd_inside : 0 ≤ n ∧ n * BLOCK + BLOCK ≤ size;
  nd_crc : le32 (block_bytes M n) 0
    = Z.lxor (crc32c_register (drop 4 (block_bytes M n))) BTREE_CSUM_XOR;
  nd_blocknr : le64 (block_bytes M n) NODE_BLOCKNR = n;
  nd_flags : le32 (block_bytes M n) NODE_FLAGS = kind;
  nd_count : le32 (block_bytes M n) NODE_NR_ENTRIES = zlen keys;
  nd_room : zlen keys ≤ le32 (block_bytes M n) NODE_MAX_ENTRIES ∧
    NODE_HEADER + le32 (block_bytes M n) NODE_MAX_ENTRIES * 16 ≤ BLOCK;
  nd_value_size : le32 (block_bytes M n) NODE_VALUE_SIZE = 8;
  nd_keys : map (key_at (block_bytes M n)) (seqZ 0 (zlen keys)) = keys;
  nd_vals : map (value_at (block_bytes M n) (le32 (block_bytes M n) NODE_MAX_ENTRIES))
    (seqZ 0 (zlen keys)) = vals;
  nd_sorted : StronglySorted Z.lt keys;
}.

(** The children's entries lie between their keys. *)
Definition between (keys : list Z) (kvss : list (list (Z * Z))) : Prop :=
  ∀ i kvs k, kvss !! i = Some kvs → keys !! i = Some k →
  ∀ kv, kv ∈ kvs → k ≤ kv.1 ∧ ∀ k', keys !! S i = Some k' → kv.1 < k'.

Fixpoint tree (M : Z → Z) (size : Z) (d : nat) (n : Z) (kvs : list (Z * Z)) : Prop :=
  match d with
  | O => False
  | S d =>
      (∃ keys vals, node M size n LEAF_NODE keys vals ∧ kvs = zip keys vals) ∨
      (∃ keys children kvss, node M size n INTERNAL_NODE keys children ∧
         length kvss = length keys ∧ between keys kvss ∧ kvs = concat kvss ∧
         ∀ i c ks, children !! i = Some c → kvss !! i = Some ks → tree M size d c ks)
  end.

(** The value under a key, if any. *)
Definition value_under (kvs : list (Z * Z)) (key : Z) : option Z :=
  snd <$> List.find (λ kv, kv.1 =? key) kvs.

Lemma value_under_none kvs key : (∀ kv, kv ∈ kvs → kv.1 ≠ key) → value_under kvs key = None.
Proof.
  intros H. unfold value_under. induction kvs as [|kv kvs IH]; cbn [List.find]; [done|].
  rewrite (proj2 (Z.eqb_neq _ _)) by (apply H; set_solver). apply IH. set_solver.
Qed.

Lemma value_under_app a b key : (∀ kv, kv ∈ a → kv.1 ≠ key) → value_under (a ++ b) key = value_under b key.
Proof.
  intros H. induction a as [|kv a IH]; cbn [app]; [done|]. unfold value_under. cbn [List.find].
  rewrite (proj2 (Z.eqb_neq _ _)) by (apply H; set_solver). apply IH. set_solver.
Qed.

Lemma value_under_skip a b key : (∀ kv, kv ∈ b → kv.1 ≠ key) → value_under (a ++ b) key = value_under a key.
Proof.
  intros H. unfold value_under. induction a as [|kv a IH]; cbn [app List.find].
  - by apply value_under_none.
  - by destruct (kv.1 =? key).
Qed.

(** ** [partition_point] on sorted keys *)
Local Abbreviation upto key keys := (partition_point (λ k, Z.leb k key) keys).

Lemma partition_point_spec keys key : StronglySorted Z.lt keys →
  let p := upto key keys in
  (p ≤ length keys)%nat ∧
  (∀ i k, keys !! i = Some k → (i < p)%nat ↔ k ≤ key).
Proof.
  intros Hs. cbn zeta. induction Hs as [|x keys Hs [IH1 IH2] Hx]; cbn [partition_point].
  { split; [done|]. intros i k. by rewrite lookup_nil. }
  destruct (Z.leb_spec x key) as [Hle|Hgt].
  - split; [cbn; lia|]. intros [|i] k Hk; cbn in Hk; [injection Hk as <-; lia|]. rewrite <- (IH2 i k Hk). lia.
  - split; [lia|]. intros i k Hk. split; [lia|]. intros Hle. exfalso.
    destruct i as [|i]; cbn in Hk; [injection Hk as <-; lia|].
    apply list_elem_of_lookup_2 in Hk. pose proof (proj1 (list.Forall_forall _ _) Hx k Hk). cbn in *. lia.
Qed.

Lemma sorted_lookup keys i j x y : StronglySorted Z.lt keys → (i < j)%nat →
  keys !! i = Some x → keys !! j = Some y → x < y.
Proof.
  intros Hs. revert i j. induction Hs as [|z keys Hs IH Hz]; intros i j Hij Hi Hj; [by rewrite lookup_nil in Hi|].
  destruct j as [|j]; [lia|]. cbn in Hj. destruct i as [|i]; cbn in Hi.
  - injection Hi as <-. apply list_elem_of_lookup_2 in Hj. exact (proj1 (list.Forall_forall _ _) Hz y Hj).
  - by apply (IH i j); [lia|..].
Qed.

(** The last key not above the one sought decides, in a leaf and in an
    internal node. *)
Lemma value_under_at keys vals i key : StronglySorted Z.lt keys → length vals = length keys →
  keys !! i = Some key → value_under (zip keys vals) key = vals !! i.
Proof.
  intros Hs. revert vals i. induction Hs as [|x keys Hs IH Hx]; intros vals i Hl Hi; [by rewrite lookup_nil in Hi|].
  destruct vals as [|v vals]; [done|]. injection Hl as Hl. unfold value_under. cbn [zip zip_with List.find fst].
  destruct i as [|i]; cbn in Hi.
  - injection Hi as ->. by rewrite Z.eqb_refl.
  - assert (x < key) by exact (proj1 (list.Forall_forall _ _) Hx key (list_elem_of_lookup_2 _ _ _ Hi)).
    rewrite (proj2 (Z.eqb_neq x key)) by lia. exact (IH vals i Hl Hi).
Qed.

Lemma leaf_value keys vals key : StronglySorted Z.lt keys → length vals = length keys →
  value_under (zip keys vals) key =
    match upto key keys with
    | O => None
    | S i => if bool_decide (keys !! i = Some key) then vals !! i else None
    end.
Proof.
  intros Hs Hl. destruct (partition_point_spec keys key Hs) as [Hp Hspec].
  assert (∀ i, keys !! i = Some key → upto key keys = S i) as Hat.
  { intros i Hi. assert (i < upto key keys)%nat as Hlt by (apply (Hspec i key Hi); lia).
    destruct (decide (upto key keys = S i)) as [|Hne]; [done|].
    destruct (lookup_lt_is_Some_2 keys (S i)) as [y Hy]; [lia|].
    pose proof (sorted_lookup keys i (S i) key y Hs ltac:(lia) Hi Hy).
    assert (y ≤ key) by (apply (Hspec (S i) y Hy); lia). lia. }
  destruct (list_elem_of_dec key keys) as [[i Hi]%list_elem_of_lookup_1|Hno].
  - rewrite (Hat i Hi), bool_decide_eq_true_2 by done. by apply value_under_at.
  - rewrite value_under_none.
    + destruct (partition_point _ keys) as [|i]; [done|]. rewrite bool_decide_eq_false_2; [done|].
      intros Hi. apply Hno. by eapply list_elem_of_lookup_2.
    + intros [k v] Hkv E. cbn in E. subst k. by apply elem_of_zip_l in Hkv.
Qed.

Lemma elem_of_concat {A} (x : A) ls : x ∈ concat ls → ∃ j l, ls !! j = Some l ∧ x ∈ l.
Proof.
  intros (l & Hl & Hx)%list_elem_of_In%in_concat. apply list_elem_of_In, list_elem_of_lookup_1 in Hl as [j Hj].
  exists j, l. split; [done|]. by apply list_elem_of_In.
Qed.

Lemma child_value keys kvss key : StronglySorted Z.lt keys → length kvss = length keys → between keys kvss →
  value_under (concat kvss) key =
    match upto key keys with
    | O => None
    | S i => value_under (default [] (kvss !! i)) key
    end.
Proof.
  intros Hs Hl Hb. destruct (partition_point_spec keys key Hs) as [Hp Hspec].
  assert (∀ j ks kv, kvss !! j = Some ks → kv ∈ ks →
    if decide (S j = upto key keys) then True else kv.1 ≠ key) as Hout.
  { intros j ks kv Hj Hkv. destruct (lookup_lt_is_Some_2 keys j) as [k Hk].
    { rewrite <- Hl. by eapply lookup_lt_Some. }
    destruct (Hb j ks k Hj Hk kv Hkv) as [Hlo Hhi]. destruct (decide _) as [|Hne]; [done|].
    destruct (decide (j < upto key keys)%nat) as [Hlt|Hge].
    - destruct (lookup_lt_is_Some_2 keys (S j)) as [k' Hk']; [lia|].
      pose proof (Hhi k' Hk'). assert (k' ≤ key) by (apply (Hspec (S j) k' Hk'); lia). lia.
    - assert (¬ k ≤ key) by (intros Hle; apply Hge, (Hspec j k Hk), Hle). lia. }
  destruct (upto key keys) as [|i] eqn:Ei.
  - apply value_under_none. intros kv (j & ks & Hj & Hkv)%elem_of_concat. exact (Hout j ks kv Hj Hkv).
  - destruct (lookup_lt_is_Some_2 kvss i) as [ks Hks]; [lia|]. rewrite Hks. cbn [default].
    rewrite <- (take_drop_middle kvss i ks Hks), concat_app. cbn [concat].
    rewrite value_under_app, value_under_skip; [done|..].
    + intros kv (j & ks' & Hj & Hkv)%elem_of_concat.
      rewrite lookup_drop in Hj. specialize (Hout _ ks' kv Hj Hkv). by rewrite decide_False in Hout by lia.
    + intros kv (j & ks' & Hj & Hkv)%elem_of_concat.
      apply lookup_take_Some in Hj as [Hj Hlt]. specialize (Hout _ ks' kv Hj Hkv).
      by rewrite decide_False in Hout by lia.
Qed.

(** ** One node *)
Section node.
Context (read : ReadBlock) (M : Z → Z) (size : Z) (Hsize : size < 2 ^ 64).
Context (Hread : ∀ off len, 0 ≤ off → 0 ≤ len → off + len ≤ size → read off len = Ok (bytes_of M off len)).

Lemma block_read n xor what : 0 ≤ n → n * BLOCK + BLOCK ≤ size →
  le32 (block_bytes M n) 0 = Z.lxor (crc32c_register (drop 4 (block_bytes M n))) xor →
  block read n xor what = Ok (block_bytes M n).
Proof.
  intros Hn He Hc. assert (0 < BLOCK) as HB by reflexivity.
  assert (read (n * BLOCK) BLOCK = Ok (block_bytes M n)) as Hb by (apply Hread; lia).
  set (b := block_bytes M n) in *. clearbody b. unfold block.
  rewrite checked_mul_ok by lia. cbn [ok_or mbind Result_bind].
  rewrite Hb. cbn [map_err mbind Result_bind].
  rewrite refuse_no; [done|]. by rewrite Hc, Z.eqb_refl.
Qed.

(** One round of the walk, at a good node. *)
Lemma walk_node root key d n kind keys vals : node M size n kind keys vals →
  walk read root key (S d) n =
    match upto key keys with
    | O => Ok None
    | S i =>
        if kind =? INTERNAL_NODE then walk read root key d (default 0 (vals !! i))
        else if kind =? LEAF_NODE then
          Ok (if bool_decide (keys !! i = Some key) then vals !! i else None)
        else Err (Corrupt ("thin pool btree node at block " +:+ pretty n +:+ ": flags " +:+ hex kind))
    end.
Proof.
  intros [[Hn He] Hcrc Hnr Hfl Hcnt [Hr1 Hr2] Hvs Hks Hvals Hso].
  pose proof (block_read n _ "thin pool btree node" Hn He Hcrc) as Hb.
  set (b := block_bytes M n) in *. clearbody b. cbn [walk]. rewrite Hb. cbn [mbind Result_bind]. rewrite Hnr, Z.eqb_refl. cbn [negb refuse_if mbind Result_bind].
  rewrite Hvs, Hcnt, Hfl. rewrite refuse_no by lia. rewrite Hks.
  pose proof (partition_point_spec keys key Hso) as [Hp _].
  destruct (partition_point _ keys) as [|i]; [done|]. rewrite Nat2Z.id.
  assert (vals !! i = Some (value_at b (le32 b NODE_MAX_ENTRIES) (Z.of_nat i))) as Hv.
  { rewrite <- Hvals. change (map ?f ?l) with (f <$> l). rewrite list_lookup_fmap, lookup_seqZ_lt by (unfold zlen in *; lia).
    cbn. f_equal. }
  rewrite Hv. cbn [default]. done.
Qed.

Lemma nd_lengths n kind keys vals : node M size n kind keys vals → length vals = length keys.
Proof.
  intros Hn. rewrite <- (nd_vals _ _ _ _ _ _ Hn). rewrite length_map, length_seqZ. unfold zlen. lia.
Qed.

Lemma walk_tree root key d n kvs : tree M size d n kvs → walk read root key d n = Ok (value_under kvs key).
Proof.
  revert n kvs. induction d as [|d IH]; intros n kvs; [done|]. cbn [tree].
  intros [(keys & vals & Hn & ->)|(keys & children & kvss & Hn & Hlen & Hb & -> & Ht)];
    rewrite (walk_node _ _ _ _ _ _ _ Hn); pose proof (nd_lengths _ _ _ _ Hn) as Hl;
    pose proof (nd_sorted _ _ _ _ _ _ Hn) as Hs.
  - rewrite (leaf_value keys vals key Hs Hl). by destruct (upto key keys).
  - rewrite (child_value keys kvss key Hs Hlen Hb).
    destruct (partition_point_spec keys key Hs) as [Hp _].
    destruct (upto key keys) as [|i] eqn:Ei; [done|]. cbn [Z.eqb Pos.eqb].
    destruct (lookup_lt_is_Some_2 children i) as [c Hc]; [lia|].
    destruct (lookup_lt_is_Some_2 kvss i) as [ks Hks]; [lia|].
    rewrite Hc, Hks. cbn [default]. by apply (IH c ks), (Ht i c ks).
Qed.

(** A tree of depth sixteen at most is looked up in the rounds there are. *)
Lemma lookup_of_tree root key kvs : tree M size MAX_DEPTH root kvs →
  lookup read root key = Ok (value_under kvs key).
Proof. apply walk_tree. Qed.

Lemma data_block_of_tree root vb kvs : tree M size MAX_DEPTH root kvs →
  data_block read root vb = Ok (option_map (λ v, Z.shiftr v TIME_BITS) (value_under kvs vb)).
Proof. intros Ht. unfold data_block. by rewrite (lookup_of_tree root vb kvs Ht). Qed.
End node.
