(* ===== verification/LvmMap.v ===== *)
(** * LVM2: opening and reading a logical volume

    src/lvm.rs from [read_metadata_text_of] on: the newest metadata among the
    areas and the devices, [scan], [Mapper] (a volume's segments resolved to
    runs over devices), [read_runs] and [LogicalVolume].  [Mapper::map]'s depth
    is structural, the rounds left; a sum the source leaves unchecked wraps. *)
From S2P Require Import Prelude Bytes Device Utf8 Fmt MdLayout MdRead LvmText Thin Lvm.
From S2P Require Md.

(** ** Runs *)

(** [Run] and [Map]; the fields of the boxed [RaidMap] and [ThinMap] are the
    constructors' arguments. *)
Inductive Run := mkRun (r_start r_len : Z) (r_map : Map)
with Map :=
| Striped (stripe_size : Z) (stripes : list (Z * Z))
| RaidMap (level : Z) (raid10 : option Raid10) (layout chunk data_offset : Z)
    (images : list (option (list Run)))
| ThinMap (block : Z) (meta data : list Run) (root : Z).

Definition r_start (r : Run) : Z := let 'mkRun s _ _ := r in s.
Definition r_len (r : Run) : Z := let 'mkRun _ l _ := r in l.
Definition r_map (r : Run) : Map := let 'mkRun _ _ m := r in m.

(** ** dm-raid superblocks *)
Module dm_raid.
Definition MAGIC : Z := 0x64526d44.
Definition COMPAT_V190 : Z := 1.
Definition COMPAT_FEATURES : Z := 4.
Definition LEVEL : Z := 48.
Definition LAYOUT : Z := 52.
Definition STRIPE_SECTORS : Z := 56.
Definition DATA_OFFSET : Z := 96.
Definition SIZE : Z := 120.
End dm_raid.

Record DmRaidSuper := mkDm { dm_level : Z; dm_layout : Z; dm_chunk : Z; dm_data_offset : Z }.

Definition parse_dm_raid_super (b : list Z) (what : list Z) : Result LvmError DmRaidSuper :=
  _ ← refuse_if ((zlen b <? dm_raid.SIZE) || negb (le32 b 0 =? dm_raid.MAGIC))
        (Corrupt (show what +:+ ": no dm-raid superblock"));
  let data_offset :=
    if negb (Z.land (le32 b dm_raid.COMPAT_FEATURES) dm_raid.COMPAT_V190 =? 0)
    then le64 b dm_raid.DATA_OFFSET else 0 in
  data_offset ← ok_or (checked_mul data_offset SECTOR)
                  (Corrupt (show what +:+ ": data offset overflows"));
  Ok (mkDm (Md.as_i32 (le32 b dm_raid.LEVEL)) (le32 b dm_raid.LAYOUT)
        (le32 b dm_raid.STRIPE_SECTORS * SECTOR) data_offset).

Definition is_here {A} (o : option A) : bool := match o with Some _ => true | None => false end.

Definition survives (level : Z) (raid10 : option Raid10) (images : list (option (list Run))) : bool :=
  let n := zlen images in
  let present slot := is_here (default None (images !! Z.to_nat slot)) in
  let missing := zlen (filter (λ i, is_here i = false) images) in
  match raid10 with
  | Some geo =>
      if level =? 10 then forallb (λ c, existsb (λ '(s, _), present s) (copies geo n c)) (seqZ 0 n)
      else if level =? 1 then missing <? n else if level =? 6 then missing <=? 2 else missing <=? 1
  | None => if level =? 1 then missing <? n else if level =? 6 then missing <=? 2 else missing <=? 1
  end.

Section devices.
Context {R : Type} `{!BlockRead R} {tables : CharTables}.

(** ** The newest metadata *)
Definition area_step (dev : R) (device : Z) (st : option (Z * list Z) * option LvmError) (area : Z * Z)
    : option (Z * list Z) * option LvmError :=
  let '(newest, first_error) := st in
  let '(start, size) := area in
  let failed e := (newest, Some (default e first_error)) in
  match read_area dev start size device with
  | Ok None => st
  | Err e => failed e
  | Ok (Some text) =>
      match (top ← parse_metadata text; from_metadata top) with
      | Err e => failed e
      | Ok vg =>
          (if match newest with Some (n, _) => n <? seqno vg | None => true end
           then Some (seqno vg, text) else newest, first_error)
      end
  end.

Definition read_metadata_text_of (dev : R) (label : PvLabel) (device : Z)
    : Result LvmError (option (list Z)) :=
  match foldl (area_step dev device) (None, None) (metadata_areas label) with
  | (Some (_, text), _) => Ok (Some text)
  | (None, Some e) => Err e
  | (None, None) => Ok None
  end.

Definition read_metadata_text (dev : R) (label : PvLabel) : Result LvmError (option (list Z)) :=
  read_metadata_text_of dev label 0.

Definition group_of_text (text : list Z) : Result LvmError VolumeGroup :=
  top ← parse_metadata text; from_metadata top.

Definition group_step (best : option VolumeGroup) (x : Z * R) : Result LvmError (option VolumeGroup) :=
  let '(i, dev) := x in
  o ← read_pv_label_of dev i;
  label ← ok_or o (NoLabel i);
  text ← read_metadata_text_of dev label i;
  match text with
  | Some text =>
      vg ← group_of_text text;
      Ok (if match best with Some b => seqno b <? seqno vg | None => true end then Some vg else best)
  | None => Ok best
  end.

Definition read_volume_group (devices : list R) : Result LvmError VolumeGroup :=
  best ← foldM group_step None (Md.enumerate devices);
  ok_or best (Corrupt "no physical volume holds metadata").

(** ** Sorting devices into groups *)
Record VolumeGroupDevices := mkVgd {
  volume_group : VolumeGroup;
  vg_devices : list R;
  missing_pvs : list (list Z);
}.
Record LvmScan := mkScan {
  volume_groups : list VolumeGroupDevices;
  unclaimed : list R;
  others : list R;
  refused : list (R * LvmError);
}.

(** [groups.iter_mut().find(|g| g.id == vg.id)], replaced when [vg] is newer. *)
Fixpoint note_group (groups : list VolumeGroup) (vg : VolumeGroup) : list VolumeGroup :=
  match groups with
  | [] => [vg]
  | g :: groups =>
      if bytes_eqb (vg_id g) (vg_id vg)
      then (if seqno g <? seqno vg then vg else g) :: groups
      else g :: note_group groups vg
  end.

(** The first loop of [scan]: labelled PVs, groups, others, refused. *)
Definition scan_step (st : list (R * list Z) * list VolumeGroup * list R * list (R * LvmError))
    (x : Z * R) : list (R * list Z) * list VolumeGroup * list R * list (R * LvmError) :=
  let '(pvs, groups, others, refused) := st in
  let '(i, dev) := x in
  match read_pv_label_of dev i with
  | Ok None => (pvs, groups, others ++ [dev], refused)
  | Err e => (pvs, groups, others, refused ++ [(dev, e)])
  | Ok (Some label) =>
      match (text ← read_metadata_text_of dev label i;
             match text with
             | Some text => vg ← group_of_text text; Ok (Some vg)
             | None => Ok None
             end) with
      | Err e => (pvs, groups, others, refused ++ [(dev, e)])
      | Ok vg =>
          (pvs ++ [(dev, pv_uuid label)],
           match vg with Some vg => note_group groups vg | None => groups end, others, refused)
      end
  end.

Definition names_pv (g : VolumeGroup) (uuid : list Z) : bool :=
  existsb (λ pv, bytes_eqb (pv_id pv) uuid) (physical_volumes g).

(** [groups.iter().position(named)]. *)
Fixpoint position_naming (groups : list VolumeGroup) (uuid : list Z) : option nat :=
  match groups with
  | [] => None
  | g :: groups => if names_pv g uuid then Some O else S <$> position_naming groups uuid
  end.

Definition scan_group (groups : list VolumeGroup) (pvs : list (R * list Z)) (ig : nat * VolumeGroup)
    : VolumeGroupDevices :=
  let '(i, g) := ig in
  let given := filter (λ du : R * list Z, position_naming groups du.2 = Some i) pvs in
  mkVgd g (map fst given)
    (map pv_name (filter (λ pv, existsb (λ du : R * list Z, bytes_eqb du.2 (pv_id pv)) given = false)
       (physical_volumes g))).

Definition scan (devices : list R) : LvmScan :=
  let '(pvs, groups, others, refused) := foldl scan_step ([], [], [], []) (Md.enumerate devices) in
  mkScan (map (scan_group groups pvs) (imap pair groups))
    (map fst (filter (λ du : R * list Z, position_naming groups du.2 = None) pvs)) others refused.

(** ** Reading runs *)
Section reading.
Context (devices : list R).

(** [devices[dev].read_at(at, &mut buf[..n])]. *)
Definition read_device (dev at_ n : Z) : Result FsError (list Z) :=
  match devices !! Z.to_nat dev with
  | Some d => read_at d at_ n
  | None => Err Md.panicked
  end.

(** One piece of a run from [within]: at most [want] bytes and at least one. *)
Definition Reader : Type := Z → Z → Result FsError (list Z).

Definition read_striped (stripe_size : Z) (stripes : list (Z * Z)) : Reader := λ within want,
  match stripes with
  | [(d, o)] => read_device d (u64 (o + within)) want
  | _ =>
      let n := zlen stripes in
      _ ← refuse_if ((stripe_size =? 0) || (n =? 0)) Md.panicked;
      let k := within / stripe_size in
      let inner := within mod stripe_size in
      '(d, o) ← ok_or (stripes !! Z.to_nat (k mod n)) Md.panicked;
      read_device d (u64 (o + k / n * stripe_size + inner)) (Z.min (stripe_size - inner) want)
  end.

(** The loop of [read_runs], over runs paired with the readers of their maps. *)
Definition last_end (runs : list (Z * Z * Reader)) : Z :=
  match last runs with Some (s, l, _) => u64 (s + l) | None => 0 end.

Fixpoint runs_loop (fuel : nat) (runs : list (Z * Z * Reader)) (offset len : Z) (acc : list Z)
    : Result FsError (list Z) :=
  match fuel with
  | O => Ok acc
  | S fuel =>
      if zlen acc <? len then
        let pos := u64 (offset + zlen acc) in
        match find (λ '(s, l, _), (s <=? pos) && (pos <? u64 (s + l))) runs with
        | None => Err (OutOfBounds pos (len - zlen acc) (last_end runs))
        | Some (s, l, read) =>
            bs ← read (pos - s) (Z.min (u64 (s + l) - pos) (len - zlen acc));
            runs_loop fuel runs offset len (acc ++ bs)
        end
      else Ok acc
  end.

(** Every round reads a byte, so [len] rounds are enough. *)
Definition runs_reader (runs : list (Z * Z * Reader)) (offset len : Z) : Result FsError (list Z) :=
  runs_loop (Z.to_nat len) runs offset len [].

(** The loop over a mirror's images: the first that reads. *)
Fixpoint first_image (member : ReadMember) (within want : Z) (slots : list Z) (e : FsError)
    : Result FsError (list Z) :=
  match slots with
  | [] => Err e
  | slot :: slots =>
      match member slot within want with
      | Ok (Some bs) => Ok bs
      | Ok None => first_image member within want slots e
      | Err e => first_image member within want slots e
      end
  end.

(** The closure [member] over an image's runs. *)
Definition image_member (images : list (option (Z → Z → Result FsError (list Z)))) (data_offset : Z)
    : ReadMember := λ slot off n,
  match images !! Z.to_nat slot with
  | Some (Some read) => bs ← read (u64 (data_offset + off)) n; Ok (Some bs)
  | Some None => Ok None
  | None => Err Md.panicked
  end.

(** A striped level's chunk.  [raid6_map], which [read_chunk] calls, ends in an
    [unreachable!] for a layout it does not place. *)
Definition read_raid (level : Z) (raid10 : option Raid10) (layout chunk : Z) (n : Z)
    (member : ReadMember) : Reader := λ within want,
  if level =? 1 then
    first_image member within want (seqZ 0 n) (Custom "no image of the mirror is present")
  else
    _ ← refuse_if (chunk =? 0) Md.panicked;
    let inner := within mod chunk in
    let take := Z.min (chunk - inner) want in
    _ ← refuse_if ((level =? LEVEL_RAID6) && negb (raid6_layout_known layout)) Md.panicked;
    read_chunk (mkStriping level layout chunk n raid10) member (within / chunk) inner take.

(** [read_thin]; a device error goes through as it is. *)
Definition read_thin (block root : Z) (meta data : Z → Z → Result FsError (list Z)) : Reader :=
  λ within want,
  _ ← refuse_if (block =? 0) Md.panicked;
  let inner := within mod block in
  let take := Z.min (block - inner) want in
  mapped ← match thin.data_block meta root (within / block) with
           | Ok m => Ok m
           | Err (LvmBlock e) => Err e
           | Err e => Err (Custom (lvm_message (λ _, "") e))
           end;
  match mapped with
  | Some db =>
      at_ ← ok_or (a ← checked_mul db block; checked_add a inner)
              (Custom ("thin data block " +:+ pretty db +:+ " overflows"));
      data at_ take
  | None => Ok (zeros take)
  end.

Fixpoint run_reader (r : Run) : Z * Z * Reader :=
  match r with mkRun s l m => (s, l, read_map m) end
with read_map (m : Map) : Reader :=
  match m with
  | Striped stripe_size stripes => read_striped stripe_size stripes
  | RaidMap level raid10 layout chunk data_offset images =>
      read_raid level raid10 layout chunk (zlen images)
        (image_member (map (option_map (λ runs, runs_reader (map run_reader runs))) images) data_offset)
  | ThinMap block meta data root =>
      read_thin block root (runs_reader (map run_reader meta)) (runs_reader (map run_reader data))
  end.

Definition read_runs (runs : list Run) (offset len : Z) : Result FsError (list Z) :=
  runs_reader (map run_reader runs) offset len.
End reading.

(** ** [Mapper]: from segments to runs *)
Section mapper.
Context (vg : VolumeGroup) (uuid_to_dev : gmap (list Z) Z) (devices : list R).

Definition lv (name : list Z) : Result LvmError LogicalVolumeInfo :=
  ok_or (find (λ l, bytes_eqb (lv_name l) name) (logical_volumes vg)) (NoSuchVolume name).

(** One stripe of a segment: its device and where it starts there. *)
Definition stripe_place (name : list Z) (per_stripe : Z) (st : Stripe)
    : Result LvmError (option (Z * Z)) :=
  let ext := extent_size vg in
  pv ← ok_or (find (λ p, bytes_eqb (pv_name p) (s_pv st)) (physical_volumes vg))
         (Corrupt ("unknown PV " +:+ show (s_pv st)));
  dev ← ok_or (uuid_to_dev !! pv_id pv) (MissingPv (pv_id pv));
  _ ← refuse_if (match checked_add (s_start_extent st) per_stripe with
                 | Some e => pe_count pv <? e | None => true end)
        (Corrupt (show name +:+ ": stripe past " +:+ show (s_pv st)));
  off ← ok_or (o ← checked_mul (s_start_extent st) ext; checked_add o (pe_start pv))
          (Corrupt "extent offset overflows");
  d ← ok_or (devices !! Z.to_nat dev) (LvmBlock Md.panicked);
  _ ← refuse_if (match checked_add off (u64 (per_stripe * ext)) with
                 | Some e => size_bytes d <? e | None => true end)
        (Corrupt (show name +:+ ": stripe runs past the end of " +:+ show (s_pv st)));
  Ok (Some (dev, off)).

Definition map_striped (name : list Z) (seg : Segment) : Result LvmError Map :=
  let ext := extent_size vg in
  let n := zlen (stripes seg) in
  _ ← refuse_if ((n =? 0) || negb (is_multiple_of (extent_count seg) n))
        (Corrupt (show name +:+ ": " +:+ pretty (extent_count seg) +:+ " extents over "
           +:+ pretty n +:+ " stripes"));
  let per_stripe := extent_count seg / n in
  places ← collectM (stripe_place name per_stripe) (stripes seg);
  _ ← refuse_if ((1 <? n) && negb (is_multiple_of (u64 (per_stripe * ext)) (stripe_size seg)))
        (Unsupported (show name +:+ ": stripe size " +:+ pretty (stripe_size seg)
           +:+ " does not divide the extent run"));
  Ok (Striped (stripe_size seg) places).

(** The methods that map sub-volumes take [map] at the next depth. *)
Section sub.
Context (sub : list Z → Result LvmError (list Run * Z)).

(** [images]: each image's runs, and the first missing PV's error. *)
Definition image_step (st : list (option (list Run)) * option LvmError) (image : list Z)
    : Result LvmError (list (option (list Run)) * option LvmError) :=
  let '(images, gone) := st in
  match sub image with
  | Ok (runs, _) => Ok (images ++ [Some runs], gone)
  | Err (MissingPv u) => Ok (images ++ [None], Some (default (MissingPv u) gone))
  | Err e => Err e
  end.
Definition map_images (seg : Segment) : Result LvmError (list (option (list Run)) * option LvmError) :=
  _ ← refuse_if (zlen (images seg) =? 0) (Corrupt "a raid or mirror segment with no images");
  foldM image_step ([], None) (images seg).

(** The loop over the metadata sub-volumes: the first superblock present. *)
Fixpoint first_super (metas : list (list Z)) (gone : option LvmError) : Result LvmError DmRaidSuper :=
  match metas with
  | [] => Err (default (LvmBlock Md.panicked) gone)
  | meta :: metas =>
      match sub meta with
      | Ok (runs, _) =>
          b ← map_err LvmBlock (read_runs devices runs 0 dm_raid.SIZE);
          parse_dm_raid_super b meta
      | Err (MissingPv u) => first_super metas (Some (default (MissingPv u) gone))
      | Err e => Err e
      end
  end.

Definition map_raid (name : list Z) (seg : Segment) : Result LvmError Map :=
  _ ← refuse_if (negb (zlen (metadata seg) =? zlen (images seg)))
        (Corrupt (show name +:+ ": " +:+ pretty (zlen (images seg)) +:+ " images and "
           +:+ pretty (zlen (metadata seg)) +:+ " metadata sub-volumes"));
  '(images, gone) ← map_images seg;
  let n := zlen images in
  sb ← first_super (metadata seg) None;
  '(level, parity) ←
    (if dm_level sb =? 1 then Ok (1, 0)
     else if (dm_level sb =? 4) || (dm_level sb =? 5) then Ok (5, 1)
     else if dm_level sb =? 6 then Ok (6, 2)
     else if dm_level sb =? 10 then Ok (10, 0)
     else Err (Unsupported (show name +:+ ": dm-raid level " +:+ pretty (dm_level sb))));
  raid10 ←
    (if level =? 10 then
       let near := Z.land (dm_layout sb) 0xff in
       _ ← refuse_if (negb (dm_layout sb - near =? Z.shiftl 1 8))
             (Unsupported (show name +:+ ": raid10 layout " +:+ hex (dm_layout sb)
                +:+ "; only the near layout is read, not dm-raid's far or offset ones"));
       _ ← refuse_if ((near =? 0) || (n <? near))
             (Corrupt (show name +:+ ": raid10 with " +:+ pretty near +:+ " near copies over "
                +:+ pretty n +:+ " images"));
       Ok (Some (Raid10_near near))
     else Ok None);
  _ ← refuse_if (negb (level =? 1) && ((dm_chunk sb =? 0) || (n <=? parity)))
        (Corrupt (show name +:+ ": raid" +:+ pretty (dm_level sb) +:+ " with " +:+ pretty n
           +:+ " images and a " +:+ pretty (dm_chunk sb) +:+ "-byte chunk"));
  _ ← refuse_if (negb (survives level raid10 images)) (default (LvmBlock Md.panicked) gone);
  Ok (RaidMap level raid10 (dm_layout sb) (dm_chunk sb) (dm_data_offset sb) images).

Definition map_mirror (seg : Segment) : Result LvmError Map :=
  '(images, gone) ← map_images seg;
  _ ← refuse_if (negb (survives 1 None images)) (default (LvmBlock Md.panicked) gone);
  Ok (RaidMap 1 None 0 0 0 images).

Definition map_thin (name : list Z) (seg : Segment) : Result LvmError Map :=
  _ ← refuse_if (is_here (external_origin seg))
        (Unsupported (show name +:+ ": a thin volume over the external origin "
           +:+ show (default [] (external_origin seg))));
  _ ← refuse_if (negb (start_extent seg =? 0))
        (Corrupt (show name +:+ ": a thin segment that does not start the volume"));
  match thin_pool seg, device_id seg with
  | Some pool_name, Some dev =>
      pool ← lv pool_name;
      match segments pool with
      | [pseg] =>
          match is_kind (kind pseg) "thin-pool", images pseg, metadata pseg with
          | true, [tdata], [tmeta] =>
              '(meta, _) ← sub tmeta;
              '(data, _) ← sub tdata;
              let read at_ n := read_runs devices meta at_ n in
              sb ← thin.superblock read;
              root ← thin.device_root read sb dev;
              root ← ok_or root (Corrupt (show name +:+ ": thin device " +:+ pretty dev
                       +:+ " is not in " +:+ show pool_name +:+ "'s metadata"));
              Ok (ThinMap (thin.data_block_size sb) meta data root)
          | _, _, _ => Err (Corrupt (show name +:+ ": its thin_pool " +:+ show pool_name
                         +:+ " is not a thin pool"))
          end
      | segs => Err (Unsupported (show pool_name +:+ ": a thin pool of " +:+ pretty (zlen segs)
                  +:+ " segments"))
      end
  | _, _ => Err (Corrupt (show name +:+ ": a thin segment without thin_pool and device_id"))
  end.

(** The [match seg.kind] of [map]. *)
Definition map_kind (name : list Z) (seg : Segment) : Result LvmError Map :=
  let k := kind seg in
  if is_kind k "striped" then map_striped name seg
  else if is_kind k "thin" then map_thin name seg
  else if is_kind k "thin-pool" then
    Err (Unsupported (show name +:+ " is a thin pool; the thin volumes in it are what is read"))
  else if is_kind k "mirror" then map_mirror seg
  else if is_kind k "raid1" || is_kind k "raid10" || is_kind k "raid4"
          || starts_with k (lit "raid5") || starts_with k (lit "raid6")
  then map_raid name seg
  else Err (Unsupported ("segment type " +:+ debug_str k +:+ " in " +:+ show name)).

(** One round of [map]'s loop: the runs so far and the extent they end at. *)
Definition map_step (name : list Z) (st : list Run * Z) (seg : Segment)
    : Result LvmError (list Run * Z) :=
  let '(runs, next) := st in
  let ext := extent_size vg in
  _ ← refuse_if (negb (start_extent seg =? next))
        (Corrupt (show name +:+ ": segments leave a gap at extent " +:+ pretty next));
  len ← ok_or (checked_mul (extent_count seg) ext) (Corrupt "segment size overflows");
  m ← map_kind name seg;
  Ok (runs ++ [mkRun (u64 (next * ext)) len m], u64 (next + extent_count seg)).
End sub.

(** [rounds] is 3 less [depth]. *)
Fixpoint map_lv (rounds : nat) (name : list Z) : Result LvmError (list Run * Z) :=
  match rounds with
  | O => Err (Unsupported (show name +:+ ": sub-volumes nested deeper than an image of an image"))
  | S rounds =>
      info ← lv name;
      '(runs, next) ← foldM (map_step (map_lv rounds) name) ([], 0) (segments info);
      Ok (runs, u64 (next * extent_size vg))
  end.
End mapper.

(** ** [LogicalVolume] *)
Record LogicalVolume := mkVolume {
  v_devices : list R;
  v_runs : list Run;
  v_size : Z;
  v_info : LogicalVolumeInfo;
}.

Definition index_step (m : gmap (list Z) Z) (x : Z * R) : Result LvmError (gmap (list Z) Z) :=
  let '(i, dev) := x in
  o ← read_pv_label_of dev i;
  label ← ok_or o (NoLabel i);
  Ok (<[pv_uuid label := i]> m).

Definition open (devices : list R) (name : list Z) : Result LvmError LogicalVolume :=
  vg ← read_volume_group devices;
  uuid_to_dev ← foldM index_step ∅ (Md.enumerate devices);
  info ← lv vg name;
  '(runs, size) ← map_lv vg uuid_to_dev devices 3 name;
  Ok (mkVolume devices runs size info).

Definition lv_read_at (v : LogicalVolume) (offset len : Z) : Result FsError (list Z) :=
  _ ← refuse_if (match checked_add offset len with
                 | Some end_ => negb (end_ <=? v_size v) | None => true end)
        (OutOfBounds offset len (v_size v));
  read_runs (v_devices v) (v_runs v) offset len.

#[export] Instance LogicalVolume_read : BlockRead LogicalVolume :=
  {| read_at := lv_read_at; size_bytes := v_size |}.
End devices.
Arguments LogicalVolume : clear implicits.
Arguments LvmScan : clear implicits.
Arguments VolumeGroupDevices : clear implicits.
