(* ===== verification/LvmRead.v ===== *)
(** * LVM2: what reading a mapped volume returns

    [runs_hold] says which bytes a tree of runs holds, given the bytes of the
    devices: striped extents, mirrors and dm-raid images with images missing,
    thin volumes over their pool's btree.  [runs_read] proves that [read_runs]
    returns those bytes, at every offset and length. *)
From S2P Require Import Prelude Bytes Device Gf256 MdLayout MdRead MdRows MdStripe MdZones MdArray.
From S2P Require Import Fmt LvmText Thin ThinTree Lvm LvmMap.
From S2P Require Md.

(** ** Readers and contents *)

(** [read] returns the bytes [L] of [size] of them. *)
Definition gives (read : Z → Z → Result FsError (list Z)) (size : Z) (L : Z → Z) : Prop :=
  ∀ off len, 0 ≤ off → 0 ≤ len → off + len ≤ size → read off len = Ok (bytes_of L off len).

(** One piece of [want] bytes at most, from [within], of a run of [len]. *)
Definition piece_gives (read : Z → Z → Result FsError (list Z)) (len : Z) (L : Z → Z) : Prop :=
  ∀ within want, 0 ≤ within → 0 < want → within + want ≤ len →
  ∃ t, 0 < t ≤ want ∧ read within want = Ok (bytes_of L within t).

Lemma gives_ext read size L L' : (∀ x, 0 ≤ x < size → L x = L' x) → gives read size L → gives read size L'.
Proof.
  intros H Hg off len Ho Hl He. rewrite Hg by done. f_equal. apply bytes_of_eq. intros j Hj. apply H. lia.
Qed.

Lemma piece_ext read len L L' : (∀ w, 0 ≤ w < len → L w = L' w) → piece_gives read len L → piece_gives read len L'.
Proof.
  intros H Hp w want Hw H0 He. destruct (Hp w want Hw H0 He) as (t & Ht & ->). exists t. split; [done|].
  f_equal. apply bytes_of_eq. intros j Hj. apply H. lia.
Qed.

(** ** Runs *)

(** Runs end to end from [a] to [b], each giving its part of [L]. *)
Inductive tiles (L : Z → Z) : Z → Z → list (Z * Z * Reader) → Prop :=
| tiles_nil a : tiles L a a []
| tiles_cons a b l read runs : 0 ≤ l → piece_gives read l (λ w, L (a + w)) →
    tiles L (a + l) b runs → tiles L a b ((a, l, read) :: runs).

Lemma tiles_le L a b runs : tiles L a b runs → a ≤ b.
Proof. induction 1; lia. Qed.

Lemma tiles_find L a b runs pos : tiles L a b runs → 0 ≤ a → b < 2 ^ 64 → a ≤ pos < b →
  ∃ s l read, find (λ '(s, l, _), (s <=? pos) && (pos <? u64 (s + l))) runs = Some (s, l, read) ∧
    0 ≤ s ≤ pos ∧ pos < s + l ≤ b ∧ piece_gives read l (λ w, L (s + w)).
Proof.
  induction 1 as [a|a b l read runs Hl Hp Ht IH]; intros Ha Hb Hpos; [lia|].
  apply tiles_le in Ht as Hle. cbn [find]. rewrite u64_small by lia.
  destruct ((a <=? pos) && (pos <? a + l)) eqn:E.
  - exists a, l, read. split_and!; try done; lia.
  - apply IH; lia.
Qed.

Lemma runs_loop_gives L size runs fuel offset len d : tiles L 0 size runs → size < 2 ^ 64 →
  0 ≤ offset → 0 ≤ d ≤ len → len - d ≤ Z.of_nat fuel → offset + len ≤ size →
  runs_loop fuel runs offset len (bytes_of L offset d) = Ok (bytes_of L offset len).
Proof.
  intros Ht Hs Ho Hd Hf He. revert d Hd Hf. induction fuel as [|fuel IH]; intros d Hd Hf; cbn [runs_loop].
  { by replace len with d by lia. }
  rewrite zlen_bytes_of by lia. destruct (Z.ltb_spec d len) as [Hlt|]; [|by replace len with d by lia].
  rewrite u64_small by lia.
  destruct (tiles_find L 0 size runs (offset + d) Ht) as (s & l & read & -> & Hsp & Hse & Hp); [lia..|].
  rewrite (u64_small (s + l)) by lia.
  destruct (Hp (offset + d - s) (Z.min (s + l - (offset + d)) (len - d))) as (t & Ht' & ->); [lia..|].
  cbn [mbind Result_bind].
  rewrite (bytes_of_eq (λ w, L (s + w)) (offset + d - s) L (offset + d) t) by (intros; f_equal; lia).
  rewrite bytes_of_app by lia. apply IH; lia.
Qed.

Lemma runs_reader_gives L size runs : tiles L 0 size runs → size < 2 ^ 64 → gives (runs_reader runs) size L.
Proof.
  intros Ht Hs off len Ho Hl He. unfold runs_reader.
  exact (runs_loop_gives L size runs (Z.to_nat len) off len 0 Ht Hs Ho ltac:(lia) ltac:(lia) He).
Qed.

(** ** Striped extents *)
Section devices.
Context {R : Type} `{!BlockRead R} {tables : CharTables} (devices : list R) (C : Z → Z → Z).

(** Byte [x] of device [i] is [C i x]. *)
Definition devices_give : Prop := ∀ i d, 0 ≤ i → devices !! Z.to_nat i = Some d →
  is_u64 (size_bytes d) ∧ gives (read_at d) (size_bytes d) (C i).

(** Where byte [w] of a striped run is: a device and a byte on it. *)
Definition stripe_at (ss : Z) (stripes : list (Z * Z)) (w : Z) : Z * Z :=
  match stripes with
  | [(d, o)] => (d, o + w)
  | _ =>
      let k := w / ss in
      let '(d, o) := default (0, 0) (stripes !! Z.to_nat (k mod zlen stripes)) in
      (d, o + k / zlen stripes * ss + w mod ss)
  end.

(** [per] bytes on each stripe, in whole chunks, all on the devices. *)
Record stripes_fit (ss : Z) (stripes : list (Z * Z)) (per : Z) : Prop := {
  sf_some : stripes ≠ [];
  sf_per : 0 ≤ per;
  sf_chunks : 1 < zlen stripes → 0 < ss ∧ (ss | per);
  sf_in : ∀ i d o, stripes !! i = Some (d, o) → 0 ≤ d ∧ 0 ≤ o ∧
    ∃ dv, devices !! Z.to_nat d = Some dv ∧ o + per ≤ size_bytes dv;
}.

Lemma read_device_gives d o per within t : devices_give → 0 ≤ d → 0 ≤ o →
  (∃ dv, devices !! Z.to_nat d = Some dv ∧ o + per ≤ size_bytes dv) →
  0 ≤ within → 0 ≤ t → within + t ≤ per →
  read_device devices d (u64 (o + within)) t = Ok (bytes_of (C d) (o + within) t).
Proof.
  intros Hg Hd Ho (dv & Hdv & Hsz) Hw Ht He. destruct (Hg d dv Hd Hdv) as [[_ Hu] Hread].
  unfold read_device. rewrite Hdv. destruct (Z.eq_dec t 0) as [->|Hne].
  - destruct (Z.eq_dec (o + within) (2 ^ 64)) as [E|E]; [lia|].
    rewrite u64_small by lia. apply Hread; lia.
  - rewrite u64_small by lia. apply Hread; lia.
Qed.

(** Chunk arithmetic: [w] falls in chunk [k], on stripe [k mod n]. *)
Lemma chunk_room ss n per w : 0 < ss → 0 < n → (ss | per) → 0 ≤ w < n * per →
  0 ≤ w / ss / n * ss ∧ w / ss / n * ss + ss ≤ per.
Proof.
  intros Hss Hn [q ->] Hw.
  assert (w / ss < n * q) as Hk by (apply Z.div_lt_upper_bound; lia).
  assert (0 ≤ w / ss) by (apply Z.div_pos; lia).
  assert (w / ss / n < q) by (apply Z.div_lt_upper_bound; lia).
  assert (0 ≤ w / ss / n) by (apply Z.div_pos; lia). nia.
Qed.

Lemma striped_piece ss stripes per : devices_give → stripes_fit ss stripes per →
  piece_gives (read_striped devices ss stripes) (zlen stripes * per)
    (λ w, C (stripe_at ss stripes w).1 (stripe_at ss stripes w).2).
Proof.
  intros Hg [Hne Hper Hch Hin] within want Hw H0 He.
  destruct (decide (zlen stripes = 1)) as [E1|E1].
  - destruct stripes as [|[d o] [|? ?]]; [done| |unfold zlen in E1; cbn [length] in E1; lia].
    destruct (Hin 0%nat d o eq_refl) as (Hd & Ho & Hdv). change (zlen [(d, o)]) with 1 in He.
    exists want. split; [lia|]. cbn [read_striped stripe_at fst snd].
    rewrite (read_device_gives d o per) by (done || lia). f_equal. apply bytes_of_eq. intros j Hj. f_equal. lia.
  - assert (1 < zlen stripes) as Hn1.
    { destruct stripes as [|? [|? ?]]; [done|by unfold zlen in E1|unfold zlen; cbn [length]; lia]. }
    destruct (Hch Hn1) as [Hss Hdiv]. set (n := zlen stripes) in *.
    pose proof (chunk_room ss n per within Hss ltac:(lia) Hdiv ltac:(lia)) as [Hr1 Hr2].
    pose proof (Z.mod_pos_bound within ss Hss) as Hm.
    pose proof (Z.mod_pos_bound (within / ss) n ltac:(lia)) as Hmn.
    destruct (lookup_lt_is_Some_2 stripes (Z.to_nat (within / ss mod n))) as [[d o] Hdo];
      [unfold n, zlen in *; lia|].
    destruct (Hin _ _ _ Hdo) as (Hd & Ho & Hdv).
    set (t := Z.min (ss - within mod ss) want). exists t. split; [lia|].
    assert (read_striped devices ss stripes within want =
      read_device devices d (u64 (o + within / ss / n * ss + within mod ss)) t) as ->.
    { unfold read_striped. destruct stripes as [|[d0 o0] [|x l]]; [done|by unfold zlen in E1|].
      fold n. rewrite refuse_no by (destruct (Z.eqb_spec ss 0), (Z.eqb_spec n 0); cbn; lia || done).
      rewrite Hdo. done. }
    rewrite <- Z.add_assoc, (read_device_gives d o per) by (done || lia).
    f_equal. apply bytes_of_eq. intros j Hj.
    destruct (same_chunk ss within j Hss) as [E2 E3]; [lia..|].
    assert (stripe_at ss stripes (within + j) =
      (d, o + within / ss / n * ss + (within mod ss + j))) as ->.
    { unfold stripe_at. destruct stripes as [|[d0 o0] [|x l]]; [done|by unfold zlen in E1|].
      fold n. rewrite E2, E3, Hdo. done. }
    cbn [fst snd]. f_equal. lia.
Qed.
End devices.

(** ** Images *)

(** The images' readers, each giving its part of the array from [doff] on. *)
Lemma image_member_reads (imgs : list (option (Z → Z → Result FsError (list Z)))) doff room mem ends :
  0 ≤ doff → doff + room < 2 ^ 64 →
  (∀ slot read, 0 ≤ slot → imgs !! Z.to_nat slot = Some (Some read) →
     doff + room ≤ ends slot ∧ gives read (ends slot) (λ x, mem slot (x - doff))) →
  reads_member (image_member imgs doff) (λ slot, is_here (default None (imgs !! Z.to_nat slot)))
    (zlen imgs) room mem.
Proof.
  intros Hd Hu Hg slot off len Hs Ho Hl He. unfold image_member.
  destruct (imgs !! Z.to_nat slot) as [[read|]|] eqn:E; cbn [default is_here]; [|done|].
  - destruct (Hg slot read ltac:(lia) E) as [Hend Hr]. rewrite u64_small by lia.
    rewrite Hr by lia. cbn [mbind Result_bind]. do 2 f_equal. apply bytes_of_eq. intros j Hj. f_equal. lia.
  - apply lookup_ge_None in E. unfold zlen in Hs. lia.
Qed.

Lemma first_image_gives member here n room mem L within want e slots :
  reads_member member here n room mem → 0 ≤ within → 0 ≤ want → within + want ≤ room →
  (∀ slot x, here slot = true → 0 ≤ x < room → mem slot x = L x) →
  (∀ slot, slot ∈ slots → 0 ≤ slot < n) → (∃ slot, slot ∈ slots ∧ here slot = true) →
  first_image member within want slots e = Ok (bytes_of L within want).
Proof.
  intros Hm Hw H0 He HL. revert e. induction slots as [|slot slots IH]; intros e Hin (y & Hy & Hhy).
  { by apply not_elem_of_nil in Hy. }
  cbn [first_image]. rewrite Hm by (done || (apply Hin; set_solver)).
  destruct (here slot) eqn:Hh.
  - f_equal. apply bytes_of_eq. intros j Hj. apply HL; [done|lia].
  - apply IH; [set_solver|]. exists y. apply elem_of_cons in Hy as [->|Hy]; [congruence|done].
Qed.

Lemma mirror_piece r10 lay chunk n member here room mem L :
  reads_member member here n room mem →
  (∀ slot x, here slot = true → 0 ≤ x < room → mem slot x = L x) →
  (∃ slot, 0 ≤ slot < n ∧ here slot = true) →
  piece_gives (read_raid 1 r10 lay chunk n member) room L.
Proof.
  intros Hm HL (slot & Hs & Hh) within want Hw H0 He. exists want. split; [lia|].
  unfold read_raid. cbn [Z.eqb Pos.eqb].
  eapply first_image_gives; try done; try lia.
  - intros s Hin. apply elem_of_seqZ in Hin. lia.
  - exists slot. split; [apply elem_of_seqZ; lia|done].
Qed.

(** A striped level: the pieces are chunks. *)
Lemma chunked_piece level r10 lay chunk n member len L :
  level ≠ 1 → 0 < chunk → (level = LEVEL_RAID6 → raid6_layout_known lay = true) →
  (∀ k w t, 0 ≤ k → 0 ≤ w → 0 < t → w + t ≤ chunk → k * chunk + w + t ≤ len →
     read_chunk (mkStriping level lay chunk n r10) member k w t = Ok (bytes_of L (k * chunk + w) t)) →
  piece_gives (read_raid level r10 lay chunk n member) len L.
Proof.
  intros H1 Hc H6 Hr within want Hw H0 He. unfold read_raid. rewrite (proj2 (Z.eqb_neq level 1)) by done.
  rewrite refuse_no by lia. pose proof (Z.mod_pos_bound within chunk Hc) as Hm.
  pose proof (Z.div_mod within chunk ltac:(lia)) as Hdm.
  rewrite refuse_no by (destruct (Z.eqb_spec level LEVEL_RAID6) as [E|]; [by rewrite (H6 E)|done]).
  set (t := Z.min (chunk - within mod chunk) want). exists t. split; [lia|].
  rewrite Hr by (try (apply Z.div_pos; lia); lia). f_equal. f_equal. lia.
Qed.

Lemma parity_piece level lay chunk n rows member here mem L len :
  level ≠ 1 → (level = LEVEL_RAID6 → raid6_layout_known lay = true) →
  let s := mkStriping level lay chunk n None in
  parity_ok s rows → reads_member member here n (rows * chunk) mem → parity_holds s rows mem L →
  (length (absent here n) ≤ Z.to_nat (parity_of level))%nat →
  len ≤ rows * data_members s * chunk →
  piece_gives (read_raid level None lay chunk n member) len L.
Proof.
  intros H1 H6 s Hs Hm HL Hab Hlen. apply chunked_piece; [done|apply (po_chunk _ _ Hs)|done|].
  intros k w t Hk Hw Ht Hwt He. pose proof (po_chunk _ _ Hs) as Hc. cbn in Hc.
  apply (parity_read_chunk s rows member here mem L); try done; try lia.
  split; [done|]. apply (Z.mul_lt_mono_pos_r chunk); [done|]. lia.
Qed.

(** dm-raid's near layout, with the rows its images have. *)
Definition near_rows (near rows : Z) : Raid10 := mkRaid10 near 1 false rows.

Lemma near_copies near rows n c : copies (Raid10_near near) n c = copies (near_rows near rows) n c.
Proof. done. Qed.

Lemma raid10_piece lay chunk near n rows member here mem L len :
  0 < chunk → let g := near_rows near rows in
  raid10_ok g n → rows * chunk < 2 ^ 64 →
  reads_member member here n (rows * chunk) mem → raid10_holds g n chunk mem L →
  (∀ c, 0 ≤ c < raid10_chunks g n → ∃ x, x ∈ copies g n c ∧ here x.1 = true) →
  len ≤ raid10_chunks g n * chunk →
  piece_gives (read_raid 10 (Some (Raid10_near near)) lay chunk n member) len L.
Proof.
  intros Hc g Hg Hu Hm HL Hex Hlen. apply chunked_piece; [done|done|done|].
  intros k w t Hk Hw Ht Hwt He.
  assert (0 ≤ k < raid10_chunks g n) as Hkc.
  { split; [done|]. apply (Z.mul_lt_mono_pos_r chunk); [done|]. lia. }
  assert (stride g * far g * chunk = rows * chunk) as Eu by (cbn; lia).
  pose proof (raid10_read_chunk (mkStriping 10 lay chunk n (Some g)) g Hg eq_refl Hc) as E.
  cbn [st_chunk st_members] in E. rewrite Eu in E.
  exact (E Hu member here mem L Hm HL k w t Hkc Hw (Z.lt_le_incl _ _ Ht) Hwt (Hex k Hkc)).
Qed.

(** ** Thin volumes *)

(** Byte [x] of a thin volume whose mappings are [kvs]: the pool's data from
    the block's number on, or zero where nothing is mapped. *)
Definition thin_byte (kvs : list (Z * Z)) (block : Z) (D : Z → Z) (x : Z) : Z :=
  match value_under kvs (x / block) with
  | Some v => D (Z.shiftr v thin.TIME_BITS * block + x mod block)
  | None => 0
  end.

(** The pool: its metadata's bytes hold the tree, its data's the blocks. *)
Record pool_holds (M : Z → Z) (msize dsize block root : Z) (kvs : list (Z * Z)) : Prop := {
  ph_tree : tree M msize thin.MAX_DEPTH root kvs;
  ph_block : 0 < block;
  ph_meta : msize < 2 ^ 64;
  ph_data : dsize < 2 ^ 64;
  ph_values : ∀ kv, kv ∈ kvs → 0 ≤ Z.shiftr kv.2 thin.TIME_BITS ∧
    Z.shiftr kv.2 thin.TIME_BITS * block + block ≤ dsize;
}.

Lemma value_under_in kvs key v : value_under kvs key = Some v → (key, v) ∈ kvs.
Proof.
  unfold value_under. intros ([k v'] & E & ->)%fmap_Some. apply find_some in E as [Hin Hk].
  cbn in Hk |- *. apply Z.eqb_eq in Hk as <-. by apply list_elem_of_In.
Qed.

Lemma thin_piece {tables : CharTables} M msize dsize block root kvs D meta data len :
  pool_holds M msize dsize block root kvs → gives meta msize M → gives data dsize D →
  piece_gives (read_thin block root meta data) len (thin_byte kvs block D).
Proof.
  intros [Ht Hb Hm Hd Hv] Hmeta Hdata within want Hw H0 He.
  pose proof (Z.mod_pos_bound within block Hb) as Hi.
  set (t := Z.min (block - within mod block) want). exists t. split; [lia|].
  unfold read_thin. rewrite refuse_no by lia. fold t.
  rewrite (data_block_of_tree meta M msize Hm Hmeta root (within / block) kvs Ht). cbn [mbind Result_bind].
  assert (∀ j, 0 ≤ j < t → thin_byte kvs block D (within + j) =
    match value_under kvs (within / block) with
    | Some v => D (Z.shiftr v thin.TIME_BITS * block + within mod block + j) | None => 0 end) as Hbyte.
  { intros j Hj. destruct (same_chunk block within j Hb) as [E1 E2]; [lia..|].
    unfold thin_byte. rewrite E1, E2. destruct (value_under _ _); [f_equal; lia|done]. }
  destruct (value_under kvs (within / block)) as [v|] eqn:Ev; cbn [option_map].
  - destruct (Hv _ (value_under_in _ _ _ Ev)) as [Hv0 Hv1]. cbn [snd] in Hv0, Hv1.
    rewrite checked_mul_ok by nia. cbn [mbind option_bind]. rewrite checked_add_ok by lia.
    cbn [ok_or mbind Result_bind]. rewrite Hdata by lia. f_equal. symmetry. by apply bytes_of_eq.
  - rewrite (bytes_of_zeros within t). f_equal. symmetry. apply bytes_of_eq. intros j Hj. by apply Hbyte.
Qed.

(** ** A tree of runs *)
Section holds.
Context {R : Type} `{!BlockRead R} {tables : CharTables} (devices : list R) (C : Z → Z → Z).

(** The images a map has. *)
Definition image_here (images : list (option (list Run))) (slot : Z) : bool :=
  is_here (default None (images !! Z.to_nat slot)).

(** [runs_hold a b runs L]: end to end from [a] to [b], the runs hold [L].
    [map_holds len m L]: a run of [len] bytes mapped by [m] holds [L].
    [images_hold]: the images present hold [mem] from the data's offset on. *)
Inductive runs_hold : Z → Z → list Run → (Z → Z) → Prop :=
| rh_nil a L : runs_hold a a [] L
| rh_cons a b l m runs L L' : 0 ≤ l → map_holds l m L' → (∀ w, 0 ≤ w < l → L' w = L (a + w)) →
    runs_hold (a + l) b runs L → runs_hold a b (mkRun a l m :: runs) L
with map_holds : Z → Map → (Z → Z) → Prop :=
| mh_striped ss stripes per : stripes_fit devices ss stripes per →
    map_holds (zlen stripes * per) (Striped ss stripes)
      (λ w, C (stripe_at ss stripes w).1 (stripe_at ss stripes w).2)
| mh_mirror r10 lay chunk doff images room mem L : images_hold doff images room mem →
    (∀ slot x, image_here images slot = true → 0 ≤ x < room → mem slot x = L x) →
    (∃ slot, 0 ≤ slot < zlen images ∧ image_here images slot = true) →
    map_holds room (RaidMap 1 r10 lay chunk doff images) L
| mh_parity level lay chunk doff images rows len mem L : level ≠ 1 →
    (level = LEVEL_RAID6 → raid6_layout_known lay = true) →
    parity_ok (mkStriping level lay chunk (zlen images) None) rows →
    images_hold doff images (rows * chunk) mem →
    parity_holds (mkStriping level lay chunk (zlen images) None) rows mem L →
    (length (absent (image_here images) (zlen images)) ≤ Z.to_nat (parity_of level))%nat →
    len ≤ rows * data_members (mkStriping level lay chunk (zlen images) None) * chunk →
    map_holds len (RaidMap level None lay chunk doff images) L
| mh_raid10 near lay chunk doff images rows len mem L : 0 < chunk →
    raid10_ok (near_rows near rows) (zlen images) → rows * chunk < 2 ^ 64 →
    images_hold doff images (rows * chunk) mem →
    raid10_holds (near_rows near rows) (zlen images) chunk mem L →
    (∀ c, 0 ≤ c < raid10_chunks (near_rows near rows) (zlen images) →
       ∃ x, x ∈ copies (near_rows near rows) (zlen images) c ∧ image_here images x.1 = true) →
    len ≤ raid10_chunks (near_rows near rows) (zlen images) * chunk →
    map_holds len (RaidMap 10 (Some (Raid10_near near)) lay chunk doff images) L
| mh_thin block root meta data msize dsize M D kvs len : pool_holds M msize dsize block root kvs →
    runs_hold 0 msize meta M → runs_hold 0 dsize data D →
    map_holds len (ThinMap block meta data root) (thin_byte kvs block D)
with images_hold : Z → list (option (list Run)) → Z → (Z → Z → Z) → Prop :=
| ih_images doff images room mem ends : 0 ≤ doff → doff + room < 2 ^ 64 →
    (∀ slot, doff + room ≤ ends slot < 2 ^ 64) →
    (∀ slot runs, images !! Z.to_nat slot = Some (Some runs) → 0 ≤ slot →
       runs_hold 0 (ends slot) runs (λ x, mem slot (x - doff))) →
    images_hold doff images room mem.

Scheme runs_hold_rect := Minimality for runs_hold Sort Prop
  with map_holds_rect := Minimality for map_holds Sort Prop
  with images_hold_rect := Minimality for images_hold Sort Prop.
Combined Scheme holds_rect from runs_hold_rect, map_holds_rect, images_hold_rect.

(** The readers of the images, as [read_map] makes them. *)
Definition image_readers (images : list (option (list Run))) : list (option (Z → Z → Result FsError (list Z))) :=
  map (option_map (λ runs, runs_reader (map (run_reader devices) runs))) images.

Lemma image_reader images slot : image_readers images !! slot =
  option_map (option_map (λ runs, runs_reader (map (run_reader devices) runs))) (images !! slot).
Proof. apply list_lookup_fmap. Qed.

Definition images_read (doff : Z) (images : list (option (list Run))) (room : Z) (mem : Z → Z → Z) : Prop :=
  reads_member (image_member (image_readers images) doff) (image_here images) (zlen images) room mem.

Lemma images_read_intro doff images room mem ends : 0 ≤ doff → doff + room < 2 ^ 64 →
  (∀ slot, doff + room ≤ ends slot < 2 ^ 64) →
  (∀ slot runs, images !! Z.to_nat slot = Some (Some runs) → 0 ≤ slot →
     tiles (λ x, mem slot (x - doff)) 0 (ends slot) (map (run_reader devices) runs)) →
  images_read doff images room mem.
Proof.
  intros Hd Hu He Hr slot off len Hs Ho Hl Hle. unfold images_read, image_here.
  assert (∀ s read, 0 ≤ s → image_readers images !! Z.to_nat s = Some (Some read) →
    doff + room ≤ ends s ∧ gives read (ends s) (λ x, mem s (x - doff))) as Hg.
  { intros s read Hs0. rewrite image_reader.
    destruct (images !! Z.to_nat s) as [[runs|]|] eqn:E; cbn; try discriminate. intros [= <-].
    split; [apply He|]. apply runs_reader_gives; [by apply Hr|apply He]. }
  rewrite (image_member_reads (image_readers images) doff room mem ends Hd Hu Hg slot off len);
    [|unfold zlen, image_readers in *; by rewrite length_map|done..].
  rewrite image_reader. by destruct (images !! Z.to_nat slot) as [[runs|]|].
Qed.

Lemma holds_read : devices_give devices C →
  (∀ a b runs L, runs_hold a b runs L → tiles L a b (map (run_reader devices) runs)) ∧
  (∀ len m L, map_holds len m L → piece_gives (read_map devices m) len L) ∧
  (∀ doff images room mem, images_hold doff images room mem → images_read doff images room mem).
Proof.
  intros Hg. apply holds_rect; intros; cbn [map run_reader read_map].
  - constructor.
  - constructor; [done| |done]. by eapply piece_ext; [|done].
  - by apply striped_piece.
  - by apply (mirror_piece _ _ _ _ _ (image_here images) _ mem).
  - by apply (parity_piece level lay chunk _ rows _ (image_here images) mem).
  - by apply (raid10_piece lay chunk near _ rows _ (image_here images) mem).
  - match goal with Hp : pool_holds _ _ _ _ _ _ |- _ =>
      apply (thin_piece _ _ _ _ _ _ _ _ _ _ Hp);
      (apply runs_reader_gives; [done|first [exact (ph_meta _ _ _ _ _ _ Hp)|exact (ph_data _ _ _ _ _ _ Hp)]]) end.
  - by apply (images_read_intro doff images room mem ends).
Qed.

(** Every read inside the runs returns the bytes they hold. *)
Lemma runs_read size runs L off len : devices_give devices C → runs_hold 0 size runs L → size < 2 ^ 64 →
  0 ≤ off → 0 ≤ len → off + len ≤ size → read_runs devices runs off len = Ok (bytes_of L off len).
Proof.
  intros Hg Hr Hs Ho Hl He. unfold read_runs. apply (runs_reader_gives L size); try done.
  by apply (holds_read Hg).
Qed.
End holds.
