(* ===== verification/LvmVolume.v ===== *)
(** * LVM2: a volume of striped segments

    From the metadata to the bytes: [volume_byte] says, from the volume group's
    description alone, which byte of which physical volume a byte of the
    logical volume is, and [volume_holds] proves that the runs [Mapper] makes
    of a volume whose segments are all striped (one stripe is linear) hold
    exactly those bytes. *)
From S2P Require Import Prelude Bytes Device MdStripe Fmt LvmText Lvm LvmMap LvmRead.
From S2P Require Md.

(** ** What [from_metadata] promises of the numbers *)
Record segment_ok (s : Segment) : Prop := {
  sg_start : 0 ≤ start_extent s;
  sg_count : 0 ≤ extent_count s;
  sg_stripe : 1 < zlen (stripes s) → 0 < stripe_size s;
  sg_stripes : ∀ st, st ∈ stripes s → 0 ≤ s_start_extent st;
}.

Record vg_ok (vg : VolumeGroup) : Prop := {
  vg_extent : 0 < extent_size vg;
  vg_pvs : ∀ pv, pv ∈ physical_volumes vg → 0 ≤ pe_start pv;
  vg_lvs : ∀ l s, l ∈ logical_volumes vg → s ∈ segments l → segment_ok s;
}.

Lemma uint_nonneg s key n : uint s key = Ok n → 0 ≤ n.
Proof. unfold uint. intros H. inv_ok. destruct (Z.ltb_spec x 0); [done|]. injection H as <-. lia. Qed.

Lemma stripe_of_nonneg lv key pair st : stripe_of lv key pair = Ok (Some st) → 0 ≤ s_start_extent st.
Proof.
  unfold stripe_of. destruct pair as [|[|pv| |] [|[e| | |] [|? ?]]]; try discriminate.
  destruct (Z.leb_spec 0 e); [|discriminate]. by intros [= <-].
Qed.

Lemma striped_of_ok lv key seg size sts : striped_of lv key seg = Ok (size, sts) →
  (1 < zlen sts → 0 < size) ∧ ∀ st, st ∈ sts → 0 ≤ s_start_extent st.
Proof.
  unfold striped_of. destruct (get seg (lit "stripes")) as [[| |items|]|]; try discriminate.
  intros H. inv_ok. zbool. split.
  - intros Hn. subst. destruct (Z.ltb_spec 1 (zlen x)).
    + inv_ok. match goal with Hu : uint _ _ = Ok _ |- _ => apply uint_nonneg in Hu end.
      zbool. unfold SECTOR in *. lia.
    + inv_ok. subst. lia.
  - intros st Hst. assert (sts = x) as ->.
    { destruct (1 <? x0); inv_ok; by subst. }
    destruct (collectM_in _ _ _ _ Hx Hst) as (pair & _ & Hp). by eapply stripe_of_nonneg.
Qed.

Lemma segment_of_ok lv ks s : segment_of lv ks = Ok (Some s) → segment_ok s.
Proof.
  destruct ks as [key seg]. cbn [segment_of]. destruct (negb _); [discriminate|].
  intros (k & _ & ((size, sts) & Hst & ((imgs, metas) & _ & H)%bind_Ok)%bind_Ok)%bind_Ok.
  apply bind_Ok in H as (start & Hs & (count & Hc & [= <-])%bind_Ok).
  apply uint_nonneg in Hs, Hc. destruct (is_kind k "striped").
  - destruct (striped_of_ok _ _ _ _ _ Hst) as [H1 H2]. by constructor.
  - injection Hst as <- <-. constructor; cbn; [done..|by unfold zlen|by intros st ?%not_elem_of_nil].
Qed.

Lemma from_metadata_ok top vg : from_metadata top = Ok vg → vg_ok vg.
Proof.
  unfold from_metadata. intros H. inv_ok. destruct x as [name entries]. inv_ok. subst.
  apply uint_nonneg in Hx0. zbool. constructor; cbn.
  - unfold SECTOR in *. lia.
  - intros pv Hpv. destruct (collectM_in _ _ _ _ Hx4 Hpv) as ([? ?] & _ & Hf).
    unfold pv_of in Hf. inv_ok. subst. cbn.
    match goal with Hu : uint _ "pe_start" = Ok _ |- _ => apply uint_nonneg in Hu end. unfold SECTOR. lia.
  - intros l s Hl Hs. destruct (get entries _) as [[| | |lvs]|]; try (injection Hx5 as <-; by apply not_elem_of_nil in Hl).
    destruct (collectM_in _ _ _ _ Hx5 Hl) as ([? e] & _ & Hf). unfold lv_of in Hf. inv_ok. subst.
    cbn in Hs. rewrite sort_by_perm in Hs.
    match goal with Hc : collectM (segment_of _) _ = Ok _ |- _ =>
      destruct (collectM_in _ _ _ _ Hc Hs) as (ks & _ & Hk) end.
    by eapply segment_of_ok.
Qed.

Section volume.
Context {R : Type} `{!BlockRead R} {tables : CharTables}.

Lemma group_of_text_ok text vg : group_of_text text = Ok vg → vg_ok vg.
Proof. unfold group_of_text. intros (top & _ & Hf)%bind_Ok. by eapply from_metadata_ok. Qed.

Lemma read_volume_group_ok (devices : list R) vg : read_volume_group devices = Ok vg → vg_ok vg.
Proof.
  unfold read_volume_group. intros (best & Hb & Ho%ok_or_Ok)%bind_Ok.
  assert (∀ g, best = Some g → vg_ok g) as Hall; [|by apply Hall].
  revert best Hb Ho. intros best Hb _.
  apply (foldM_keeps group_step (λ b, ∀ g, b = Some g → vg_ok g) (Md.enumerate devices) None best); [|done..].
  clear best Hb. intros b [i dev] b' _ Hb Hs. cbn [group_step] in Hs.
  apply bind_Ok in Hs as (o & _ & (label & _ & (text & _ & Hs)%bind_Ok)%bind_Ok).
  destruct text as [text|]; [|by injection Hs as <-].
  apply bind_Ok in Hs as (g' & Hg%group_of_text_ok & [= <-]). intros g Eg.
  destruct (match b with Some b0 => seqno b0 <? seqno g' | None => true end); [by injection Eg as <-|by apply Hb].
Qed.

Lemma index_nonneg (devices : list R) u2d : foldM index_step ∅ (Md.enumerate devices) = Ok u2d →
  ∀ u d, u2d !! u = Some d → 0 ≤ d.
Proof.
  intros H. apply (foldM_keeps index_step (λ m : gmap (list Z) Z, ∀ u d, m !! u = Some d → 0 ≤ d)
    (Md.enumerate devices) ∅ u2d); [|by intros u d ?%lookup_empty_Some|done].
  intros m [i dev] m' Hin Hm Hs u d Hu. cbn [index_step] in Hs.
  apply bind_Ok in Hs as (o & _ & (label & _ & [= <-])%bind_Ok).
  apply lookup_insert_Some in Hu as [[_ <-]|[_ Hu]]; [|by apply (Hm u)].
  unfold Md.enumerate in Hin. apply elem_of_zip_l, elem_of_seqZ in Hin. lia.
Qed.

(** ** Which byte of which device *)
Section bytes.
Context (vg : VolumeGroup) (u2d : gmap (list Z) Z) (devices : list R) (C : Z → Z → Z).

(** Where a stripe starts: the device holding its PV, and the byte there. *)
Definition place (st : Stripe) : Z * Z :=
  match find (λ p, bytes_eqb (pv_name p) (s_pv st)) (physical_volumes vg) with
  | Some pv => (default 0 (u2d !! pv_id pv), s_start_extent st * extent_size vg + pe_start pv)
  | None => (0, 0)
  end.

(** Byte [w] of a striped segment. *)
Definition segment_byte (s : Segment) (w : Z) : Z :=
  let at_ := stripe_at (stripe_size s) (map place (stripes s)) w in C at_.1 at_.2.

(** Byte [x] of the segments laid end to end. *)
Fixpoint volume_byte (segs : list Segment) (x : Z) : Z :=
  match segs with
  | [] => 0
  | s :: segs =>
      let len := extent_count s * extent_size vg in
      if x <? len then segment_byte s x else volume_byte segs (x - len)
  end.

Definition extents (segs : list Segment) : Z := foldr (λ s n, extent_count s + n) 0 segs.

Lemma stripe_place_ok name per st p : vg_ok vg → (∀ u d, u2d !! u = Some d → 0 ≤ d) →
  0 ≤ per → per * extent_size vg < 2 ^ 64 → 0 ≤ s_start_extent st →
  stripe_place vg u2d devices name per st = Ok p →
  p = Some (place st) ∧ 0 ≤ (place st).1 ∧ 0 ≤ (place st).2 ∧
  ∃ dv, devices !! Z.to_nat (place st).1 = Some dv ∧ (place st).2 + per * extent_size vg ≤ size_bytes dv.
Proof.
  intros Hvg Hd Hper Hmul Hst. unfold stripe_place, place.
  destruct (find _ (physical_volumes vg)) as [pv|] eqn:Epv; cbn [ok_or mbind Result_bind]; [|done].
  pose proof (vg_pvs _ Hvg pv) as Hpe. apply find_some in Epv as [Hin _]. apply list_elem_of_In in Hin.
  specialize (Hpe Hin). pose proof (vg_extent _ Hvg) as Hext.
  destruct (u2d !! pv_id pv) as [dev|] eqn:Eu; cbn [ok_or mbind Result_bind default fst snd]; [|done].
  intros H. inv_ok. destruct (checked_add (s_start_extent st) per) as [e|]; [|done].
  match goal with Ho : (_ ≫= _) = Some _ |- _ =>
    apply bind_Some in Ho as (o & [-> Ho]%checked_mul_Some & [-> Ho']%checked_add_Some) end.
  subst. rewrite u64_small in * by nia.
  destruct (checked_add _ _) as [e'|] eqn:Ee; [|done]. apply checked_add_Some in Ee as [-> Ee]. zbool.
  specialize (Hd _ _ Eu). split_and!; [done|done|nia|]. eexists. split; [done|lia].
Qed.

Lemma collectM_places {A B} (f : A → Result LvmError (option B)) (h : A → B) (P : B → Prop) l r :
  (∀ x y, x ∈ l → f x = Ok y → y = Some (h x) ∧ P (h x)) →
  collectM f l = Ok r → r = map h l ∧ Forall P r.
Proof.
  revert r. induction l as [|x l IH]; intros r Hf; cbn [collectM map]; [by intros [= <-]|].
  intros (o & Ho & (r' & Hr & [= <-])%bind_Ok)%bind_Ok.
  destruct (Hf x o ltac:(set_solver) Ho) as [-> HP].
  destruct (IH r' ltac:(set_solver) Hr) as [-> HF]. split; [done|by constructor].
Qed.

Hypothesis (Hvg : vg_ok vg) (Hd : ∀ u d, u2d !! u = Some d → 0 ≤ d).

Lemma map_striped_holds name s m : segment_ok s → extent_count s * extent_size vg < 2 ^ 64 →
  map_striped vg u2d devices name s = Ok m →
  map_holds devices C (extent_count s * extent_size vg) m (segment_byte s).
Proof.
  intros Hs Hmul H. pose proof (vg_extent _ Hvg) as Hext. pose proof (sg_count _ Hs) as Hcount.
  unfold map_striped in H. apply bind_Ok in H as ([] & [Hn Hm]%refuse_if_Ok%orb_false_iff & H).
  apply bind_Ok in H as (places & Hp & ([] & Hdiv%refuse_if_Ok & [= <-])%bind_Ok).
  set (n := zlen (stripes s)) in *. assert (0 < n) as Hn0 by (zbool; unfold n, zlen in *; lia).
  apply negb_false_iff in Hm. apply is_multiple_of_spec in Hm; [|done].
  set (per := extent_count s / n) in *. assert (0 ≤ per) as Hper by (apply Z.div_pos; lia).
  assert (per * extent_size vg < 2 ^ 64) as Hpm by nia.
  apply (collectM_places _ place (λ p, 0 ≤ p.1 ∧ 0 ≤ p.2 ∧ ∃ dv, devices !! Z.to_nat p.1 = Some dv ∧
    p.2 + per * extent_size vg ≤ size_bytes dv)) in Hp as [-> Hfit].
  2:{ intros st y Hst Hy. by apply (stripe_place_ok name per st y Hvg Hd Hper Hpm (sg_stripes _ Hs st Hst)). }
  assert (zlen (map place (stripes s)) = n) as Hzn by (unfold n, zlen; by rewrite length_map).
  replace (extent_count s * extent_size vg) with (zlen (map place (stripes s)) * (per * extent_size vg))
    by (rewrite Hzn; nia).
  apply mh_striped. constructor.
  - intros E. rewrite E in Hzn. unfold zlen in Hzn. cbn in Hzn. lia.
  - nia.
  - rewrite Hzn. intros H1. rewrite (proj2 (Z.ltb_lt 1 n)), u64_small in Hdiv by nia. cbn in Hdiv.
    pose proof (sg_stripe _ Hs H1). split; [done|]. apply negb_false_iff, is_multiple_of_spec in Hdiv; [|done].
    exists (per * extent_size vg / stripe_size s). lia.
  - intros i d o Hi. apply list_elem_of_lookup_2 in Hi. exact (Forall_in _ _ _ Hfit Hi).
Qed.

Definition striped (s : Segment) : Prop := is_kind (kind s) "striped" = true.

Lemma extents_nonneg segs : Forall segment_ok segs → 0 ≤ extents segs.
Proof.
  induction 1 as [|s segs Hs _ IH]; [done|]. pose proof (sg_count _ Hs).
  change (extents (s :: segs)) with (extent_count s + extents segs). lia.
Qed.

Lemma map_steps_hold sub name segs runs next out L : Forall segment_ok segs → Forall striped segs →
  0 ≤ next → (next + extents segs) * extent_size vg < 2 ^ 64 →
  (∀ w, 0 ≤ w → L (next * extent_size vg + w) = volume_byte segs w) →
  foldM (map_step vg u2d devices sub name) (runs, next) segs = Ok out →
  ∃ new, out = (runs ++ new, next + extents segs) ∧
    runs_hold devices C (next * extent_size vg) ((next + extents segs) * extent_size vg) new L.
Proof.
  pose proof (vg_extent _ Hvg) as Hext.
  revert runs next. induction segs as [|s segs IH]; intros runs next Hok Hst Hnext Hmul HL; cbn [foldM extents foldr].
  { intros [= <-]. exists []. rewrite app_nil_r, Z.add_0_r. split; [done|constructor]. }
  cbn [extents foldr] in Hmul. fold (extents segs) in *.
  apply Forall_cons in Hok as [Hs Hok], Hst as [Hk Hst]. pose proof (sg_count _ Hs) as Hcount.
  pose proof (extents_nonneg segs Hok) as Hex.
  intros (mid & Hmid & Hrest)%bind_Ok. unfold map_step in Hmid.
  apply bind_Ok in Hmid as ([] & _ & (len & [-> Hlen]%ok_or_Ok%checked_mul_Some & (m & Hm & [= <-])%bind_Ok)%bind_Ok).
  unfold map_kind in Hm. unfold striped in Hk. rewrite Hk in Hm.
  apply map_striped_holds in Hm; [|done..]. rewrite !u64_small in Hrest by nia.
  destruct (IH (runs ++ [mkRun (next * extent_size vg) (extent_count s * extent_size vg) m])
    (next + extent_count s) Hok Hst) as (new & Enew & Hnew); [lia|nia| |done|].
  { intros w Hw. replace ((next + extent_count s) * extent_size vg + w)
      with (next * extent_size vg + (extent_count s * extent_size vg + w)) by lia.
    rewrite HL by nia. cbn [volume_byte]. rewrite (proj2 (Z.ltb_ge _ _)) by lia. f_equal. lia. }
  replace (next + (extent_count s + extents segs)) with (next + extent_count s + extents segs) by lia.
  exists (mkRun (next * extent_size vg) (extent_count s * extent_size vg) m :: new).
  split; [by rewrite Enew, <- app_assoc|].
  eapply rh_cons; [nia|exact Hm| |by replace (next * extent_size vg + extent_count s * extent_size vg)
    with ((next + extent_count s) * extent_size vg) by lia].
  intros w Hw. rewrite HL by lia. cbn [volume_byte]. by rewrite (proj2 (Z.ltb_lt _ _)) by lia.
Qed.
End bytes.

(** The volume [open] returns. *)
Lemma volume_holds devices name v vg u2d C :
  read_volume_group devices = Ok vg → foldM index_step ∅ (Md.enumerate devices) = Ok u2d →
  open devices name = Ok v → Forall striped (segments (v_info v)) →
  extents (segments (v_info v)) * extent_size vg < 2 ^ 64 →
  v_devices v = devices ∧ v_size v = extents (segments (v_info v)) * extent_size vg ∧
  runs_hold devices C 0 (v_size v) (v_runs v) (volume_byte vg u2d C (segments (v_info v))).
Proof.
  intros Hvg Hu Hopen. unfold open in Hopen. rewrite Hvg in Hopen. cbn [mbind Result_bind] in Hopen.
  rewrite Hu in Hopen. cbn [mbind Result_bind] in Hopen.
  apply bind_Ok in Hopen as (info & Hinfo & ((runs, size) & Hmap & [= <-])%bind_Ok).
  cbn [v_info v_devices v_size v_runs]. intros Hst Hmul.
  pose proof (read_volume_group_ok _ _ Hvg) as Hok. pose proof (index_nonneg _ _ Hu) as Hd.
  cbn [map_lv] in Hmap. rewrite Hinfo in Hmap. cbn [mbind Result_bind] in Hmap.
  apply bind_Ok in Hmap as ((runs', next) & Hsteps & [= -> <-]).
  assert (Forall segment_ok (segments info)) as Hsegs.
  { apply list.Forall_forall. intros s Hs. apply ok_or_Ok, find_some in Hinfo as [Hin _].
    apply (vg_lvs _ Hok info s); [by apply list_elem_of_In|done]. }
  pose proof (vg_extent _ Hok) as Hext. pose proof (extents_nonneg _ Hsegs) as Hex.
  destruct (map_steps_hold vg u2d devices C Hok Hd _ name (segments info) [] 0 _
    (volume_byte vg u2d C (segments info)) Hsegs Hst (Z.le_refl 0) Hmul ltac:(done) Hsteps) as (new & E & Hnew).
  injection E as -> ->. rewrite Z.add_0_l in *. rewrite u64_small by nia. done.
Qed.
End volume.
