(* ===== verification/LvmScan.v ===== *)
(** * LVM2: sorting devices, and the newest metadata

    [scan_lists] proves that [scan] puts every device in exactly one list,
    [scan_named] that a group's devices are those its metadata names, and
    [newest_text] that the text a PV's areas give is the newest that reads. *)
From S2P Require Import Prelude Bytes Device Fmt LvmText Lvm LvmMap MdScan.
From S2P Require Md.

(** A list split by an index below [n], or none. *)
Lemma split_by_index {A} (f : A → option nat) n l : (∀ x i, x ∈ l → f x = Some i → (i < n)%nat) →
  concat (map (λ i, filter (λ x, f x = Some i) l) (seq 0 n)) ++ filter (λ x, f x = None) l ≡ₚ l.
Proof.
  induction l as [|x l IH]; intros Hf.
  { rewrite filter_nil, app_nil_r. clear. induction (seq 0 n) as [|i l IH]; [done|exact IH]. }
  specialize (IH ltac:(set_solver)). destruct (f x) as [i|] eqn:E.
  - assert (i < n)%nat as Hi by (apply (Hf x i); [set_solver|done]).
    rewrite filter_cons_False by (by rewrite E).
    assert (∀ a k, (a ≤ i < a + k)%nat →
      concat (map (λ j, filter (λ y, f y = Some j) (x :: l)) (seq a k)) ≡ₚ
      x :: concat (map (λ j, filter (λ y, f y = Some j) l) (seq a k))) as Hc.
    { intros a k. revert a. induction k as [|k IHk]; intros a Hk; [lia|]. cbn [seq map concat].
      destruct (decide (i = a)) as [->|Hne].
      - rewrite filter_cons_True by done. cbn. f_equiv. f_equiv. clear - E.
        assert (∀ b, (a < b)%nat → concat (map (λ j, filter (λ y, f y = Some j) (x :: l)) (seq b k)) =
          concat (map (λ j, filter (λ y, f y = Some j) l) (seq b k))) as ->; [|done|lia].
        induction k as [|k IH]; intros b Hb; [done|]. cbn [seq map concat].
        rewrite filter_cons_False by (rewrite E; intros [= ->]; lia). by rewrite IH by lia.
      - rewrite filter_cons_False by (rewrite E; by intros [= ->]). rewrite (IHk (S a)) by lia.
        by rewrite Permutation_middle. }
    rewrite (Hc 0%nat n) by lia. cbn. by rewrite IH.
  - rewrite filter_cons_True by done.
    assert (∀ k a, concat (map (λ j, filter (λ y, f y = Some j) (x :: l)) (seq a k)) =
      concat (map (λ j, filter (λ y, f y = Some j) l) (seq a k))) as ->.
    { induction k as [|k IHk]; intros a; [done|]. cbn [seq map concat].
      by rewrite filter_cons_False, IHk by (by rewrite E). }
    by rewrite <- Permutation_middle, IH.
Qed.

Section scan.
Context {R : Type} `{!BlockRead R} {tables : CharTables}.

Lemma position_naming_spec groups uuid i : position_naming groups uuid = Some i →
  ∃ g, groups !! i = Some g ∧ names_pv g uuid = true.
Proof.
  revert i. induction groups as [|g groups IH]; intros i; cbn; [done|].
  destruct (names_pv g uuid) eqn:E; [intros [= <-]; by exists g|].
  intros (j & Hj & ->)%fmap_Some. by apply IH.
Qed.

Lemma scan_step_lists st x :
  let '(pvs, groups, others, refused) := st in
  let '(pvs', groups', others', refused') := scan_step st x in
  map fst pvs' ++ others' ++ map fst refused' ≡ₚ x.2 :: map fst pvs ++ others ++ map (A:=R * LvmError) fst refused.
Proof.
  destruct st as [[[pvs groups] others] refused]. destruct x as [i dev]. cbn [scan_step snd].
  assert (∀ a b c : list R, (a ++ [dev]) ++ b ++ c ≡ₚ dev :: a ++ b ++ c) as H1.
  { intros a b c. rewrite <- app_assoc. cbn. by rewrite <- Permutation_middle. }
  assert (∀ a b c : list R, a ++ (b ++ [dev]) ++ c ≡ₚ dev :: a ++ b ++ c) as H2.
  { intros a b c. rewrite <- (app_assoc b), !(app_assoc a b). symmetry. apply (Permutation_middle (a ++ b) c dev). }
  assert (∀ a b c : list R, a ++ b ++ c ++ [dev] ≡ₚ dev :: a ++ b ++ c) as H3.
  { intros a b c. by rewrite !app_assoc, Permutation_app_comm. }
  destruct (read_pv_label_of dev i) as [[label|]|e].
  - match goal with |- context [match ?m with Ok _ => _ | Err _ => _ end] => destruct m as [vg|e] end;
      rewrite !map_app; cbn [map fst]; [apply H1|apply H3].
  - apply H2.
  - rewrite !map_app. cbn [map fst]. apply H3.
Qed.

Lemma scan_loop_lists l st :
  let '(pvs, groups, others, refused) := st in
  let '(pvs', groups', others', refused') := foldl scan_step st l in
  map fst pvs' ++ others' ++ map fst refused' ≡ₚ map snd l ++ map fst pvs ++ others ++ map (A:=R * LvmError) fst refused.
Proof.
  revert st. induction l as [|x l IH]; intros st.
  { destruct st as [[[pvs groups] others] refused]. cbn. reflexivity. }
  pose proof (scan_step_lists st x) as Hx. cbn [foldl map]. specialize (IH (scan_step st x)).
  destruct st as [[[pvs groups] others] refused].
  destruct (scan_step (pvs, groups, others, refused) x) as [[[pvs1 groups1] others1] refused1].
  destruct (foldl scan_step _ l) as [[[pvs2 groups2] others2] refused2].
  rewrite IH, Hx. cbn [app]. by rewrite <- Permutation_middle.
Qed.

Lemma imap_pair_seq {A B} (h : nat * A → list B) groups a :
  concat (map h (imap (λ i, pair (a + i)%nat) groups)) =
  concat (map (λ i, default [] (h ∘ pair i <$> groups !! (i - a)%nat)) (seq a (length groups))).
Proof.
  revert a. induction groups as [|g groups IH]; intros a; [done|]. cbn [imap map concat length seq].
  rewrite Nat.sub_diag, Nat.add_0_r. cbn. f_equal.
  erewrite imap_ext; [rewrite (IH (S a))|intros; cbn; f_equal; lia].
  f_equal. apply map_ext_in. intros i Hi%in_seq. by replace (i - a)%nat with (S (i - S a)) by lia.
Qed.

(** Every device ends in exactly one of the lists. *)
Lemma scan_lists (devices : list R) : let s := scan devices in
  concat (map vg_devices (volume_groups s)) ++ unclaimed s ++ others s ++ map fst (refused s) ≡ₚ devices.
Proof.
  cbn zeta. unfold scan. pose proof (scan_loop_lists (Md.enumerate devices) ([], [], [], [])) as H.
  destruct (foldl scan_step _ _) as [[[pvs groups] others_] refused_]. cbn in H |- *.
  rewrite app_nil_r, enumerate_snd in H. rewrite <- H. rewrite app_assoc. f_equiv.
  rewrite <- (split_by_index (λ du : R * list Z, position_naming groups du.2) (length groups) pvs) at 3.
  2:{ intros x i _ (g & Hg & _)%position_naming_spec. by eapply lookup_lt_Some. }
  rewrite map_app. f_equiv. rewrite map_map.
  pose proof (imap_pair_seq (λ ig, vg_devices (scan_group groups pvs ig)) groups 0) as E. cbn in E.
  erewrite imap_ext in E; [rewrite E|done]. rewrite concat_map, map_map.
  assert (∀ a b : list R, a = b → a ≡ₚ b) as Heq by (by intros a b ->). apply Heq. f_equal. apply map_ext_in. intros i Hi%in_seq.
  destruct (lookup_lt_is_Some_2 groups i) as [g Hg]; [lia|]. rewrite Nat.sub_0_r, Hg. done.
Qed.

(** ** The groups' devices *)
Lemma scan_step_labelled (devices : list R) l st :
  Forall (λ du : R * list Z, du.1 ∈ devices ∧ ∃ i label, read_pv_label_of du.1 i = Ok (Some label) ∧ pv_uuid label = du.2)
    (st.1.1.1) → Forall (λ x : Z * R, x.2 ∈ devices) l →
  Forall (λ du : R * list Z, du.1 ∈ devices ∧ ∃ i label, read_pv_label_of du.1 i = Ok (Some label) ∧ pv_uuid label = du.2)
    ((foldl scan_step st l).1.1.1).
Proof.
  revert st. induction l as [|[i dev] l IH]; intros st Hst Hl; [done|]. apply Forall_cons in Hl as [Hd Hl].
  cbn [foldl]. apply IH; [|done]. destruct st as [[[pvs groups] others_] refused_]. cbn [scan_step].
  destruct (read_pv_label_of dev i) as [[label|]|e] eqn:E; [|done..].
  match goal with |- context [match ?m with Ok _ => _ | Err _ => _ end] => destruct m as [vg|e] end; [|done].
  cbn. apply Forall_app. split; [done|]. apply Forall_singleton. cbn. split; [done|]. by exists i, label.
Qed.

(** A device is given to a group only if its label's UUID is one of the group's PVs. *)
Lemma scan_named (devices : list R) g d : g ∈ volume_groups (scan devices) → d ∈ vg_devices g →
  d ∈ devices ∧ ∃ i label, read_pv_label_of d i = Ok (Some label) ∧ names_pv (volume_group g) (pv_uuid label) = true.
Proof.
  unfold scan. pose proof (scan_step_labelled devices (Md.enumerate devices) ([], [], [], [])) as Hall.
  destruct (foldl scan_step _ _) as [[[pvs groups] others_] refused_]. cbn in Hall |- *.
  specialize (Hall ltac:(constructor)). intros Hg Hd.
  assert (Forall (λ x : Z * R, x.2 ∈ devices) (Md.enumerate devices)) as Hen.
  { apply list.Forall_forall. intros [k x] Hx. unfold Md.enumerate in Hx. by apply elem_of_zip_r in Hx. }
  specialize (Hall Hen). apply list_elem_of_In, in_map_iff in Hg as ([i g0] & <- & Hi).
  apply list_elem_of_In, elem_of_lookup_imap in Hi as (j & g1 & [= <- <-] & Hj). cbn in Hd.
  apply list_elem_of_fmap in Hd as ([d' u] & -> & [Hp Hin]%list_elem_of_filter). cbn in Hp |- *.
  destruct (Forall_in _ _ _ Hall Hin) as (Hdev & k & label & Hl & Eu). cbn in Hdev, Hl, Eu. split; [done|].
  exists k, label. split; [done|]. rewrite Eu.
  apply position_naming_spec in Hp as (g2 & Hg2 & Hn). rewrite Hj in Hg2. by injection Hg2 as ->.
Qed.

(** ** The newest metadata of a device *)
Section areas.
Context (dev : R) (device : Z).

(** What one area gives: a sequence number and a text, or an error. *)
Definition area_group (a : Z * Z) : option (Z * list Z) :=
  match read_area dev a.1 a.2 device with
  | Ok (Some text) => match group_of_text text with Ok vg => Some (seqno vg, text) | Err _ => None end
  | _ => None
  end.
Definition area_error (a : Z * Z) : option LvmError :=
  match read_area dev a.1 a.2 device with
  | Ok (Some text) => match group_of_text text with Ok _ => None | Err e => Some e end
  | Ok None => None
  | Err e => Some e
  end.

Definition newest_inv (areas : list (Z * Z)) (st : option (Z * list Z) * option LvmError) : Prop :=
  match st.1 with
  | Some (n, t) => (∃ a, a ∈ areas ∧ area_group a = Some (n, t)) ∧
      ∀ a m t', a ∈ areas → area_group a = Some (m, t') → m ≤ n
  | None => ∀ a, a ∈ areas → area_group a = None
  end ∧
  match st.2 with
  | Some e => ∃ a, a ∈ areas ∧ area_error a = Some e
  | None => ∀ a, a ∈ areas → area_error a = None
  end.

Lemma area_step_cases st a :
  area_step dev device st a =
    (match area_group a with
     | Some (m, t) => if match st.1 with Some (n, _) => n <? m | None => true end then Some (m, t) else st.1
     | None => st.1
     end,
     match area_error a with Some e => Some (default e st.2) | None => st.2 end).
Proof.
  unfold area_step, area_group, area_error. destruct st as [newest err], a as [start size]. cbn [fst snd].
  destruct (read_area dev start size device) as [[text|]|e]; [|done..].
  change (top ← parse_metadata text; from_metadata top) with (group_of_text text).
  by destruct (group_of_text text) as [vg|e].
Qed.

Lemma newest_step areas st a : newest_inv areas st → newest_inv (areas ++ [a]) (area_step dev device st a).
Proof.
  rewrite area_step_cases. destruct st as [newest err]. unfold newest_inv. cbn [fst snd].
  assert (∀ (P : Z * Z → Prop), (∀ x, x ∈ areas → P x) → P a → ∀ x, x ∈ areas ++ [a] → P x) as Hall by set_solver.
  intros [Hn He]. split.
  - destruct (area_group a) as [[m t]|] eqn:Ea.
    + destruct newest as [[n t0]|].
      * destruct Hn as [(b & Hb & Eb) Hmax]. destruct (Z.ltb_spec n m) as [Hlt|Hge]; cbn.
        { split; [exists a; split; [set_solver|done]|]. intros x m' t' Hx. revert x Hx. apply (Hall (λ x, area_group x = _ → _)).
          - intros x Hx E. pose proof (Hmax x m' t' Hx E). lia.
          - rewrite Ea. intros [= <- <-]. lia. }
        { split; [exists b; split; [set_solver|done]|]. intros x m' t' Hx. revert x Hx. apply (Hall (λ x, area_group x = _ → _)).
          - intros x Hx E. by apply (Hmax x m' t').
          - rewrite Ea. by intros [= <- <-]. }
      * cbn. split; [exists a; split; [set_solver|done]|]. intros x m' t' Hx. revert x Hx. apply (Hall (λ x, area_group x = _ → _)).
        { intros x Hx. by rewrite Hn. }
        rewrite Ea. by intros [= <- <-].
    + destruct newest as [[n t0]|].
      * destruct Hn as [(b & Hb & Eb) Hmax]. split; [exists b; split; [set_solver|done]|].
        intros x m' t' Hx. revert x Hx. apply (Hall (λ x, area_group x = _ → _)).
        { intros x Hx E. by apply (Hmax x m' t'). } by rewrite Ea.
      * by apply (Hall (λ x, area_group x = None)).
  - destruct (area_error a) as [e|] eqn:Ea.
    + destruct err as [e0|]; cbn.
      * destruct He as (b & Hb & Eb). exists b. split; [set_solver|done].
      * exists a. split; [set_solver|done].
    + destruct err as [e0|].
      * destruct He as (b & Hb & Eb). exists b. split; [set_solver|done].
      * by apply (Hall (λ x, area_error x = None)).
Qed.

Lemma newest_text label :
  match read_metadata_text_of dev label device with
  | Ok (Some t) => ∃ a n, a ∈ metadata_areas label ∧ area_group a = Some (n, t) ∧
      ∀ b m t', b ∈ metadata_areas label → area_group b = Some (m, t') → m ≤ n
  | Ok None => ∀ a, a ∈ metadata_areas label → area_group a = None ∧ area_error a = None
  | Err e => (∀ a, a ∈ metadata_areas label → area_group a = None) ∧
      ∃ a, a ∈ metadata_areas label ∧ area_error a = Some e
  end.
Proof.
  assert (newest_inv (metadata_areas label) (foldl (area_step dev device) (None, None) (metadata_areas label))) as [Hn He].
  { generalize (metadata_areas label) as areas. refine (rev_ind _ _ _).
    - split; cbn; intros a []%not_elem_of_nil.
    - intros a areas IH. rewrite foldl_app. by apply newest_step. }
  unfold read_metadata_text_of. destruct (foldl _ _ _) as [[[n t]|] [e|]]; cbn in Hn, He.
  - destruct Hn as [(a & Ha & Ea) Hmax]. by exists a, n.
  - destruct Hn as [(a & Ha & Ea) Hmax]. by exists a, n.
  - done.
  - intros a Ha. split; [by apply Hn|by apply He].
Qed.
End areas.
End scan.
