(* ===== verification/LvmProps.v ===== *)
(** * LVM2: the properties

    The theorems about the LVM2 reader, with witnesses on physical volumes,
    metadata texts and thin pools built in memory. *)
From S2P Require Import Prelude Bytes Device MdLayout MdRead MdRows MdStripe MdArray MdProps.
From S2P Require Import Fmt LvmText LvmParse Thin ThinTree Lvm LvmMap LvmRead LvmVolume LvmScan.
From S2P Require Md.

(** A disk of the shelf gives its bytes. *)
Definition disk_bytes `{!Shelf} (devices : list Disk) (i x : Z) : Z :=
  byte_at (default [] (shelf <$> devices !! Z.to_nat i)) x.

Lemma slice_bytes l off n : 0 ≤ off → 0 ≤ n → off + n ≤ zlen l →
  bslice l off (off + n) = bytes_of (byte_at l) off n.
Proof.
  intros Ho Hn He. apply list_eq. intros i. rewrite lookup_bslice by lia. unfold bytes_of.
  change (@map Z Z) with (fmap (M:=list) (A:=Z) (B:=Z)). rewrite list_lookup_fmap.
  destruct (decide (Z.of_nat i < n)) as [Hi|Hi].
  - rewrite decide_True by lia. rewrite lookup_seqZ_lt by lia. cbn. unfold byte_at.
    replace (Z.to_nat (off + (0 + Z.of_nat i))) with (Z.to_nat off + i)%nat by lia.
    destruct (lookup_lt_is_Some_2 l (Z.to_nat off + i)) as [x ->]; [unfold zlen in *; lia|done].
  - rewrite decide_False by lia. by rewrite lookup_seqZ_ge by lia.
Qed.

Lemma disks_give `{!Shelf} `{!ShelfLaws} devices : devices_give devices (disk_bytes devices).
Proof.
  intros i d Hi Hd. cbn. pose proof (shelf_size d). pose proof (zlen_nonneg (shelf d)).
  split; [by split|]. intros off len Ho Hl He.
  rewrite (proj2 (Z.leb_le _ _)), (proj2 (Z.leb_le _ _)) by lia. cbn [andb]. f_equal.
  rewrite slice_bytes by done. apply bytes_of_eq. intros j Hj. unfold disk_bytes. by rewrite Hd.
Qed.

(** ** A volume group of two physical volumes *)
Module VolumeSample.
Definition uuid (k : Z) : list Z := replicate 31 (97 + k) ++ [48 + k].

Definition stripe_item (pv : string) (e : Z) : list Value := [Str (lit pv); Int e].
Definition segment_entries (start count n : Z) (places : list Value) : Entries :=
  [(lit "start_extent", Int start); (lit "extent_count", Int count); (lit "type", Str (lit "striped"));
   (lit "stripe_count", Int n); (lit "stripe_size", Int 1); (lit "stripes", List places)].
Definition pv_entries (k : Z) : Entries :=
  [(lit "id", Str (uuid k)); (lit "pe_start", Int 8); (lit "pe_count", Int 8)].

(** A volume of two segments: four extents over two stripes, one linear. *)
Definition group : Entries :=
  [(lit "vg0", Sect
     [(lit "id", Str (lit "vg-id")); (lit "seqno", Int 3); (lit "extent_size", Int 1);
      (lit "physical_volumes", Sect [(lit "pv0", Sect (pv_entries 0)); (lit "pv1", Sect (pv_entries 1))]);
      (lit "logical_volumes", Sect
         [(lit "root", Sect
            [(lit "id", Str (lit "lv-id"));
             (lit "segment2", Sect (segment_entries 4 1 1 (stripe_item "pv1" 5)));
             (lit "segment1", Sect (segment_entries 0 4 2 (stripe_item "pv1" 0 ++ stripe_item "pv0" 3)))])])])].
Definition text : list Z := Eval vm_compute in as_bytes (print_metadata group).

(** A device with its label in sector 1, its metadata area from byte 1024 and
    its extents from byte 4096. *)
Definition label_body (k : Z) : list Z :=
  pad 492 (le_bytes 4 32 ++ LABEL_TYPE ++ uuid k ++ le_bytes 8 8192 ++ le_bytes 8 4096 ++ le_bytes 8 0
    ++ zeros 16 ++ le_bytes 8 1024 ++ le_bytes 8 3072 ++ zeros 16).
Definition area_body : list Z :=
  pad 508 (MDA_MAGIC ++ le_bytes 4 1 ++ le_bytes 8 1024 ++ le_bytes 8 3072 ++ le_bytes 8 512
    ++ le_bytes 8 (zlen text) ++ le_bytes 4 (lvm_crc text) ++ le_bytes 4 0).
Definition pv_image (k : Z) : list Z :=
  zeros 512 ++ LABEL_ID ++ le_bytes 8 1 ++ le_bytes 4 (lvm_crc (label_body k)) ++ label_body k
    ++ le_bytes 4 (lvm_crc area_body) ++ area_body ++ pad 2560 text
    ++ bytes_of (λ x, contents (x + k * 4096)) 0 4096.

Definition image0 : list Z := Eval vm_compute in pv_image 0.
Definition image1 : list Z := Eval vm_compute in pv_image 1.
Definition image (d : Disk) : list Z :=
  let '(disk k) := d in if k =? 0 then image0 else if k =? 1 then image1 else [].
#[local] Instance pv_shelf : Shelf := image.
Definition devices : list Disk := [disk 1; disk 0].

#[local] Instance pv_shelf_laws : ShelfLaws.
Proof.
  apply (shelf_by_compute 2); [vm_compute; reflexivity|].
  intros k Hk. rewrite elem_of_seqZ in Hk. unfold shelf, pv_shelf, image.
  rewrite !(proj2 (Z.eqb_neq _ _)) by lia. done.
Qed.

(** The group and the device of each PV, as the volume's opening finds them. *)
Definition vg : VolumeGroup := Eval vm_compute in
  match read_volume_group devices with Ok vg => vg | Err _ => mkVg [] [] 0 0 [] [] end.
Definition u2d : gmap (list Z) Z := Eval vm_compute in
  match foldM index_step ∅ (Md.enumerate devices) with Ok m => m | Err _ => ∅ end.
End VolumeSample.

(** ** Properties *)

(** C5: a logical volume reads as its metadata says: when the devices form a
    group, every segment of the named volume is striped (linear is one
    stripe) and the volume's bytes fit 64 bits, the opened volume is as long
    as its extents, every read inside it returns the bytes that the extents
    name on the physical volumes, stripe by stripe and segment by segment, and
    every read past its end is refused with the volume's size. *)
Theorem volume_reads {R} `{!BlockRead R} {tables : CharTables} (devices : list R) name v vg u2d C :
  devices_give devices C →
  read_volume_group devices = Ok vg → foldM index_step ∅ (Md.enumerate devices) = Ok u2d →
  open devices name = Ok v → Forall striped (segments (v_info v)) →
  extents (segments (v_info v)) * extent_size vg < 2 ^ 64 →
  let segs := segments (v_info v) in
  let size := extents segs * extent_size vg in
  size_bytes v = size ∧
  (∀ off len, 0 ≤ off → 0 ≤ len → off + len ≤ size →
     read_at v off len = Ok (bytes_of (volume_byte vg u2d C segs) off len)) ∧
  (∀ off len, 0 ≤ off → 0 ≤ len → size < off + len → read_at v off len = Err (OutOfBounds off len size)).
Proof.
  intros Hg Hvg Hu Ho Hst Hmul segs size.
  destruct (volume_holds devices name v vg u2d C Hvg Hu Ho Hst Hmul) as (Ed & Es & Hr).
  cbn [size_bytes read_at LogicalVolume_read]. unfold lv_read_at. fold segs in Es, Hr, Hmul. fold size in Es, Hmul.
  rewrite Es in Hr. rewrite Ed, Es.
  split_and!; [done|..]; intros off len Hoff Hl Hle.
  - rewrite checked_add_ok by lia. rewrite refuse_no by (apply negb_false_iff, Z.leb_le; lia). by apply (runs_read devices C size).
  - apply refuse_yes. destruct (checked_add off len) as [e|] eqn:E; [|done].
    apply checked_add_Some in E as [-> _]. apply negb_true_iff, Z.leb_gt. lia.
Qed.

Module volume_reads_example.
Import VolumeSample AsciiOnly.
#[local] Existing Instance pv_shelf.
#[local] Existing Instance pv_shelf_laws.
Lemma opened : ∃ v, open devices (lit "root") = Ok v ∧
  map (λ s, (start_extent s, extent_count s, kind s)) (segments (v_info v))
    = [(0, 4, lit "striped"); (4, 1, lit "striped")].
Proof.
  assert (match open devices (lit "root") with
    | Ok v => map (λ s, (start_extent s, extent_count s, kind s)) (segments (v_info v)) | Err _ => [] end
    = [(0, 4, lit "striped"); (4, 1, lit "striped")]) as H by (vm_compute; reflexivity).
  destruct (open devices (lit "root")) as [v|]; [|discriminate H]. by exists v.
Qed.

Lemma group_read : read_volume_group devices = Ok vg.
Proof. vm_cast_no_check (eq_refl (Ok (E:=LvmError) vg)). Qed.
Lemma indexed : foldM index_step ∅ (Md.enumerate devices) = Ok u2d.
Proof. vm_cast_no_check (eq_refl (Ok (E:=LvmError) u2d)). Qed.

Theorem volume_reads_witness : ∃ v, open devices (lit "root") = Ok v ∧ size_bytes v = 2560 ∧
  (∀ off len, 0 ≤ off → 0 ≤ len → off + len ≤ 2560 →
     read_at v off len = Ok (bytes_of (volume_byte vg u2d (disk_bytes devices) (segments (v_info v))) off len)).
Proof.
  destruct opened as (v & Ho & Hs). exists v. split; [exact Ho|].
  assert (Forall striped (segments (v_info v))) as Hst.
  { destruct (segments (v_info v)) as [|s1 [|s2 [|]]]; try discriminate Hs. injection Hs as _ _ E1 _ _ E2.
    unfold striped. repeat constructor; [rewrite E1|rewrite E2]; reflexivity. }
  assert (extents (segments (v_info v)) * extent_size vg = 2560) as Esz.
  { destruct (segments (v_info v)) as [|s1 [|s2 [|]]]; try discriminate Hs. injection Hs as _ E1 _ _ E2 _.
    cbn [extents foldr]. rewrite E1, E2. reflexivity. }
  assert (extents (segments (v_info v)) * extent_size vg < 2 ^ 64) as Hsz by (rewrite Esz; reflexivity).
  destruct (volume_reads devices (lit "root") v vg u2d (disk_bytes devices) (disks_give devices)
    group_read indexed Ho Hst Hsz) as (H1 & H2 & _).
  rewrite Esz in H1, H2. exact (conj H1 H2).
Defined.
End volume_reads_example.

(** ** A thin pool's mapping tree *)
Module ThinSample.
Import thin.
(** A node's first bytes; zeros follow. *)
Definition node_body (kind n : Z) (keys vals : list Z) : list Z :=
  le_bytes 4 kind ++ le_bytes 8 n ++ le_bytes 4 (zlen keys) ++ le_bytes 4 (zlen keys) ++ le_bytes 4 8
    ++ le_bytes 4 0 ++ concat (map (le_bytes 8) keys) ++ concat (map (le_bytes 8) vals).
Definition node_bytes (kind n : Z) (keys vals : list Z) : list Z :=
  le_bytes 4 (Z.lxor (crc32c_register (pad 4092 (node_body kind n keys vals))) BTREE_CSUM_XOR)
    ++ node_body kind n keys vals.

(** Block 1 points to the leaves in blocks 2 and 3. *)
Definition low_keys : list Z := [0; 1; 5].
Definition low_vals : list Z := [Z.shiftl 7 24; Z.shiftl 3 24 + 9; Z.shiftl 4 24].
Definition high_keys : list Z := [10; 12].
Definition high_vals : list Z := [Z.shiftl 1 24 + 1; Z.shiftl 2 24].
Definition block1 : list Z := Eval vm_compute in node_bytes INTERNAL_NODE 1 [0; 10] [2; 3].
Definition block2 : list Z := Eval vm_compute in node_bytes LEAF_NODE 2 low_keys low_vals.
Definition block3 : list Z := Eval vm_compute in node_bytes LEAF_NODE 3 high_keys high_vals.
Definition meta (x : Z) : Z :=
  if x mod 4096 <? 128
  then byte_at (match x / 4096 with 1 => block1 | 2 => block2 | 3 => block3 | _ => [] end) (x mod 4096)
  else 0.

(** A node's checks, on its block. *)
Definition is_node (b : list Z) (n kind : Z) (keys vals : list Z) : bool :=
  (le32 b 0 =? Z.lxor (crc32c_register (drop 4 b)) BTREE_CSUM_XOR) && (le64 b NODE_BLOCKNR =? n)
  && (le32 b NODE_FLAGS =? kind) && (le32 b NODE_NR_ENTRIES =? zlen keys)
  && (zlen keys <=? le32 b NODE_MAX_ENTRIES) && (NODE_HEADER + le32 b NODE_MAX_ENTRIES * 16 <=? BLOCK)
  && (le32 b NODE_VALUE_SIZE =? 8)
  && bool_decide (map (key_at b) (seqZ 0 (zlen keys)) = keys)
  && bool_decide (map (value_at b (le32 b NODE_MAX_ENTRIES)) (seqZ 0 (zlen keys)) = vals).

Lemma node_by_compute M size n kind keys vals : 0 ≤ n → n * BLOCK + BLOCK ≤ size → StronglySorted Z.lt keys →
  is_node (block_bytes M n) n kind keys vals = true → node M size n kind keys vals.
Proof.
  intros Hn He Hs. set (b := block_bytes M n) in *. unfold is_node.
  rewrite !andb_true_iff, !bool_decide_eq_true, !Z.eqb_eq, !Z.leb_le.
  intros [[[[[[[[H1 H2] H3] H4] H5] H6] H7] H8] H9].
  exact (Build_node M size n kind keys vals (conj Hn He) H1 H2 H3 H4 (conj H5 H6) H7 H8 H9 Hs).
Qed.

Ltac good_node := apply node_by_compute; [done|vm_compute; discriminate|repeat constructor|vm_compute; reflexivity].

Lemma meta_tree : tree meta 16384 MAX_DEPTH 1 (zip low_keys low_vals ++ zip high_keys high_vals).
Proof.
  right. exists [0; 10], [2; 3], [zip low_keys low_vals; zip high_keys high_vals].
  split_and!; [good_node|done| |done|].
  - intros [|[|i]] kvs k Hk Hkey kv Hkv; [| |done]; injection Hk as <-; injection Hkey as <-;
      vm_compute in Hkv; repeat (apply elem_of_cons in Hkv as [->|Hkv]; [split; [done|]; cbn; by intros ? [= <-]|]);
      by apply not_elem_of_nil in Hkv.
  - intros [|[|i]] c ks Hc Hks; [| |done]; injection Hc as <-; injection Hks as <-; left.
    + exists low_keys, low_vals. split; [good_node|done].
    + exists high_keys, high_vals. split; [good_node|done].
Qed.
End ThinSample.

(** C16: a thin volume's block is looked up exactly: over metadata that holds a
    checked btree of at most sixteen levels (sorted keys, every child's keys
    between its own and the next), the walk ends within its sixteen rounds and
    returns the pool's data block the tree's entries hold for the key, and no
    block where they hold none. *)
Theorem thin_lookup_exact read M size root vb kvs : size < 2 ^ 64 → gives read size M →
  tree M size thin.MAX_DEPTH root kvs →
  thin.data_block read root vb =
    Ok (option_map (λ v, Z.shiftr v thin.TIME_BITS) (value_under kvs vb)).
Proof. intros Hs Hr. by apply data_block_of_tree with (size := size). Qed.

Theorem thin_lookup_exact_witness :
  thin.data_block (λ off n, Ok (bytes_of ThinSample.meta off n)) 1 12 = Ok (Some 2) ∧
  thin.data_block (λ off n, Ok (bytes_of ThinSample.meta off n)) 1 7 = Ok None.
Proof.
  pose proof (λ vb, thin_lookup_exact (λ off n, Ok (bytes_of ThinSample.meta off n)) ThinSample.meta 16384 1 vb _
    eq_refl (λ off len _ _ _, eq_refl) ThinSample.meta_tree) as H.
  split; [exact (H 12)|exact (H 7)].
Defined.

(** ** Runs over several devices *)

(** C11: a mapped volume reads the bytes its runs hold, whatever they map: a
    tree of runs over striped extents, mirrors with images missing, dm-raid
    RAID4/5/6 and RAID10 images with as many missing as the level allows, and
    thin volumes over the mapping tree of their pool is read exactly, at every
    offset and length, and the loop ends. *)
Theorem runs_read_exactly {R} `{!BlockRead R} {tables : CharTables} (devices : list R) C size runs L :
  devices_give devices C → runs_hold devices C 0 size runs L → size < 2 ^ 64 →
  gives (read_runs devices runs) size L.
Proof. intros Hg Hr Hs off len Ho Hl He. by apply (runs_read devices C size). Qed.

Module runs_read_example.
Import AsciiOnly.
Import VolumeSample.
#[local] Existing Instance pv_shelf.
#[local] Existing Instance pv_shelf_laws.
(** A mirror without its first image, and a linear run. *)
Definition runs : list Run :=
  [mkRun 0 1024 (RaidMap 1 None 0 0 0 [None; Some [mkRun 0 1024 (Striped 0 [(0, 4096)])]]);
   mkRun 1024 512 (Striped 0 [(1, 5632)])].
Definition held (x : Z) : Z :=
  if x <? 1024 then disk_bytes devices 0 (4096 + x) else disk_bytes devices 1 (5632 + (x - 1024)).

Lemma linear_fits d o len : 0 ≤ d → 0 ≤ o → 0 ≤ len →
  (∃ dv, devices !! Z.to_nat d = Some dv ∧ o + len ≤ size_bytes dv) → stripes_fit devices 0 [(d, o)] len.
Proof.
  intros Hd Ho Hl He. constructor; [done|done|by intros ?|].
  intros [|i] d' o' Hi; [|done]. by injection Hi as <- <-.
Qed.

Lemma runs_held : runs_hold devices (disk_bytes devices) 0 1536 runs held.
Proof.
  eapply (rh_cons _ _ 0 1536 1024 _ _ _ (λ x, disk_bytes devices 0 (4096 + x))); [lia| | |].
  - eapply (mh_mirror _ _ _ _ _ _ _ _ (λ _ x, disk_bytes devices 0 (4096 + x))); [|done|exists 1; done].
    eapply (ih_images _ _ 0 _ 1024 _ (λ _, 1024)); [lia..|].
    intros slot runs Hs Hslot. destruct (Z.to_nat slot) as [|[|i]]; [done| |done]. injection Hs as <-.
    eapply (rh_cons _ _ 0 1024 1024); [lia| | |constructor].
    + apply (mh_striped _ _ 0 [(0, 4096)] 1024). apply linear_fits; [lia..|].
      exists (disk 1). split; [done|vm_compute; discriminate].
    + intros w Hw. cbn. do 2 f_equal. lia.
  - intros w Hw. unfold held. by rewrite (proj2 (Z.ltb_lt _ _)) by lia.
  - eapply (rh_cons _ _ 1024 1536 512); [lia| | |constructor].
    + apply (mh_striped _ _ 0 [(1, 5632)] 512). apply linear_fits; [lia..|].
      exists (disk 0). split; [done|vm_compute; discriminate].
    + intros w Hw. cbn. unfold held. rewrite (proj2 (Z.ltb_ge _ _)) by lia. f_equal. lia.
Qed.

Theorem runs_read_exactly_witness : gives (read_runs devices runs) 1536 held.
Proof. exact (runs_read_exactly devices (disk_bytes devices) 1536 runs held (disks_give devices) runs_held eq_refl). Defined.
End runs_read_example.

(** ** The metadata text *)

(** C23: the metadata parser ends on every text, as far as the call stack
    reaches.  While there is room it always answers, and a refusal names one of
    the text's own lines.  On a stack with room for [n] calls of [value] it
    gives that same answer, unless the text opens [n] lists or more and the
    stack overflows; and since nothing limits how deep lists nest, every [n]
    has metadata that is well formed, opens just [n] lists and overflows it. *)
Theorem metadata_parse_ends :
  (∀ text, match parse_metadata text with
   | Ok _ => True
   | Err e => ∃ l reason, e = Syntax l reason ∧ 1 ≤ l ≤ 1 + newlines (as_bytes text)
   end) ∧
  (∀ n text, parse_metadata_on (Some n) text = parse_metadata text ∨
     parse_metadata_on (Some n) text = overflow ∧ (n ≤ opens (as_bytes text))%nat) ∧
  ∀ n, ∃ text entries, parse_metadata text = Ok entries ∧ opens (as_bytes text) = n ∧
    parse_metadata_on (Some n) text = overflow.
Proof.
  split_and!; [exact parse_ends|exact parse_on_stack|].
  intros n. exists (print_metadata [(lit "a", nest n)]), [(lit "a", nest n)].
  split_and!; [apply parse_printed, nest_metadata|apply nest_opens|apply nest_overflows].
Qed.

(** C15: metadata that is printed reads back as itself: sections nested up to
    the limit, lists, strings with quotes, backslashes and any code points, and
    integers of 64 bits, in their order. *)
Theorem metadata_round_trip es : entries_ok 31 es → parse_metadata (print_metadata es) = Ok es.
Proof. apply parse_printed. Qed.

Module metadata_round_trip_example.
Definition entries : Entries :=
  [(lit "vg0", Sect [(lit "id", Str [34; 92; 955; 10]); (lit "stripes", List [Str (lit "pv0"); Int (-7); List []])]);
   (lit "seqno", Int (2 ^ 63 - 1))].
Lemma key_ok k : bool_decide (k ≠ []) && forallb ident_char k = true → is_key k.
Proof.
  intros [H1%bool_decide_eq_true H2]%andb_true_iff. split; [done|].
  apply list.Forall_forall. intros c Hc. rewrite forallb_forall in H2. by apply H2, list_elem_of_In.
Qed.
Lemma entries_are_ok : entries_ok 31 entries.
Proof.
  apply es_sect; [by apply key_ok| |].
  - apply es_item; [by apply key_ok| |].
    + constructor. unfold is_text. repeat constructor; lia.
    + apply es_item; [by apply key_ok| |constructor].
      constructor. repeat apply Forall_cons_2; [..|constructor].
      * constructor. unfold is_text. repeat constructor; lia.
      * constructor. lia.
      * constructor. constructor.
  - apply es_item; [by apply key_ok| |constructor]. constructor. lia.
Qed.
Theorem metadata_round_trip_witness :
  entries_ok 31 entries ∧ parse_metadata (print_metadata entries) = Ok entries.
Proof. split; [exact entries_are_ok|exact (metadata_round_trip entries entries_are_ok)]. Defined.
End metadata_round_trip_example.

(** ** Sorting devices *)

(** C21: [scan] loses and invents no device: the devices of the groups, the
    unclaimed, the others and the refused are the devices given, and a device
    is in a group only when it carries a label whose PV the group's metadata
    names. *)
Theorem lvm_scan_sorts {R} `{!BlockRead R} {tables : CharTables} (devices : list R) :
  let s := scan devices in
  concat (map vg_devices (volume_groups s)) ++ unclaimed s ++ others s ++ map fst (refused s) ≡ₚ devices ∧
  ∀ g d, g ∈ volume_groups s → d ∈ vg_devices g →
    ∃ i label, read_pv_label_of d i = Ok (Some label) ∧ names_pv (volume_group g) (pv_uuid label) = true.
Proof.
  cbn zeta. split; [apply scan_lists|]. intros g d Hg Hd. by apply (scan_named devices g d Hg Hd).
Qed.

(** C22: of a PV's metadata areas the newest that reads is taken: a text is
    returned when one of the areas holds it and no area that reads and parses
    has a higher sequence number; an error is returned only when no area reads,
    and is the error of one of them; no text and no error only when every area
    is empty. *)
Theorem newest_metadata {R} `{!BlockRead R} {tables : CharTables} (dev : R) device label :
  match read_metadata_text_of dev label device with
  | Ok (Some t) => ∃ a n, a ∈ metadata_areas label ∧ area_group dev device a = Some (n, t) ∧
      ∀ b m t', b ∈ metadata_areas label → area_group dev device b = Some (m, t') → m ≤ n
  | Ok None => ∀ a, a ∈ metadata_areas label → area_group dev device a = None ∧ area_error dev device a = None
  | Err e => (∀ a, a ∈ metadata_areas label → area_group dev device a = None) ∧
      ∃ a, a ∈ metadata_areas label ∧ area_error dev device a = Some e
  end.
Proof. apply newest_text. Qed.

(** ** A dm-raid layout nothing checks *)

Lemma map_images_all (sub : list Z → Result LvmError (list Run * Z)) seg : images seg ≠ [] →
  (∀ image, image ∈ images seg → ∃ r, sub image = Ok r) →
  ∃ imgs, map_images sub seg = Ok (imgs, None) ∧ zlen imgs = zlen (images seg) ∧ Forall (λ o, is_here o = true) imgs.
Proof.
  intros Hne Hall. unfold map_images. rewrite refuse_no by (apply Z.eqb_neq; destruct (images seg); [done|unfold zlen; cbn; lia]).
  assert (∀ l acc, (∀ image, image ∈ l → ∃ r, sub image = Ok r) →
    ∃ imgs, foldM (image_step sub) (acc, None) l = Ok (acc ++ imgs, None) ∧ length imgs = length l ∧
      Forall (λ o, is_here o = true) imgs) as H.
  { induction l as [|x l IH]; intros acc Hl; cbn [foldM]; [exists []; by rewrite app_nil_r|].
    destruct (Hl x) as [[runs size] E]; [set_solver|]. cbn [image_step]. rewrite E. cbn [mbind Result_bind].
    destruct (IH (acc ++ [Some runs])) as (imgs & -> & Hlen & Hf); [set_solver|].
    exists (Some runs :: imgs). rewrite <- app_assoc. split_and!; [done|cbn; lia|by constructor]. }
  destruct (H (images seg) [] Hall) as (imgs & E & Hlen & Hf). exists imgs. split_and!; [exact E| |done].
  unfold zlen. lia.
Qed.

(** C27: a RAID6 volume whose dm-raid superblock names a layout the reader does
    not place is opened all the same, and every read of it then stops the
    program: md assembly refuses such a layout, [Mapper::raid] does not. *)
Theorem raid6_layout_unchecked {R} `{!BlockRead R} {tables : CharTables} (devices : list R) sub name seg meta metas runs size b sb :
  zlen (metadata seg) = zlen (images seg) → 2 < zlen (images seg) →
  (∀ image, image ∈ images seg → ∃ r, sub image = Ok r) →
  metadata seg = meta :: metas → sub meta = Ok (runs, size) →
  read_runs devices runs 0 dm_raid.SIZE = Ok b → parse_dm_raid_super b meta = Ok sb →
  dm_level sb = 6 → dm_chunk sb ≠ 0 → raid6_layout_known (dm_layout sb) = false →
  ∃ m, map_raid devices sub name seg = Ok m ∧
    ∀ within want, read_map devices m within want = Err Md.panicked.
Proof.
  intros Hlen Hn Hall Em Esub Eb Esb H6 Hc Hlay.
  destruct (map_images_all sub seg) as (imgs & Eimgs & Hz & Hf); [intros E; rewrite E in Hn; by unfold zlen in Hn|done|].
  exists (RaidMap 6 None (dm_layout sb) (dm_chunk sb) (dm_data_offset sb) imgs). split.
  - unfold map_raid. rewrite refuse_no by (by rewrite Hlen, Z.eqb_refl). rewrite Eimgs. cbn [mbind Result_bind].
    rewrite Em. cbn [first_super]. rewrite Esub, Eb. cbn [map_err mbind Result_bind]. rewrite Esb. cbn [mbind Result_bind].
    rewrite H6. cbn [Z.eqb Pos.eqb orb mbind Result_bind].
    rewrite refuse_no by lia. rewrite refuse_no; [done|].
    unfold survives. cbn [Z.eqb Pos.eqb].
    assert (filter (λ i : option (list Run), is_here i = false) imgs = []) as ->; [|done].
    clear - Hf. induction Hf as [|o imgs Ho _ IH]; [done|]. by rewrite filter_cons_False by (rewrite Ho; done).
  - intros within want. cbn [read_map]. unfold read_raid. cbn [Z.eqb Pos.eqb].
    rewrite refuse_no by lia. apply refuse_yes. by rewrite Hlay.
Qed.

Module raid6_layout_example.
Import AsciiOnly.
(** A superblock of level 6 with layout 77, on a disk of its own. *)
Definition super : list Z :=
  puts (zeros 120) [(0, 4, le_bytes 4 dm_raid.MAGIC); (dm_raid.LEVEL, 4, le_bytes 4 6); (dm_raid.LAYOUT, 4, le_bytes 4 77);
                    (dm_raid.STRIPE_SECTORS, 4, le_bytes 4 8)].
#[local] Instance super_shelf : Shelf := λ _, super.
Definition seg : Segment :=
  mkSegment 0 3 (lit "raid6") 0 [] [lit "i0"; lit "i1"; lit "i2"] [lit "m0"; lit "m1"; lit "m2"] None None None.
Definition sub (name : list Z) : Result LvmError (list Run * Z) := Ok ([mkRun 0 120 (Striped 0 [(0, 0)])], 120).

Theorem raid6_layout_unchecked_witness :
  ∃ m, map_raid [disk 0] sub (lit "root") seg = Ok m ∧ read_map [disk 0] m 0 512 = Err Md.panicked.
Proof.
  destruct (raid6_layout_unchecked [disk 0] sub (lit "root") seg (lit "m0") [lit "m1"; lit "m2"]
    [mkRun 0 120 (Striped 0 [(0, 0)])] 120 super (mkDm 6 77 4096 0)) as (m & Em & Hm); try done.
  - intros image _. by eexists.
  - by exists m.
Defined.
End raid6_layout_example.
