(* ===== verification/Container.v ===== *)
(** * src/container.rs: what kind of container a device is

    [detect] asks for an md superblock first and for an LVM2 label only where
    there is none: a member whose data starts at byte 0 shows what the array
    holds as well. *)
From S2P Require Import Prelude Bytes Device Fmt LvmText Lvm.
From S2P Require Md.

Inductive Container :=
| MdMember (array_uuid : list Z) (level : Z)
| LvmPv (uuid : list Z).

Inductive ContainerError :=
| ContainerMd (e : Md.MdError)
| ContainerLvm (e : LvmError).

(** [ContainerError]'s [Display]. *)
Definition container_message `{!FsDisplay} `{!CharTables} (e : ContainerError) : string :=
  match e with
  | ContainerMd e => "md: " +:+ Md.md_message fs_display e
  | ContainerLvm e => "lvm: " +:+ lvm_message fs_display e
  end.

Section detect.
Context {R : Type} `{!BlockRead R} {tables : CharTables}.

Definition detect (dev : R) : Result ContainerError (option Container) :=
  o ← map_err ContainerMd (Md.read_superblock dev);
  match o with
  | Some sb => Ok (Some (MdMember (Md.array_uuid sb) (Md.level sb)))
  | None =>
      o ← map_err ContainerLvm (read_pv_label dev);
      match o with
      | Some label => Ok (Some (LvmPv (pv_uuid label)))
      | None => Ok None
      end
  end.

(** The md superblock decides, damaged or not: the label counts only where
    there is none. *)
Lemma detect_spec dev :
  match detect dev with
  | Ok (Some (MdMember uuid level)) => ∃ sb, Md.read_superblock dev = Ok (Some sb) ∧
      uuid = Md.array_uuid sb ∧ level = Md.level sb
  | Ok (Some (LvmPv uuid)) => Md.read_superblock dev = Ok None ∧
      ∃ label, read_pv_label dev = Ok (Some label) ∧ uuid = pv_uuid label
  | Ok None => Md.read_superblock dev = Ok None ∧ read_pv_label dev = Ok None
  | Err (ContainerMd e) => Md.read_superblock dev = Err e
  | Err (ContainerLvm e) => Md.read_superblock dev = Ok None ∧ read_pv_label dev = Err e
  end.
Proof.
  unfold detect. destruct (Md.read_superblock dev) as [[sb|]|e]; cbn; [by exists sb| |done].
  destruct (read_pv_label dev) as [[label|]|e]; cbn; [|done..]. split; [done|]. by exists label.
Qed.
End detect.
