(* ===== verification/Capi.v ===== *)
(** * src/capi.rs: the C interface

    A pointer is an option (NULL is [None]), a handle is the value behind it,
    a label pointer the bytes it points at.  [fs_core::ffi] belongs to another
    crate: its error codes are a class, [ffi_guard] is modelled by what this
    file relies on (the code of the error a closure returns, [Panic] for a
    panic).  What a function gives [set_last_error] is the second half of its
    answer; the message [ffi_guard] itself keeps is that crate's. *)
From S2P Require Import Prelude Bytes Device Table Utf8 Fmt Sniff Probe LvmText Lvm LvmMap.
From S2P Require Md MdRead.

(** ** src/error.rs: the error's message *)

Definition error_display `{!FsDisplay} (e : Error) : string :=
  match e with
  | Block e => fs_display e
  | Io e => "io: " +:+ e
  | NoPartitionTable => "no GPT or MBR signature found"
  | GptHeaderCrc => "GPT header CRC32 mismatch"
  | GptEntriesCrc => "GPT partition-entry array CRC32 mismatch"
  | GptCorrupt s => "GPT corrupt: " +:+ s
  | MbrCorrupt s => "MBR corrupt: " +:+ s
  | GptBackupMismatch s => "GPT backup mismatch: " +:+ s
  | Invalid s => "invalid argument: " +:+ s
  | DeviceTooSmall => "device too small for the requested table"
  | UnsupportedSectorSize s => "unsupported sector size: " +:+ s
  end.

(** ** fs_core's codes *)

(** The codes the source names; [FsOther] stands for every other one. *)
Inductive FsCoreErrorCode := FsOk | FsNullArg | FsOutOfBounds | FsPanic | FsCustom | FsOther (code : Z).
#[export] Instance FsCoreErrorCode_eq_dec : EqDecision FsCoreErrorCode.
Proof. solve_decision. Defined.

Class Ffi := code_of : FsError → FsCoreErrorCode.
Class FfiLaws `{!Ffi} := {
  code_custom : ∀ m, code_of (Custom m) = FsCustom;
  code_error : ∀ e, code_of e ≠ FsOk;
}.

(** [ffi_guard]: a panic is an error of its own. *)
Definition ffi_guard `{!Ffi} {A} (r : Result FsError A) : FsCoreErrorCode :=
  match r with
  | Ok _ => FsOk
  | Err e => if bool_decide (e = Md.panicked) then FsPanic else code_of e
  end.

(** An answer, and the message [set_last_error] was given on the way to it. *)
Definition Said (A : Type) : Type := A * option string.
Definition silent {A} (a : A) : Said A := (a, None).
Definition said {A} (a : A) (message : string) : Said A := (a, Some message).

(** ** Stable numbers *)
Definition fs_kind_code (k : FsKind) : Z :=
  match k with
  | Unknown => 0
  | Ext version => match version with Ext2OrAny => 1 | Ext3 => 2 | Ext4 => 3 end
  | Ntfs => 4
  | ExFat => 5
  | Fat32 => 6
  | Fat16 => 7
  | HfsPlus => 8
  | Apfs => 9
  | LinuxSwap => 10
  | Iso9660 => 11
  | Squashfs => 12
  end.

Definition table_kind_code (t : TableKind) : Z := match t with TableGpt => 1 | TableMbr => 2 end.
Definition TABLE_KIND_NONE : Z := 0.

Definition table_source_code (s : TableSource) : Z :=
  match s with
  | SourceMbr => 1
  | SourcePrimary => 2
  | SourcePrimaryBackupStale _ => 3
  | SourceRecoveredFromBackup => 4
  end.
Definition TABLE_SOURCE_NONE : Z := 0.

Inductive ArrayErrorCode :=
| ArrayNone | ArrayIo | ArrayNoMetadata | ArrayBadChecksum | ArrayCorrupt | ArrayMixedArrays
| ArrayDuplicateMember | ArrayTooFewMembers | ArrayNoSuchVolume | ArrayUnsupported | ArrayNoMembers.
Definition array_error_number (c : ArrayErrorCode) : Z :=
  match c with
  | ArrayNone => 0 | ArrayIo => 1 | ArrayNoMetadata => 2 | ArrayBadChecksum => 3 | ArrayCorrupt => 4
  | ArrayMixedArrays => 5 | ArrayDuplicateMember => 6 | ArrayTooFewMembers => 7
  | ArrayNoSuchVolume => 8 | ArrayUnsupported => 9 | ArrayNoMembers => 10
  end.

Definition md_error_code (e : Md.MdError) : ArrayErrorCode :=
  match e with
  | Md.MdBlock _ => ArrayIo
  | Md.NoSuperblock _ => ArrayNoMetadata
  | Md.BadChecksum _ _ _ => ArrayBadChecksum
  | Md.Corrupt _ _ => ArrayCorrupt
  | Md.MixedArrays _ => ArrayMixedArrays
  | Md.DuplicateRole _ => ArrayDuplicateMember
  | Md.TooFewMembers _ _ _ | Md.NoCopyLeft _ => ArrayTooFewMembers
  | Md.Unsupported _ => ArrayUnsupported
  | Md.Empty => ArrayNoMembers
  end.

Definition lvm_error_code (e : LvmError) : ArrayErrorCode :=
  match e with
  | LvmBlock _ => ArrayIo
  | NoLabel _ => ArrayNoMetadata
  | BadChecksum _ _ => ArrayBadChecksum
  | Corrupt _ | Syntax _ _ => ArrayCorrupt
  | NoSuchVolume _ => ArrayNoSuchVolume
  | MissingPv _ => ArrayTooFewMembers
  | Unsupported _ => ArrayUnsupported
  end.

(** [AsBlockError]: the device's own error inside, if that is what it is. *)
Definition md_take_block (e : Md.MdError) : option FsError := match e with Md.MdBlock e => Some e | _ => None end.
Definition lvm_take_block (e : LvmError) : option FsError := match e with LvmBlock e => Some e | _ => None end.

(** ** [PartitionInfo] *)
Record PartitionInfo := mkInfo {
  i_start : Z;
  i_length : Z;
  i_fs_kind : Z;
  i_table_kind : Z;
  i_type_guid : list Z;
  i_type_byte : Z;
  i_label : option (list Z);
  i_label_len : Z;
  i_bootable : Z;
  i_attributes : Z;
  i_slot : Z;
  i_issues : Z;
  i_available_length : Z;
}.

(** The bytes behind the label pointer, with their NUL, and their length
    without it. *)
Definition make_label_string (label : option (list Z)) : option (list Z) * Z :=
  match label with
  | Some (c :: s) =>
      let bytes := as_bytes (map (λ c, if c =? 0 then 63 else c) (c :: s)) in
      (Some (bytes ++ [0]), zlen bytes)
  | _ => (None, 0)
  end.

Definition build_info (p : Partition) (table : Z) : PartitionInfo :=
  let '(type_guid, type_byte, attributes) :=
    match p_kind p with
    | KindGpt type_guid attributes => (type_guid, 0, attributes)
    | KindMbr type_byte _ => (zeros 16, type_byte, 0)
    | KindWhole => (zeros 16, 0, 0)
    end in
  mkInfo (p_start p) (p_length p) (fs_kind_code Unknown) table type_guid type_byte None 0
    (if is_bootable p then 1 else 0) attributes
    (match p_slot p with Some s => Md.as_i32 s | None => -1 end) (p_issues p) (p_available_length p).

Definition with_label (i : PartitionInfo) (label : option (list Z) * Z) : PartitionInfo :=
  mkInfo (i_start i) (i_length i) (i_fs_kind i) (i_table_kind i) (i_type_guid i) (i_type_byte i)
    label.1 label.2 (i_bootable i) (i_attributes i) (i_slot i) (i_issues i) (i_available_length i).

(** ** The list *)
Section device.
Context {D : Type} `{!BlockRead D} `{!Ffi} `{!FsDisplay} {tables : CharTables}.

Record PartitionEntry := mkEntry { e_info : PartitionInfo; e_raw : Partition }.
Record PartitionList := mkList {
  l_table : Z;
  l_source : Z;
  l_parent : D;
  l_entries : list PartitionEntry;
}.

(** One round of the loop over the partitions. *)
Definition list_entry (table : Z) (raw : Partition) : PartitionEntry :=
  mkEntry (with_label (build_info raw table) (make_label_string (p_label raw))) raw.

(** The code, and the list [*list_out] is given.  Where there is none, a failed
    probe sets it to NULL; a NULL argument leaves it as it was. *)
Definition partitions_probe `{!Crc32} (device : option D) (list_out_null : bool)
    : FsCoreErrorCode * option PartitionList :=
  match device with
  | Some parent =>
      if list_out_null then (FsNullArg, None)
      else
        match probe_with_status parent with
        | Err e => (ffi_guard (A:=unit) (Err (Custom (error_display e))), None)
        | Ok (table, parts, source) =>
            (ffi_guard (Ok tt),
             Some (mkList (table_kind_code table) (table_source_code source) parent
               (map (list_entry (table_kind_code table)) parts)))
        end
  | None => (FsNullArg, None)
  end.

Definition partitions_count (list : option PartitionList) : Z :=
  match list with Some l => zlen (l_entries l) | None => 0 end.
Definition partitions_table_source (list : option PartitionList) : Z :=
  match list with Some l => l_source l | None => TABLE_SOURCE_NONE end.
Definition partitions_table_kind (list : option PartitionList) : Z :=
  match list with Some l => l_table l | None => TABLE_KIND_NONE end.

(** The code, and what [*out] is set to. *)
Definition partitions_get (list : option PartitionList) (index : Z) (out_null : bool)
    : FsCoreErrorCode * option PartitionInfo :=
  match list with
  | Some l =>
      if out_null then (FsNullArg, None)
      else match l_entries l !! Z.to_nat index with
           | Some entry => (FsOk, Some (e_info entry))
           | None => (FsOutOfBounds, None)
           end
  | None => (FsNullArg, None)
  end.

Definition partitions_sniff (list : option PartitionList) (index : Z) : Said Z :=
  match list with
  | Some l =>
      match l_entries l !! Z.to_nat index with
      | Some entry =>
          match sniff (l_parent l) (e_raw entry) with
          | Ok kind => silent (fs_kind_code kind)
          | Err e => said (-1) (error_display e)
          end
      | None => said (-1) "partitions_sniff: index out of bounds"
      end
  | None => said (-1) "partitions_sniff: list is null"
  end.

Definition partitions_sniff_device (device : option D) (device_size_bytes : Z) : Said Z :=
  match device with
  | Some parent =>
      if device_size_bytes =? 0 then
        said (-1) "partitions_sniff_device: device_size_bytes is zero"
      else
        let synthetic := mkPartition 0 device_size_bytes KindWhole None None None 0 device_size_bytes in
        match sniff parent synthetic with
        | Ok kind =>
            if bool_decide (kind = Unknown)
               && ((device_size_bytes <? WINDOW) && (device_size_bytes <? size_bytes parent))
            then said (-1) ("partitions_sniff_device: nothing recognised in the first "
              +:+ pretty device_size_bytes +:+ " bytes, but the device has "
              +:+ pretty (size_bytes parent) +:+ " and sniffing reads up to " +:+ pretty WINDOW
              +:+ "; pass the device's size to get an answer")
            else silent (fs_kind_code kind)
        | Err e => said (-1) (error_display e)
        end
  | None => said (-1) "partitions_sniff_device: device is null"
  end.

Definition slice_on_device (parent_size start len : Z) : option Z :=
  if parent_size <=? start then None else Some (available_on_device start len parent_size).

(** The slice's place on the parent: [OwnedSlice::new(parent, start, length)]. *)
Definition partitions_open_slice (list : option PartitionList) (index : Z) : Said (option (Z * Z)) :=
  match list with
  | Some l =>
      match l_entries l !! Z.to_nat index with
      | Some entry =>
          let raw := e_raw entry in
          if negb (p_issues raw =? entry_issue.NONE) then
            said None ("partitions_open_slice: the entry at index " +:+ pretty index +:+ " "
              +:+ entry_issue.describe (p_issues raw)
              +:+ "; read its `issues` field and decide before opening it")
          else
            match slice_on_device (size_bytes (l_parent l)) (p_start raw) (p_length raw) with
            | Some len => silent (Some (p_start raw, len))
            | None => said None
                "partitions_open_slice: the partition begins past the end of the device"
            end
      | None => said None "partitions_open_slice: index out of bounds"
      end
  | None => said None "partitions_open_slice: list is null"
  end.

(** ** Arrays and volumes *)

(** The members behind [members[..count]]: none when the array or a member is
    NULL. *)
Definition member_arcs (members : option (list (option D))) (count : Z) : option (list D) :=
  if count =? 0 then Some []
  else handles ← members; mapM id (take (Z.to_nat count) handles).

(** What an entry point leaves: its code, [*out] ([out] not NULL) and
    [*reason_out], [None] where it is not written, and the message. *)
Record Opened (V : Type) := mkOpened {
  o_code : FsCoreErrorCode;
  o_out : option V;
  o_reason : option Z;
  o_said : option string;
}.
Arguments mkOpened {V} _ _ _ _.
Arguments o_code {V} _.
Arguments o_out {V} _.
Arguments o_reason {V} _.
Arguments o_said {V} _.

Section open_array.
Context {V E : Type} (reason_of : E → ArrayErrorCode) (take_block : E → option FsError)
  (to_string : E → string).

(** The closure [ffi_guard] runs: the error it leaves with. *)
Definition lifted (r : Result E V) : Result FsError V :=
  map_err (λ e, default (Custom (to_string e)) (take_block e)) r.

Definition open_array (members : option (list (option D))) (count : Z) (out_null reason_null : bool)
    (open : list D → Result E V) : Opened V :=
  if out_null then mkOpened FsNullArg None None None
  else
    match member_arcs members count with
    | None => mkOpened FsNullArg None None (Some "a member pointer is NULL")
    | Some [] =>
        mkOpened FsCustom None (if reason_null then None else Some (array_error_number ArrayNoMembers))
          (Some "no members given")
    | Some devices =>
        let r := open devices in
        let rc := ffi_guard (lifted r) in
        let reason := match r with Ok _ => ArrayNone | Err e => reason_of e end in
        let reason := if bool_decide (rc = FsPanic) then ArrayCorrupt else reason in
        mkOpened rc (match r with Ok v => Some v | Err _ => None end)
          (if reason_null then None else Some (array_error_number reason)) None
    end.
End open_array.

Definition partitions_md_assemble (members : option (list (option D))) (count : Z)
    (out_null reason_null : bool) : Opened (Md.MdArray D) :=
  open_array md_error_code md_take_block (Md.md_message fs_display) members count out_null reason_null Md.assemble.

(** [name]: the bytes before the NUL; [None] is NULL. *)
Definition partitions_lvm_open (devices : option (list (option D))) (count : Z) (name : option (list Z))
    (out_null reason_null : bool) : Opened (LogicalVolume D) :=
  match name with
  | None => mkOpened FsNullArg None None None
  | Some name =>
      open_array lvm_error_code lvm_take_block (lvm_message fs_display) devices count out_null reason_null
        (λ devices, open devices (from_utf8_lossy name))
  end.
End device.
Arguments PartitionList : clear implicits.
Arguments mkOpened {V} _ _ _ _.
Arguments o_code {V} _.
Arguments o_out {V} _.
Arguments o_reason {V} _.
Arguments o_said {V} _.
