(* ===== verification/CapiProps.v ===== *)
(** * The C interface: the properties

    What a C caller is promised: the slices it is handed stay on the device, in
    the table's usable range and apart from each other; "unknown" is only said
    of bytes that were read; and an array's handle, code and reason agree. *)
From S2P Require Import Prelude Bytes Device Table Utf16 Rules Slots Gpt GptWrite GptCodec Probe Sniff GptProps MdProps.
From S2P Require Import Utf8 Fmt LvmText Lvm LvmMap Capi.
From S2P Require Md.

(** ** Where a GPT list comes from *)

(** The GPT header a probed table was read by: the primary one, in LBA 1, or,
    where the source says the table was recovered, the backup one, in the
    device's last sector. *)
Definition declared_header {D} `{!BlockRead D} `{!Crc32} (dev : D) (source : Z) : Result Error Header :=
  let lba := if source =? table_source_code SourceRecoveredFromBackup
             then u64 (size_bytes dev / SECTOR_SIZE - 1) else 1 in
  sector ← map_err Block (read_at dev (u64 (lba * SECTOR_SIZE)) SECTOR_SIZE);
  h ← Gpt.parse_header sector;
  _ ← refuse_if (negb (my_lba h =? lba)) (GptCorrupt "the header names another LBA");
  Ok h.

Section probed_gpt.
Context {D} `{!BlockRead D} `{!Crc32} (dev : D).

(** [source] names the header [parts] were read by. *)
Definition read_by (source : TableSource) (parts : list Partition) : Prop :=
  ∃ h array, declared_header dev (table_source_code source) = Ok h ∧ parse_entry_array dev h = Ok (parts, array).

Lemma primary_read_by source lba1 parts : source ≠ SourceRecoveredFromBackup →
  read_at dev 512 SECTOR_SIZE = Ok lba1 → Gpt.parse dev lba1 = Ok parts → read_by source parts.
Proof.
  intros Hs Hl (h & Hh & ([] & Hm & ([ps a] & Ha & [= <-])%bind_Ok)%bind_Ok)%bind_Ok. exists h, a. split; [|done].
  unfold declared_header. rewrite (proj2 (Z.eqb_neq _ _)) by by destruct source.
  change (u64 (1 * SECTOR_SIZE)) with 512. rewrite Hl. cbn [map_err mbind Result_bind]. rewrite Hh. cbn [mbind Result_bind].
  by destruct (negb _).
Qed.

Lemma backup_read_by parts : Gpt.parse_backup dev = Ok parts → read_by SourceRecoveredFromBackup parts.
Proof.
  unfold Gpt.parse_backup. intros ([] & _ & (sector & Hr & (h & Hh & Hpb)%bind_Ok)%bind_Ok)%bind_Ok.
  apply bind_Ok in Hpb as ([] & Hm & ([ps a] & Ha & [= <-])%bind_Ok). exists h, a. split; [|done].
  unfold declared_header. cbn [table_source_code]. rewrite Z.eqb_refl, Hr. cbn [mbind Result_bind]. rewrite Hh. cbn [mbind Result_bind].
  by destruct (negb _).
Qed.

Lemma probe_gpt_parts parts source : probe_with_status dev = Ok (TableGpt, parts, source) → read_by source parts.
Proof.
  assert (∀ e, recover_from_backup dev e = Ok (TableGpt, parts, source) → read_by source parts) as Hr.
  { intros e. unfold recover_from_backup. destruct (Gpt.parse_backup dev) as [ps|] eqn:E; [|done].
    intros [= -> <-]. by apply backup_read_by. }
  unfold probe_with_status, probe_inner. intros (lba0 & _ & (lba1 & Hl & Hpr)%bind_Ok)%bind_Ok.
  destruct (bytes_eqb (bslice lba1 0 8) _) eqn:Esig.
  - assert (read_at dev 512 SECTOR_SIZE = Ok lba1) as Hl1.
    { revert Hl. unfold read_lba1. destruct (read_at dev 512 SECTOR_SIZE) as [b|e]; [by intros [= ->]|].
      cbn zeta. destruct (negb _); [done|]. intros [= <-]. by vm_compute in Esig. }
    destruct (Gpt.parse dev lba1) as [ps|e] eqn:E; [|by apply (Hr e)].
    assert (source ≠ SourceRecoveredFromBackup ∧ ps = parts) as [Hs ->]; [|by eapply primary_read_by].
    revert Hpr. destruct (validate_backup _ _); intros [= <- <-]; done.
  - apply bind_Ok in Hpr as ([] & _ & Hpr). destruct (_ && _); [|done]. destruct (Mbr.is_protective lba0); [by apply (Hr _ Hpr)|].
    by apply bind_Ok in Hpr as (? & _ & ?).
Qed.
End probed_gpt.

(** An entry with no issue lies in the usable range, apart from every other. *)
Lemma clean_entry {D} `{!BlockRead D} `{!ReadLaws D} `{!Crc32} (dev : D) h parts array :
  parse_entry_array dev h = Ok (parts, array) → ∃ spans : list (Z * Z),
  ∀ k p, parts !! k = Some p → ∃ s e, spans !! k = Some (s, e) ∧ 0 ≤ s ≤ e ∧
    p_start p = s * 512 ∧ p_length p = (e - s + 1) * 512 ∧
    (p_issues p = entry_issue.NONE → first_usable_lba h ≤ s ∧ e ≤ last_usable_lba h ∧
       ∀ j b, j ≠ k → spans !! j = Some b → ¬ overlap (s, e) b).
Proof.
  intros Hpa. apply entry_array_facts in Hpa as (_ & Hrd & spans & _ & _ & Hall & _). exists spans.
  apply read_fills in Hrd as [_ Hbytes]; [|by apply Z.mod_pos_bound].
  intros k p Hk. destruct (Hall k p Hk) as (i & s & e & _ & Hs & He & B1 & B2 & B3).
  exists s, e. split_and!; [done| |by destruct He| | |].
  - rewrite (read_first _ _ _ _ _ _ _ He). by apply le_val_bound, bytes_ok_bslice.
  - exact (proj1 (read_start _ _ _ _ _ _ _ He)).
  - exact (proj1 (read_length _ _ _ _ _ _ _ He)).
  - intros Hi. rewrite Hi, !Z.land_0_l in *. split_and!; [lia|lia|].
    intros j b Hj Hb Ho. assert (clashes spans k) as Hc by (by exists j, (s, e), b). apply B3 in Hc. done.
Qed.

(** C7: A partition the C interface hands out as a device is safe to write to:
    over a probed GPT, every slice begins and ends within the usable range
    declared by the header the table was read by (the one in LBA 1, or the
    backup when the list says it was recovered) and on the device, is not empty,
    and shares no byte with the slice of any other entry; entries the table's
    own rules flag are refused. *)
Theorem open_slice_safe {D} `{!BlockRead D} `{!ReadLaws D} `{!Crc32} `{!Ffi} `{!FsDisplay} (dev : D) (l : PartitionList D) :
  partitions_probe (Some dev) false = (FsOk, Some l) → partitions_table_kind (Some l) = table_kind_code TableGpt →
  ∃ h array, declared_header dev (partitions_table_source (Some l)) = Ok h ∧
  parse_entry_array dev h = Ok (map e_raw (l_entries l), array) ∧
  ∀ k start len, 0 ≤ k → (partitions_open_slice (Some l) k).1 = Some (start, len) →
    first_usable_lba h * 512 ≤ start ∧ 0 < len ∧ start + len ≤ (last_usable_lba h + 1) * 512 ∧
    start + len ≤ size_bytes dev ∧
    ∀ k' start' len', 0 ≤ k' → k' ≠ k → (partitions_open_slice (Some l) k').1 = Some (start', len') →
      start + len ≤ start' ∨ start' + len' ≤ start.
Proof.
  unfold partitions_probe. destruct (probe_with_status dev) as [[[table parts] source]|e] eqn:Ep; [|done].
  intros [= <-]. cbn [partitions_table_kind l_table]. intros Ht. destruct table; [|done].
  destruct (probe_gpt_parts dev parts source Ep) as (h & array & Hh & Ha). exists h, array. split; [exact Hh|].
  cbn [l_entries]. assert (map e_raw (map (list_entry (table_kind_code TableGpt)) parts) = parts) as Er.
  { rewrite map_map. apply map_id. }
  rewrite Er. split; [done|].
  destruct (clean_entry dev h parts array Ha) as (spans & Hall).
  assert (∀ k start len, (partitions_open_slice (Some (mkList (table_kind_code TableGpt) (table_source_code source) dev
      (map (list_entry (table_kind_code TableGpt)) parts))) k).1 = Some (start, len) →
    ∃ p, parts !! Z.to_nat k = Some p ∧ p_issues p = entry_issue.NONE ∧ start = p_start p ∧ start < size_bytes dev ∧
      len = Z.min (p_length p) (size_bytes dev - start)) as Hs.
  { intros k start len. cbn [partitions_open_slice l_entries l_parent].
    change (map ?f ?x) with (f <$> x). rewrite list_lookup_fmap. destruct (parts !! Z.to_nat k) as [p|] eqn:Ep'; [|done].
    cbn. destruct (Z.eqb_spec (p_issues p) entry_issue.NONE) as [Ei|]; [|done]. cbn [negb]. unfold slice_on_device.
    destruct (Z.leb_spec (size_bytes dev) (p_start p)); [done|]. cbn. intros [= <- <-]. exists p. split_and!; try done.
    destruct (Hall _ _ Ep') as (s & e & _ & Hle & Est & _).
    unfold available_on_device, saturating_sub. destruct (Z.eqb_spec (size_bytes dev) 0); lia. }
  intros k start len Hk Ho. destruct (Hs k start len Ho) as (p & Hp & Hi & -> & Hlt & ->).
  destruct (Hall _ _ Hp) as (s & e & Hse & Hle & Est & Elen & Hclean). destruct (Hclean Hi) as (Hu1 & Hu2 & Hu3).
  split_and!; [lia..|]. intros k' start' len' Hk' Hne Ho'.
  destruct (Hs k' start' len' Ho') as (p' & Hp' & Hi' & -> & Hlt' & ->).
  destruct (Hall _ _ Hp') as (s' & e' & Hse' & Hle' & Est' & Elen' & _).
  assert (¬ overlap (s, e) (s', e')) as Hno by (apply (Hu3 (Z.to_nat k')); [lia|done]).
  unfold overlap in Hno. cbn in Hno. lia.
Qed.

Module open_slice_safe_example.
Import Sample Crc32Ieee.
(** The disk [GptProps.Sample] writes, as a read-only device. *)
Definition written : list Z := Eval vm_compute in
  image (write_gpt_assigning_slots parts (guid 9) shape ∅ [] disk).1.
#[local] Instance written_shelf : Shelf := λ _, written.
#[local] Instance written_laws : ShelfLaws.
Proof. constructor; intros d; [by apply bytes_by_compute; vm_compute|vm_compute; reflexivity]. Qed.
#[local] Instance codes : Ffi := λ e, match e with Custom _ => FsCustom | _ => FsOther 1 end.
#[local] Instance messages : FsDisplay := λ _, "device error".

Theorem open_slice_safe_witness : ∃ l : PartitionList Disk,
  partitions_probe (Some (MdProps.disk 0)) false = (FsOk, Some l) ∧
  (partitions_open_slice (Some l) 0).1 = Some (1536, 2048) ∧ (partitions_open_slice (Some l) 1).1 = Some (4096, 1024) ∧
  (1536 + 2048 ≤ 4096 ∨ 4096 + 1024 ≤ 1536).
Proof.
  assert (match partitions_probe (Some (MdProps.disk 0)) false with
    | (FsOk, Some l) => (partitions_table_kind (Some l), (partitions_open_slice (Some l) 0).1, (partitions_open_slice (Some l) 1).1)
    | _ => (0, None, None) end = (1, Some (1536, 2048), Some (4096, 1024))) as E by (vm_compute; reflexivity).
  destruct (partitions_probe (Some (MdProps.disk 0)) false) as [[] [l|]] eqn:Ep; try discriminate E.
  injection E as E1 E2 E3. exists l. split; [reflexivity|]. split; [exact E2|]. split; [exact E3|].
  destruct (open_slice_safe (MdProps.disk 0) l Ep E1) as (h & array & _ & _ & Hall).
  destruct (Hall 0 1536 2048 (Z.le_refl 0) E2) as (_ & _ & _ & _ & Hno).
  exact (Hno 1 4096 1024 Z.le_0_1 ltac:(discriminate) E3).
Defined.
End open_slice_safe_example.

(** C25: "Unknown" is a finding, never a guess: [partitions_sniff_device]
    answers it only after reading every byte of the sniffer's window that the
    device has, whatever size the caller declared, and finding no signature. *)
Theorem sniff_device_conclusive {D} `{!BlockRead D} `{!FsDisplay} (dev : D) declared : 0 ≤ declared →
  (partitions_sniff_device (Some dev) declared).1 = fs_kind_code Unknown →
  ∃ buf, read_at dev 0 (Z.min WINDOW (size_bytes dev)) = Ok buf ∧ classify buf = Unknown.
Proof.
  intros Hd. unfold partitions_sniff_device. destruct (Z.eqb_spec declared 0); [done|].
  unfold sniff. cbn [p_start p_length]. destruct (Z.leb_spec (size_bytes dev) 0) as [|Hs]; [done|].
  rewrite Z.sub_0_r. destruct (read_at dev 0 _) as [buf|] eqn:Er; cbn [map_err mbind Result_bind]; [|done].
  destruct (decide (classify buf = Unknown)) as [Eu|Hne].
  - rewrite bool_decide_eq_true_2 by done. destruct (_ && _) eqn:Ec; [done|]. intros _. exists buf. split; [|done].
    rewrite <- Er. f_equal. rewrite andb_true_l in Ec. apply andb_false_iff in Ec as [Ec%Z.ltb_ge|Ec%Z.ltb_ge]; lia.
  - rewrite bool_decide_eq_false_2 by done. cbn [andb]. by destruct (classify buf) as [[]| | | | | | | | | |].
Qed.

Module sniff_device_example.
#[local] Instance blank_shelf : Shelf := λ _, zeros 600.
#[local] Instance device_messages : FsDisplay := λ _, "device error".
Theorem sniff_device_conclusive_witness :
  (partitions_sniff_device (Some (disk 0)) 512).1 = -1 ∧ (partitions_sniff_device (Some (disk 0)) 600).1 = 0 ∧
  ∃ buf, read_at (disk 0) 0 600 = Ok buf ∧ classify buf = Unknown.
Proof.
  split; [vm_compute; reflexivity|].
  assert ((partitions_sniff_device (Some (disk 0)) 600).1 = 0) as E by (vm_compute; reflexivity).
  split; [exact E|]. exact (sniff_device_conclusive (disk 0) 600 ltac:(discriminate) E).
Defined.
End sniff_device_example.

(** C24: An array entry point's three answers agree: the handle is set exactly
    when the code is [Ok], which is exactly when opening the members given
    succeeds; a reason that is written is 0 exactly then; and a device's own
    error keeps its code, every other refusal is [Custom] unless it was a
    panic, whose reason is [Corrupt]. *)
Theorem array_answers_agree {D V E} `{!BlockRead D} `{!Ffi} `{!FfiLaws}
    (reason_of : E → ArrayErrorCode) take_block to_string (members : option (list (option D))) count
    reason_null (open : list D → Result E V) devices :
  (∀ e, reason_of e ≠ ArrayNone) → member_arcs members count = Some devices → devices ≠ [] →
  let o := open_array reason_of take_block to_string members count false reason_null open in
  (o_code o = FsOk ↔ ∃ v, open devices = Ok v) ∧ o_out o = (match open devices with Ok v => Some v | Err _ => None end) ∧
  (reason_null = false → (o_reason o = Some 0 ↔ o_code o = FsOk)) ∧
  (∀ e, open devices = Err e → take_block e = None → o_code o = FsCustom) ∧
  (∀ e b, open devices = Err e → take_block e = Some b →
     o_code o = (if bool_decide (b = Md.panicked) then FsPanic else code_of b) ∧
     (b = Md.panicked → reason_null = false → o_reason o = Some (array_error_number ArrayCorrupt))).
Proof.
  intros Hr Hm Hne o; subst o. unfold open_array. rewrite Hm. destruct devices as [|d devices]; [done|]. cbn zeta.
  cbn [o_code o_out o_reason]. destruct (open (d :: devices)) as [v|e] eqn:Eo; cbn [lifted map_err ffi_guard].
  { rewrite bool_decide_eq_false_2 by done. split_and!; [split; [by eexists|done]|done| |done..].
    by intros ->. }
  assert (∀ c, c ≠ ArrayNone → array_error_number c ≠ 0) as Hnum by (by intros []).
  assert (∀ b, (if bool_decide (b = Md.panicked) then FsPanic else code_of b) ≠ FsOk) as Hcode.
  { intros b. destruct (bool_decide _); [done|apply code_error]. }
  split_and!.
  - split; [intros Hc; by apply Hcode in Hc|by intros [v ?]].
  - done.
  - intros ->. split; [|intros Hc; by apply Hcode in Hc]. intros [= Hz]. exfalso. revert Hz. apply Hnum.
    by destruct (bool_decide (_ = FsPanic)).
  - intros e' [= <-] Ht. rewrite Ht. cbn [default]. rewrite bool_decide_eq_false_2 by done. apply code_custom.
  - intros e' b [= <-] Ht. rewrite Ht. cbn [default]. split; [done|]. intros -> ->.
    rewrite (bool_decide_eq_true_2 (Md.panicked = Md.panicked)) by done. by rewrite bool_decide_eq_true_2.
Qed.

Module array_answers_example.
Import Raid6Sample.
#[local] Existing Instance shelf6.
#[local] Instance plain_codes : Ffi := λ e, match e with Custom _ => FsCustom | _ => FsOther 1 end.
#[local] Instance plain_messages : FsDisplay := λ _, "device error".
#[local] Instance plain_codes_laws : FfiLaws.
Proof. by constructor; [|intros []]. Qed.
Lemma md_error_code_some e : md_error_code e ≠ ArrayNone.
Proof. by destruct e. Qed.

(** Three of the RAID6's five members, and one of them twice. *)
Theorem array_answers_agree_witness :
  o_code (partitions_md_assemble (Some (map Some devices)) 3 false false) = FsOk ∧
  o_code (partitions_md_assemble (Some [Some (disk 1); Some (disk 1)]) 2 false false) = FsCustom.
Proof.
  split.
  - destruct assembles as (a & Ha & _).
    exact (proj2 (proj1 (array_answers_agree md_error_code md_take_block (Md.md_message fs_display) (Some (map Some devices)) 3 false
      Md.assemble devices md_error_code_some eq_refl ltac:(discriminate))) (ex_intro _ a Ha)).
  - assert (Md.assemble [disk 1; disk 1] = Err (Md.DuplicateRole 1)) as E by (vm_compute; reflexivity).
    exact (proj1 (proj2 (proj2 (proj2 (array_answers_agree md_error_code md_take_block (Md.md_message fs_display)
      (Some [Some (disk 1); Some (disk 1)]) 2 false Md.assemble [disk 1; disk 1] md_error_code_some eq_refl
      ltac:(discriminate))))) (Md.DuplicateRole 1) E eq_refl).
Defined.
End array_answers_example.

Lemma kind_silent k : (silent (fs_kind_code k)).1 = -1 ↔ is_Some (silent (fs_kind_code k)).2.
Proof. split; [|by intros []]. by destruct k as [[]| | | | | | | | | |]. Qed.

(** What an array entry point says of its own answer [o]: why it refuses its
    members before opening them (one is NULL, or there are none), with no handle;
    and nothing otherwise.  A failure it says nothing of is the opener's, which
    [ffi_guard] has reported, or it is a NULL argument ([null]): that one is
    answered [NullArg] and not explained at all. *)
Definition explains {D V E} (null : bool) (members : option (list (option D))) (count : Z)
    (open : list D → Result E V) (o : Opened V) : Prop :=
  (is_Some (o_said o) ↔ null = false ∧ (member_arcs members count = None ∨ member_arcs members count = Some [])) ∧
  (is_Some (o_said o) → o_out o = None ∧ o_code o ≠ FsOk) ∧
  (null = true → o = mkOpened FsNullArg None None None) ∧
  (o_said o = None → o_code o ≠ FsOk →
     null = true ∨ ∃ devices e, member_arcs members count = Some devices ∧ open devices = Err e).

Lemma open_array_explains {D V E} `{!BlockRead D} `{!Ffi} (reason_of : E → ArrayErrorCode) take_block to_string
    (members : option (list (option D))) count out_null reason_null (open : list D → Result E V) :
  explains out_null members count open
    (open_array reason_of take_block to_string members count out_null reason_null open).
Proof.
  assert (∀ m, is_Some (Some m : option string) ↔ True) as Hsome by (split; [done|by eexists]).
  assert (is_Some (None : option string) ↔ False) as Hnone by (split; [by intros [? ?]|done]).
  unfold explains, open_array.
  destruct out_null; [|destruct (member_arcs members count) as [[|d ds]|]]; cbn [o_said o_out o_code];
    rewrite ?Hsome, ?Hnone; (split; [|split; [|split]]); try solve [intuition discriminate].
  intros _ Hc. right. destruct (open (d :: ds)) as [v|e] eqn:Eo; [by destruct Hc|by exists (d :: ds), e].
Qed.

(** C26: Which failures are explained.  Sniffing answers -1, and opening a slice
    answers NULL, exactly when a last-error message is set.  An array entry point
    says why it refuses its members without opening them, and leaves an error
    of the opener to [ffi_guard]; but a NULL out pointer, and a NULL name in
    [partitions_lvm_open], is answered [NullArg] with no message, although
    include/disk_partitions.h (202-205) has it that on failure, NULL pointers
    included, the thread-local last-error has detail. *)
Theorem failures_explained {D} `{!BlockRead D} `{!CharTables} `{!Crc32} `{!Ffi} `{!FsDisplay} (l : option (PartitionList D))
    (device : option D) (members : option (list (option D))) name index declared count out_null reason_null :
  ((partitions_sniff l index).1 = -1 ↔ is_Some (partitions_sniff l index).2) ∧
  ((partitions_sniff_device device declared).1 = -1 ↔ is_Some (partitions_sniff_device device declared).2) ∧
  ((partitions_open_slice l index).1 = None ↔ is_Some (partitions_open_slice l index).2) ∧
  explains out_null members count Md.assemble (partitions_md_assemble members count out_null reason_null) ∧
  explains (out_null || bool_decide (name = None)) members count (λ ds, open ds (from_utf8_lossy (default [] name)))
    (partitions_lvm_open members count name out_null reason_null).
Proof.
  split_and!.
  - unfold partitions_sniff. destruct l as [l|]; [|by split]. destruct (_ !! _) as [entry|]; [|by split].
    destruct (sniff _ _) as [k|e]; [|by split]. apply kind_silent.
  - unfold partitions_sniff_device. destruct device as [d|]; [|by split]. destruct (declared =? 0); [by split|].
    destruct (sniff _ _) as [k|e]; [|by split]. destruct (_ && _); [by split|]. apply kind_silent.
  - unfold partitions_open_slice. destruct l as [l|]; [|by split]. destruct (_ !! _) as [entry|]; [|by split].
    destruct (negb _); [by split|]. destruct (slice_on_device _ _ _); [|by split]. cbn. split; [done|by intros [? ?]].
  - apply open_array_explains.
  - unfold partitions_lvm_open. destruct name as [name|].
    + rewrite bool_decide_eq_false_2, orb_false_r by done. apply open_array_explains.
    + rewrite bool_decide_eq_true_2, orb_true_r by done. unfold explains. cbn.
      (split; [|split; [|split]]); [split; by intros [? ?]|by intros [? ?]|done|by left].
Qed.
